(* ===== verification/_CoqProject ===== *)
-Q . S2P
Prelude.v
Encoding.v
Pem.v
Bitfield.v
Types.v
BlockChain.v
CryptoBase.v
Ecdsa.v
Bls12.v
CryptoCache.v
Replica.v
Rules.v
Consensus.v
Invariants.v
LeaderRotation.v
CmdCache.v
ViewTimer.v
Progress.v
ReplicaExample.v
ProgressExample.v
ChainedSafety.v
FastSafety.v
SimpleSafety.v
SimpleExample.v
SimpleNetwork.v
NetworkExample.v
EventLoop.v
Loops.v
ReplicaRun.v
Convert.v
Backend.v
Setup.v
Keygen.v
Orchestration.v
ProtoStream.v
Metrics.v
Plotting.v
MetricsLog.v
Plots.v
CsvPlot.v
Profiling.v
CommandLine.v
PlotMain.v
Client.v
ClientRun.v
ModuleSystem.v
Experiment.v
Deploy.v
Controller.v
