(* ===== verification/Prelude.v ===== *)
(** * A verification library for the HotStuff replica

    ** The program

    A replica is a set of modules that share one event loop.  The consensus
    module (consensus/consensus.go) votes for proposals and commits blocks by
    exchangeable rules (consensus/chainedhotstuff, fasthotstuff and
    simplehotstuff, wrapped by consensus/byzantine); the voting machine
    (consensus/votingmachine.go) turns votes into quorum certificates; the
    synchronizer (synchronizer/) moves from view to view on quorum and timeout
    certificates and asks the leader rotation (leaderrotation/) who leads.
    They store blocks in blockchain/, sign and verify through crypto/ and its
    cache, take commands from and execute them at replica/, and talk to the
    other replicas through backend/gorums, whose messages
    internal/proto/hotstuffpb/convert.go encodes.  Clients (client/) send
    commands to all replicas.  internal/orchestration starts replicas and
    clients on hosts and runs an experiment with them; metrics/ measures it,
    modules/datalogger.go logs the measurements and cmd/plot plots them.
    crypto/keygen makes the keys.

    ** Files

    - [Prelude]: outcomes of Go code ([res]: a result, a panic, a call that
      blocks for ever, or fuel used up), the state monad [M] over them,
      [preserves] for two-state invariants with the tactic [pres_solve] and
      the hint database [pres], machine integers.
    - [Encoding]: little-endian numbers, big integers, base64, FNV-1a, and
      SHA-256, which are executed.
    - [Bitfield]: crypto/bitfield.go.  [Types]: helper.go, hotstuff.go,
      consensus/types.go, block.go, genesis.go, events.go, options.go and the
      signature types of crypto/ecdsa and crypto/bls12.
    - [BlockChain]: blockchain/blockchain.go; what the network answers while a
      block is fetched is a parameter.
    - [CryptoBase]: crypto/base.go over the interface [CryptoImpl], a type
      class; [Ecdsa] and [Bls12] implement it over the signature libraries
      [ECDSALib] and [BLS12Lib], which are parameters with laws; [CryptoCache]
      (crypto/cache.go) implements it over any other implementation.
    - [Replica]: the fields of consensusBase, Synchronizer, VotingMachine and
      of the modules they use as one record, effects on the outside as a list,
      and the interfaces as type classes with laws ([CommandSource],
      [ViewDuration], [LeaderRotation], [Rules]).  [Rules] and
      [LeaderRotation] implement the last two; [CmdCache]
      (replica/cmdcache.go, clientsrv.go) and [ViewTimer]
      (synchronizer/viewduration.go, on IEEE doubles) the first two.
    - [Consensus]: every handler of consensus.go, synchronizer.go and
      votingmachine.go in full, and runs of them.  [Invariants] and [Progress]
      state what always holds of a run and what makes it advance.
    - [SimpleSafety]: the simple rules as an abstract system of votes, locks
      and certificates, and agreement in it.  [SimpleNetwork]: a network of
      replicas that run the handlers of [Consensus] with these rules and ECDSA
      signatures, as a step relation, and its simulation by the abstract system;
      [NetworkExample] is a run of it.  [SimpleExample], [ChainedSafety],
      [FastSafety]: runs that show where agreement ends.  [ReplicaExample] and
      [ProgressExample] evaluate a replica of four.
    - [EventLoop]: eventloop/eventloop.go, its operations one at a time.
      [Loops]: its Run over a bounded queue, as a state machine.
      [ReplicaRun]: Start and Stop of replica/replica.go and Run of
      consensus/modules.go, which run two such loops, with every interleaving
      of their goroutines.
    - [Convert]: convert.go over records for the generated messages.
      [Backend]: backend/gorums and config/config.go; peers, certificates and
      quorum calls are parameters.  [Setup]: the addresses and ports of
      internal/orchestration/worker.go, and how the log level of
      internal/cli/root.go reaches internal/logging/logging.go.
    - [Pem]: PEM blocks and base64 decoding, which are executed.  [Keygen]:
      crypto/keygen/keygen.go over an X.509 library [X509Lib] with laws.
    - [Client]: client/client.go, its two goroutines as a step function over
      labels.  [ClientRun]: its Run, with the metrics event loop beside
      the two goroutines.  [ModuleSystem]: modules/modules.go, consensus/modules.go,
      metrics/registry.go and what a worker and replica.New register.
    - [Orchestration]: the assignment of controller.go and the choice of
      modules of worker.go.  [Experiment]: the requests, the worker, the proxy
      of remoteworker.go and the phases of Experiment.Run, where whether the
      Stop of a replica returns is an argument; [ReplicaRun] says when it does.
      [ProtoStream]: internal/protostream, for messages of one type and for
      messages wrapped in an any.  [Deploy]: internal/orchestration/deploy.go; whether
      an operation on a host succeeds is an argument.
    - [CommandLine]: parseByzantine of internal/cli/run.go, and how the
      measurement log of a worker is finished in worker.go and run.go.
      [Profiling]: internal/profiling.  [Controller]: runController of run.go,
      which composes [CommandLine], [Deploy] and [Experiment].
    - [Metrics]: metrics/welford.go, throughput.go, timeouts.go,
      clientlatency.go, ticker.go.  [MetricsLog]: modules/datalogger.go, the
      scanner and decoder of encoding/json, and metrics/plotting/reader.go, over
      the protobuf encoding [JSONLib].  [Plotting] and [Plots]:
      metrics/plotting/helper.go, starttimes.go and the three plots, over any
      arithmetic.  [CsvPlot]: CSV files through a buffered writer.  [PlotMain]:
      cmd/plot/main.go, which composes the reader, the plots and the output.

    ** What the theorems show

    - Safety of voting and committing.  In any run of the handlers, with any
      rules, leaders, signatures and messages, a replica votes for blocks that
      were proposed in the run, of strictly increasing views
      ([one_vote_per_view]), not in a view for which it sent a timeout
      ([no_vote_after_timeout]), and never goes back, unless its view counter
      overflows ([replica_monotone]); its state is well formed ([replica_well_formed]).
      Committing executes the missing ancestors in order
      ([commitInner_executes]).  In a network of replicas with the
      rules of SimpleHotStuff, of which at most [NumFaulty] are faulty, correct
      replicas agree on one branch of certificates, and on what they execute
      where parents are the certified blocks ([replicas_agree], by
      [simple_agreement] of the abstract system, which [simple_rules_refine]
      shows the rules to implement).  It assumes that blocks can be fetched and
      that votes of correct replicas are not forged.  Under the chained and the
      fast rules agreement fails ([chained_commits_conflict],
      [fast_commits_conflict]), and the executed sequences follow parents, not
      certificates ([simple_executions_diverge]).
    - Progress.  A quorum of votes or of timeouts takes a replica to the next
      view ([quorum_of_votes_advances], [quorum_of_timeouts_advances]); the
      mutual recursion of the handlers is at most three calls deep, unless a
      certificate carries the largest view ([AdvanceView_terminates]).
    - Stopping.  After the cancellation the goroutines of a replica make a
      bounded number of steps, in any interleaving, and then Stop has returned
      with every due event handled, unless the replica waits in the context of
      the first view, which has no deadline, or a handler waits for a metrics
      loop that has ended or is in a call that never returns ([stop_returns]);
      the first two occur ([stop_blocks_first], [stop_blocks_metrics]), and
      [ecdsa_verify_message_set] has such a call.  In later views the context
      ends by its deadline, also when the timer is stopped.  The same is
      shown of Run of a client ([client_run_ends], [client_run_blocks]).
    - Signatures.  What is created from a quorum verifies, what verifies has a
      quorum behind it and two of them share a correct replica
      ([ecdsa_create_verify], [ecdsa_quorums_intersect], [bls_create_verify],
      [ecdsa_verify_message_set], [VerifyAggregateQC_high]); the cache is a
      least-recently-used set ([cache_refines_lru]) whose keys do not separate
      votes from certificates ([cache_forges_quorum]).
    - Storage and messages, whatever the network answers: [Get_correct], [Extends_correct],
      [PruneToHeight_correct], [Fetch_correct], [Block_hash_binds],
      [messages_roundtrip], [messages_delivered], [stream_roundtrip],
      [any_roundtrip], [ports_roundtrip], [Bitfield_refines_set], [drain_in_order].
    - Keys: what is generated for a replica is what its parsers read back
      ([key_chain_roundtrip], [key_files]).
    - Clients: [Proposed_not_accepted], [Get_returns_acceptable],
      [clientSrv_correct], [client_protocol] and, across client and replicas,
      [acknowledged_executed]: what is acknowledged is a command of the client's
      ID and number, and its data where no other was executed under them.
    - Putting a system together: [replica_wired], [assign_complete],
      [experiment_ends], [Deploy_correct] and, for the whole controller,
      [controller_ends], provided that keys can be generated and that replicas
      can be stopped ([experiment_blocks_or_panics] is what happens otherwise);
      leaders and timers: [repBased_GetLeader_updates], [viewDuration_safe].
    - Measurements: what is counted is logged ([metrics_account]), what is
      logged is read back ([log_roundtrip], [ReadAll_returns]), the plotted
      points are exact means ([latency_plot_exact]), and together
      ([measurements_plotted]) a worker's log becomes a table of means: in
      rational arithmetic, and for one client, or for several if the map is
      visited in the same order every time ([Group_order_matters]).

    Further theorems of the files record smaller facts and defects, such as
    [forged_view_wraps], [payload_size_ignored], [Group_diverges],
    [PruneToHeight_diverges], [other_data_acknowledged],
    [newview_spoils_turn], [log_spoiled], [local_log_lost],
    [Deploy_leaks_workers], [localhost_session_blocks] or [leaders_differ]:
    leaders chosen from a map that is visited in no fixed order.

    ** Fuel and bounds

    Walks along the chain take fuel ([st_fuel]); the theorems about them hold
    for any fuel above the view of the block, where views strictly decrease
    towards the genesis block, which they state as a hypothesis.  [OnPropose], [Propose] and [AdvanceView] recurse to a
    depth of three, which [AdvanceView_terminates] proves enough.  The queue of
    the command cache is consumed and the loops over hosts are structural; the
    grouping of measurements takes fuel, and [Group_complete] shows that there is
    enough of it when every measurement is of a client that has started; the
    scanner of JSON and
    the PEM decoder take the length of their input, which [ReadAll_returns] and
    [Decode_fuel] prove enough.  The state machines of [Loops], [ReplicaRun]
    and [ClientRun] take no fuel: their steps are counted by a measure of the
    queued events and of the phases that are left.  The genesis block and the blocks of the
    examples are evaluated once, where they are defined.  IDs are 32 and views
    64 bits wide, with Go's wrap-around, and so are the durations of the
    grouping; Go's int is Z where it counts things in memory.

    ** Not modelled

    Sockets, gRPC and the gorums runtime, TLS configuration, the processes and
    ssh connections behind [Deploy], X.509, protobuf JSON, the registration of
    command-line flags and the options that run.go only copies from them
    (internal/cli), drawing (GonumPlot of metrics/plotting), and what the
    profilers and loggers write are input and output through libraries; the protobuf and mock code
    is generated, and its messages are records of the model; internal/testutil
    serves the tests.  The goroutines that the handlers start appear as
    separate events of a run; data races inside a module, which its mutex
    excludes, are not modelled. *)

From stdpp Require Export base tactics list gmap strings numbers option sets fin_maps.
From Stdlib Require Export NArith ZArith Lia.
From Stdlib Require Import Strings.Byte.

(** ** Notation scope of the development *)

Declare Scope hs_scope.
Delimit Scope hs_scope with hs.
Open Scope hs_scope.

(** ** Outcomes of Go code

    A Go function either returns, panics (nil dereference, index out of
    range, an explicit panic), or blocks for ever on a channel.  Recursion
    that the source does not bound is given fuel; [NoFuel] is the outcome of
    a run that used it up, and every theorem that promises a result rules it
    out. *)

Inductive res (A : Type) : Type :=
| Ok (a : A)
| Panic (msg : string)
| Blocked
| NoFuel.
Arguments Ok {A} a.
Arguments Panic {A} msg.
Arguments Blocked {A}.
Arguments NoFuel {A}.

#[export] Instance res_ret : MRet res := λ A a, Ok a.
#[export] Instance res_bind : MBind res := λ A B f m,
  match m with
  | Ok a => f a
  | Panic msg => Panic msg
  | Blocked => Blocked
  | NoFuel => NoFuel
  end.

(** Apply a function to the value a run returns. *)
Definition res_map {A B} (f : A → B) (m : res A) : res B := m ≫= λ a, Ok (f a).

Lemma res_bind_Ok {A B} (m : res A) (f : A → res B) b :
  m ≫= f = Ok b ↔ ∃ a, m = Ok a ∧ f a = Ok b.
Proof. destruct m; naive_solver. Qed.

(** ** The state monad of a handler

    [M S A] threads the mutable state [S] through a handler. *)

Definition M (S A : Type) : Type := S → res (A * S).

#[export] Instance M_ret S : MRet (M S) := λ A a s, Ok (a, s).
#[export] Instance M_bind S : MBind (M S) := λ A B f m s,
  match m s with
  | Ok (a, s') => f a s'
  | Panic msg => Panic msg
  | Blocked => Blocked
  | NoFuel => NoFuel
  end.

Definition gets {S A} (f : S → A) : M S A := λ s, Ok (f s, s).
Definition modify {S} (f : S → S) : M S () := λ s, Ok ((), f s).
Definition panic {S A} (msg : string) : M S A := λ _, Panic msg.
Definition nofuel {S A} : M S A := λ _, NoFuel.

(** Lift a component operation that returns a result and its new state. *)
Definition lift_st {S C A} (get : S → C) (set : C → S → S) (f : C → A * C) : M S A :=
  λ s, let '(a, c) := f (get s) in Ok (a, set c s).

(** Lift a component operation that may panic. *)
Definition lift_res {S C A} (get : S → C) (set : C → S → S) (f : C → res (A * C)) : M S A :=
  λ s, match f (get s) with
       | Ok (a, c) => Ok (a, set c s)
       | Panic msg => Panic msg
       | Blocked => Blocked
       | NoFuel => NoFuel
       end.

Lemma M_bind_Ok {S A B} (m : M S A) (f : A → M S B) s b s' :
  (m ≫= f) s = Ok (b, s') ↔ ∃ a s1, m s = Ok (a, s1) ∧ f a s1 = Ok (b, s').
Proof.
  unfold mbind, M_bind. destruct (m s) as [[a s1]| | |]; naive_solver.
Qed.

(** Running the first half of a sequence. *)
Lemma M_bind_run {S A B} (m : M S A) (f : A → M S B) s a s1 :
  m s = Ok (a, s1) → (m ≫= f) s = f a s1.
Proof. unfold mbind, M_bind. by intros ->. Qed.

(** Two continuations that agree where the first half can lead. *)
Lemma M_bind_ext {S A B} (m : M S A) (f g : A → M S B) s :
  (∀ a s1, m s = Ok (a, s1) → f a s1 = g a s1) → (m ≫= f) s = (m ≫= g) s.
Proof. unfold mbind, M_bind. destruct (m s) as [[a s1]| | |]; intros H; auto. Qed.

Lemma M_bind_ret {S A B} (a : A) (f : A → M S B) s : (mret a ≫= f) s = f a s.
Proof. done. Qed.

Lemma M_bind_gets {S A B} (g : S → A) (f : A → M S B) s : (gets g ≫= f) s = f (g s) s.
Proof. done. Qed.

Lemma M_bind_modify {S B} (g : S → S) (f : () → M S B) s : (modify g ≫= f) s = f () (g s).
Proof. done. Qed.

(** ** Evaluating a run

    [left_by d m] is the state a run leaves, [d] when it leaves none.  That the
    run returns is decided without normalising the state. *)

Definition left_by {A S} (d : S) (m : res (A * S)) : S := match m with Ok (_, s) => s | _ => d end.
Definition returns {A S} `{EqDecision A} (a : A) (m : res (A * S)) : bool :=
  match m with Ok (x, _) => bool_decide (x = a) | _ => false end.

Lemma left_by_Ok {A S} `{EqDecision A} (d : S) (a : A) (m : res (A * S)) :
  returns a m = true → m = Ok (a, left_by d m).
Proof. destruct m as [[x s]| | |]; simpl; try done. intros H. by apply bool_decide_eq_true in H as ->. Qed.

(** ** Two-state invariants of handlers

    [preserves R m] says that whenever [m] returns, the state it leaves is
    related by [R] to the state it started from.  For a preorder [R] the
    combinators below reduce a handler to its primitive updates. *)

Definition preserves {S A} (R : S → S → Prop) (m : M S A) : Prop :=
  ∀ s a s', m s = Ok (a, s') → R s s'.

Create HintDb pres discriminated.

Section preserves.
Context {S : Type} (R : S → S → Prop) `{!PreOrder R}.

Lemma preserves_ret {A} (a : A) : preserves R (mret a : M S A).
Proof. intros s a' s' [= <- <-]. reflexivity. Qed.

Lemma preserves_gets {A} (f : S → A) : preserves R (gets f).
Proof. intros s a' s' [= <- <-]. reflexivity. Qed.

Lemma preserves_panic {A} msg : preserves R (panic msg : M S A).
Proof. intros s a s' [=]. Qed.

Lemma preserves_nofuel {A} : preserves R (nofuel : M S A).
Proof. intros s a s' [=]. Qed.

Lemma preserves_bind {A B} (m : M S A) (f : A → M S B) :
  preserves R m → (∀ a, preserves R (f a)) → preserves R (m ≫= f).
Proof.
  intros Hm Hf s b s' (a & s1 & H1 & H2)%M_bind_Ok.
  transitivity s1; [by eapply Hm|by eapply Hf].
Qed.

Lemma preserves_weaken {A} (R' : S → S → Prop) (m : M S A) :
  (∀ s s', R' s s' → R s s') → preserves R' m → preserves R m.
Proof. intros Hsub Hm s a s' H. by apply Hsub, (Hm _ _ _ H). Qed.

Lemma preserves_modify (f : S → S) : (∀ s, R s (f s)) → preserves R (modify f).
Proof. intros Hf s a s' [= <- <-]. apply Hf. Qed.

Lemma preserves_lift_st {C A} (get : S → C) set (f : C → A * C) :
  (∀ s, R s (set (f (get s)).2 s)) → preserves R (lift_st get set f).
Proof.
  intros Hf s a s'. unfold lift_st. specialize (Hf s).
  destruct (f (get s)) as [a' c]. by intros [= <- <-].
Qed.

Lemma preserves_lift_res {C A} (get : S → C) set (f : C → res (A * C)) :
  (∀ s a c, f (get s) = Ok (a, c) → R s (set c s)) → preserves R (lift_res get set f).
Proof.
  intros Hf s a s'. unfold lift_res.
  destruct (f (get s)) as [[a' c]| | |] eqn:E; intros [= <- <-]. by eapply Hf.
Qed.
End preserves.

#[export] Hint Resolve preserves_ret preserves_gets preserves_panic preserves_nofuel : pres.

(** [pres_step] walks down the syntax of a monadic handler; what is left are
    the primitive updates and the calls to other handlers. *)
Ltac pres_step :=
  match goal with
  | |- preserves _ (if ?b then _ else _) => destruct b
  | |- preserves _ (match ?x with _ => _ end) => destruct x
  | |- preserves _ (let '_ := ?x in _) => destruct x
  | |- preserves _ (_ ≫= _) => apply preserves_bind; [try typeclasses eauto| |intros ?]
  | |- preserves _ _ => solve [eauto with pres typeclass_instances]
  end.
Ltac pres_solve := repeat pres_step.

(** ** Total correctness of handlers

    [returning P m Q]: from a state with [P] the handler returns, neither
    panicking nor blocking, with a result and a state related by [Q]. *)

Definition returning {S A} (P : S → Prop) (m : M S A) (Q : A → S → Prop) : Prop :=
  ∀ s, P s → ∃ a s', m s = Ok (a, s') ∧ Q a s'.

Section returning.
Context {S : Type}.

Lemma returning_ret {A} (a : A) (P : S → Prop) (Q : A → S → Prop) :
  (∀ s, P s → Q a s) → returning P (mret a) Q.
Proof. intros H s Hs. exists a, s. split; [done|by apply H]. Qed.

Lemma returning_gets {A} (f : S → A) (P : S → Prop) (Q : A → S → Prop) :
  (∀ s, P s → Q (f s) s) → returning P (gets f) Q.
Proof. intros H s Hs. exists (f s), s. split; [done|by apply H]. Qed.

Lemma returning_modify (f : S → S) (P : S → Prop) (Q : () → S → Prop) :
  (∀ s, P s → Q () (f s)) → returning P (modify f) Q.
Proof. intros H s Hs. exists (), (f s). split; [done|by apply H]. Qed.

Lemma returning_bind {A B} (m : M S A) (f : A → M S B) P Q R :
  returning P m Q → (∀ a, returning (Q a) (f a) R) → returning P (m ≫= f) R.
Proof.
  intros Hm Hf s Hs. destruct (Hm s Hs) as (a & s1 & H1 & Hq).
  rewrite (M_bind_run m f s a s1 H1). by apply Hf.
Qed.

Lemma returning_weaken {A} (m : M S A) (P P' : S → Prop) (Q Q' : A → S → Prop) :
  (∀ s, P' s → P s) → (∀ a s, Q a s → Q' a s) → returning P m Q → returning P' m Q'.
Proof.
  intros HP HQ Hm s Hs. destruct (Hm s (HP s Hs)) as (a & s' & H & Hq). exists a, s'. auto.
Qed.
End returning.

(** ** Machine integers *)

Definition two32 : N := 2 ^ 32.
Definition two64 : N := 2 ^ 64.

(** uint64 arithmetic wraps around. *)
Definition wrap64 (n : N) : N := n mod two64.
Definition wrap32 (n : N) : N := n mod two32.

Lemma two64_pos : (0 < two64)%N.
Proof. reflexivity. Qed.

Lemma wrap64_small n : (n < two64)%N → wrap64 n = n.
Proof. apply N.mod_small. Qed.

Lemma wrap64_lt n : (wrap64 n < two64)%N.
Proof. apply N.mod_lt. discriminate. Qed.

Lemma wrap32_small n : (n < two32)%N → wrap32 n = n.
Proof. apply N.mod_small. Qed.

Lemma wrap32_lt n : (wrap32 n < two32)%N.
Proof. apply N.mod_lt. discriminate. Qed.

(** Go's integer division and remainder truncate towards zero. *)
Definition go_div (a b : Z) : Z := Z.quot a b.
Definition go_mod (a b : Z) : Z := Z.rem a b.

(** ** Bytes *)

#[export] Instance byte_eq_dec : EqDecision Byte.byte.
Proof. intros x y. destruct (Byte.eqb x y) eqn:E;
  [left; by apply Byte.byte_dec_bl|right; intros ->; by rewrite Byte.byte_dec_lb in E]. Defined.

Definition byte_of_N (n : N) : Byte.byte := default Byte.x00 (Byte.of_N (n mod 256)).

Lemma to_N_byte_of_N n : Byte.to_N (byte_of_N n) = (n mod 256)%N.
Proof.
  unfold byte_of_N. destruct (Byte.of_N (n mod 256)) as [b|] eqn:E; simpl.
  - by apply Byte.to_of_N.
  - apply Byte.of_N_None_iff in E. pose proof (N.mod_lt n 256). lia.
Qed.

Lemma byte_of_N_to_N b : byte_of_N (Byte.to_N b) = b.
Proof.
  unfold byte_of_N. rewrite N.mod_small.
  - by rewrite Byte.of_to_N.
  - pose proof (Byte.to_N_bounded b). lia.
Qed.

#[export] Instance byte_countable : Countable Byte.byte :=
  inj_countable Byte.to_N Byte.of_N Byte.of_to_N.

Abbreviation bytes := (list Byte.byte).

(** [copy(dst[:], src)] into a zeroed array of [n] bytes. *)
Definition copy_array (n : nat) (src : bytes) : bytes :=
  take n src ++ replicate (n - length src) Byte.x00.

Lemma length_copy_array n src : length (copy_array n src) = n.
Proof. unfold copy_array. rewrite length_app, length_take, length_replicate. lia. Qed.

Lemma copy_array_id n src : length src = n → copy_array n src = src.
Proof.
  intros <-. unfold copy_array. rewrite Nat.sub_diag. simpl.
  rewrite app_nil_r. by apply take_ge.
Qed.

(** ** Finite maps *)

(** The size of a filtered map is a count over its bindings. *)
Lemma size_map_filter {K A} `{Countable K} (P : K * A → Prop) `{∀ x, Decision (P x)} (m : gmap K A) :
  size (filter P m) = length (filter P (map_to_list m)).
Proof.
  rewrite map_filter_alt, <-length_map_to_list, map_to_list_to_map; [done|].
  apply NoDup_fmap_fst; [|apply NoDup_filter, NoDup_map_to_list].
  intros x y1 y2 [_ H1]%list_elem_of_filter [_ H2]%list_elem_of_filter.
  apply elem_of_map_to_list in H1, H2. congruence.
Qed.

(** Counting after mapping. *)
Lemma length_filter_fmap {A B} (f : A → B) (P : B → Prop) (Q : A → Prop)
    `{∀ x, Decision (P x)} `{∀ x, Decision (Q x)} (l : list A) :
  (∀ x, P (f x) ↔ Q x) → length (filter P (f <$> l)) = length (filter Q l).
Proof.
  intros HPQ. induction l as [|x l IH]; [done|]. rewrite fmap_cons, !filter_cons.
  destruct (decide (P (f x))) as [Hp|Hp].
  - rewrite decide_True by (by apply HPQ). simpl. by rewrite IH.
  - rewrite decide_False by (by rewrite <-HPQ). done.
Qed.
