(* ===== verification/Encoding.v ===== *)
(** * Encodings and hashes of the Go standard library

    The parts of [encoding/binary], [math/big], [encoding/base64],
    [crypto/sha256] and [hash/fnv] that the replica calls, as executable
    functions on byte lists, with the round trips the components rely on. *)

From S2P Require Import Prelude.
From Stdlib Require Import Strings.Byte.

(** ** [binary.LittleEndian] *)

Fixpoint le_bytes (k : nat) (n : N) : bytes :=
  match k with
  | O => []
  | S k => byte_of_N n :: le_bytes k (n / 256)
  end.

Fixpoint le_val (bs : bytes) : N :=
  match bs with
  | [] => 0
  | b :: bs => Byte.to_N b + 256 * le_val bs
  end.

Definition PutUint32 (n : N) : bytes := le_bytes 4 n.
Definition PutUint64 (n : N) : bytes := le_bytes 8 n.
(** [Uint32] reads the first four bytes of its argument. *)
Definition Uint32 (bs : bytes) : N := le_val (take 4 bs).

Lemma length_le_bytes k n : length (le_bytes k n) = k.
Proof. revert n. induction k; intros n; simpl; [done|by rewrite IHk]. Qed.

Lemma le_val_le_bytes k n : le_val (le_bytes k n) = (n mod 256 ^ N.of_nat k)%N.
Proof.
  revert n. induction k as [|k IH]; intros n.
  - simpl. by rewrite N.mod_1_r.
  - cbn [le_bytes le_val]. rewrite IH, to_N_byte_of_N, Nat2N.inj_succ, N.pow_succ_r'.
    rewrite N.Div0.mod_mul_r. lia.
Qed.

Lemma le_val_le_bytes_small k n :
  (n < 256 ^ N.of_nat k)%N → le_val (le_bytes k n) = n.
Proof. intros H. rewrite le_val_le_bytes. by apply N.mod_small. Qed.

Lemma le_bytes_inj k n m :
  (n < 256 ^ N.of_nat k)%N → (m < 256 ^ N.of_nat k)%N →
  le_bytes k n = le_bytes k m → n = m.
Proof.
  intros Hn Hm H. rewrite <-(le_val_le_bytes_small k n), <-(le_val_le_bytes_small k m); [|done..].
  by rewrite H.
Qed.

(** ** [big.Int] byte conversions: big endian, no leading zero byte. *)

Fixpoint le_digits (fuel : nat) (n : N) : bytes :=
  match fuel with
  | O => []
  | S fuel => if (n =? 0)%N then [] else byte_of_N n :: le_digits fuel (n / 256)
  end.

Definition big_Bytes (n : N) : bytes := reverse (le_digits (N.to_nat (N.size n)) n).
Definition big_SetBytes (bs : bytes) : N := le_val (reverse bs).

Lemma le_val_le_digits fuel n :
  (n < 2 ^ N.of_nat fuel)%N → le_val (le_digits fuel n) = n.
Proof.
  revert n. induction fuel as [|fuel IH]; intros n Hn.
  - simpl in *. lia.
  - cbn [le_digits]. destruct (N.eqb_spec n 0) as [->|Hn0]; [done|].
    cbn [le_val]. rewrite to_N_byte_of_N, IH.
    + rewrite (N.div_mod n 256) at 3 by done. lia.
    + rewrite Nat2N.inj_succ, N.pow_succ_r' in Hn.
      apply N.Div0.div_lt_upper_bound. lia.
Qed.

Lemma big_SetBytes_Bytes n : big_SetBytes (big_Bytes n) = n.
Proof.
  unfold big_SetBytes, big_Bytes. rewrite reverse_involutive.
  apply le_val_le_digits. rewrite N2Nat.id. apply N.size_gt.
Qed.

(** ** [crypto/sha256] *)

Module Sha256.

Definition add32 (a b : N) : N := (a + b) mod two32.
Definition not32 (a : N) : N := N.lxor a (two32 - 1).
Definition rotr (k a : N) : N :=
  N.lor (N.shiftr a k) (N.shiftl a (32 - k) mod two32).

Definition Ch x y z := N.lxor (N.land x y) (N.land (not32 x) z).
Definition Maj x y z := N.lxor (N.lxor (N.land x y) (N.land x z)) (N.land y z).
Definition Sigma0 x := N.lxor (N.lxor (rotr 2 x) (rotr 13 x)) (rotr 22 x).
Definition Sigma1 x := N.lxor (N.lxor (rotr 6 x) (rotr 11 x)) (rotr 25 x).
Definition sigma0 x := N.lxor (N.lxor (rotr 7 x) (rotr 18 x)) (N.shiftr x 3).
Definition sigma1 x := N.lxor (N.lxor (rotr 17 x) (rotr 19 x)) (N.shiftr x 10).

(** The constants are derived, as FIPS 180-4 defines them: the first 32 bits
    of the fractional parts of the square roots of the first primes (initial
    state) and of the cube roots (round constants). *)
Definition prime (n : N) : bool :=
  forallb (λ d, negb (n mod N.of_nat d =? 0)%N) (seq 2 (N.to_nat n - 2)).

Definition primes (below : nat) : list N :=
  filter (λ n, Is_true (prime n)) (N.of_nat <$> seq 2 (below - 2)).

(** The largest [x] with [x ^ k <= n], bit by bit from [2 ^ bits]. *)
Fixpoint root (k n : N) (bits : nat) (x : N) : N :=
  match bits with
  | O => x
  | S bits =>
    let y := (x + 2 ^ N.of_nat bits)%N in
    root k n bits (if (y ^ k <=? n)%N then y else x)
  end.

Definition root_fraction (k p : N) : N := (root k (p * 2 ^ (32 * k)) 40 0 mod two32)%N.

Definition K : list N := Eval vm_compute in root_fraction 3 <$> primes 312.

Record regs := mkRegs { ra : N; rb : N; rc : N; rd : N; re : N; rf : N; rg : N; rh : N }.

Definition H0 : regs := Eval vm_compute in
  match root_fraction 2 <$> primes 20 with
  | [a; b; c; d; e; f; g; h] => mkRegs a b c d e f g h
  | _ => mkRegs 0 0 0 0 0 0 0 0
  end.

(** Padding: a one bit, zeros, and the bit length in eight big-endian bytes. *)
Definition pad (msg : bytes) : bytes :=
  let len := length msg in
  let zeros := (64 - (len + 9) mod 64) mod 64 in
  msg ++ [Byte.x80] ++ replicate zeros Byte.x00
      ++ reverse (PutUint64 (8 * N.of_nat len)).

Fixpoint words (fuel : nat) (bs : bytes) : list N :=
  match fuel, bs with
  | S fuel, a :: b :: c :: d :: rest => le_val [d; c; b; a] :: words fuel rest
  | _, _ => []
  end.

(** The message schedule, most recent word first. *)
Fixpoint schedule (n : nat) (w : list N) : list N :=
  match n with
  | O => w
  | S n =>
    let w16 := nth 15 w 0%N in let w15 := nth 14 w 0%N in
    let w7 := nth 6 w 0%N in let w2 := nth 1 w 0%N in
    schedule n (add32 (add32 (sigma1 w2) w7) (add32 (sigma0 w15) w16) :: w)
  end.

Definition round (s : regs) (kw : N * N) : regs :=
  let t1 := add32 (add32 (rh s) (Sigma1 (re s)))
                  (add32 (Ch (re s) (rf s) (rg s)) (add32 kw.1 kw.2)) in
  let t2 := add32 (Sigma0 (ra s)) (Maj (ra s) (rb s) (rc s)) in
  mkRegs (add32 t1 t2) (ra s) (rb s) (rc s) (add32 (rd s) t1) (re s) (rf s) (rg s).

Definition compress (s : regs) (block : list N) : regs :=
  let w := reverse (schedule 48 (reverse block)) in
  let s' := foldl round s (zip K w) in
  mkRegs (add32 (ra s) (ra s')) (add32 (rb s) (rb s')) (add32 (rc s) (rc s'))
         (add32 (rd s) (rd s')) (add32 (re s) (re s')) (add32 (rf s) (rf s'))
         (add32 (rg s) (rg s')) (add32 (rh s) (rh s')).

Fixpoint blocks (fuel : nat) (s : regs) (ws : list N) : regs :=
  match fuel with
  | O => s
  | S fuel => match ws with
              | [] => s
              | _ => blocks fuel (compress s (take 16 ws)) (drop 16 ws)
              end
  end.

Definition be32 (n : N) : bytes := reverse (le_bytes 4 n).

Definition Sum256 (msg : bytes) : bytes :=
  let p := pad msg in
  let s := blocks (length p) H0 (words (length p) p) in
  be32 (ra s) ++ be32 (rb s) ++ be32 (rc s) ++ be32 (rd s) ++
  be32 (re s) ++ be32 (rf s) ++ be32 (rg s) ++ be32 (rh s).

Lemma length_Sum256 msg : length (Sum256 msg) = 32.
Proof.
  unfold Sum256, be32. by rewrite !length_app, !length_reverse, !length_le_bytes.
Qed.

End Sha256.

Definition sha256_Sum256 : bytes → bytes := Sha256.Sum256.

Lemma length_sha256 msg : length (sha256_Sum256 msg) = 32.
Proof. apply Sha256.length_Sum256. Qed.

(** FIPS 180-2 test vector for the three-byte message "abc". *)
Example sha256_abc :
  sha256_Sum256 [x61; x62; x63] =
  [xba; x78; x16; xbf; x8f; x01; xcf; xea; x41; x41; x40; xde; x5d; xae; x22; x23;
   xb0; x03; x61; xa3; x96; x17; x7a; x9c; xb4; x10; xff; x61; xf2; x00; x15; xad].
Proof. vm_compute. reflexivity. Qed.

Global Opaque sha256_Sum256.

(** ** [base64.StdEncoding.EncodeToString] *)

Definition base64_char (n : N) : Byte.byte :=
  byte_of_N (if n <? 26 then 65 + n
             else if n <? 52 then 97 + (n - 26)
             else if n <? 62 then 48 + (n - 52)
             else if n =? 62 then 43 else 47)%N.

Fixpoint base64_encode (bs : bytes) : bytes :=
  match bs with
  | a :: b :: c :: rest =>
    let v := (65536 * Byte.to_N a + 256 * Byte.to_N b + Byte.to_N c)%N in
    base64_char (v / 262144) :: base64_char ((v / 4096) mod 64)
      :: base64_char ((v / 64) mod 64) :: base64_char (v mod 64) :: base64_encode rest
  | [a; b] =>
    let v := (65536 * Byte.to_N a + 256 * Byte.to_N b)%N in
    [base64_char (v / 262144); base64_char ((v / 4096) mod 64);
     base64_char ((v / 64) mod 64); Byte.x3d]
  | [a] =>
    let v := (65536 * Byte.to_N a)%N in
    [base64_char (v / 262144); base64_char ((v / 4096) mod 64); Byte.x3d; Byte.x3d]
  | [] => []
  end.

(** "Man" encodes to "TWFu", "Ma" to "TWE=". *)
Example base64_Man : base64_encode [x4d; x61; x6e] = [x54; x57; x46; x75].
Proof. reflexivity. Qed.
Example base64_Ma : base64_encode [x4d; x61] = [x54; x57; x45; x3d].
Proof. reflexivity. Qed.

(** ** [fnv.New32a] *)

Definition fnv32a (bs : bytes) : N :=
  foldl (λ h b, (N.lxor h (Byte.to_N b) * 16777619) mod two32)%N 2166136261%N bs.

(** The published FNV-1a value of "a". *)
Example fnv32a_a : fnv32a [x61] = 0xe40c292c%N.
Proof. reflexivity. Qed.

Lemma fnv32a_lt bs : (fnv32a bs < two32)%N.
Proof.
  destruct bs as [|b bs] using rev_ind; [done|].
  unfold fnv32a. rewrite foldl_app. simpl. apply N.mod_lt. done.
Qed.
