(* ===== verification/Pem.v ===== *)
(** * base64.StdEncoding and encoding/pem

    The text form of keys and certificates that crypto/keygen writes and reads:
    a line with the type, the data in base64 with 64 characters to a line, and a
    closing line. *)

From S2P Require Import Prelude Encoding.
From Stdlib Require Import Strings.Byte.

Definition str (s : string) : bytes := String.list_byte_of_string s.

(** ** base64 *)

Definition base64_val (c : Byte.byte) : option N :=
  let n := Byte.to_N c in
  if (65 <=? n)%N && (n <=? 90)%N then Some (n - 65)%N
  else if (97 <=? n)%N && (n <=? 122)%N then Some (n - 71)%N
  else if (48 <=? n)%N && (n <=? 57)%N then Some (n + 4)%N
  else if (n =? 43)%N then Some 62%N
  else if (n =? 47)%N then Some 63%N
  else None.

(** Groups of four characters; padding only at the end. *)
Fixpoint base64_groups (s : bytes) : option bytes :=
  match s with
  | [] => Some []
  | a :: b :: c :: d :: rest =>
    va ← base64_val a;
    vb ← base64_val b;
    let x := byte_of_N (va * 4 + vb / 16) in
    if bool_decide (c = x3d) then
      if bool_decide (d = x3d) && bool_decide (rest = []) then Some [x] else None
    else
      vc ← base64_val c;
      let y := byte_of_N (vb * 16 + vc / 4) in
      if bool_decide (d = x3d) then if bool_decide (rest = []) then Some [x; y] else None
      else
        vd ← base64_val d;
        tl ← base64_groups rest;
        Some (x :: y :: byte_of_N (vc * 64 + vd) :: tl)
  | _ => None
  end.

(** The decoder passes over line breaks. *)
Definition base64_Decode (s : bytes) : option bytes :=
  base64_groups (filter (λ c, c ≠ x0a ∧ c ≠ x0d) s).

(** ** pem *)

Record pem_Block := mkPem { pem_Type : bytes; pem_Bytes : bytes }.

Definition begin_mark : bytes := str "-----BEGIN ".
Definition end_mark : bytes := str "-----END ".
Definition dashes : bytes := str "-----".

(** [lineBreaker]: [used] characters are on the current line; the last line is
    closed when it is not empty. *)
Fixpoint line_break (used : nat) (s : bytes) : bytes :=
  match s with
  | [] => if (used =? 0)%nat then [] else [x0a]
  | c :: s => if (used =? 63)%nat then c :: x0a :: line_break 0 s else c :: line_break (S used) s
  end.

(** [EncodeToMemory] of a block without headers. *)
Definition pem_Encode (b : pem_Block) : bytes :=
  begin_mark ++ pem_Type b ++ dashes ++ [x0a] ++ line_break 0 (base64_encode (pem_Bytes b)) ++
  end_mark ++ pem_Type b ++ dashes ++ [x0a].

(** bytes.HasPrefix, with what follows the prefix; bytes.Index, with what is
    before and after the first occurrence. *)
Fixpoint after_prefix (p s : bytes) : option bytes :=
  match p, s with
  | [], _ => Some s
  | x :: p, y :: s => if bool_decide (x = y) then after_prefix p s else None
  | _ :: _, [] => None
  end.
Fixpoint cut (p s : bytes) : option (bytes * bytes) :=
  match after_prefix p s with
  | Some rest => Some ([], rest)
  | None =>
    match s with
    | [] => None
    | c :: s => '(before, rest) ← cut p s; Some (c :: before, rest)
    end
  end.
Definition before_suffix (p s : bytes) : option bytes := reverse <$> after_prefix (reverse p) (reverse s).

(** [getLine]: the line without its line break and trailing blanks, and the
    rest. *)
Fixpoint split_line (s : bytes) : bytes * option bytes :=
  match s with
  | [] => ([], None)
  | c :: s =>
    if bool_decide (c = x0a) then ([], Some s)
    else let '(line, rest) := split_line s in (c :: line, rest)
  end.
Fixpoint trim_left (blank : Byte.byte → bool) (s : bytes) : bytes :=
  match s with
  | [] => []
  | c :: s' => if blank c then trim_left blank s' else s
  end.
Definition trim_right (blank : Byte.byte → bool) (s : bytes) : bytes := reverse (trim_left blank (reverse s)).
Definition is_blank (c : Byte.byte) : bool := bool_decide (c = x20) || bool_decide (c = x09).
Definition getLine (s : bytes) : bytes * bytes :=
  match split_line s with
  | (line, None) => (trim_right is_blank line, [])
  | (line, Some rest) => (trim_right is_blank (default line (before_suffix [x0d] line)), rest)
  end.

(** Pass over the headers; [None] when the data ends in them.  What the headers
    say is not used. *)
Fixpoint skip_headers (fuel : nat) (seen : bool) (rest : bytes) : option (bytes * bool) :=
  match fuel with
  | O => None
  | S fuel =>
    match rest with
    | [] => None
    | _ =>
      let '(line, next) := getLine rest in
      if bool_decide (x3a ∈ line) then skip_headers fuel true next else Some (rest, seen)
    end
  end.

(** The body and what follows the mark of the closing line. *)
Definition find_end (headers : bool) (rest : bytes) : option (bytes * bytes) :=
  match (if headers then None else after_prefix end_mark rest) with
  | Some trailer => Some ([], trailer)
  | None => cut (x0a :: end_mark) rest
  end.

(** What comes after the line with the type: [inl] is a block or none, [inr]
    is where to look for another block. *)
Definition decode_body (typ rest : bytes) : option pem_Block + bytes :=
  match skip_headers (S (length rest)) false rest with
  | None => inl None
  | Some (rest, headers) =>
    match find_end headers rest with
    | None => inr rest
    | Some (body, trailer) =>
      if (length trailer <? length typ + length dashes)%nat then inr rest
      else
        let endTrailer := take (length typ + length dashes) trailer in
        let restOfEndLine := drop (length typ + length dashes) trailer in
        match after_prefix typ endTrailer, before_suffix dashes endTrailer with
        | Some _, Some _ =>
          if bool_decide ((getLine restOfEndLine).1 = []) then
            match base64_Decode (filter (λ c, is_blank c = false) body) with
            | Some data => inl (Some (mkPem typ data))
            | None => inr rest
            end
          else inr rest
        | _, _ => inr rest
        end
    end
  end.

(** After an error the search goes on behind the line with the type. *)
Fixpoint pem_Decode (fuel : nat) (data : bytes) : option pem_Block :=
  match fuel with
  | O => None
  | S fuel =>
    match (match after_prefix begin_mark data with
           | Some rest => Some rest
           | None => snd <$> cut (x0a :: begin_mark) data
           end) with
    | None => None
    | Some rest =>
      let '(typeLine, rest) := getLine rest in
      match before_suffix dashes typeLine with
      | None => pem_Decode fuel rest
      | Some typ =>
        match decode_body typ rest with
        | inl p => p
        | inr rest => pem_Decode fuel rest
        end
      end
    end
  end.

(** Every call is on a shorter input. *)
Definition Decode (data : bytes) : option pem_Block := pem_Decode (S (length data)) data.

Example Decode_Man :
  Decode (str "junk" ++ [x0a] ++ pem_Encode (mkPem (str "KEY") [x4d; x61; x6e])) =
    Some (mkPem (str "KEY") [x4d; x61; x6e]).
Proof. vm_compute. reflexivity. Qed.

(** ** base64 round trip *)

Lemma base64_val_char n : (n < 64)%N → base64_val (base64_char n) = Some n.
Proof.
  intros Hn. assert (forallb (λ k, bool_decide (base64_val (base64_char (N.of_nat k)) = Some (N.of_nat k))) (seq 0 64) = true)
    as H by (vm_compute; reflexivity).
  rewrite forallb_forall in H. specialize (H (N.to_nat n)). rewrite N2Nat.id in H.
  refine (bool_decide_eq_true_1 _ (H _)). apply in_seq. lia.
Qed.

(** The characters of an encoding. *)
Definition in_alphabet (c : Byte.byte) : bool := bool_decide (is_Some (base64_val c)) || bool_decide (c = x3d).

Lemma in_alphabet_char n : (n < 64)%N → in_alphabet (base64_char n) = true.
Proof. intros Hn. unfold in_alphabet. by rewrite base64_val_char. Qed.

Lemma alphabet_plain c :
  in_alphabet c = true → c ≠ x2d ∧ c ≠ x3a ∧ c ≠ x0a ∧ c ≠ x0d ∧ is_blank c = false.
Proof. by destruct c. Qed.

Lemma base64_char_pad n : (n < 64)%N → base64_char n ≠ x3d.
Proof. intros Hn Heq. pose proof (base64_val_char n Hn) as H. rewrite Heq in H. done. Qed.

(** Induction over a list in steps of three. *)
Lemma thirds_ind {A} (P : list A → Prop) :
  P [] → (∀ a, P [a]) → (∀ a b, P [a; b]) → (∀ a b c l, P l → P (a :: b :: c :: l)) → ∀ l, P l.
Proof.
  intros H0 H1 H2 H3. fix IH 1. intros [|a [|b [|c l]]]; [done..|]. apply H3, IH.
Qed.

Lemma byte_lt b : (Byte.to_N b < 256)%N.
Proof. pose proof (Byte.to_N_bounded b). lia. Qed.

Lemma byte_of_N_eq n b : (n mod 256 = Byte.to_N b)%N → byte_of_N n = b.
Proof. intros H. rewrite <-(byte_of_N_to_N b), <-H. unfold byte_of_N. by rewrite N.Div0.mod_mod. Qed.

(** The sextets of three bytes, and the bytes they make. *)
Lemma sextets (a b c : N) :
  (a < 256 → b < 256 → c < 256 →
   let v := 65536 * a + 256 * b + c in
   v / 262144 < 64 ∧ (v / 4096) mod 64 < 64 ∧ (v / 64) mod 64 < 64 ∧ v mod 64 < 64 ∧
   (v / 262144 * 4 + (v / 4096) mod 64 / 16) mod 256 = a ∧
   ((v / 4096) mod 64 * 16 + (v / 64) mod 64 / 4) mod 256 = b ∧
   ((v / 64) mod 64 * 64 + v mod 64) mod 256 = c)%N.
Proof. intros Ha Hb Hc v. subst v. split_and!; zify; Z.to_euclidean_division_equations; lia. Qed.

Lemma base64_encode_alphabet bs : Forall (λ c, in_alphabet c = true) (base64_encode bs).
Proof.
  induction bs as [|a|a b|a b c bs IH] using thirds_ind; cbn [base64_encode]; [constructor|..].
  - destruct (sextets (Byte.to_N a) 0 0) as (H1 & H2 & _); [apply byte_lt|done..|].
    rewrite ?N.mul_0_r, ?N.add_0_r in H1, H2. repeat constructor; by apply in_alphabet_char.
  - destruct (sextets (Byte.to_N a) (Byte.to_N b) 0) as (H1 & H2 & H3 & _); [apply byte_lt..|done|].
    rewrite !N.add_0_r in H1, H2, H3. repeat constructor; by apply in_alphabet_char.
  - destruct (sextets (Byte.to_N a) (Byte.to_N b) (Byte.to_N c)) as (H1 & H2 & H3 & H4 & _); [apply byte_lt..|].
    repeat (constructor; [by apply in_alphabet_char|]). done.
Qed.

Lemma base64_roundtrip bs : base64_groups (base64_encode bs) = Some bs.
Proof.
  induction bs as [|a|a b|a b c bs IH] using thirds_ind; cbn [base64_encode base64_groups]; [done|..].
  - destruct (sextets (Byte.to_N a) 0 0) as (H1 & H2 & _ & _ & E1 & _); [apply byte_lt|done..|].
    rewrite ?N.mul_0_r, ?N.add_0_r in H1, H2, E1.
    rewrite !base64_val_char by done. cbn [mbind option_bind]. by rewrite (byte_of_N_eq _ _ E1).
  - destruct (sextets (Byte.to_N a) (Byte.to_N b) 0) as (H1 & H2 & H3 & _ & E1 & E2 & _); [apply byte_lt..|done|].
    rewrite !N.add_0_r in H1, H2, H3, E1, E2.
    rewrite (bool_decide_eq_false_2 (base64_char _ = x3d)) by (by apply base64_char_pad).
    rewrite !base64_val_char by done. cbn [mbind option_bind].
    by rewrite (byte_of_N_eq _ _ E1), (byte_of_N_eq _ _ E2).
  - destruct (sextets (Byte.to_N a) (Byte.to_N b) (Byte.to_N c)) as (H1 & H2 & H3 & H4 & E1 & E2 & E3); [apply byte_lt..|].
    rewrite !(bool_decide_eq_false_2 (base64_char _ = x3d)) by (by apply base64_char_pad).
    rewrite !base64_val_char by done. cbn [mbind option_bind]. rewrite IH. cbn [mbind option_bind].
    by rewrite (byte_of_N_eq _ _ E1), (byte_of_N_eq _ _ E2), (byte_of_N_eq _ _ E3).
Qed.

(** ** pem round trip *)

Lemma after_prefix_app p s : after_prefix p (p ++ s) = Some s.
Proof. induction p as [|x p IH]; [done|]. cbn. by rewrite bool_decide_eq_true_2. Qed.

Lemma before_suffix_app p s : before_suffix p (s ++ p) = Some s.
Proof. unfold before_suffix. rewrite reverse_app, after_prefix_app. cbn. by rewrite reverse_involutive. Qed.

Lemma split_line_app s rest : (x0a ∉ s) → split_line (s ++ x0a :: rest) = (s, Some rest).
Proof.
  induction s as [|c s IH]; cbn [app split_line]; intros Hs; [done|]. apply not_elem_of_cons in Hs as [Hc Hs].
  rewrite bool_decide_eq_false_2 by done. by rewrite IH.
Qed.

(** A line that ends with a dash is taken as it is. *)
Lemma getLine_dash s rest : (x0a ∉ s) → getLine (s ++ x2d :: x0a :: rest) = (s ++ [x2d], rest).
Proof.
  intros Hs. unfold getLine. change (s ++ x2d :: x0a :: rest) with (s ++ [x2d] ++ x0a :: rest).
  rewrite app_assoc, split_line_app.
  2: { rewrite elem_of_app, list_elem_of_singleton. by intros [|]. }
  cbv beta iota. unfold before_suffix, trim_right. rewrite !reverse_app. cbn [reverse rev_append app after_prefix].
  change (reverse [x0d]) with [x0d]. change (reverse [x2d] ++ reverse s) with (x2d :: reverse s).
  cbn [after_prefix]. rewrite bool_decide_eq_false_2 by done. cbn [fmap option_fmap option_map default from_option id].
  rewrite reverse_app. change (reverse [x2d] ++ reverse s) with (x2d :: reverse s).
  change (trim_left is_blank (x2d :: reverse s)) with (x2d :: reverse s).
  by rewrite reverse_cons, reverse_involutive.
Qed.

Lemma split_line_elem c s : c ∈ (split_line s).1 → c ∈ s.
Proof.
  induction s as [|d s IH]; cbn [split_line]; [done|]. case_bool_decide; [by intros ?%not_elem_of_nil|].
  destruct (split_line s) as [line rest]. cbn in *. rewrite !elem_of_cons. naive_solver.
Qed.

Lemma trim_left_elem f c s : c ∈ trim_left f s → c ∈ s.
Proof. induction s as [|d s IH]; cbn; [done|]. destruct (f d); [|done]. intros H. apply elem_of_cons. auto. Qed.

Lemma after_prefix_eq p s t : after_prefix p s = Some t → s = p ++ t.
Proof.
  revert s. induction p as [|x p IH]; intros s; cbn; [by intros [= ->]|]. destruct s as [|y s]; [done|].
  case_bool_decide as Hx; [|done]. intros H. by rewrite Hx, (IH s H).
Qed.

Lemma getLine_elem c s : c ∈ (getLine s).1 → c ∈ s.
Proof.
  unfold getLine. intros H. apply split_line_elem. destruct (split_line s) as [line [rest|]]; cbn [fst] in *;
    unfold trim_right in H; rewrite elem_of_reverse in H; apply trim_left_elem in H;
    rewrite elem_of_reverse in H; [|done].
  destruct (before_suffix [x0d] line) as [l|] eqn:E; cbn [default from_option id] in H; [|done]. unfold before_suffix in E.
  destruct (after_prefix _ _) as [l'|] eqn:E'; [|done]. injection E as <-. apply after_prefix_eq in E'.
  rewrite elem_of_reverse in H. rewrite <-elem_of_reverse, E'. apply elem_of_app. by right.
Qed.

(** Without a colon there are no headers. *)
Lemma skip_no_headers fuel rest :
  rest ≠ [] → (x3a ∉ rest) → skip_headers (S fuel) false rest = Some (rest, false).
Proof.
  intros Hne Hc. cbn [skip_headers]. destruct rest as [|c rest]; [done|].
  destruct (getLine (c :: rest)) as [line next] eqn:E.
  rewrite bool_decide_eq_false_2; [done|]. intros H. apply Hc, getLine_elem. by rewrite E.
Qed.

(** The closing line is found behind text without dashes. *)
Lemma cut_body s t :
  (x2d ∉ s) → cut (x0a :: end_mark) (s ++ x0a :: end_mark ++ t) = Some (s, t).
Proof.
  induction s as [|c s IH]; intros Hs.
  - cbn [app]. change (x0a :: end_mark ++ t) with ((x0a :: end_mark) ++ t). unfold cut.
    destruct ((x0a :: end_mark) ++ t) eqn:E; by rewrite <-E, after_prefix_app.
  - apply not_elem_of_cons in Hs as [Hc Hs].
    assert (after_prefix (x0a :: end_mark) ((c :: s) ++ x0a :: end_mark ++ t) = None) as Hno.
    { cbn [app after_prefix]. case_bool_decide; [|done]. destruct s as [|d s]; [done|].
      apply not_elem_of_cons in Hs as [Hd _]. cbn. by rewrite bool_decide_eq_false_2. }
    cbn [app] in *. cbn [cut]. rewrite Hno. by rewrite (IH Hs).
Qed.

(** What [line_break] makes of the encoding. *)
Lemma line_break_nil used s : line_break used s = [] ↔ used = 0 ∧ s = [].
Proof. destruct s as [|c s]; cbn; [destruct (Nat.eqb_spec used 0); naive_solver|]. destruct (used =? 63)%nat; naive_solver. Qed.

Lemma line_break_closed used s :
  line_break used s = [] ∨ ∃ t, line_break used s = t ++ [x0a].
Proof.
  revert used. induction s as [|c s IH]; intros used; cbn [line_break].
  - destruct (used =? 0)%nat; [by left|right]. by exists [].
  - right. destruct (used =? 63)%nat.
    + destruct (IH 0) as [->|[t ->]]; [by exists [c]|by exists (c :: x0a :: t)].
    + destruct (IH (S used)) as [H|[t ->]]; [by apply line_break_nil in H as [? _]|by exists (c :: t)].
Qed.

Lemma line_break_elem used s c : c ∈ line_break used s → c = x0a ∨ c ∈ s.
Proof.
  revert used. induction s as [|d s IH]; intros used; cbn [line_break].
  - destruct (used =? 0)%nat; [by intros ?%not_elem_of_nil|]. intros ?%list_elem_of_singleton. by left.
  - destruct (used =? 63)%nat; rewrite !elem_of_cons; naive_solver.
Qed.

Lemma line_break_filter used s :
  Forall (λ c, in_alphabet c = true) s →
  filter (λ c, c ≠ x0a ∧ c ≠ x0d) (filter (λ c, is_blank c = false) (line_break used s)) = s.
Proof.
  intros Hs. revert used. induction Hs as [|c s Hc _ IH]; intros used; cbn [line_break].
  - by destruct (used =? 0)%nat.
  - apply alphabet_plain in Hc as (_ & _ & H1 & H2 & H3). destruct (used =? 63)%nat.
    + rewrite filter_cons_True, (filter_cons_True _ x0a), filter_cons_True, filter_cons_False by (done || naive_solver).
      by rewrite IH.
    + rewrite filter_cons_True, filter_cons_True by done. by rewrite IH.
Qed.

(** A type that fits on its line and is not taken for a header. *)
Definition pem_type_ok (typ : bytes) : Prop := (x0a ∉ typ) ∧ (x3a ∉ typ).

Lemma getLine_type typ rest : pem_type_ok typ → getLine (typ ++ dashes ++ x0a :: rest) = (typ ++ dashes, rest).
Proof.
  intros [Hn _]. change dashes with (str "----" ++ [x2d]). rewrite !app_assoc, <-(app_assoc _ [x2d]).
  change ([x2d] ++ x0a :: rest) with (x2d :: x0a :: rest). apply getLine_dash.
  rewrite elem_of_app. intros [?|H]; [done|]. revert H. by apply (bool_decide_eq_false_1 (x0a ∈ str "----")).
Qed.

Lemma base64_body data :
  let body := line_break 0 (base64_encode data) in
  (x3a ∉ body) ∧ (body = [] ∧ data = [] ∨ ∃ t, body = t ++ [x0a] ∧ (x2d ∉ t) ∧ ∃ c t', body = c :: t' ∧ c ≠ x2d).
Proof.
  intros body. pose proof (base64_encode_alphabet data) as Hal. rewrite Forall_forall in Hal.
  assert (∀ c, c ∈ body → c ≠ x3a ∧ c ≠ x2d) as Hb.
  { intros c [->|Hc]%line_break_elem; [done|]. by destruct (alphabet_plain c (Hal c Hc)) as (? & ? & _). }
  split; [intros H; by destruct (Hb _ H)|].
  destruct (line_break_closed 0 (base64_encode data)) as [Hnil|[t Ht]]; fold body in Hnil || fold body in Ht.
  - left. split; [done|]. apply line_break_nil in Hnil as [_ Hnil].
    destruct data as [|a [|b [|c data]]]; done.
  - right. exists t. split_and!; [done|..].
    + intros H. destruct (Hb x2d); [rewrite Ht; apply elem_of_app; by left|done].
    + destruct body as [|c t'] eqn:E; [by destruct t|]. exists c, t'. split; [done|]. apply Hb. by left.
Qed.

Lemma find_end_body data t :
  ∃ body, find_end false (line_break 0 (base64_encode data) ++ end_mark ++ t) = Some (body, t) ∧
    base64_Decode (filter (λ c, is_blank c = false) body) = Some data.
Proof.
  destruct (base64_body data) as [_ Hbody]. pose proof (line_break_filter 0 _ (base64_encode_alphabet data)) as Hf.
  unfold find_end, base64_Decode. destruct Hbody as [[Hnil ->]|(s & Hs & Hd & c & t' & Hc & Hcd)].
  - exists []. rewrite Hnil. cbn [app]. by rewrite after_prefix_app.
  - exists s. rewrite Hc. cbn [app]. change (after_prefix end_mark (c :: t' ++ end_mark ++ t)) with
      (if bool_decide (x2d = c) then after_prefix (str "----END ") (t' ++ end_mark ++ t) else None).
    rewrite bool_decide_eq_false_2 by done.
    change (c :: t' ++ end_mark ++ t) with ((c :: t') ++ end_mark ++ t). rewrite <-Hc, Hs, <-app_assoc.
    cbn [app]. rewrite cut_body by done. split; [done|].
    rewrite Hs, filter_app, filter_app in Hf. cbn in Hf. rewrite app_nil_r in Hf. rewrite Hf. apply base64_roundtrip.
Qed.

Lemma Decode_Encode (b : pem_Block) : pem_type_ok (pem_Type b) → Decode (pem_Encode b) = Some b.
Proof.
  destruct b as [typ data]. cbn [pem_Type]. intros Hok. unfold Decode, pem_Encode. cbn [pem_Type pem_Bytes].
  set (input := begin_mark ++ _). cbn [pem_Decode].
  assert (after_prefix begin_mark input = Some (typ ++ dashes ++ x0a :: line_break 0 (base64_encode data) ++
    end_mark ++ typ ++ dashes ++ [x0a])) as -> by apply after_prefix_app.
  rewrite getLine_type by done. rewrite before_suffix_app. unfold decode_body.
  assert (x3a ∉ line_break 0 (base64_encode data) ++ end_mark ++ typ ++ dashes ++ [x0a]) as Hcolon.
  { rewrite !elem_of_app. destruct Hok as [_ Hc]. destruct (base64_body data) as [Hb _].
    intros [?|[H|[?|[H|H]]]]; try done; revert H.
    - by apply (bool_decide_eq_false_1 (x3a ∈ end_mark)).
    - by apply (bool_decide_eq_false_1 (x3a ∈ dashes)).
    - by apply (bool_decide_eq_false_1 (x3a ∈ [x0a])). }
  rewrite skip_no_headers; [|by destruct (line_break _ _)|done].
  destruct (find_end_body data (typ ++ dashes ++ [x0a])) as (body & -> & Hdata).
  rewrite app_assoc, !length_app.
  destruct (Nat.ltb_spec (length typ + length dashes + length [x0a]) (length typ + length dashes)); [lia|].
  rewrite <-(length_app typ dashes), take_app_length, drop_app_length, after_prefix_app, before_suffix_app.
  change (getLine [x0a]) with (@nil Byte.byte, @nil Byte.byte). cbn [fst].
  rewrite bool_decide_eq_true_2 by done. by rewrite Hdata.
Qed.

(** ** The bound on the search *)

Lemma cut_shorter p s before rest : cut p s = Some (before, rest) → length p + length rest ≤ length s.
Proof.
  revert before. induction s as [|c s IH]; intros before; cbn [cut].
  - destruct (after_prefix p []) as [r|] eqn:E; [|done]. intros [= _ <-]. apply after_prefix_eq in E.
    by rewrite E, length_app.
  - destruct (after_prefix p (c :: s)) as [r|] eqn:E.
    + intros [= _ <-]. apply after_prefix_eq in E. by rewrite E, length_app.
    + destruct (cut p s) as [[b r]|]; [cbn|done]. intros [= _ <-]. specialize (IH b eq_refl). cbn. lia.
Qed.

Lemma getLine_shorter s : length (getLine s).2 ≤ length s.
Proof.
  assert (∀ line rest, split_line s = (line, Some rest) → length rest ≤ length s) as H.
  { induction s as [|c s IH]; cbn [split_line]; [done|]. intros line rest. case_bool_decide.
    - intros [= _ <-]. cbn. lia.
    - destruct (split_line s) as [l [r|]]; intros [= _ <-]. specialize (IH l r eq_refl). cbn. lia. }
  unfold getLine. destruct (split_line s) as [line [rest|]]; cbn [snd length]; [by eapply H|lia].
Qed.

Lemma skip_headers_shorter fuel seen rest rest' h :
  skip_headers fuel seen rest = Some (rest', h) → length rest' ≤ length rest.
Proof.
  revert seen rest. induction fuel as [|fuel IH]; intros seen rest; cbn [skip_headers]; [done|].
  destruct rest as [|c rest]; [done|]. pose proof (getLine_shorter (c :: rest)) as Hl.
  destruct (getLine (c :: rest)) as [line next]. cbn [snd] in Hl. case_bool_decide.
  - intros Hn%IH. lia.
  - by intros [= <- _].
Qed.

Lemma decode_body_shorter typ rest rest' : decode_body typ rest = inr rest' → length rest' ≤ length rest.
Proof.
  unfold decode_body. destruct (skip_headers _ _ rest) as [[r h]|] eqn:E; [|done].
  apply skip_headers_shorter in E. intros H. assert (r = rest') as <-; [|done]. revert H.
  repeat case_match; congruence.
Qed.

(** More fuel than the length of the input makes no difference. *)
Lemma Decode_fuel fuel data : length data < fuel → pem_Decode fuel data = Decode data.
Proof.
  unfold Decode. assert (∀ f1 f2 data, length data < f1 → length data < f2 → pem_Decode f1 data = pem_Decode f2 data) as H.
  { clear. induction f1 as [|f1 IH]; intros [|f2] data H1 H2; [lia..|]. cbn [pem_Decode].
    set (start := match after_prefix begin_mark data with Some _ => _ | None => _ end).
    assert (∀ rest, start = Some rest → length rest < length data) as Hstart.
    { intros rest. unfold start. destruct (after_prefix begin_mark data) as [r|] eqn:E.
      - intros [= <-]. apply after_prefix_eq in E. rewrite E, length_app. cbn. lia.
      - destruct (cut (x0a :: begin_mark) data) as [[b r]|] eqn:E'; [|done]. intros [= <-].
        apply cut_shorter in E'. cbn in *. lia. }
    destruct start as [rest|]; [|done]. specialize (Hstart rest eq_refl).
    pose proof (getLine_shorter rest) as Hl. destruct (getLine rest) as [line next]. cbn [snd] in Hl.
    destruct (before_suffix dashes line) as [typ|]; [|apply IH; lia].
    destruct (decode_body typ next) as [p|rest'] eqn:Hb; [done|]. apply decode_body_shorter in Hb. apply IH; lia. }
  intros Hf. apply H; lia.
Qed.
