(* ===== verification/Bitfield.v ===== *)
(** * crypto/bitfield.go: a set of replica IDs as a bit field

    [Bitfield] is the byte slice of the source.  Its operations are
    translated with the panics of Go's slice indexing and shifts, and shown to
    implement a finite set of IDs starting at 1. *)

From S2P Require Import Prelude.
From Stdlib Require Import Strings.Byte Sorted.

(** [hotstuff.ID] is a uint32. *)
Abbreviation ID := N.

Abbreviation Bitfield := (list Byte.byte).

(** [index]: the byte and bit position of an ID, in Go's signed arithmetic. *)
Definition index (id : ID) : Z * Z :=
  let i := (Z.of_N id - 1)%Z in
  (go_div i 8, go_mod i 8).

(** [id]: the inverse of [index], converted to uint32. *)
Definition bit_id (byteIdx bitIdx : N) : ID := wrap32 (1 + byteIdx * 8 + bitIdx).

Definition extend (bm : Bitfield) (nBytes : Z) : Bitfield :=
  bm ++ replicate (Z.to_nat nBytes) Byte.x00.

(** Slice indexing with Go's bounds check. *)
Definition slice_at (bm : Bitfield) (i : Z) : res Byte.byte :=
  if (i <? 0)%Z then Panic "index out of range"
  else match bm !! Z.to_nat i with
       | Some b => Ok b
       | None => Panic "index out of range"
       end.

(** [1 << bitIdx] at type byte; a negative shift count panics. *)
Definition shl1 (bitIdx : Z) : res N :=
  if (bitIdx <? 0)%Z then Panic "negative shift amount"
  else Ok (N.shiftl 1 (Z.to_N bitIdx) mod 256)%N.

Definition Bitfield_set (bm : Bitfield) (byteIdx bitIdx : Z) : res Bitfield :=
  b ← slice_at bm byteIdx;
  m ← shl1 bitIdx;
  mret (<[Z.to_nat byteIdx := byte_of_N (N.lor (Byte.to_N b) m)]> bm).

Definition Bitfield_isSet (bm : Bitfield) (byteIdx bitIdx : Z) : res bool :=
  b ← slice_at bm byteIdx;
  m ← shl1 bitIdx;
  mret (negb (N.land (Byte.to_N b) m =? 0)%N).

Definition Bitfield_Add (bm : Bitfield) (id : ID) : res Bitfield :=
  let '(byteIdx, bitIdx) := index id in
  let bm' := if (Z.of_nat (length bm) <=? byteIdx)%Z
             then extend bm (byteIdx + 1 - Z.of_nat (length bm)) else bm in
  Bitfield_set bm' byteIdx bitIdx.

Definition Bitfield_Contains (bm : Bitfield) (id : ID) : res bool :=
  let '(byteIdx, bitIdx) := index id in
  if (Z.of_nat (length bm) <=? byteIdx)%Z then Ok false
  else Bitfield_isSet bm byteIdx bitIdx.

(** The IDs [ForEach] passes to its callback, in call order. *)
Definition byte_ids (byteIdx : nat) (b : Byte.byte) : list ID :=
  bitIdx ← seq 0 8;
  if negb (N.land (Byte.to_N b) (N.shiftl 1 (N.of_nat bitIdx) mod 256) =? 0)%N
  then [bit_id (N.of_nat byteIdx) (N.of_nat bitIdx)] else [].

Definition Bitfield_ForEach (bm : Bitfield) : list ID :=
  concat (imap byte_ids bm).

(** ** The bits of a field *)

(** Bit [k] of the field, [false] past its end. *)
Definition bf_bit (bm : Bitfield) (k : nat) : bool :=
  match bm !! (k / 8) with
  | Some b => N.testbit (Byte.to_N b) (N.of_nat (k mod 8))
  | None => false
  end.

Lemma shl1_small k : k < 8 → (N.shiftl 1 (N.of_nat k) mod 256 = 2 ^ N.of_nat k)%N.
Proof.
  intros Hk. rewrite N.shiftl_1_l, N.mod_small; [done|].
  change 256%N with (2 ^ 8)%N. apply N.pow_lt_mono_r; lia.
Qed.

Lemma land_pow2_testbit n k : negb (N.land n (2 ^ k) =? 0)%N = N.testbit n k.
Proof.
  destruct (N.testbit n k) eqn:E.
  - apply negb_true_iff, N.eqb_neq. intros H0.
    assert (N.testbit (N.land n (2 ^ k)) k = true) as Hb
      by (by rewrite N.land_spec, E, N.pow2_bits_true).
    by rewrite H0, N.bits_0 in Hb.
  - apply negb_false_iff, N.eqb_eq, N.bits_inj. intros j.
    rewrite N.land_spec, N.bits_0. destruct (decide (k = j)) as [<-|].
    + by rewrite E.
    + rewrite N.pow2_bits_false by done. apply andb_false_r.
Qed.

Lemma index_pos (id : ID) :
  (1 ≤ id)%N →
  index id = (Z.of_nat (N.to_nat (id - 1) / 8), Z.of_nat (N.to_nat (id - 1) mod 8)).
Proof.
  intros Hid. unfold index, go_div, go_mod.
  replace (Z.of_N id - 1)%Z with (Z.of_nat (N.to_nat (id - 1))) by lia.
  rewrite Z.quot_div_nonneg, Z.rem_mod_nonneg by lia.
  change 8%Z with (Z.of_nat 8). by rewrite Nat2Z.inj_div, Nat2Z.inj_mod.
Qed.

Lemma slice_at_nat bm (k : nat) b : bm !! k = Some b → slice_at bm (Z.of_nat k) = Ok b.
Proof.
  intros Hb. unfold slice_at. rewrite Nat2Z.id, Hb.
  by destruct (Z.ltb_spec (Z.of_nat k) 0); [lia|].
Qed.

Lemma shl1_nat k : k < 8 → shl1 (Z.of_nat k) = Ok (2 ^ N.of_nat k)%N.
Proof.
  intros Hk. unfold shl1. destruct (Z.ltb_spec (Z.of_nat k) 0); [lia|].
  by rewrite <-shl1_small, <-nat_N_Z, N2Z.id by done.
Qed.

Lemma mod8_lt k : k mod 8 < 8.
Proof. apply Nat.mod_upper_bound. lia. Qed.
#[local] Hint Resolve mod8_lt : core.

(** [Contains] reads bit [id - 1]. *)
Lemma Contains_bit bm id :
  (1 ≤ id)%N → Bitfield_Contains bm id = Ok (bf_bit bm (N.to_nat (id - 1))).
Proof.
  intros Hid. unfold Bitfield_Contains, bf_bit. rewrite index_pos by done.
  set (k := N.to_nat (id - 1)). destruct (bm !! (k / 8)) as [b|] eqn:E.
  - pose proof (lookup_lt_Some _ _ _ E).
    destruct (Z.leb_spec (Z.of_nat (length bm)) (Z.of_nat (k / 8))); [lia|].
    unfold Bitfield_isSet. rewrite (slice_at_nat _ _ _ E), shl1_nat by done.
    cbn. by rewrite land_pow2_testbit.
  - apply lookup_ge_None in E.
    by destruct (Z.leb_spec (Z.of_nat (length bm)) (Z.of_nat (k / 8))); [|lia].
Qed.

Lemma lor_pow2_byte (b : Byte.byte) k :
  k < 8 →
  Byte.to_N (byte_of_N (N.lor (Byte.to_N b) (2 ^ N.of_nat k))) = N.lor (Byte.to_N b) (2 ^ N.of_nat k).
Proof.
  intros Hk. rewrite to_N_byte_of_N. apply N.mod_small.
  pose proof (Byte.to_N_bounded b) as Hb.
  assert (N.lor (Byte.to_N b) (2 ^ N.of_nat k) < 2 ^ 8)%N; [|done].
  destruct (decide (N.lor (Byte.to_N b) (2 ^ N.of_nat k) = 0)%N) as [->|Hn0]; [done|].
  apply N.log2_lt_pow2; [lia|]. rewrite N.log2_lor, N.log2_pow2 by lia.
  apply N.max_lub_lt; [|lia].
  destruct (decide (Byte.to_N b = 0)%N) as [->|]; [done|].
  apply N.log2_lt_pow2; lia.
Qed.

Definition extend_to (bm : Bitfield) (k : nat) : Bitfield :=
  bm ++ replicate (S (k / 8) - length bm) Byte.x00.

Lemma extend_to_bit bm k j : bf_bit (extend_to bm k) j = bf_bit bm j.
Proof.
  unfold bf_bit, extend_to. destruct (decide (j / 8 < length bm)).
  - by rewrite lookup_app_l.
  - rewrite lookup_app_r by lia. rewrite (lookup_ge_None_2 bm) by lia.
    destruct (replicate _ _ !! _) as [b|] eqn:E; [|done].
    by apply lookup_replicate in E as [-> _].
Qed.

Lemma Bitfield_Add_eq bm id :
  (1 ≤ id)%N →
  let k := N.to_nat (id - 1) in
  ∃ b, extend_to bm k !! (k / 8) = Some b ∧
    Bitfield_Add bm id =
      Ok (<[k / 8 := byte_of_N (N.lor (Byte.to_N b) (2 ^ N.of_nat (k mod 8)))]> (extend_to bm k)).
Proof.
  intros Hid k. unfold Bitfield_Add. rewrite index_pos by done. fold k.
  assert ((if (Z.of_nat (length bm) <=? Z.of_nat (k / 8))%Z
           then extend bm (Z.of_nat (k / 8) + 1 - Z.of_nat (length bm)) else bm)
          = extend_to bm k) as ->.
  { unfold extend, extend_to. destruct (Z.leb_spec (Z.of_nat (length bm)) (Z.of_nat (k / 8))).
    - f_equal. f_equal. lia.
    - replace (S (k / 8) - length bm) with 0 by lia. by rewrite app_nil_r. }
  destruct (lookup_lt_is_Some_2 (extend_to bm k) (k / 8)) as [b Hb].
  { unfold extend_to. rewrite length_app, length_replicate. lia. }
  exists b. split; [done|]. unfold Bitfield_set.
  rewrite (slice_at_nat _ _ _ Hb), shl1_nat by done. cbn. by rewrite Nat2Z.id.
Qed.

(** [Add] sets bit [id - 1] and no other bit. *)
Lemma Add_bit bm id :
  (1 ≤ id)%N →
  ∃ bm', Bitfield_Add bm id = Ok bm' ∧
    ∀ j, bf_bit bm' j = bool_decide (j = N.to_nat (id - 1)) || bf_bit bm j.
Proof.
  intros Hid. set (k := N.to_nat (id - 1)).
  destruct (Bitfield_Add_eq bm id Hid) as (b & Hb & ->). fold k in Hb |- *.
  eexists. split; [done|]. intros j. rewrite <-(extend_to_bit bm k j).
  pose proof (lookup_lt_Some _ _ _ Hb) as Hlen. unfold bf_bit.
  destruct (decide (k / 8 = j / 8)) as [Heq|Hne].
  - rewrite <-Heq, list_lookup_insert_eq, Hb by done.
    rewrite lor_pow2_byte by done. rewrite N.lor_spec.
    destruct (decide (k mod 8 = j mod 8)) as [Hm|Hm].
    + rewrite Hm, N.pow2_bits_true, orb_true_r.
      rewrite bool_decide_eq_true_2; [done|].
      rewrite (Nat.div_mod_eq j 8), (Nat.div_mod_eq k 8). congruence.
    + rewrite N.pow2_bits_false, orb_false_r by lia.
      rewrite bool_decide_eq_false_2; [done|]. congruence.
  - rewrite list_lookup_insert_ne by done.
    rewrite bool_decide_eq_false_2; [done|]. congruence.
Qed.

Lemma elem_of_byte_ids i b x :
  x ∈ byte_ids i b ↔
  ∃ k, k < 8 ∧ N.testbit (Byte.to_N b) (N.of_nat k) = true ∧ x = bit_id (N.of_nat i) (N.of_nat k).
Proof.
  unfold byte_ids. rewrite list_elem_of_bind. split.
  - intros (k & Hx & Hk%elem_of_seq). rewrite shl1_small, land_pow2_testbit in Hx by lia.
    exists k. destruct (N.testbit _ _) eqn:E; [|by apply not_elem_of_nil in Hx].
    apply list_elem_of_singleton in Hx. split_and!; [lia|done..].
  - intros (k & Hk & Hb & ->). exists k. rewrite elem_of_seq. split; [|lia].
    rewrite shl1_small, land_pow2_testbit, Hb by done. by apply list_elem_of_singleton.
Qed.

(** ** The bit field is a finite set of IDs *)

Lemma ForEach_elem bm id :
  (8 * N.of_nat (length bm) < two32)%N → (1 ≤ id)%N →
  id ∈ Bitfield_ForEach bm ↔ bf_bit bm (N.to_nat (id - 1)) = true.
Proof.
  intros Hlen Hid. unfold Bitfield_ForEach, bf_bit. rewrite list_elem_of_In, in_concat.
  setoid_rewrite <-list_elem_of_In. split.
  - intros (l & (i & b & -> & Hi)%elem_of_lookup_imap & (k & Hk & Hb & ->)%elem_of_byte_ids).
    pose proof (lookup_lt_Some _ _ _ Hi). unfold bit_id. rewrite wrap32_small by lia.
    replace (N.to_nat (1 + N.of_nat i * 8 + N.of_nat k - 1)) with (i * 8 + k) by lia.
    rewrite Nat.div_add_l, Nat.div_small, Nat.add_0_r, Hi by lia.
    by rewrite Nat.add_comm, Nat.Div0.mod_add, Nat.mod_small by lia.
  - set (j := N.to_nat (id - 1)). destruct (bm !! (j / 8)) as [b|] eqn:E; [|done].
    intros Hb. exists (byte_ids (j / 8) b). split.
    + apply elem_of_lookup_imap. eauto.
    + apply elem_of_byte_ids. exists (j mod 8). split_and!; [done..|].
      pose proof (lookup_lt_Some _ _ _ E). pose proof (Nat.div_mod_eq j 8). pose proof (mod8_lt j).
      unfold bit_id. rewrite wrap32_small by lia. lia.
Qed.

(** The set a field represents. *)
Definition bf_set (bm : Bitfield) : gset ID := list_to_set (Bitfield_ForEach bm).

(** A field whose IDs all fit in a uint32. *)
Definition bf_fits (bm : Bitfield) : Prop := (8 * N.of_nat (length bm) < two32)%N.

Lemma ForEach_pos bm id : bf_fits bm → id ∈ Bitfield_ForEach bm → (1 ≤ id)%N.
Proof.
  unfold bf_fits, Bitfield_ForEach. rewrite list_elem_of_In, in_concat.
  setoid_rewrite <-list_elem_of_In.
  intros Hlen (l & (i & b & -> & Hi)%elem_of_lookup_imap & (k & Hk & Hb & ->)%elem_of_byte_ids).
  pose proof (lookup_lt_Some _ _ _ Hi). unfold bit_id. rewrite wrap32_small by lia. lia.
Qed.

Lemma elem_of_bf_set bm id :
  bf_fits bm → (1 ≤ id)%N → id ∈ bf_set bm ↔ bf_bit bm (N.to_nat (id - 1)) = true.
Proof. intros Hf Hid. unfold bf_set. rewrite elem_of_list_to_set. by apply ForEach_elem. Qed.

Lemma Bitfield_Add_fits bm id bm' :
  bf_fits bm → (1 ≤ id)%N → (id + 8 ≤ two32)%N → Bitfield_Add bm id = Ok bm' → bf_fits bm'.
Proof.
  unfold bf_fits. intros Hf Hid Hid2 HA.
  destruct (Bitfield_Add_eq bm id Hid) as (b & _ & HA'). rewrite HA' in HA. injection HA as <-.
  rewrite length_insert. unfold extend_to. rewrite length_app, length_replicate.
  pose proof (Nat.div_mod_eq (N.to_nat (id - 1)) 8). lia.
Qed.

Lemma Bitfield_Add_set bm id :
  bf_fits bm → (1 ≤ id)%N → (id + 8 ≤ two32)%N →
  ∃ bm', Bitfield_Add bm id = Ok bm' ∧ bf_set bm' = {[id]} ∪ bf_set bm ∧ bf_fits bm'.
Proof.
  intros Hf Hid Hid2.
  destruct (Add_bit bm id Hid) as (bm' & HA & Hbits). exists bm'.
  pose proof (Bitfield_Add_fits _ _ _ Hf Hid Hid2 HA) as Hf'. split_and!; [done| |done].
  apply leibniz_equiv. intros x. rewrite elem_of_union, elem_of_singleton.
  destruct (decide (1 ≤ x)%N) as [Hx|Hx].
  - rewrite !elem_of_bf_set, Hbits, orb_true_iff, bool_decide_eq_true by done.
    split; (intros [?|?]; [left; lia|by right]).
  - unfold bf_set. rewrite !elem_of_list_to_set. split.
    + intros ?%ForEach_pos; done.
    + intros [->|?%ForEach_pos]; done.
Qed.

(** C33: a bit field implements a finite set of IDs.  [Add] of an ID that
    starts at 1 never panics and adds exactly that ID, [Contains] decides
    membership, and what [ForEach] visits is that set. *)
Theorem Bitfield_refines_set (bm : Bitfield) (id : ID) :
  bf_fits bm → (1 ≤ id)%N → (id + 8 ≤ two32)%N →
  (∀ id', (1 ≤ id')%N → Bitfield_Contains bm id' = Ok (bool_decide (id' ∈ bf_set bm))) ∧
  ∃ bm', Bitfield_Add bm id = Ok bm' ∧ bf_set bm' = {[id]} ∪ bf_set bm.
Proof.
  intros Hf Hid Hid2. split.
  { intros id' Hid'. rewrite Contains_bit by done. f_equal.
    apply eq_bool_prop_intro. rewrite bool_decide_spec, elem_of_bf_set by done. apply Is_true_true. }
  destruct (Bitfield_Add_set bm id Hf Hid Hid2) as (bm' & ? & ? & _). by exists bm'.
Qed.

Lemma Bitfield_refines_set_witness :
  bf_set [Byte.x05] = {[1; 3]}%N ∧
  ∃ bm', Bitfield_Add [Byte.x05] 10 = Ok bm' ∧ bf_set bm' = {[10]}%N ∪ bf_set [Byte.x05].
Proof.
  split; [by vm_compute|].
  exact (proj2 (Bitfield_refines_set [Byte.x05] 10 ltac:(done) ltac:(done) ltac:(done))).
Defined.

(** [ForEach] visits the IDs in strictly increasing order. *)
Lemma byte_ids_range i b x :
  (8 * N.of_nat (S i) < two32)%N → x ∈ byte_ids i b → (8 * N.of_nat i < x ≤ 8 * N.of_nat (S i))%N.
Proof.
  intros Hi (k & Hk & _ & ->)%elem_of_byte_ids. unfold bit_id. rewrite wrap32_small by lia. lia.
Qed.

Lemma StronglySorted_if_concat (f : nat → list N) (g : nat → N) n m :
  (∀ k, n ≤ k < n + m → f k = [] ∨ f k = [g k]) →
  (∀ j k, n ≤ j < k → k < n + m → (g j < g k)%N) →
  StronglySorted N.lt (seq n m ≫= f) ∧
  Forall (λ x, ∃ k, n ≤ k < n + m ∧ x = g k) (seq n m ≫= f).
Proof.
  revert n. induction m as [|m IH]; intros n Hf Hg; [by repeat constructor|].
  destruct (IH (S n)) as [IH1 IH2].
  { intros k ?. apply Hf. lia. } { intros j k ??. apply Hg; lia. }
  cbn [seq]. rewrite bind_cons. split.
  - destruct (Hf n) as [->| ->]; [lia|done|]. simpl. constructor; [done|].
    eapply Forall_impl; [exact IH2|]. intros x (k & ? & ->). apply Hg; lia.
  - apply Forall_app. split.
    + destruct (Hf n) as [->| ->]; [lia|constructor|]. constructor; [|constructor].
      exists n. split; [lia|done].
    + eapply Forall_impl; [exact IH2|]. intros x (k & ? & ->). exists k. split; [lia|done].
Qed.

Lemma byte_ids_sorted i b : (8 * N.of_nat (S i) < two32)%N → StronglySorted N.lt (byte_ids i b).
Proof.
  intros Hi.
  apply (StronglySorted_if_concat _ (λ k, bit_id (N.of_nat i) (N.of_nat k)) 0 8).
  - intros k _. destruct (negb _); auto.
  - intros j k ??. unfold bit_id. rewrite !wrap32_small by lia. lia.
Qed.

Lemma StronglySorted_app_lt (l1 l2 : list N) :
  StronglySorted N.lt l1 → StronglySorted N.lt l2 →
  (∀ x y, x ∈ l1 → y ∈ l2 → (x < y)%N) → StronglySorted N.lt (l1 ++ l2).
Proof.
  induction 1 as [|x l1 H1 IH Hx]; intros H2 Hlt; simpl; [done|]. constructor.
  - apply IH; [done|]. intros; apply Hlt; [by right|done].
  - apply Forall_app. split; [done|]. apply Forall_forall. intros y Hy. apply Hlt; [by left|done].
Qed.

Lemma ForEach_sorted_from n bm :
  (8 * N.of_nat (n + length bm) < two32)%N →
  StronglySorted N.lt (concat (imap (λ i, byte_ids (n + i)) bm)) ∧
  ∀ x, x ∈ concat (imap (λ i, byte_ids (n + i)) bm) → (8 * N.of_nat n < x)%N.
Proof.
  revert n. induction bm as [|b bm IH]; intros n Hn; simpl.
  { split; [constructor|]. intros x Hx. by apply not_elem_of_nil in Hx. }
  rewrite Nat.add_0_r.
  rewrite (imap_ext _ (λ i, byte_ids (S n + i)))
    by (intros j y _; unfold compose; f_equal; lia).
  destruct (IH (S n)) as [IH1 IH2]; [simpl in *; lia|].
  assert (8 * N.of_nat (S n) < two32)%N by (simpl in *; lia). split.
  - apply StronglySorted_app_lt; [by apply byte_ids_sorted|done|].
    intros x y Hx%byte_ids_range Hy%IH2; lia.
  - intros x [Hx%byte_ids_range|Hx%IH2]%elem_of_app; lia.
Qed.

Lemma ForEach_sorted bm :
  bf_fits bm → StronglySorted N.lt (Bitfield_ForEach bm) ∧ NoDup (Bitfield_ForEach bm).
Proof.
  intros Hf. pose proof (proj1 (ForEach_sorted_from 0 bm Hf)) as Hs. split; [exact Hs|].
  change (concat _) with (Bitfield_ForEach bm) in Hs.
  induction Hs as [|x l _ IH Hx]; constructor; [|done].
  intros Hin. rewrite Forall_forall in Hx. specialize (Hx _ Hin). lia.
Qed.

(** [ForEach] calls its function on the members in strictly increasing
    order, hence on each member once. *)
Theorem Bitfield_ForEach_sorted (bm : Bitfield) :
  bf_fits bm → StronglySorted N.lt (Bitfield_ForEach bm) ∧ NoDup (Bitfield_ForEach bm).
Proof. apply ForEach_sorted. Qed.

Lemma Bitfield_ForEach_sorted_witness : StronglySorted N.lt (Bitfield_ForEach [Byte.xff; Byte.x81]).
Proof. exact (proj1 (Bitfield_ForEach_sorted [Byte.xff; Byte.x81] ltac:(done))). Defined.

(** ID 0 is not representable: adding it shifts by a negative amount. *)
Lemma Bitfield_Add_zero bm : Bitfield_Add bm 0 = Panic "negative shift amount".
Proof.
  unfold Bitfield_Add. cbn.
  destruct (Z.leb_spec (Z.of_nat (length bm)) 0).
  - destruct bm; [|simpl in *; lia]. reflexivity.
  - destruct bm; [simpl in *; lia|]. reflexivity.
Qed.
