(* ===== verification/Types.v ===== *)
(** * consensus: the data of the protocol

    helper.go, hotstuff.go, consensus/types.go, consensus/block.go,
    consensus/events.go, consensus/genesis.go and consensus/options.go, with
    the signature data of crypto/ecdsa and crypto/bls12.

    A Go interface value of type [Signature] or [ThresholdSignature] is an
    [option] (nil or a value) of an inductive with one constructor per
    implementation.  The curve points of github.com/kilic/bls12-381 and its
    operations are the class [BLS12Lib]. *)

From S2P Require Import Prelude Encoding Bitfield.
From Stdlib Require Import Strings.Byte Sorted.
From stdpp Require Import sorting.

(** ** helper.go and hotstuff.go *)

Definition NumFaulty (n : Z) : Z := go_div (n - 1) 3.
Definition QuorumSize (n : Z) : Z := n - NumFaulty n.

Definition ID_ToBytes (id : ID) : bytes := PutUint32 id.

(** ** View and Hash *)

(** [consensus.View] is a uint64. *)
Abbreviation View := N.

(** [consensus.Hash] is an array of 32 bytes. *)
Abbreviation Hash := (list Byte.byte).

(** [consensus.Command] is an immutable byte string. *)
Abbreviation Command := (list Byte.byte).

Definition wf_hash (h : Hash) : Prop := length h = 32.
Definition zero_hash : Hash := replicate 32 Byte.x00.

Definition View_ToBytes (v : View) : bytes := PutUint64 v.
Definition View_ToHash (v : View) : Hash := PutUint64 v ++ replicate 24 Byte.x00.

Definition Hash_String (h : Hash) : bytes := base64_encode h.

Lemma wf_zero_hash : wf_hash zero_hash.
Proof. reflexivity. Qed.

Lemma wf_View_ToHash v : wf_hash (View_ToHash v).
Proof. unfold wf_hash, View_ToHash, PutUint64. by rewrite length_app, length_le_bytes. Qed.

Lemma View_ToHash_inj v w :
  (v < two64)%N → (w < two64)%N → View_ToHash v = View_ToHash w → v = w.
Proof.
  intros Hv Hw H. unfold View_ToHash in H.
  apply (app_inj_1 _ _ _ _) in H as [H _]; [|by unfold PutUint64; rewrite !length_le_bytes].
  by apply (le_bytes_inj 8).
Qed.

(** ** IDSet: the default map implementation *)

Definition NewIDSet : gset ID := ∅.
Definition idSetMap_Add (s : gset ID) (id : ID) : gset ID := {[id]} ∪ s.
Definition idSetMap_Contains (s : gset ID) (id : ID) : bool := bool_decide (id ∈ s).

(** ** The bls12-381 library *)

Class BLS12Lib := {
  PointG1 : Type;
  PointG2 : Type;
  G1One : PointG1;
  G1_MulScalarBig : PointG1 → N → PointG1;
  G1_ToCompressed : PointG1 → bytes;
  G1_FromCompressed : bytes → option PointG1;
  G2_Zero : PointG2;
  G2_Add : PointG2 → PointG2 → PointG2;
  G2_MulScalarBig : PointG2 → N → PointG2;
  G2_ToCompressed : PointG2 → bytes;
  G2_FromCompressed : bytes → option PointG2;
  G2_HashToCurve : bytes → bytes → option PointG2;
  (** the pairing engine: the pairs added so far, each flagged when it was
      added with [AddPairInv], and whether [Result().IsOne()] *)
  engine_IsOne : list (bool * PointG1 * PointG2) → bool;
}.

(** What bls12.go relies on: compression can be undone. *)
Class BLS12Laws (B : BLS12Lib) := {
  G2_FromCompressed_ToCompressed p : G2_FromCompressed (G2_ToCompressed p) = Some p;
  G1_FromCompressed_ToCompressed p : G1_FromCompressed (G1_ToCompressed p) = Some p;
}.

(** A lawful instance to evaluate the model with: points are scalars modulo
    the group order and the pairing multiplies them.  It has the algebra of
    the curve and none of its hardness. *)
Definition curveOrder : N := 0x73eda753299d7d483339d80809a1d80553bda402fffe5bfeffffffff00000001.

Definition ScalarBLS : BLS12Lib := {|
  PointG1 := N;
  PointG2 := N;
  G1One := 1%N;
  G1_MulScalarBig p k := (p * k mod curveOrder)%N;
  G1_ToCompressed := big_Bytes;
  G1_FromCompressed bs := Some (big_SetBytes bs);
  G2_Zero := 0%N;
  G2_Add p q := ((p + q) mod curveOrder)%N;
  G2_MulScalarBig p k := (p * k mod curveOrder)%N;
  G2_ToCompressed := big_Bytes;
  G2_FromCompressed bs := Some (big_SetBytes bs);
  G2_HashToCurve msg domain := Some (big_SetBytes msg mod curveOrder)%N;
  engine_IsOne ps :=
    (foldl (λ acc '(inv, p, q),
       if inv : bool then (acc + (curveOrder - p * q mod curveOrder)) mod curveOrder
       else (acc + p * q) mod curveOrder) 0 ps =? 0)%N;
|}.

#[export] Instance ScalarBLS_laws : BLS12Laws ScalarBLS.
Proof. split; intros p; simpl; by rewrite big_SetBytes_Bytes. Qed.

(** ** Signatures *)

(** ecdsa.Signature: two non-negative big integers and the signer. *)
Record ecdsa_Signature := ec_sig { ec_r : N; ec_s : N; ec_signer : ID }.

#[export] Instance ecdsa_Signature_eq_dec : EqDecision ecdsa_Signature.
Proof. solve_decision. Defined.

Definition RestoreSignature (r s : N) (signer : ID) : ecdsa_Signature := ec_sig r s signer.

Definition ecdsa_Signature_ToBytes (sig : ecdsa_Signature) : bytes :=
  big_Bytes (ec_r sig) ++ big_Bytes (ec_s sig).

(** ecdsa.ThresholdSignature: a map from signer to signature. *)
Abbreviation ecdsa_ThresholdSignature := (gmap ID ecdsa_Signature).

Definition RestoreThresholdSignature (signatures : list ecdsa_Signature) : ecdsa_ThresholdSignature :=
  foldl (λ sig s, <[ec_signer s := s]> sig) ∅ signatures.

(** [sort.Search] on the ascending [order] finds the first entry above the
    signer; [order] gets the signer inserted there. *)
Fixpoint insert_order (signer : ID) (order : list ID) : list ID :=
  match order with
  | [] => [signer]
  | x :: rest => if (signer <? x)%N then signer :: order else x :: insert_order signer rest
  end.

(** [ToBytes] for one iteration order [sigs] of the map. *)
Definition ecdsa_order (sigs : list ecdsa_Signature) : list ID :=
  foldl (λ order s, insert_order (ec_signer s) order) [] sigs.

Definition ecdsa_Threshold_ToBytes (sig : ecdsa_ThresholdSignature) : bytes :=
  id ← ecdsa_order (snd <$> map_to_list sig);
  match sig !! id with
  | Some s => ecdsa_Signature_ToBytes s
  | None => []
  end.

Section types.
Context {B : BLS12Lib}.

(** bls12.Signature and bls12.AggregateSignature. *)
Record bls12_Signature := bls_sig { bls_signer : ID; bls_s : PointG2 }.
Record AggregateSignature := agg_sig_mk { as_sig : PointG2; as_participants : Bitfield }.

Inductive Signature :=
| SigECDSA (s : ecdsa_Signature)
| SigBLS12 (s : bls12_Signature).

(** A bls12 threshold signature is a pointer, which can be nil. *)
Inductive ThresholdSignature :=
| ThrECDSA (s : ecdsa_ThresholdSignature)
| ThrBLS12 (s : option AggregateSignature).

Definition Signature_Signer (sig : Signature) : ID :=
  match sig with
  | SigECDSA s => ec_signer s
  | SigBLS12 s => bls_signer s
  end.

Definition bls12_Signature_ToBytes (s : bls12_Signature) : bytes :=
  PutUint32 (bls_signer s) ++ G2_ToCompressed (bls_s s).

Definition AggregateSignature_ToBytes (agg : option AggregateSignature) : bytes :=
  match agg with
  | None => []
  | Some agg => G2_ToCompressed (as_sig agg)
  end.

Definition Signature_ToBytes (sig : Signature) : bytes :=
  match sig with
  | SigECDSA s => ecdsa_Signature_ToBytes s
  | SigBLS12 s => bls12_Signature_ToBytes s
  end.

Definition Threshold_ToBytes (sig : ThresholdSignature) : bytes :=
  match sig with
  | ThrECDSA s => ecdsa_Threshold_ToBytes s
  | ThrBLS12 s => AggregateSignature_ToBytes s
  end.

(** [Participants().ForEach]: the participants, in visiting order. *)
Definition Threshold_Participants (sig : ThresholdSignature) : res (list ID) :=
  match sig with
  | ThrECDSA s => Ok (fst <$> map_to_list s)
  | ThrBLS12 (Some agg) => Ok (Bitfield_ForEach (as_participants agg))
  | ThrBLS12 None => Panic "nil pointer dereference"
  end.

(** ** Certificates *)

Record PartialCert := NewPartialCert {
  pc_signature : option Signature;
  pc_blockHash : Hash }.

Definition PartialCert_ToBytes (pc : PartialCert) : res bytes :=
  match pc_signature pc with
  | Some sig => Ok (pc_blockHash pc ++ Signature_ToBytes sig)
  | None => Panic "nil pointer dereference"
  end.

Record QuorumCert := NewQuorumCert {
  qc_signature : option ThresholdSignature;
  qc_view : View;
  qc_hash : Hash }.

Definition zero_QC : QuorumCert := NewQuorumCert None 0 zero_hash.

Definition QC_ToBytes (qc : QuorumCert) : bytes :=
  View_ToBytes (qc_view qc) ++ qc_hash qc ++
  match qc_signature qc with
  | Some sig => Threshold_ToBytes sig
  | None => []
  end.

Definition QC_Equals (qc other : QuorumCert) : bool :=
  if negb (qc_view qc =? qc_view other)%N then false
  else if negb (bool_decide (qc_hash qc = qc_hash other)) then false
  else match qc_signature qc, qc_signature other with
       | None, None => true
       | None, Some _ | Some _, None => false
       | Some s1, Some s2 => bool_decide (Threshold_ToBytes s1 = Threshold_ToBytes s2)
       end.

Record TimeoutCert := NewTimeoutCert {
  tc_signature : option ThresholdSignature;
  tc_view : View }.

Definition TimeoutCert_ToBytes (tc : TimeoutCert) : res bytes :=
  match tc_signature tc with
  | Some sig => Ok (PutUint64 (tc_view tc) ++ Threshold_ToBytes sig)
  | None => Panic "nil pointer dereference"
  end.

Record AggregateQC := NewAggregateQC {
  agg_qcs : gmap ID QuorumCert;
  agg_sig : option ThresholdSignature;
  agg_view : View }.

(** ** SyncInfo *)

Record SyncInfo := mkSyncInfo {
  si_qc : option QuorumCert;
  si_tc : option TimeoutCert;
  si_aggQC : option AggregateQC }.

Definition NewSyncInfo : SyncInfo := mkSyncInfo None None None.
Definition SyncInfo_WithQC (si : SyncInfo) (qc : QuorumCert) : SyncInfo :=
  mkSyncInfo (Some qc) (si_tc si) (si_aggQC si).
Definition SyncInfo_WithTC (si : SyncInfo) (tc : TimeoutCert) : SyncInfo :=
  mkSyncInfo (si_qc si) (Some tc) (si_aggQC si).
Definition SyncInfo_WithAggQC (si : SyncInfo) (aggQC : AggregateQC) : SyncInfo :=
  mkSyncInfo (si_qc si) (si_tc si) (Some aggQC).

(** The accessors return the zero value and false when absent. *)
Definition SyncInfo_QC (si : SyncInfo) : QuorumCert * bool :=
  match si_qc si with
  | Some qc => (qc, true)
  | None => (zero_QC, false)
  end.
Definition SyncInfo_TC (si : SyncInfo) : TimeoutCert * bool :=
  match si_tc si with
  | Some tc => (tc, true)
  | None => (NewTimeoutCert None 0, false)
  end.
Definition SyncInfo_AggQC (si : SyncInfo) : AggregateQC * bool :=
  match si_aggQC si with
  | Some a => (a, true)
  | None => (NewAggregateQC ∅ None 0, false)
  end.

(** ** Blocks *)

Record Block := mkBlock {
  b_hash : Hash;
  b_parent : Hash;
  b_proposer : ID;
  b_cmd : Command;
  b_cert : QuorumCert;
  b_view : View }.

Definition Block_bytes (parent : Hash) (proposer : ID) (view : View) (cmd : Command)
    (cert : QuorumCert) : bytes :=
  parent ++ PutUint32 proposer ++ PutUint64 view ++ cmd ++ QC_ToBytes cert.

Definition Block_ToBytes (b : Block) : bytes :=
  Block_bytes (b_parent b) (b_proposer b) (b_view b) (b_cmd b) (b_cert b).

(** The hash is computed once, from the other fields. *)
Definition NewBlock (parent : Hash) (cert : QuorumCert) (cmd : Command) (view : View)
    (proposer : ID) : Block :=
  mkBlock (sha256_Sum256 (Block_bytes parent proposer view cmd cert))
          parent proposer cmd cert view.

(** consensus/genesis.go makes the block once, when the program starts. *)
Definition GetGenesis : Block := Eval vm_compute in NewBlock zero_hash zero_QC [] 0 0.

Lemma GetGenesis_eq : GetGenesis = NewBlock zero_hash zero_QC [] 0 0.
Proof. vm_compute. reflexivity. Qed.

(** ** Messages and events *)

Record ProposeMsg := mkPropose {
  pm_ID : ID;
  pm_Block : Block;
  pm_AggregateQC : option AggregateQC }.

Record VoteMsg := mkVote {
  vm_ID : ID;
  vm_PartialCert : PartialCert;
  vm_Deferred : bool }.

Record TimeoutMsg := mkTimeout {
  tm_ID : ID;
  tm_View : View;
  tm_ViewSignature : option Signature;
  tm_MsgSignature : option Signature;
  tm_SyncInfo : SyncInfo }.

Definition TimeoutMsg_Hash (timeout : TimeoutMsg) : Hash :=
  sha256_Sum256
    (View_ToBytes (tm_View timeout) ++
     (let '(qc, ok) := SyncInfo_QC (tm_SyncInfo timeout) in
      if ok then qc_hash qc else []) ++
     ID_ToBytes (tm_ID timeout)).

Record NewViewMsg := mkNewView {
  nv_ID : ID;
  nv_SyncInfo : SyncInfo }.

(** ** Options *)

Record Options := mkOptions { shouldUseAggQC : bool }.
Definition SetShouldUseAggQC (opts : Options) : Options := mkOptions true.
End types.

(** ** Quorums *)

Lemma NumFaulty_bounds n : (1 ≤ n)%Z → (0 ≤ NumFaulty n ∧ 3 * NumFaulty n < n)%Z.
Proof.
  intros Hn. unfold NumFaulty, go_div. rewrite Z.quot_div_nonneg by lia.
  pose proof (Z.div_mod (n - 1) 3). pose proof (Z.mod_pos_bound (n - 1) 3). lia.
Qed.

Lemma quorum_overlap (all Q1 Q2 : gset ID) :
  let n := Z.of_nat (size all) in
  (1 ≤ n)%Z → Q1 ⊆ all → Q2 ⊆ all →
  (QuorumSize n ≤ Z.of_nat (size Q1))%Z → (QuorumSize n ≤ Z.of_nat (size Q2))%Z →
  (NumFaulty n < Z.of_nat (size (Q1 ∩ Q2)))%Z.
Proof.
  intros n Hn H1 H2 HQ1 HQ2. unfold QuorumSize in *.
  pose proof (NumFaulty_bounds n Hn) as Hf.
  assert (size Q1 + size Q2 = size (Q1 ∪ Q2) + size (Q1 ∩ Q2)) as Hsz.
  { pose proof (size_union_alt Q1 Q2) as Ha. pose proof (size_difference_alt Q2 Q1) as Hb.
    pose proof (subseteq_size (Q2 ∩ Q1) Q2 ltac:(set_solver)) as Hc.
    assert (size (Q1 ∩ Q2) = size (Q2 ∩ Q1)) as -> by (apply set_size_proper; set_solver). lia. }
  pose proof (subseteq_size (Q1 ∪ Q2) all ltac:(set_solver)). lia.
Qed.

Lemma quorum_shares_correct (all Q1 Q2 : gset ID) :
  let n := Z.of_nat (size all) in
  (1 ≤ n)%Z → Q1 ⊆ all → Q2 ⊆ all →
  (QuorumSize n ≤ Z.of_nat (size Q1))%Z → (QuorumSize n ≤ Z.of_nat (size Q2))%Z →
  ∀ faulty, faulty ⊆ all → (Z.of_nat (size faulty) ≤ NumFaulty n)%Z →
    ∃ id, id ∈ Q1 ∩ Q2 ∧ id ∉ faulty.
Proof.
  intros n Hn H1 H2 HQ1 HQ2 faulty Hfa Hsz.
  pose proof (quorum_overlap all Q1 Q2 Hn H1 H2 HQ1 HQ2) as Hint.
  fold n in Hint. destruct (decide (Q1 ∩ Q2 ⊆ faulty)) as [Hsub|Hnsub].
  - pose proof (subseteq_size _ _ Hsub). lia.
  - assert (∃ x, x ∈ (Q1 ∩ Q2) ∖ faulty) as [x Hx].
    { apply set_choose_L. intros He. apply Hnsub. set_solver. }
    exists x. set_solver.
Qed.

(** Two quorums of a configuration of [n] replicas share more than
    [NumFaulty n] members, so at least one correct one, and the replicas that
    are not faulty always form a quorum. *)
Theorem quorum_intersection (all Q1 Q2 : gset ID) :
  let n := Z.of_nat (size all) in
  (1 ≤ n)%Z → Q1 ⊆ all → Q2 ⊆ all →
  (QuorumSize n ≤ Z.of_nat (size Q1))%Z → (QuorumSize n ≤ Z.of_nat (size Q2))%Z →
  (NumFaulty n < Z.of_nat (size (Q1 ∩ Q2)))%Z ∧
  ∀ faulty, faulty ⊆ all → (Z.of_nat (size faulty) ≤ NumFaulty n)%Z →
    (QuorumSize n ≤ Z.of_nat (size (all ∖ faulty)))%Z ∧ ∃ id, id ∈ Q1 ∩ Q2 ∧ id ∉ faulty.
Proof.
  intros n Hn H1 H2 HQ1 HQ2. split; [by apply quorum_overlap|].
  intros faulty Hfa Hsz. split; [|by eapply quorum_shares_correct].
  pose proof (NumFaulty_bounds n Hn). unfold QuorumSize.
  rewrite size_difference by done. pose proof (subseteq_size _ _ Hfa). lia.
Qed.

Lemma quorum_intersection_witness :
  ∃ id, id ∈ ({[1; 2; 3]} ∩ {[2; 3; 4]} : gset ID)%N ∧ id ∉ ({[2]} : gset ID)%N.
Proof.
  refine (proj2 (proj2 (quorum_intersection {[1; 2; 3; 4]}%N {[1; 2; 3]}%N {[2; 3; 4]}%N
    _ _ _ _ _) {[2]}%N _ _)); try set_solver; by vm_compute.
Defined.

(** The doc comment of [QuorumSize] says 2f + 1, which is what it computes
    only when n = 3f + 1. *)
Lemma QuorumSize_2f1 f : (0 ≤ f)%Z → QuorumSize (3 * f + 1) = (2 * f + 1)%Z.
Proof.
  intros Hf. unfold QuorumSize, NumFaulty, go_div.
  rewrite Z.quot_div_nonneg by lia. replace (3 * f + 1 - 1)%Z with (f * 3)%Z by lia.
  rewrite Z.div_mul by done. lia.
Qed.

Example QuorumSize_5 : QuorumSize 5 = 4%Z ∧ (2 * NumFaulty 5 + 1 = 3)%Z.
Proof. done. Qed.

(** ** Byte encodings *)

Lemma insert_order_perm x l : insert_order x l ≡ₚ x :: l.
Proof.
  induction l as [|y l IH]; simpl; [done|]. destruct (x <? y)%N; [done|].
  rewrite IH. constructor.
Qed.

Lemma insert_order_sorted x l : StronglySorted N.le l → StronglySorted N.le (insert_order x l).
Proof.
  induction 1 as [|y l Hl IH Hy]; simpl; [by repeat constructor|].
  destruct (N.ltb_spec x y).
  - constructor; [by constructor|]. constructor; [lia|].
    eapply Forall_impl; [exact Hy|]. simpl. lia.
  - constructor; [done|]. rewrite insert_order_perm. by constructor.
Qed.

Lemma ecdsa_order_spec sigs :
  StronglySorted N.le (ecdsa_order sigs) ∧ ecdsa_order sigs ≡ₚ ec_signer <$> sigs.
Proof.
  induction sigs as [|s sigs [IH1 IH2]] using rev_ind; [by repeat constructor|].
  unfold ecdsa_order in *. rewrite foldl_app. simpl. split.
  - by apply insert_order_sorted.
  - rewrite insert_order_perm, IH2, fmap_app. by rewrite Permutation_app_comm.
Qed.

(** The byte form of an ECDSA threshold signature does not depend on the
    order in which Go iterates over the map. *)
Theorem ecdsa_order_deterministic (sig : ecdsa_ThresholdSignature) (sigs : list ecdsa_Signature) :
  sigs ≡ₚ snd <$> map_to_list sig →
  ecdsa_order sigs = ecdsa_order (snd <$> map_to_list sig) ∧
  StronglySorted N.le (ecdsa_order sigs).
Proof.
  intros Hp. destruct (ecdsa_order_spec sigs) as [S1 P1].
  destruct (ecdsa_order_spec (snd <$> map_to_list sig)) as [S2 P2].
  split; [|done]. apply (StronglySorted_unique N.le); [done..|].
  by rewrite P1, P2, Hp.
Qed.

Lemma ecdsa_order_deterministic_witness :
  let m : ecdsa_ThresholdSignature := {[2 := ec_sig 5 6 2; 1 := ec_sig 7 8 1]}%N in
  ecdsa_order (reverse (snd <$> map_to_list m)) = ecdsa_order (snd <$> map_to_list m).
Proof.
  intros m.
  exact (proj1 (ecdsa_order_deterministic m (reverse (snd <$> map_to_list m))
                  (reverse_Permutation _))).
Defined.

(** Every map the package builds stores a signature under its signer. *)
Definition wf_ecdsa_Threshold (sig : ecdsa_ThresholdSignature) : Prop :=
  map_Forall (λ id s, ec_signer s = id) sig.

Lemma wf_RestoreThresholdSignature l : wf_ecdsa_Threshold (RestoreThresholdSignature l).
Proof.
  unfold RestoreThresholdSignature.
  assert (∀ m, wf_ecdsa_Threshold m →
    wf_ecdsa_Threshold (foldl (λ sig s, <[ec_signer s := s]> sig) m l)) as H.
  { induction l as [|s l IH]; intros m Hm; simpl; [done|].
    apply IH, map_Forall_insert_2; done. }
  apply H, map_Forall_empty.
Qed.

Section types_facts.
Context {B : BLS12Lib}.

Lemma QC_Equals_spec (qc other : QuorumCert) :
  QC_Equals qc other = true ↔
  qc_view qc = qc_view other ∧ qc_hash qc = qc_hash other ∧
  Threshold_ToBytes <$> qc_signature qc = Threshold_ToBytes <$> qc_signature other.
Proof.
  unfold QC_Equals.
  destruct (N.eqb_spec (qc_view qc) (qc_view other)); simpl; [|naive_solver].
  destruct (decide (qc_hash qc = qc_hash other)).
  - rewrite bool_decide_eq_true_2 by done. simpl.
    destruct (qc_signature qc), (qc_signature other); simpl;
      rewrite ?bool_decide_eq_true; intuition congruence.
  - rewrite bool_decide_eq_false_2 by done. simpl. naive_solver.
Qed.

(** [Equals] as a relation. *)
Definition QC_equiv (qc other : QuorumCert) : Prop := QC_Equals qc other = true.

#[export] Instance QC_equiv_equivalence : Equivalence QC_equiv.
Proof.
  unfold QC_equiv. split.
  - intros x. by apply QC_Equals_spec.
  - intros x y Hxy. apply QC_Equals_spec in Hxy as (?&?&?). by apply QC_Equals_spec.
  - intros x y z Hxy Hyz. apply QC_Equals_spec in Hxy as (?&?&?).
    apply QC_Equals_spec in Hyz as (?&?&?). apply QC_Equals_spec. split_and!; by etrans.
Qed.

#[export] Instance QC_ToBytes_Proper : Proper (QC_equiv ==> eq) QC_ToBytes.
Proof.
  intros x y Hxy. apply QC_Equals_spec in Hxy as (Hv & Hh & Hs). unfold QC_ToBytes.
  rewrite Hv, Hh. do 2 f_equal.
  destruct (qc_signature x), (qc_signature y); simpl in *; congruence.
Qed.

(** A block whose cached hash is the hash of its fields. *)
Definition wf_block (b : Block) : Prop :=
  b_hash b = sha256_Sum256 (Block_ToBytes b) ∧
  length (b_parent b) = 32 ∧ (b_proposer b < two32)%N ∧ (b_view b < two64)%N.

Lemma wf_NewBlock parent cert cmd view proposer :
  length parent = 32 → (proposer < two32)%N → (view < two64)%N →
  wf_block (NewBlock parent cert cmd view proposer).
Proof. by repeat split. Qed.

Lemma wf_genesis : wf_block GetGenesis.
Proof. rewrite GetGenesis_eq. by apply wf_NewBlock. Qed.

Lemma length_b_hash b : wf_block b → length (b_hash b) = 32.
Proof. intros [-> _]. apply length_sha256. Qed.

(** C34: the hash of a block binds its parent, proposer, view and the bytes of
    its command followed by its certificate: when two well-formed blocks have the
    same hash, they agree on these, or the bytes of these very two blocks are two
    different messages with the same SHA-256 digest. *)
Theorem Block_hash_binds (b1 b2 : Block) :
  wf_block b1 → wf_block b2 → b_hash b1 = b_hash b2 →
  (Block_ToBytes b1 ≠ Block_ToBytes b2 ∧
   sha256_Sum256 (Block_ToBytes b1) = sha256_Sum256 (Block_ToBytes b2)) ∨
  (b_parent b1 = b_parent b2 ∧ b_proposer b1 = b_proposer b2 ∧ b_view b1 = b_view b2 ∧
   b_cmd b1 ++ QC_ToBytes (b_cert b1) = b_cmd b2 ++ QC_ToBytes (b_cert b2)).
Proof.
  intros (H1 & P1 & I1 & V1) (H2 & P2 & I2 & V2) Heq.
  destruct (decide (Block_ToBytes b1 = Block_ToBytes b2)) as [Hb|Hb].
  2: { left. by rewrite <-H1, <-H2. }
  right. unfold Block_ToBytes, Block_bytes in Hb.
  apply app_inj_1 in Hb as [Hp Hb]; [|lia].
  apply app_inj_1 in Hb as [Hi Hb]; [|by unfold PutUint32; rewrite !length_le_bytes].
  apply app_inj_1 in Hb as [Hv Hb]; [|by unfold PutUint64; rewrite !length_le_bytes].
  split_and!; [done|by apply (le_bytes_inj 4)|by apply (le_bytes_inj 8)|done].
Qed.

(** The command and the certificate are concatenated without a length: a
    certificate for the genesis block whose signature bytes end in another
    certificate can be read as a longer command. *)
Definition amb_sig : ecdsa_ThresholdSignature :=
  {[1%N := ec_sig (big_SetBytes (Byte.x01 :: PutUint64 0 ++ b_hash GetGenesis)) 0 1]}.
Definition amb_cert1 : QuorumCert := NewQuorumCert (Some (ThrECDSA amb_sig)) 0 (b_hash GetGenesis).
Definition amb_cmd2 : Command := PutUint64 0 ++ b_hash GetGenesis ++ [Byte.x01].
Definition amb_cert2 : QuorumCert := NewQuorumCert None 0 (b_hash GetGenesis).

Lemma amb_bytes : [] ++ QC_ToBytes amb_cert1 = amb_cmd2 ++ QC_ToBytes amb_cert2.
Proof. vm_compute. reflexivity. Qed.

Lemma amb_same_hash parent view proposer :
  b_hash (NewBlock parent amb_cert1 [] view proposer) =
  b_hash (NewBlock parent amb_cert2 amb_cmd2 view proposer).
Proof.
  unfold NewBlock, Block_bytes. cbn [b_hash].
  change (QC_ToBytes amb_cert1) with ([] ++ QC_ToBytes amb_cert1). by rewrite amb_bytes.
Qed.
End types_facts.


(** The witness is two different blocks with the same hash. *)
#[local] Existing Instance ScalarBLS.
Lemma Block_hash_binds_witness :
  let b1 := NewBlock (b_hash GetGenesis) amb_cert1 [] 1 1 in
  let b2 := NewBlock (b_hash GetGenesis) amb_cert2 amb_cmd2 1 1 in
  b_cmd b1 ≠ b_cmd b2 ∧ b_cmd b1 ++ QC_ToBytes (b_cert b1) = b_cmd b2 ++ QC_ToBytes (b_cert b2).
Proof.
  intros b1 b2. split; [vm_compute; discriminate|].
  assert (∀ cert cmd, wf_block (NewBlock (b_hash (GetGenesis)) cert cmd 1 1)) as Hwf
    by (intros; apply wf_NewBlock; [apply length_b_hash, wf_genesis|done..]).
  destruct (Block_hash_binds b1 b2 (Hwf _ _) (Hwf _ _) (amb_same_hash _ _ _)) as [[Hne _]|(_ & _ & _ & ?)]; [|done].
  destruct Hne. unfold Block_ToBytes, Block_bytes, b1, b2. cbn [b_parent b_proposer b_view b_cmd b_cert NewBlock].
  change (QC_ToBytes amb_cert1) with ([] ++ QC_ToBytes amb_cert1). by rewrite amb_bytes.
Defined.
