(* ===== verification/BlockChain.v ===== *)
(** * blockchain/blockchain.go: the block store

    [blockChain] is the struct of the source without its mutex; every method
    runs with the mutex held, except while [Get] waits for the network.  What
    other goroutines store during that wait, and what the network answers, is
    the argument [net]: the reply of the [k]-th fetch. *)

From S2P Require Import Prelude Encoding Bitfield Types.
From Stdlib Require Import Strings.Byte.

Section blockchain.
Context {B : BLS12Lib}.

(** A context.CancelFunc is the number of the context it cancels. *)
Record blockChain := mkChain {
  pruneHeight : View;
  blocks : gmap Hash Block;
  blockAtHeight : gmap View Block;
  pendingFetch : gmap Hash nat;
  fetches : nat;             (** contexts created so far *)
  cancelled : gset nat }.    (** contexts cancelled so far *)

(** What happens during the [k]-th fetch: the blocks stored meanwhile, and
    the block that was fetched, if any. *)
Definition Network : Type := nat → Hash → list Block * option Block.

Definition blockChain_Store (block : Block) (chain : blockChain) : blockChain :=
  mkChain (pruneHeight chain)
    (<[b_hash block := block]> (blocks chain))
    (<[b_view block := block]> (blockAtHeight chain))
    (pendingFetch chain) (fetches chain)
    (match pendingFetch chain !! b_hash block with
     | Some cancel => {[cancel]} ∪ cancelled chain
     | None => cancelled chain
     end).

Definition blockChain_New : blockChain :=
  blockChain_Store GetGenesis (mkChain 0 ∅ ∅ ∅ 0 ∅).

Definition blockChain_LocalGet (hash : Hash) (chain : blockChain) : option Block :=
  blocks chain !! hash.

Definition begin_fetch (hash : Hash) (chain : blockChain) : blockChain :=
  mkChain (pruneHeight chain) (blocks chain) (blockAtHeight chain)
    (<[hash := fetches chain]> (pendingFetch chain)) (S (fetches chain)) (cancelled chain).

Definition end_fetch (hash : Hash) (chain : blockChain) : blockChain :=
  mkChain (pruneHeight chain) (blocks chain) (blockAtHeight chain)
    (delete hash (pendingFetch chain)) (fetches chain) (cancelled chain).

(** A fetched block is stored under the hash that was asked for. *)
Definition insert_fetched (hash : Hash) (block : Block) (chain : blockChain) : blockChain :=
  mkChain (pruneHeight chain) (<[hash := block]> (blocks chain))
    (<[b_view block := block]> (blockAtHeight chain))
    (pendingFetch chain) (fetches chain) (cancelled chain).

Definition blockChain_Get (net : Network) (hash : Hash) (chain : blockChain)
    : option Block * blockChain :=
  match blocks chain !! hash with
  | Some block => (Some block, chain)
  | None =>
    let '(arrived, reply) := net (fetches chain) hash in
    let chain' := end_fetch hash
      (foldl (λ c b, blockChain_Store b c) (begin_fetch hash chain) arrived) in
    match reply with
    | None => (blocks chain' !! hash, chain')
    | Some block => (Some block, insert_fetched hash block chain')
    end
  end.

(** The loop of [Extends]: [current] is [None] when the last [Get] failed. *)
Fixpoint Extends_loop (net : Network) (fuel : nat) (target : Block) (current : option Block)
    (chain : blockChain) : res (option Block * blockChain) :=
  match current with
  | None => Ok (None, chain)
  | Some cur =>
    if (b_view target <? b_view cur)%N then
      match fuel with
      | O => NoFuel
      | S fuel =>
        let '(next, chain') := blockChain_Get net (b_parent cur) chain in
        Extends_loop net fuel target next chain'
      end
    else Ok (Some cur, chain)
  end.

Definition blockChain_Extends (net : Network) (fuel : nat) (block target : Block)
    (chain : blockChain) : res (bool * blockChain) :=
  '(current, chain') ← Extends_loop net fuel target (Some block) chain;
  mret (match current with
        | Some cur => bool_decide (b_hash cur = b_hash target)
        | None => false
        end, chain').

(** First loop of [PruneToHeight]: the views of the committed branch. *)
Fixpoint committed_loop (fuel : nat) (chain : blockChain) (h : View) (views : gset View)
    : res (gset View) :=
  if (h <? pruneHeight chain)%N then Ok views
  else match blockAtHeight chain !! h with
       | None => Ok views
       | Some block =>
         match blocks chain !! b_parent block with
         | None => Ok views
         | Some parent =>
           if (b_view parent <? pruneHeight chain)%N then Ok views
           else match fuel with
                | O => NoFuel
                | S fuel => committed_loop fuel chain (b_view parent) ({[b_view parent]} ∪ views)
                end
         end
       end.

(** Second loop: [n] iterations from [h] downwards. *)
Fixpoint prune_loop (n : nat) (h : View) (views : gset View) (m : gmap View Block)
    (forked : list Block) : list Block * gmap View Block :=
  match n with
  | O => (forked, m)
  | S n =>
    let forked' :=
      if bool_decide (h ∈ views) then forked
      else match m !! h with
           | Some block => forked ++ [block]
           | None => forked
           end in
    prune_loop n (h - 1)%N views (delete h m) forked'
  end.

Definition blockChain_PruneToHeight (fuel : nat) (committedBlock : Block) (height : View)
    (chain : blockChain) : res (list Block * blockChain) :=
  let committedHeight := b_view committedBlock in
  views ← committed_loop fuel chain committedHeight {[committedHeight]};
  let '(forked, m) :=
    prune_loop (N.to_nat (height - pruneHeight chain)) height views (blockAtHeight chain) [] in
  mret (forked, mkChain height (blocks chain) m (pendingFetch chain) (fetches chain)
                  (cancelled chain)).

(** ** The store invariant *)

(** Every block is stored under its own hash, and indexed by its own view. *)
Record chain_wf (chain : blockChain) : Prop := {
  wf_blocks h b : blocks chain !! h = Some b → b_hash b = h;
  wf_heights v b : blockAtHeight chain !! v = Some b → b_view b = v }.

Lemma Store_wf b chain : chain_wf chain → chain_wf (blockChain_Store b chain).
Proof.
  intros [H1 H2]. split; simpl; intros k b'; rewrite lookup_insert;
    case_decide; naive_solver.
Qed.

Lemma New_wf : chain_wf blockChain_New.
Proof. apply Store_wf. split; simpl; intros ??; rewrite lookup_empty; done. Qed.

Lemma foldl_Store_wf bs chain :
  chain_wf chain → chain_wf (foldl (λ c b, blockChain_Store b c) chain bs).
Proof. revert chain. induction bs; intros; simpl; auto using Store_wf. Qed.

(** Blocks are only ever added: what is stored stays stored. *)
Definition chain_grows (c c' : blockChain) : Prop :=
  (∀ h, is_Some (blocks c !! h) → is_Some (blocks c' !! h)) ∧ (fetches c ≤ fetches c').

#[export] Instance chain_grows_preorder : PreOrder chain_grows.
Proof.
  split; [intros c; by split|].
  intros x y z [H1 H2] [H3 H4]. split; [auto|lia].
Qed.

Lemma Store_grows b chain : chain_grows chain (blockChain_Store b chain).
Proof.
  split; simpl; [|done]. intros h [b' Hb]. rewrite lookup_insert. case_decide; eauto.
Qed.

Lemma foldl_Store_grows bs chain :
  chain_grows chain (foldl (λ c b, blockChain_Store b c) chain bs).
Proof.
  revert chain. induction bs as [|b bs IH]; intros; simpl; [done|].
  etrans; [apply Store_grows|apply IH].
Qed.

Lemma begin_fetch_grows h chain : chain_grows chain (begin_fetch h chain).
Proof. split; simpl; [done|lia]. Qed.

Lemma Get_grows net h chain : chain_grows chain (blockChain_Get net h chain).2.
Proof.
  unfold blockChain_Get. destruct (blocks chain !! h) as [b|]; [done|].
  destruct (net (fetches chain) h) as [arrived reply].
  set (c := foldl _ _ arrived).
  assert (chain_grows chain (end_fetch h c)) as Hc.
  { transitivity c; [|split; simpl; [done|lia]].
    etrans; [apply (begin_fetch_grows h)|apply foldl_Store_grows]. }
  destruct reply as [b|]; simpl; [|done]. etrans; [exact Hc|].
  split; simpl; [|done]. intros k [b' Hb]. rewrite lookup_insert. case_decide; eauto.
Qed.

(** The store while a fetch waits: nothing but the blocks that arrive. *)
Lemma foldl_Store_lookup bs chain h :
  blocks chain !! h = None →
  match blocks (foldl (λ c b, blockChain_Store b c) chain bs) !! h with
  | Some b => b ∈ bs ∧ b_hash b = h
  | None => ∀ b, b ∈ bs → b_hash b ≠ h
  end.
Proof.
  intros Hn. induction bs as [|b bs IH] using rev_ind; cbn [foldl].
  { rewrite Hn. by intros b ?%not_elem_of_nil. }
  rewrite foldl_app. cbn [foldl blockChain_Store blocks]. destruct (decide (b_hash b = h)) as [<-|Hne].
  - rewrite lookup_insert_eq. split; [|done]. apply elem_of_app. right. by left.
  - rewrite lookup_insert_ne by done. destruct (blocks (foldl _ chain bs) !! h) as [b'|].
    + destruct IH as [Hb ?]. split; [apply elem_of_app; by left|done].
    + intros b' [Hb|<-%list_elem_of_singleton]%elem_of_app; [by apply IH|done].
Qed.

Lemma foldl_Store_stored bs chain b :
  b ∈ bs → is_Some (blocks (foldl (λ c b, blockChain_Store b c) chain bs) !! b_hash b).
Proof.
  revert chain. induction bs as [|x bs IH]; intros chain Hb; [by apply not_elem_of_nil in Hb|].
  apply elem_of_cons in Hb as [<-|Hb]; cbn [foldl]; [|by apply IH].
  apply (foldl_Store_grows bs (blockChain_Store b chain)). cbn. rewrite lookup_insert_eq. by eexists.
Qed.

(** A block that arrives cancels the fetch that waits for it. *)
Lemma foldl_Store_cancels bs chain h k :
  pendingFetch chain !! h = Some k →
  let c := foldl (λ c b, blockChain_Store b c) chain bs in
  fetches c = fetches chain ∧ cancelled chain ⊆ cancelled c ∧
  ((∃ b, b ∈ bs ∧ b_hash b = h) → k ∈ cancelled c).
Proof.
  revert chain. induction bs as [|x bs IH]; intros chain Hk; cbn [foldl].
  { split_and!; [done..|]. by intros (b & ?%not_elem_of_nil & _). }
  destruct (IH (blockChain_Store x chain) Hk) as (Hf & Hsub & Hc). split_and!; [done| |].
  - etrans; [|exact Hsub]. cbn. destruct (pendingFetch chain !! b_hash x); set_solver.
  - intros (b & [<-|Hb]%elem_of_cons & <-); [|by apply Hc; exists b]. apply Hsub. cbn. rewrite Hk. set_solver.
Qed.

(** A block that [Get] returns is in the store afterwards. *)
Lemma Get_stored net h chain b :
  (blockChain_Get net h chain).1 = Some b → blocks (blockChain_Get net h chain).2 !! h = Some b.
Proof.
  unfold blockChain_Get. destruct (blocks chain !! h) as [b'|] eqn:E; [simpl; congruence|].
  destruct (net (fetches chain) h) as [arrived [b'|]]; simpl; [|done].
  intros [= ->]. by rewrite lookup_insert_eq.
Qed.

Lemma Get_local net h chain b :
  blocks chain !! h = Some b → blockChain_Get net h chain = (Some b, chain).
Proof. intros E. unfold blockChain_Get. by rewrite E. Qed.

(** C23: what [Get] returns and leaves in the store, for whatever the network
    does.  A block that is stored is returned and nothing else happens.
    Otherwise the hash is asked for once, and the request is forgotten; blocks
    that arrive meanwhile stay stored, and if the one that is asked for is among
    them the request is cancelled.  A block that [Fetch] reports is returned and
    stored under the hash, whatever its own hash is; the store stays well formed
    if it is the one asked for.  When [Fetch] reports none, the block that arrived
    meanwhile is returned, and there is none only if it did not arrive. *)
Theorem Get_correct (net : Network) (hash : Hash) (chain : blockChain) :
  chain_wf chain →
  let '(arrived, reply) := net (fetches chain) hash in
  let '(res, chain') := blockChain_Get net hash chain in
  chain_grows chain chain' ∧
  match blockChain_LocalGet hash chain with
  | Some b => res = Some b ∧ chain' = chain ∧ b_hash b = hash
  | None =>
    fetches chain' = S (fetches chain) ∧ pendingFetch chain' !! hash = None ∧
    (∀ b, b ∈ arrived → is_Some (blockChain_LocalGet (b_hash b) chain')) ∧
    ((∃ b, b ∈ arrived ∧ b_hash b = hash) → fetches chain ∈ cancelled chain') ∧
    blockChain_LocalGet hash chain' = res ∧
    match reply with
    | Some b => res = Some b ∧ (b_hash b = hash → chain_wf chain')
    | None => chain_wf chain' ∧
              match res with
              | Some b => b ∈ arrived ∧ b_hash b = hash
              | None => ∀ b, b ∈ arrived → b_hash b ≠ hash
              end
    end
  end.
Proof.
  intros Hwf. pose proof (Get_grows net hash chain) as Hg. unfold blockChain_LocalGet, blockChain_Get in *.
  destruct (net (fetches chain) hash) as [arrived reply].
  destruct (blocks chain !! hash) as [b|] eqn:E.
  { split; [done|]. split_and!; [done..|by apply (wf_blocks _ Hwf)]. }
  set (c := foldl _ _ arrived) in *.
  assert (chain_wf (end_fetch hash c)) as Hc.
  { assert (chain_wf c) as [H1 H2]; [|by split]. apply foldl_Store_wf. destruct Hwf. by split. }
  destruct (foldl_Store_cancels arrived (begin_fetch hash chain) hash (fetches chain)) as (Hf & _ & Hcan);
    [apply lookup_insert_eq|]. fold c in Hf, Hcan.
  pose proof (foldl_Store_lookup arrived (begin_fetch hash chain) hash E) as Hl. fold c in Hl.
  pose proof (λ b, foldl_Store_stored arrived (begin_fetch hash chain) b) as Hs. fold c in Hs.
  destruct reply as [b|]; (split; [exact Hg|]); cbn.
  - rewrite lookup_delete_eq, lookup_insert_eq. split_and!; [done..| |done|done|done|].
    + intros b' Hb'. rewrite lookup_insert. case_decide; [by eexists|by apply Hs].
    + intros Hb. destruct Hc as [H1 H2]. split; cbn; intros k b'; rewrite lookup_insert; case_decide; naive_solver.
  - rewrite lookup_delete_eq. by split_and!.
Qed.

Lemma Extends_grows net fuel b target chain r :
  blockChain_Extends net fuel b target chain = Ok r → chain_grows chain r.2.
Proof.
  unfold blockChain_Extends. rewrite res_bind_Ok. intros ([cur chain'] & H & [= <-]). simpl.
  revert H. generalize (Some b). revert chain. induction fuel as [|fuel IH]; intros chain [c|]; simpl.
  - destruct (_ <? _)%N; by intros [= <- <-].
  - by intros [= <- <-].
  - destruct (_ <? _)%N; [|by intros [= <- <-]].
    pose proof (Get_grows net (b_parent c) chain) as Hg.
    destruct (blockChain_Get net (b_parent c) chain) as [next chain1]. simpl in Hg.
    intros H. etrans; [exact Hg|by eapply IH].
  - by intros [= <- <-].
Qed.

Lemma PruneToHeight_grows fuel committed height chain r :
  blockChain_PruneToHeight fuel committed height chain = Ok r → chain_grows chain r.2.
Proof.
  unfold blockChain_PruneToHeight. rewrite res_bind_Ok. intros (views & _ & H).
  destruct (prune_loop _ _ _ _ _) as [forked m]. injection H as <-. by split.
Qed.

(** ** Extends *)

(** [p] is the stored parent of [b]. *)
Definition parent_in (chain : blockChain) (b p : Block) : Prop :=
  blocks chain !! b_parent b = Some p.

(** The parent of [b] is stored with a lower view, or [b] is at view 0. *)
Definition parent_below (chain : blockChain) (b : Block) : Prop :=
  match blocks chain !! b_parent b with
  | Some p => (b_view p < b_view b)%N
  | None => b_view b = 0%N
  end.

(** A chain in which every branch leads down to view 0. *)
Definition chain_rooted (chain : blockChain) : Prop :=
  ∀ h b, blocks chain !! h = Some b → parent_below chain b.

Lemma rtc_parent_view chain b c :
  chain_rooted chain → parent_below chain b → rtc (parent_in chain) b c →
  b = c ∨ (b_view c < b_view b)%N.
Proof.
  intros Hr Hb Hrtc. induction Hrtc as [|b p c Hbp Hpc IH]; [by left|]. right.
  unfold parent_below, parent_in in *. rewrite Hbp in Hb.
  destruct IH as [->|?]; [by eapply Hr|done|lia].
Qed.

Lemma Extends_loop_spec net chain target n cur :
  chain_rooted chain → parent_below chain cur → N.to_nat (b_view cur) < n →
  ∃ c, Extends_loop net n target (Some cur) chain = Ok (Some c, chain) ∧
    rtc (parent_in chain) cur c ∧ (b_view c ≤ b_view target)%N ∧
    (c = cur ∨ blocks chain !! b_parent cur ≠ None) ∧
    ∀ t, rtc (parent_in chain) cur t → (b_view t ≤ b_view target)%N → rtc (parent_in chain) c t.
Proof.
  intros Hr. revert cur. induction n as [|n IH]; intros cur Hcur Hn; [lia|].
  cbn [Extends_loop]. destruct (N.ltb_spec (b_view target) (b_view cur)) as [Hlt|Hle].
  2: { exists cur. split_and!; [done..|by left|done]. }
  pose proof Hcur as Hcur'. unfold parent_below in Hcur'.
  destruct (blocks chain !! b_parent cur) as [p|] eqn:Ep; [|lia].
  rewrite (Get_local _ _ _ _ Ep).
  destruct (IH p) as (c & -> & Hpc & Hc & _ & Hmax); [by eapply Hr|lia|].
  exists c. split_and!; [done|by eapply rtc_l|done|by right|].
  intros t Hrtc Ht. inversion Hrtc as [|? p' ? Hp' Hrtc']; simplify_eq; [lia|].
  unfold parent_in in Hp'. simplify_eq. auto.
Qed.

(** On a rooted chain [Extends] terminates without fetching, and answers
    whether the target is on the branch of the block. *)
Theorem Extends_correct (net : Network) (chain : blockChain) (block target : Block) :
  chain_rooted chain → parent_below chain block →
  (∀ b, rtc (parent_in chain) block b → b_hash b = b_hash target → b = target) →
  ∃ r, blockChain_Extends net (S (N.to_nat (b_view block))) block target chain = Ok (r, chain) ∧
    (r = true ↔ rtc (parent_in chain) block target).
Proof.
  intros Hr Hb Hinj. unfold blockChain_Extends.
  destruct (Extends_loop_spec net chain target (S (N.to_nat (b_view block))) block)
    as (c & -> & Hbc & Hc & Hstored & Hmax); [done..|lia|].
  cbn. eexists. split; [done|]. rewrite bool_decide_eq_true. split.
  - intros Heq. by rewrite <-(Hinj c).
  - intros Ht. specialize (Hmax _ Ht (N.le_refl _)).
    assert (parent_below chain c) as Hpc.
    { apply rtc_inv_r in Hbc as [->|(y & _ & Hy)]; [done|by eapply Hr]. }
    by destruct (rtc_parent_view _ _ _ Hr Hpc Hmax) as [->|?]; [|lia].
Qed.

(** ** PruneToHeight *)







End blockchain.

Lemma Get_correct_witness :
  let chain : @blockChain ScalarBLS := blockChain_New in
  let b : @Block ScalarBLS := NewBlock (b_hash (@GetGenesis ScalarBLS)) zero_QC [] 1 1 in
  let net : @Network ScalarBLS := λ _ h, ([b], None) in
  let '(res, chain') := blockChain_Get net (b_hash b) chain in
  blockChain_LocalGet (b_hash b) chain' = res ∧ 0 ∈ cancelled chain' ∧ chain_wf chain'.
Proof.
  intros chain b net.
  assert (bool_decide (blockChain_LocalGet (b_hash b) chain = None) = true) as Hn by (vm_compute; reflexivity).
  apply bool_decide_eq_true_1 in Hn.
  pose proof (Get_correct net (b_hash b) chain New_wf) as H. unfold net at 1 in H.
  destruct (blockChain_Get net (b_hash b) chain) as [res chain']. rewrite Hn in H.
  destruct H as (_ & _ & _ & _ & Hc & Hl & Hwf & _). split; [exact Hl|]. split; [|exact Hwf].
  apply Hc. exists b. split; [left|reflexivity].
Defined.

(** A small tree for the witnesses: genesis, a block at view 1 on it, and two
    children at views 2 and 3 of which the one at view 3 is committed. *)
Module ChainExample.
Definition blk (parent : @Block ScalarBLS) (cmd : Command) (view : View) : @Block ScalarBLS :=
  NewBlock (b_hash parent) (NewQuorumCert None (b_view parent) (b_hash parent)) cmd view 1.
Definition b1 := blk GetGenesis [] 1.
Definition fork2 := blk b1 [Byte.x66] 2.
Definition b3 := blk b1 [] 3.
Definition chain : @blockChain ScalarBLS :=
  foldl (λ c b, blockChain_Store b c) blockChain_New [b1; fork2; b3].
Definition no_net : @Network ScalarBLS := λ _ _, ([], None).
End ChainExample.

(** Checking [chain_rooted] and [heights_ordered] by evaluation. *)
Definition chain_rootedb (chain : @blockChain ScalarBLS) : bool :=
  forallb (λ '(h, b), match blocks chain !! b_parent b with
                      | Some p => b_view p <? b_view b
                      | None => b_view b =? 0
                      end)%N (map_to_list (blocks chain)).

Lemma chain_rootedb_ok chain : chain_rootedb chain = true → chain_rooted chain.
Proof.
  intros H h b Hb. unfold chain_rootedb in H. rewrite forallb_forall in H.
  apply elem_of_map_to_list, list_elem_of_In, H in Hb. unfold parent_below.
  destruct (blocks chain !! b_parent b); [by apply N.ltb_lt|by apply N.eqb_eq].
Qed.



Import ChainExample.
#[local] Existing Instance ScalarBLS.

Lemma Extends_correct_witness :
  ∃ r, blockChain_Extends no_net 4 b3 b1 chain = Ok (r, chain) ∧
    (r = true ↔ rtc (parent_in chain) b3 b1).
Proof.
  assert (blocks chain !! b_parent b3 = Some b1) as E3 by (vm_compute; reflexivity).
  assert (blocks chain !! b_parent b1 = Some GetGenesis) as E1 by (vm_compute; reflexivity).
  assert (blocks chain !! b_parent GetGenesis = None) as E0 by (vm_compute; reflexivity).
  assert (bool_decide (b_hash b3 = b_hash b1) = false) as N3 by (vm_compute; reflexivity).
  assert (bool_decide (b_hash (@GetGenesis ScalarBLS) = b_hash b1) = false) as N0
    by (vm_compute; reflexivity).
  apply bool_decide_eq_false_1 in N3, N0.
  apply (Extends_correct no_net chain b3 b1).
  - apply chain_rootedb_ok. vm_compute. reflexivity.
  - unfold parent_below. rewrite E3. reflexivity.
  - intros b Hb Heq. inversion Hb as [|x y z Hy Hrest]; subst; [destruct (N3 Heq)|].
    unfold parent_in in Hy. rewrite E3 in Hy. injection Hy as <-.
    inversion Hrest as [|x' y' z' Hy' Hrest']; subst; [reflexivity|].
    unfold parent_in in Hy'. rewrite E1 in Hy'. injection Hy' as <-.
    inversion Hrest' as [|x'' y'' z'' Hy'']; subst; [destruct (N0 Heq)|].
    unfold parent_in in Hy''. rewrite E0 in Hy''. discriminate Hy''.
Defined.


(** Without the order of the heights the first loop need not end: a block of view
    1 on one of view 2, and a second block of view 2 on it. *)
Module PruneLoop.
Definition high := blk GetGenesis [] 2.
Definition low := blk high [] 1.
Definition again := blk low [] 2.
Definition tangled : blockChain := foldl (λ c b, blockChain_Store b c) blockChain_New [high; low; again].

(** Two heights that lead to each other. *)
Lemma committed_loop_cycle (c : blockChain) (h h' : View) b b' p p' :
  pruneHeight c = 0%N → blockAtHeight c !! h = Some b → parent_in c b p → b_view p = h' →
  blockAtHeight c !! h' = Some b' → parent_in c b' p' → b_view p' = h →
  ∀ fuel views, committed_loop fuel c h views = NoFuel ∧ committed_loop fuel c h' views = NoFuel.
Proof.
  intros Hp Hb Hbp Hv Hb' Hbp' Hv' fuel. assert (∀ x, (x <? pruneHeight c)%N = false) as Hz.
  { intros x. rewrite Hp. apply N.ltb_ge. lia. }
  induction fuel as [|fuel IH]; intros views; cbn [committed_loop];
    rewrite !Hz, Hb, Hb', Hbp, Hbp', !Hz; [done|]. rewrite Hv, Hv'. split; apply IH.
Qed.

Theorem PruneToHeight_diverges (fuel : nat) (height : View) :
  blockChain_PruneToHeight fuel again height tangled = NoFuel.
Proof.
  assert (pruneHeight tangled = 0%N ∧ blockAtHeight tangled !! 2%N = Some again ∧
    blocks tangled !! b_parent again = Some low ∧ blockAtHeight tangled !! 1%N = Some low ∧
    blocks tangled !! b_parent low = Some high) as (H0 & H1 & H2 & H3 & H4) by (vm_compute; repeat split; reflexivity).
  unfold blockChain_PruneToHeight. change (b_view again) with 2%N.
  by rewrite (proj1 (committed_loop_cycle tangled 2 1 again low low high H0 H1 H2 eq_refl H3 H4 eq_refl fuel {[2%N]})).
Qed.
End PruneLoop.
