(* ===== verification/CryptoBase.v ===== *)
(** * crypto/base.go and crypto/errors.go: certificates on top of signatures

    [CryptoImpl C] is the interface consensus.CryptoImpl, over the mutable
    state [C] of the implementation.  The functions of base.go build and check
    certificates through it. *)

From S2P Require Import Prelude Encoding Bitfield Types.
From Stdlib Require Import Strings.Byte.

(** The errors of the package; a multierr is the list of its errors. *)
Inductive crypto_error :=
| ErrHashMismatch
| ErrPartialDuplicate
| ErrViewMismatch
| ErrNotAQuorum
| ErrWrongType
| ErrSignFailed.

#[export] Instance crypto_error_eq_dec : EqDecision crypto_error.
Proof. solve_decision. Defined.

(** A Go result of type (T, error). *)
Abbreviation fallible T := (T + list crypto_error)%type.

(** ** Keys and the configuration

    Go's crypto/ecdsa is a parameter: signing reads [entropy] from
    rand.Reader and can fail. *)
Class ECDSALib := {
  ecdsa_PublicKey : Type;
  ecdsa_PrivateKey : Type;
  ecdsa_Public : ecdsa_PrivateKey → ecdsa_PublicKey;
  ecdsa_Sign : bytes → ecdsa_PrivateKey → bytes → option (N * N);
  ecdsa_Verify : ecdsa_PublicKey → bytes → N → N → bool;
}.

(** What is documented of it: a signature verifies under the signer's key. *)
Class ECDSALaws (E : ECDSALib) := {
  ecdsa_Verify_Sign entropy sk h r s :
    ecdsa_Sign entropy sk h = Some (r, s) → ecdsa_Verify (ecdsa_Public sk) h r s = true;
}.

(** A lawful instance to evaluate the model with; it signs by naming the key
    and the hash, and forges easily. *)
Definition ToyECDSA : ECDSALib := {|
  ecdsa_PublicKey := N;
  ecdsa_PrivateKey := N;
  ecdsa_Public sk := sk;
  ecdsa_Sign _ sk h := Some (sk, big_SetBytes h);
  ecdsa_Verify pk h r s := (r =? pk)%N && (s =? big_SetBytes h)%N;
|}.

#[export] Instance ToyECDSA_laws : ECDSALaws ToyECDSA.
Proof. split. intros e sk h r s [= <- <-]. simpl. by rewrite !N.eqb_refl. Qed.

Section base.
Context {B : BLS12Lib} {E : ECDSALib}.

(** The values behind consensus.PublicKey and consensus.PrivateKey. *)
Inductive PublicKey :=
| PubECDSA (pk : ecdsa_PublicKey)
| PubBLS12 (p : PointG1).
Inductive PrivateKey :=
| PrivECDSA (sk : ecdsa_PrivateKey)
| PrivBLS12 (p : N).

(** What the crypto modules read from consensus.Modules: the replica's ID
    and private key, the public keys of the configuration, and the entropy
    source. *)
Record CryptoEnv := mkEnv {
  env_ID : ID;
  env_PrivateKey : PrivateKey;
  env_replicas : gmap ID PublicKey;
  env_entropy : bytes }.

Definition env_QuorumSize (env : CryptoEnv) : Z :=
  QuorumSize (Z.of_nat (size (env_replicas env))).

Class CryptoImpl (C : Type) := {
  Sign : Hash → M C (fallible Signature);
  Verify : option Signature → Hash → M C bool;
  CreateThresholdSignature :
    list (option Signature) → Hash → M C (fallible ThresholdSignature);
  CreateThresholdSignatureForMessageSet :
    list (option Signature) → gmap ID Hash → M C (fallible ThresholdSignature);
  VerifyThresholdSignature : option ThresholdSignature → Hash → M C bool;
  VerifyThresholdSignatureForMessageSet :
    option ThresholdSignature → gmap ID Hash → M C bool;
}.

(** An implementation calls the verifier registered with the replica, which
    is either the implementation itself or the cache in front of it: the
    threshold operations of a [RawCrypto] take that verifier and its state. *)
Record RawCrypto := mkRaw {
  raw_Sign : Hash → res (fallible Signature);
  raw_Verify : option Signature → Hash → res bool;
  raw_CreateThresholdSignature : ∀ C, (option Signature → Hash → M C bool) →
    list (option Signature) → Hash → M C (fallible ThresholdSignature);
  raw_CreateThresholdSignatureForMessageSet : ∀ C, (option Signature → Hash → M C bool) →
    list (option Signature) → gmap ID Hash → M C (fallible ThresholdSignature);
  raw_VerifyThresholdSignature : ∀ C, (option Signature → Hash → M C bool) →
    option ThresholdSignature → Hash → M C bool;
  raw_VerifyThresholdSignatureForMessageSet : ∀ C, (option Signature → Hash → M C bool) →
    option ThresholdSignature → gmap ID Hash → M C bool;
}.

Definition pure_op {A C} (r : res A) : M C A :=
  λ c, a ← r; Ok (a, c).

(** crypto.New: the implementation is its own verifier. *)
Definition plainCrypto (raw : RawCrypto) : CryptoImpl () :=
  let verify := λ sig hash, pure_op (raw_Verify raw sig hash) in {|
  Sign hash := pure_op (raw_Sign raw hash);
  Verify := verify;
  CreateThresholdSignature := raw_CreateThresholdSignature raw _ verify;
  CreateThresholdSignatureForMessageSet := raw_CreateThresholdSignatureForMessageSet raw _ verify;
  VerifyThresholdSignature := raw_VerifyThresholdSignature raw _ verify;
  VerifyThresholdSignatureForMessageSet := raw_VerifyThresholdSignatureForMessageSet raw _ verify;
|}.

Section ops.
Context {C : Type} `{CI : CryptoImpl C}.

Definition CreatePartialCert (block : Block) : M C (fallible PartialCert) :=
  r ← Sign (b_hash block);
  mret (match r with
        | inr err => inr err
        | inl sig => inl (NewPartialCert (Some sig) (b_hash block))
        end).

Definition CreateQuorumCert (block : Block) (signatures : list PartialCert)
    : M C (fallible QuorumCert) :=
  if bool_decide (b_hash block = b_hash GetGenesis)
  then mret (inl (NewQuorumCert None 0 (b_hash GetGenesis)))
  else
    let sigs := pc_signature <$> signatures in
    r ← CreateThresholdSignature sigs (b_hash block);
    mret (match r with
          | inr err => inr err
          | inl sig => inl (NewQuorumCert (Some sig) (b_view block) (b_hash block))
          end).

Definition CreateTimeoutCert (view : View) (timeouts : list TimeoutMsg)
    : M C (fallible TimeoutCert) :=
  if (view =? 0)%N then mret (inl (NewTimeoutCert None 0))
  else
    let sigs := tm_ViewSignature <$> timeouts in
    r ← CreateThresholdSignature sigs (View_ToHash view);
    mret (match r with
          | inr err => inr err
          | inl sig => inl (NewTimeoutCert (Some sig) view)
          end).

(** The three collections [CreateAggregateQC] builds in its loop. *)
Definition agg_collect (acc : gmap ID QuorumCert * list (option Signature) * gmap ID Hash)
    (timeout : TimeoutMsg) : gmap ID QuorumCert * list (option Signature) * gmap ID Hash :=
  let '(qcs, sigs, hashes) := acc in
  let '(qc, ok) := SyncInfo_QC (tm_SyncInfo timeout) in
  let qcs' := if ok : bool then <[tm_ID timeout := qc]> qcs else qcs in
  match tm_MsgSignature timeout with
  | Some sig => (qcs', sigs ++ [Some sig], <[tm_ID timeout := TimeoutMsg_Hash timeout]> hashes)
  | None => (qcs', sigs, hashes)
  end.

Definition CreateAggregateQC (view : View) (timeouts : list TimeoutMsg)
    : M C (fallible AggregateQC) :=
  let '(qcs, sigs, hashes) := foldl agg_collect (∅, [], ∅) timeouts in
  r ← CreateThresholdSignatureForMessageSet sigs hashes;
  mret (match r with
        | inr err => inr err
        | inl sig => inl (NewAggregateQC qcs (Some sig) view)
        end).

Definition VerifyPartialCert (cert : PartialCert) : M C bool :=
  Verify (pc_signature cert) (pc_blockHash cert).

Definition VerifyQuorumCert (qc : QuorumCert) : M C bool :=
  if bool_decide (qc_hash qc = b_hash GetGenesis) then mret true
  else VerifyThresholdSignature (qc_signature qc) (qc_hash qc).

Definition VerifyTimeoutCert (tc : TimeoutCert) : M C bool :=
  if (tc_view tc =? 0)%N then mret true
  else VerifyThresholdSignature (tc_signature tc) (View_ToHash (tc_view tc)).

(** One step of the loop over the QC map: keep the higher QC, and hash the
    timeout message the QC must have come from. *)
Definition agg_verify_step (view : View) (acc : option QuorumCert * gmap ID Hash)
    (e : ID * QuorumCert) : option QuorumCert * gmap ID Hash :=
  let '(highQC, hashes) := acc in
  let '(id, qc) := e in
  let highQC' := match highQC with
                 | None => Some qc
                 | Some high => if (qc_view high <? qc_view qc)%N then Some qc else Some high
                 end in
  (highQC',
   <[id := TimeoutMsg_Hash (mkTimeout id view None None (SyncInfo_WithQC NewSyncInfo qc))]> hashes).

(** [order] is the order in which Go visits the QC map. *)
Definition VerifyAggregateQC_in (order : list (ID * QuorumCert)) (aggQC : AggregateQC)
    : M C (bool * QuorumCert) :=
  let '(highQC, hashes) := foldl (agg_verify_step (agg_view aggQC)) (None, ∅) order in
  ok ← VerifyThresholdSignatureForMessageSet (agg_sig aggQC) hashes;
  if negb ok then mret (false, zero_QC)
  else match highQC with
       | None => panic "nil pointer dereference"
       | Some high =>
         v ← VerifyQuorumCert high;
         mret (if v : bool then (true, high) else (false, zero_QC))
       end.

Definition VerifyAggregateQC (aggQC : AggregateQC) : M C (bool * QuorumCert) :=
  VerifyAggregateQC_in (map_to_list (agg_qcs aggQC)) aggQC.
End ops.

(** ** The high QC of an aggregate *)

Lemma agg_fold_high view order acc hs :
  match (foldl (agg_verify_step view) (acc, hs) order).1 with
  | None => acc = None ∧ order = []
  | Some high =>
    (acc = Some high ∨ ∃ id, (id, high) ∈ order) ∧
    (∀ h, acc = Some h → (qc_view h ≤ qc_view high)%N) ∧
    (∀ id qc, (id, qc) ∈ order → (qc_view qc ≤ qc_view high)%N)
  end.
Proof.
  revert acc hs. induction order as [|[id qc] order IH]; intros acc hs.
  { simpl. destruct acc; [|done]. split_and!; [by left|by intros ? [= <-]|].
    intros ?? Hin. by apply not_elem_of_nil in Hin. }
  cbn [foldl]. unfold agg_verify_step at 2. cbn [fst].
  set (acc' := match acc with None => _ | Some high => _ end).
  match goal with |- context [foldl _ (acc', ?h) order] => specialize (IH acc' h) end.
  destruct (foldl _ _ order).1 as [high|].
  - destruct IH as (H1 & H2 & H3). split_and!.
    + destruct H1 as [H1|[id' ?]]; [|right; exists id'; by right].
      unfold acc' in H1. destruct acc as [h|]; [|right; exists id; injection H1 as ->; by left].
      destruct (N.ltb_spec (qc_view h) (qc_view qc)); [right; exists id; injection H1 as ->; by left|by left].
    + intros h ->. unfold acc' in H2. destruct (N.ltb_spec (qc_view h) (qc_view qc)).
      * specialize (H2 _ eq_refl). lia.
      * by apply H2.
    + intros id' qc' Hin. apply elem_of_cons in Hin as [[= -> ->]|Hin]; [|by eapply H3].
      unfold acc' in H2. destruct acc as [h|]; [|by apply H2].
      destruct (N.ltb_spec (qc_view h) (qc_view qc)); specialize (H2 _ eq_refl); lia.
  - destruct IH as [Hacc _]. unfold acc' in Hacc. destruct acc; [|done]. by case_match.
Qed.

Section facts.
Context {C : Type} `{CI : CryptoImpl C}.

(** C19: when [VerifyAggregateQC] accepts, whatever the iteration order, the
    QC it returns is one of the aggregate, none of its QCs has a higher view,
    and it was itself verified. *)
Theorem VerifyAggregateQC_high (order : list (ID * QuorumCert)) (aggQC : AggregateQC)
    (s s' : C) (high : QuorumCert) :
  order ≡ₚ map_to_list (agg_qcs aggQC) →
  VerifyAggregateQC_in order aggQC s = Ok ((true, high), s') →
  (∃ id, agg_qcs aggQC !! id = Some high) ∧
  (∀ id qc, agg_qcs aggQC !! id = Some qc → (qc_view qc ≤ qc_view high)%N) ∧
  ∃ s1 s2, VerifyQuorumCert high s1 = Ok (true, s2).
Proof.
  intros Hp. unfold VerifyAggregateQC_in.
  pose proof (agg_fold_high (agg_view aggQC) order None ∅) as Hfold.
  destruct (foldl _ _ order) as [highQC hashes]. simpl in Hfold.
  rewrite M_bind_Ok. intros (ok & s1 & _ & H).
  destruct ok; [simpl in H|done]. destruct highQC as [high'|]; [|done].
  apply M_bind_Ok in H as (v & s2 & Hv & H). destruct v; [|done]. injection H as <- <-.
  destruct Hfold as ([?|[id Hid]] & _ & Hmax); [done|]. rewrite Hp in Hid.
  split_and!; [| |by eauto].
  - exists id. by apply elem_of_map_to_list.
  - intros id' qc Hqc. apply (Hmax id'). rewrite Hp. by apply elem_of_map_to_list.
Qed.

(** The view of a quorum certificate is not authenticated: a
    certificate that names the genesis block is accepted whatever view and
    signature it carries, and changing the view of any certificate never
    changes the verdict. *)
Theorem VerifyQuorumCert_ignores_view (sig : option ThresholdSignature) (v w : View) (h : Hash)
    (s : C) :
  VerifyQuorumCert (NewQuorumCert sig v (b_hash GetGenesis)) s = Ok (true, s) ∧
  VerifyQuorumCert (NewQuorumCert sig v h) s = VerifyQuorumCert (NewQuorumCert sig w h) s.
Proof.
  split; [|done]. unfold VerifyQuorumCert. cbn [qc_hash].
  by rewrite bool_decide_eq_true_2.
Qed.

(** A block hash does not determine the command.  For every parent, view
    and proposer there are two blocks with the same hash and different
    commands, whose certificates both verify. *)
Theorem block_hash_ambiguous (parent : Hash) (view : View) (proposer : ID) (s : C) :
  ∃ b1 b2 : Block,
    b_hash b1 = b_hash b2 ∧ b_cmd b1 ≠ b_cmd b2 ∧
    b1 = NewBlock parent (b_cert b1) (b_cmd b1) view proposer ∧
    b2 = NewBlock parent (b_cert b2) (b_cmd b2) view proposer ∧
    VerifyQuorumCert (b_cert b1) s = Ok (true, s) ∧
    VerifyQuorumCert (b_cert b2) s = Ok (true, s).
Proof.
  exists (NewBlock parent amb_cert1 [] view proposer),
         (NewBlock parent amb_cert2 amb_cmd2 view proposer).
  split_and!; [apply amb_same_hash|done|done|done| |];
    unfold VerifyQuorumCert, NewBlock; cbn [b_cert amb_cert1 amb_cert2 qc_hash];
    by rewrite bool_decide_eq_true_2.
Qed.
End facts.
End base.
