(* ===== verification/Ecdsa.v ===== *)
(** * crypto/ecdsa/ecdsa.go: threshold signatures as sets of ECDSA signatures

    The module calls the verifier that is registered with the replica, which
    may be itself or the cache in front of it, so the operations are written
    over a parameter [reg_Verify] and the state [C] it works on.  The
    goroutines of the threshold checks run one after the other, in the order
    the map is visited. *)

From S2P Require Import Prelude Encoding Bitfield Types CryptoBase.
From Stdlib Require Import Strings.Byte.

Section ecdsa.
Context {B : BLS12Lib} {E : ECDSALib}.
Context (env : CryptoEnv).

(** ** Sign and Verify *)

Definition ec_getPrivateKey : res ecdsa_PrivateKey :=
  match env_PrivateKey env with
  | PrivECDSA sk => Ok sk
  | PrivBLS12 _ => Panic "interface conversion"
  end.

Definition ec_Sign (hash : Hash) : res (fallible Signature) :=
  sk ← ec_getPrivateKey;
  mret (match ecdsa_Sign (env_entropy env) sk hash with
        | None => inr [ErrSignFailed]
        | Some (r, s) => inl (SigECDSA (ec_sig r s (env_ID env)))
        end).

Definition ec_Verify (sig : option Signature) (hash : Hash) : res bool :=
  match sig with
  | Some (SigECDSA sig) =>
    match env_replicas env !! ec_signer sig with
    | None => Ok false
    | Some (PubECDSA pk) => Ok (ecdsa_Verify pk hash (ec_r sig) (ec_s sig))
    | Some (PubBLS12 _) => Panic "interface conversion"
    end
  | Some (SigBLS12 _) | None => Ok false
  end.

(** ** Threshold signatures *)

Section threshold.
Context {C : Type} (reg_Verify : option Signature → Hash → M C bool).

(** One iteration of the creation loop; [hash_of] is the hash the
    signature of a replica is checked against, if there is one. *)
Definition ec_create_step (hash_of : ID → option Hash)
    (acc : ecdsa_ThresholdSignature * list crypto_error) (s : option Signature)
    : M C (ecdsa_ThresholdSignature * list crypto_error) :=
  let '(thrSig, err) := acc in
  match s with
  | None => panic "nil pointer dereference"
  | Some sg =>
    if bool_decide (is_Some (thrSig !! Signature_Signer sg))
    then mret (thrSig, err ++ [ErrPartialDuplicate])
    else match hash_of (Signature_Signer sg) with
         | None => mret (thrSig, err)
         | Some hash =>
           match sg with
           | SigBLS12 _ => mret (thrSig, err ++ [ErrWrongType])
           | SigECDSA sig =>
             ok ← reg_Verify s hash;
             mret (if ok : bool then <[ec_signer sig := sig]> thrSig else thrSig, err)
           end
         end
  end.

Fixpoint ec_create_loop (hash_of : ID → option Hash)
    (acc : ecdsa_ThresholdSignature * list crypto_error) (sigs : list (option Signature))
    : M C (ecdsa_ThresholdSignature * list crypto_error) :=
  match sigs with
  | [] => mret acc
  | s :: rest => acc' ← ec_create_step hash_of acc s; ec_create_loop hash_of acc' rest
  end.

Definition ec_create (hash_of : ID → option Hash) (partialSignatures : list (option Signature))
    : M C (fallible ThresholdSignature) :=
  acc ← ec_create_loop hash_of (∅, []) partialSignatures;
  mret (let '(thrSig, err) := acc in
        if (env_QuorumSize env <=? Z.of_nat (size thrSig))%Z then inl (ThrECDSA thrSig)
        else inr (ErrNotAQuorum :: err)).

Definition ec_CreateThresholdSignature (partialSignatures : list (option Signature)) (hash : Hash)
    : M C (fallible ThresholdSignature) :=
  ec_create (λ _, Some hash) partialSignatures.

Definition ec_CreateThresholdSignatureForMessageSet (partialSignatures : list (option Signature))
    (hashes : gmap ID Hash) : M C (fallible ThresholdSignature) :=
  ec_create (λ id, hashes !! id) partialSignatures.

(** Run the goroutines and count the results that are true. *)
Fixpoint ec_count (jobs : list (ecdsa_Signature * Hash)) (numVerified : nat) : M C nat :=
  match jobs with
  | [] => mret numVerified
  | (sig, hash) :: rest =>
    ok ← reg_Verify (Some (SigECDSA sig)) hash;
    ec_count rest (if ok : bool then S numVerified else numVerified)
  end.

Definition ec_VerifyThresholdSignature (signature : option ThresholdSignature) (hash : Hash)
    : M C bool :=
  match signature with
  | Some (ThrECDSA sig) =>
    if (Z.of_nat (size sig) <? env_QuorumSize env)%Z then mret false
    else
      numVerified ← ec_count ((λ '(_, pSig), (pSig, hash)) <$> map_to_list sig) 0;
      mret (env_QuorumSize env <=? Z.of_nat numVerified)%Z
  | Some (ThrBLS12 _) | None => mret false
  end.

(** The loop that starts one goroutine per hash.  It returns the jobs
    started and whether it ran to the end. *)
Fixpoint ec_spawn (sig : ecdsa_ThresholdSignature) (hashSet : gset Hash)
    (hashes : list (ID * Hash)) : list (ecdsa_Signature * Hash) * bool :=
  match hashes with
  | [] => ([], true)
  | (id, hash) :: rest =>
    if bool_decide (hash ∈ hashSet) then ([], false)
    else match sig !! id with
         | None => ([], false)
         | Some s =>
           let '(jobs, ok) := ec_spawn sig ({[hash]} ∪ hashSet) rest in
           ((s, hash) :: jobs, ok)
         end
  end.

(** The loop that collects the results expects one per signature; when
    there are more signatures than goroutines the receive blocks.  The
    goroutines of an early return still run their verification. *)
Definition ec_VerifyThresholdSignatureForMessageSet (signature : option ThresholdSignature)
    (hashes : gmap ID Hash) : M C bool :=
  match signature with
  | Some (ThrECDSA sig) =>
    let '(jobs, ok) := ec_spawn sig ∅ (map_to_list hashes) in
    numVerified ← ec_count jobs 0;
    if negb ok then mret false
    else if (length jobs <? size sig)%nat then (λ _, Blocked)
    else mret (env_QuorumSize env <=? Z.of_nat numVerified)%Z
  | Some (ThrBLS12 _) | None => mret false
  end.
End threshold.

Definition ecdsaRaw : RawCrypto :=
  mkRaw ec_Sign ec_Verify
    (@ec_CreateThresholdSignature) (@ec_CreateThresholdSignatureForMessageSet)
    (@ec_VerifyThresholdSignature) (@ec_VerifyThresholdSignatureForMessageSet).

(** The module as it is when nothing wraps it: it is its own verifier. *)
Definition ecdsaCrypto : CryptoImpl () := plainCrypto ecdsaRaw.

(** ** Specification *)

(** Every key of the configuration is an ECDSA key. *)
Definition ecdsa_config : Prop :=
  map_Forall (λ _ k, match k with PubECDSA _ => True | PubBLS12 _ => False end) (env_replicas env).

(** [s] is a signature of its signer, a member of the configuration, on [h]. *)
Definition ec_valid (s : ecdsa_Signature) (h : Hash) : bool :=
  match env_replicas env !! ec_signer s with
  | Some (PubECDSA pk) => ecdsa_Verify pk h (ec_r s) (ec_s s)
  | _ => false
  end.

(** The signatures of a threshold signature that are valid for [h]. *)
Definition ec_votes (sig : ecdsa_ThresholdSignature) (h : Hash) : ecdsa_ThresholdSignature :=
  filter (λ '(_, s), ec_valid s h = true) sig.

Lemma ec_Verify_valid s h :
  ecdsa_config → ec_Verify (Some (SigECDSA s)) h = Ok (ec_valid s h).
Proof.
  intros Hcfg. unfold ec_Verify, ec_valid.
  destruct (env_replicas env !! ec_signer s) as [[pk|p]|] eqn:Hl; [done| |done].
  by specialize (Hcfg _ _ Hl).
Qed.

Lemma ec_valid_replica s h : ec_valid s h = true → ec_signer s ∈ dom (env_replicas env).
Proof.
  unfold ec_valid. intros H. apply elem_of_dom.
  destruct (env_replicas env !! ec_signer s) eqn:E'; [by eexists|done].
Qed.

Abbreviation self_Verify := (λ s h, pure_op (C:=unit) (ec_Verify s h)).

Lemma self_Verify_run s h :
  ecdsa_config → self_Verify (Some (SigECDSA s)) h () = Ok (ec_valid s h, ()).
Proof. intros Hcfg. unfold pure_op. by rewrite ec_Verify_valid. Qed.

Lemma ec_count_spec jobs n :
  ecdsa_config →
  ec_count self_Verify jobs n () =
    Ok (n + length (filter (λ j, ec_valid j.1 j.2 = true) jobs), ()).
Proof.
  intros Hcfg. revert n. induction jobs as [|[s h] jobs IH]; intros n.
  { by rewrite Nat.add_0_r. }
  rewrite filter_cons. cbn [ec_count fst snd].
  erewrite M_bind_run by (by apply self_Verify_run). rewrite IH. destruct (ec_valid s h).
  - rewrite decide_True by done. cbn [length]. do 2 f_equal. lia.
  - by rewrite decide_False by done.
Qed.

Lemma length_filter_votes sig h :
  length (filter (λ j, ec_valid j.1 j.2 = true)
            ((λ '(_, pSig), (pSig, h)) <$> map_to_list sig)) = size (ec_votes sig h).
Proof.
  unfold ec_votes. rewrite size_map_filter. apply length_filter_fmap. by intros [].
Qed.

Lemma wf_ec_votes sig h : wf_ecdsa_Threshold sig → wf_ecdsa_Threshold (ec_votes sig h).
Proof. intros Hwf id s [Hl _]%map_lookup_filter_Some. by apply Hwf. Qed.

Lemma ec_votes_replicas sig h :
  wf_ecdsa_Threshold sig → dom (ec_votes sig h) ⊆ dom (env_replicas env).
Proof.
  intros Hwf id Hid. apply elem_of_dom in Hid as [s Hs].
  apply map_lookup_filter_Some in Hs as [Hl Hv]. rewrite <-(Hwf _ _ Hl).
  by eapply ec_valid_replica.
Qed.

(** The check counts the valid signatures and compares with the quorum. *)
Lemma ec_VerifyThreshold_spec sig h :
  ecdsa_config →
  ec_VerifyThresholdSignature self_Verify (Some (ThrECDSA sig)) h () =
    Ok ((env_QuorumSize env <=? Z.of_nat (size (ec_votes sig h)))%Z, ()).
Proof.
  intros Hcfg. unfold ec_VerifyThresholdSignature.
  pose proof (map_size_filter (λ '(_, s), ec_valid s h = true) sig) as Hle.
  fold (ec_votes sig h) in Hle.
  destruct (Z.ltb_spec (Z.of_nat (size sig)) (env_QuorumSize env)).
  - unfold mret, M_ret. do 2 f_equal. symmetry. apply Z.leb_gt. lia.
  - unfold mbind, M_bind. rewrite ec_count_spec by done.
    by rewrite length_filter_votes.
Qed.

(** ** Creation *)

(** The signers whose signature in [sigs] is valid for their hash. *)
Definition valid_signers (hash_of : ID → option Hash) (sigs : list (option Signature)) : gset ID :=
  list_to_set (omap (λ s, match s with
    | Some (SigECDSA sig) =>
      match hash_of (ec_signer sig) with
      | Some h => if ec_valid sig h then Some (ec_signer sig) else None
      | None => None
      end
    | _ => None
    end) sigs).

(** Every entry is stored under its signer and valid for its hash. *)
Definition thr_ok (hash_of : ID → option Hash) (thr : ecdsa_ThresholdSignature) : Prop :=
  map_Forall (λ id s, ec_signer s = id ∧ ∃ h, hash_of id = Some h ∧ ec_valid s h = true) thr.

Lemma ec_create_loop_spec hash_of sigs thr err :
  ecdsa_config → Forall is_Some sigs → thr_ok hash_of thr →
  ∃ thr' err', ec_create_loop self_Verify hash_of (thr, err) sigs () = Ok ((thr', err'), ()) ∧
    thr_ok hash_of thr' ∧ dom thr' = dom thr ∪ valid_signers hash_of sigs.
Proof.
  intros Hcfg. revert thr err. induction sigs as [|s sigs IH]; intros thr err Hs Hok.
  { exists thr, err. split_and!; [done..|]. unfold valid_signers. set_solver. }
  apply Forall_cons in Hs as [[sg ->] Hs]. cbn [ec_create_loop ec_create_step].
  case_bool_decide as Hin.
  { rewrite M_bind_ret. destruct (IH thr (err ++ [ErrPartialDuplicate]) Hs Hok) as (t & e & -> & ? & Hdom).
    exists t, e. split_and!; [done..|]. rewrite Hdom. unfold valid_signers.
    apply elem_of_dom in Hin. destruct sg as [sig|sig]; simpl in *; [|done].
    destruct (hash_of _); [destruct (ec_valid _ _)|]; simpl; set_solver. }
  destruct sg as [sig|sig]; cbn [Signature_Signer] in *.
  - destruct (hash_of (ec_signer sig)) as [h|] eqn:Eh.
    + erewrite M_bind_run; [|erewrite M_bind_run; [done|apply self_Verify_run; done]].
      destruct (ec_valid sig h) eqn:Ev.
      * destruct (IH (<[ec_signer sig := sig]> thr) err Hs) as (t & e & -> & ? & Hdom).
        { apply map_Forall_insert_2; [by eauto|done]. }
        exists t, e. split_and!; [done..|]. rewrite Hdom, dom_insert_L. unfold valid_signers.
        simpl. rewrite Eh, Ev. simpl. set_solver.
      * destruct (IH thr err Hs Hok) as (t & e & -> & ? & Hdom).
        exists t, e. split_and!; [done..|]. rewrite Hdom. unfold valid_signers.
        simpl. by rewrite Eh, Ev.
    + rewrite M_bind_ret. destruct (IH thr err Hs Hok) as (t & e & -> & ? & Hdom).
      exists t, e. split_and!; [done..|]. rewrite Hdom. unfold valid_signers.
      simpl. by rewrite Eh.
  - destruct (hash_of (bls_signer sig)).
    + rewrite M_bind_ret. destruct (IH thr (err ++ [ErrWrongType]) Hs Hok) as (t & e & -> & ? & Hdom). by exists t, e.
    + rewrite M_bind_ret. destruct (IH thr err Hs Hok) as (t & e & -> & ? & Hdom). by exists t, e.
Qed.

Lemma thr_ok_votes h thr : thr_ok (λ _, Some h) thr → ec_votes thr h = thr.
Proof.
  intros Hok. apply map_filter_id. intros id s Hl.
  destruct (Hok _ _ Hl) as (_ & h' & [= <-] & Hv). done.
Qed.

(** Enough valid partial signatures make a threshold signature that
    verifies. *)
Lemma ec_create_quorum sigs h :
  ecdsa_config → Forall is_Some sigs →
  (env_QuorumSize env <= Z.of_nat (size (valid_signers (λ _, Some h) sigs)))%Z →
  ∃ thr, ec_CreateThresholdSignature self_Verify sigs h () = Ok (inl (ThrECDSA thr), ()) ∧
    dom thr = valid_signers (λ _, Some h) sigs ∧ wf_ecdsa_Threshold thr ∧
    ec_VerifyThresholdSignature self_Verify (Some (ThrECDSA thr)) h () = Ok (true, ()).
Proof.
  intros Hcfg Hs Hle. unfold ec_CreateThresholdSignature, ec_create.
  destruct (ec_create_loop_spec (λ _, Some h) sigs ∅ [] Hcfg Hs) as (thr & err & Hrun & Hok & Hdom).
  { apply map_Forall_empty. }
  rewrite (M_bind_run _ _ _ _ _ Hrun). rewrite dom_empty_L, (left_id_L ∅ (∪)) in Hdom.
  assert ((env_QuorumSize env <=? Z.of_nat (size thr))%Z = true) as Hq
    by (rewrite <-(size_dom (D:=gset ID) thr), Hdom; by apply Z.leb_le).
  unfold mret, M_ret. rewrite Hq. exists thr. split_and!; [done..| |].
  - intros id s Hl. by destruct (Hok _ _ Hl).
  - by rewrite ec_VerifyThreshold_spec, thr_ok_votes, Hq by done.
Qed.

(** C11: creating a threshold signature never panics on non-nil partial
    signatures: it succeeds exactly when the replicas with a valid partial
    signature are a quorum, fails with [ErrNotAQuorum] otherwise, keeps
    exactly the valid signers, and what it creates passes verification. *)
Theorem ecdsa_create_verify (sigs : list (option Signature)) (h : Hash) :
  ecdsa_config → Forall is_Some sigs →
  let signers := valid_signers (λ _, Some h) sigs in
  if (env_QuorumSize env <=? Z.of_nat (size signers))%Z
  then ∃ thr, ec_CreateThresholdSignature self_Verify sigs h () = Ok (inl (ThrECDSA thr), ()) ∧
         dom thr = signers ∧ wf_ecdsa_Threshold thr ∧
         ec_VerifyThresholdSignature self_Verify (Some (ThrECDSA thr)) h () = Ok (true, ())
  else ∃ errs, ec_CreateThresholdSignature self_Verify sigs h () = Ok (inr (ErrNotAQuorum :: errs), ()).
Proof.
  intros Hcfg Hs signers. destruct (Z.leb_spec (env_QuorumSize env) (Z.of_nat (size signers))) as [Hle|Hlt];
    [by apply ec_create_quorum|].
  unfold ec_CreateThresholdSignature, ec_create.
  destruct (ec_create_loop_spec (λ _, Some h) sigs ∅ [] Hcfg Hs) as (thr & err & Hrun & Hok & Hdom).
  { apply map_Forall_empty. }
  rewrite (M_bind_run _ _ _ _ _ Hrun). rewrite dom_empty_L, (left_id_L ∅ (∪)) in Hdom.
  unfold mret, M_ret. rewrite <-(size_dom (D:=gset ID) thr), Hdom. fold signers.
  destruct (Z.leb_spec (env_QuorumSize env) (Z.of_nat (size signers))); [lia|by eexists].
Qed.

(** C12: two threshold signatures that verify share a signer outside any set of
    at most [NumFaulty n] faulty replicas, whose key verifies a signature on
    both hashes. *)
Theorem ecdsa_quorums_intersect (sig1 sig2 : ecdsa_ThresholdSignature) (h1 h2 : Hash)
    (faulty : gset ID) :
  ecdsa_config → env_replicas env ≠ ∅ → wf_ecdsa_Threshold sig1 → wf_ecdsa_Threshold sig2 →
  ec_VerifyThresholdSignature self_Verify (Some (ThrECDSA sig1)) h1 () = Ok (true, ()) →
  ec_VerifyThresholdSignature self_Verify (Some (ThrECDSA sig2)) h2 () = Ok (true, ()) →
  faulty ⊆ dom (env_replicas env) →
  (Z.of_nat (size faulty) ≤ NumFaulty (Z.of_nat (size (env_replicas env))))%Z →
  ∃ id pk s1 s2, (id ∉ faulty) ∧ env_replicas env !! id = Some (PubECDSA pk) ∧
    sig1 !! id = Some s1 ∧ ecdsa_Verify pk h1 (ec_r s1) (ec_s s1) = true ∧
    sig2 !! id = Some s2 ∧ ecdsa_Verify pk h2 (ec_r s2) (ec_s s2) = true.
Proof.
  intros Hcfg Hne Hwf1 Hwf2. rewrite !ec_VerifyThreshold_spec by done.
  intros [= H1%Z.leb_le] [= H2%Z.leb_le] Hf Hfs.
  unfold env_QuorumSize in H1, H2.
  rewrite <-(size_dom (D:=gset ID) (env_replicas env)) in H1, H2, Hfs.
  rewrite <-(size_dom (D:=gset ID) (ec_votes sig1 h1)) in H1.
  rewrite <-(size_dom (D:=gset ID) (ec_votes sig2 h2)) in H2.
  assert (1 ≤ Z.of_nat (size (dom (env_replicas env))))%Z as Hpos.
  { rewrite (size_dom (D:=gset ID)). destruct (size (env_replicas env)) eqn:Hz; [|lia].
    by apply map_size_empty_inv in Hz. }
  destruct (quorum_shares_correct (dom (env_replicas env)) (dom (ec_votes sig1 h1))
    (dom (ec_votes sig2 h2)) Hpos (ec_votes_replicas _ _ Hwf1) (ec_votes_replicas _ _ Hwf2) H1 H2
    faulty Hf Hfs) as (id & Hid & Hnf).
  apply elem_of_intersection in Hid as [[s1 Hs1]%elem_of_dom [s2 Hs2]%elem_of_dom].
  apply map_lookup_filter_Some in Hs1 as [Hl1 Hv1], Hs2 as [Hl2 Hv2].
  unfold ec_valid in Hv1, Hv2. rewrite (Hwf1 _ _ Hl1) in Hv1. rewrite (Hwf2 _ _ Hl2) in Hv2.
  destruct (env_replicas env !! id) as [[pk|]|] eqn:Hpk; [|done..].
  by exists id, pk, s1, s2.
Qed.

(** ** Message sets *)

Lemma ec_spawn_spec sig seen l jobs ok :
  ec_spawn sig seen l = (jobs, ok) →
  (ok = true ↔ NoDup (snd <$> l) ∧ (∀ h, h ∈ seen → h ∉ (snd <$> l)) ∧
               ∀ id h, (id, h) ∈ l → is_Some (sig !! id)) ∧
  (ok = true → jobs = omap (λ '(id, h), s ← sig !! id; Some (s, h)) l ∧ length jobs = length l).
Proof.
  revert seen jobs ok. induction l as [|[id h] l IH]; intros seen jobs ok; cbn [ec_spawn].
  { intros [= <- <-]. split; [|done]. split; [|done]. intros _. split_and!; [constructor|..].
    - intros ? _. apply not_elem_of_nil.
    - intros ? ? Hin. by apply not_elem_of_nil in Hin. }
  case_bool_decide as Hin.
  { intros [= <- <-]. split; [|done]. split; [done|]. intros (_ & Hs & _).
    exfalso. apply (Hs h); [done|]. by left. }
  destruct (sig !! id) as [s|] eqn:Hl.
  2: { intros [= <- <-]. split; [|done]. split; [done|]. intros (_ & _ & Hs).
       exfalso. destruct (Hs id h) as [? ?]; [by left|]. congruence. }
  destruct (ec_spawn sig ({[h]} ∪ seen) l) as [jobs' ok'] eqn:Hsp.
  intros [= <- <-]. destruct (IH _ _ _ Hsp) as [IH1 IH2]. split.
  - rewrite IH1, fmap_cons, NoDup_cons. simpl. split.
    + intros (Hnd & Hse & Hi). split_and!; [|done|..].
      * apply Hse. set_solver.
      * intros h' Hh'. rewrite elem_of_cons. intros [->|Hh'']; [done|].
        eapply Hse; [|done]. set_solver.
      * intros id' h'. rewrite elem_of_cons. intros [[= -> ->]|?]; [by eexists|by eapply Hi].
    + intros ([Hni Hnd] & Hse & Hi). split_and!; [done|..].
      * intros h' [->%elem_of_singleton|Hh']%elem_of_union; [done|].
        intros ?. eapply Hse; [done|]. by right.
      * intros id' h' ?. eapply Hi. by right.
  - intros Hok. destruct (IH2 Hok) as [-> Hlen]. simpl. rewrite Hl. simpl. split; [done|].
    by f_equal.
Qed.

(** The hashes of [hashes] whose replica has a valid signature in [sig]. *)
Definition ec_set_votes (sig : ecdsa_ThresholdSignature) (hashes : gmap ID Hash) : gmap ID Hash :=
  filter (λ '(id, h), match sig !! id with Some s => ec_valid s h | None => false end = true) hashes.

Lemma length_set_votes sig hashes :
  (∀ id h, hashes !! id = Some h → is_Some (sig !! id)) →
  length (filter (λ j, ec_valid j.1 j.2 = true)
    (omap (λ '(id, h), s ← sig !! id; Some (s, h)) (map_to_list hashes))) =
  size (ec_set_votes sig hashes).
Proof.
  intros Hsig. unfold ec_set_votes. rewrite size_map_filter.
  setoid_rewrite <-elem_of_map_to_list in Hsig.
  induction (map_to_list hashes) as [|[id h] l IH]; [done|].
  destruct (Hsig id h) as [s Hs]; [by left|].
  assert (∀ id h, (id, h) ∈ l → is_Some (sig !! id)) as Hl by (intros; eapply Hsig; by right).
  specialize (IH Hl). cbn [omap list_omap]. rewrite Hs. cbn [mbind option_bind].
  rewrite !filter_cons. cbn [fst snd]. destruct (decide (ec_valid s h = true)) as [Ev|Ev].
  - rewrite decide_True by (by rewrite Hs). cbn [length]. by f_equal.
  - rewrite decide_False by (by rewrite Hs). done.
Qed.

Lemma verify_message_set_spec (sig : ecdsa_ThresholdSignature) (hashes : gmap ID Hash) :
  ecdsa_config →
  let verify := ec_VerifyThresholdSignatureForMessageSet self_Verify (Some (ThrECDSA sig)) hashes () in
  if bool_decide (NoDup (snd <$> map_to_list hashes) ∧ dom hashes ⊆ dom sig)
  then if bool_decide (dom hashes = dom sig)
       then verify = Ok ((env_QuorumSize env <=? Z.of_nat (size (ec_set_votes sig hashes)))%Z, ())
       else verify = Blocked
  else verify = Ok (false, ()).
Proof.
  intros Hcfg verify. unfold verify, ec_VerifyThresholdSignatureForMessageSet.
  destruct (ec_spawn sig ∅ (map_to_list hashes)) as [jobs ok] eqn:Hsp.
  apply ec_spawn_spec in Hsp as [Hok Hjobs].
  rewrite (M_bind_run _ _ _ _ _ (ec_count_spec jobs 0 Hcfg)).
  assert (ok = true ↔ NoDup (snd <$> map_to_list hashes) ∧ dom hashes ⊆ dom sig) as Hok'.
  { rewrite Hok. setoid_rewrite elem_of_map_to_list. rewrite elem_of_subseteq.
    setoid_rewrite elem_of_dom. unfold is_Some. set_solver. }
  destruct ok; simpl.
  2: { by rewrite bool_decide_eq_false_2 by (intros Hc; by apply Hok' in Hc). }
  destruct Hok' as [Hok' _]. destruct (Hok' eq_refl) as [Hnd Hsub].
  destruct (Hjobs eq_refl) as [-> Hlen]. rewrite Hlen, length_map_to_list.
  rewrite (bool_decide_eq_true_2 (NoDup _ ∧ _)) by done.
  pose proof (size_dom (D:=gset ID) hashes) as Hsz1. pose proof (size_dom (D:=gset ID) sig) as Hsz2.
  case_bool_decide as Heq.
  - replace (size hashes <? size sig)%nat with false
      by (symmetry; apply Nat.ltb_ge; by rewrite <-Hsz1, <-Hsz2, Heq).
    rewrite length_set_votes; [done|]. intros id h Hl.
    apply elem_of_dom, Hsub, elem_of_dom. by eexists.
  - replace (size hashes <? size sig)%nat with true; [done|]. symmetry. apply Nat.ltb_lt.
    rewrite <-Hsz1, <-Hsz2. apply subset_size. split; [done|]. intros Hsup. apply Heq. by apply set_eq_subseteq.
Qed.

(** C20: verification against a set of messages.  Two equal hashes or a hash
    without a signature: rejected.  A signature for every hash and no other:
    accepted exactly when the valid ones are a quorum.  A signature more than
    there are hashes: the call waits for a result that never comes. *)
Theorem ecdsa_verify_message_set (sig : ecdsa_ThresholdSignature) (hashes : gmap ID Hash) :
  ecdsa_config →
  let verify := ec_VerifyThresholdSignatureForMessageSet self_Verify (Some (ThrECDSA sig)) hashes () in
  if bool_decide (NoDup (snd <$> map_to_list hashes) ∧ dom hashes ⊆ dom sig)
  then if bool_decide (dom hashes = dom sig)
       then verify = Ok ((env_QuorumSize env <=? Z.of_nat (size (ec_set_votes sig hashes)))%Z, ())
       else verify = Blocked
  else verify = Ok (false, ()).
Proof. apply verify_message_set_spec. Qed.
End ecdsa.


(** ** Aggregate quorum certificates over ECDSA *)

Section aggregate.
Context {B : BLS12Lib} {E : ECDSALib} (env : CryptoEnv).

Lemma agg_collect_sigs timeouts acc qcs sigs hashes :
  foldl agg_collect acc timeouts = (qcs, sigs, hashes) →
  Forall is_Some acc.1.2 →
  Forall is_Some sigs ∧
  (∀ s, s ∈ sigs → s ∈ acc.1.2 ∨ ∃ t, t ∈ timeouts ∧ s = tm_MsgSignature t) ∧
  (∀ id, is_Some (acc.1.1 !! id) → is_Some (qcs !! id)) ∧
  (∀ t, t ∈ timeouts → is_Some (si_qc (tm_SyncInfo t)) → is_Some (qcs !! tm_ID t)).
Proof.
  revert acc. induction timeouts as [|t timeouts IH]; intros [[q sg] hs] Hf Hs; cbn [foldl fst snd] in *.
  { injection Hf as <- <- <-. split_and!; [done|by left|done|].
    intros t Hin. by apply not_elem_of_nil in Hin. }
  assert (∃ q' sg' hs', agg_collect (q, sg, hs) t = (q', sg', hs') ∧
    (sg' = sg ∨ is_Some (tm_MsgSignature t) ∧ sg' = sg ++ [tm_MsgSignature t]) ∧
    (∀ id, is_Some (q !! id) → is_Some (q' !! id)) ∧
    (is_Some (si_qc (tm_SyncInfo t)) → is_Some (q' !! tm_ID t)))
    as (q' & sg' & hs' & Hc & Hsg & Hq & Ht).
  { unfold agg_collect, SyncInfo_QC. destruct (si_qc (tm_SyncInfo t)) as [qc|];
      destruct (tm_MsgSignature t); do 3 eexists; (split; [done|]); (split; [eauto|]);
      (split; [|by rewrite ?lookup_insert_eq || intros [? ?]; eauto]);
      intros id Hid; rewrite ?lookup_insert_is_Some; try done;
      destruct (decide (tm_ID t = id)); auto. }
  rewrite Hc in Hf. apply IH in Hf as (H1 & H2 & H3 & H4); simpl in *.
  - split_and!; [done| |by eauto|].
    + intros s Hin. destruct (H2 s Hin) as [Hin'|(t' & ? & ->)]; [|right; exists t'; by rewrite elem_of_cons; auto].
      destruct Hsg as [->|[_ ->]]; [by left|].
      apply elem_of_app in Hin' as [?|Hin']; [by left|right]. exists t.
      apply list_elem_of_singleton in Hin'. rewrite elem_of_cons. by auto.
    + intros t' [->|Hin]%elem_of_cons ?; [by auto|by eauto].
  - destruct Hsg as [->|[? ->]]; [done|]. apply Forall_app. by repeat constructor.
Qed.

Lemma agg_verify_hashes view order acc hs :
  dom (foldl (agg_verify_step view) (acc, hs) order).2 = dom hs ∪ list_to_set (fst <$> order).
Proof.
  revert acc hs. induction order as [|[id qc] order IH]; intros acc hs; [simpl; set_solver|].
  cbn [foldl]. unfold agg_verify_step at 2. rewrite IH, dom_insert_L. simpl. set_solver.
Qed.

(** One replica can spoil an aggregate quorum certificate.  If the timeout
    message of a replica carries a QC but no valid message signature of it is
    among the timeouts, the certificate [CreateAggregateQC] builds is
    rejected by [VerifyAggregateQC], however many timeouts are valid. *)
Theorem aggQC_spoiled (view : View) (timeouts : list TimeoutMsg) (t : TimeoutMsg)
    (aggQC : AggregateQC) :
  ecdsa_config env → t ∈ timeouts → is_Some (si_qc (tm_SyncInfo t)) →
  (∀ t' sig h, t' ∈ timeouts → tm_MsgSignature t' = Some (SigECDSA sig) →
     ec_signer sig = tm_ID t → ec_valid env sig h = false) →
  CreateAggregateQC (CI := ecdsaCrypto env) view timeouts () = Ok (inl aggQC, ()) →
  VerifyAggregateQC (CI := ecdsaCrypto env) aggQC () = Ok ((false, zero_QC), ()).
Proof.
  intros Hcfg Ht Hqc Hbad. unfold CreateAggregateQC.
  destruct (foldl agg_collect (∅, [], ∅) timeouts) as [[qcs sigs] hashes] eqn:Hf.
  apply agg_collect_sigs in Hf as (Hs & Hsrc & _ & Hq); [|constructor].
  intros (r & [] & Hr & Hres)%M_bind_Ok. simpl in Hr.
  apply M_bind_Ok in Hr as ([thr err] & [] & Hloop & Hr).
  destruct (ec_create_loop_spec env (λ id, hashes !! id) sigs ∅ [] Hcfg Hs (map_Forall_empty _))
    as (thr' & err' & Hrun & _ & Hdom).
  rewrite Hrun in Hloop. injection Hloop as -> ->.
  injection Hr as <-. destruct (env_QuorumSize env <=? _)%Z; [|done].
  injection Hres as <-. unfold VerifyAggregateQC, VerifyAggregateQC_in. cbn [agg_qcs agg_sig agg_view].
  pose proof (agg_verify_hashes view (map_to_list qcs) None ∅) as Hdh.
  destruct (foldl (agg_verify_step view) (None, ∅) (map_to_list qcs)) as [highQC hs].
  pose proof (verify_message_set_spec env thr hs Hcfg) as Hv. cbv zeta in Hv.
  rewrite bool_decide_eq_false_2 in Hv; [by erewrite M_bind_run by exact Hv|].
  intros [_ Hsub]. destruct (Hq t Ht Hqc) as [qc Hl].
  assert (tm_ID t ∈ dom thr) as Hin.
  { apply Hsub. simpl in Hdh. rewrite Hdh. apply elem_of_union_r, elem_of_list_to_set.
    apply list_elem_of_fmap. exists (tm_ID t, qc). by rewrite elem_of_map_to_list. }
  rewrite Hdom, dom_empty_L, (left_id_L ∅ (∪)) in Hin. unfold valid_signers in Hin.
  apply elem_of_list_to_set, list_elem_of_omap in Hin as (s & Hs1 & Hs2).
  destruct s as [[sig|]|]; [|done..].
  destruct (hashes !! ec_signer sig) as [h|]; [|done].
  destruct (ec_valid env sig h) eqn:Ev; [|done]. injection Hs2 as Hsig.
  destruct (Hsrc _ Hs1) as [Hn|(t' & Ht' & Hms)]; [by apply not_elem_of_nil in Hn|].
  by rewrite (Hbad t' sig h Ht' (eq_sym Hms) Hsig) in Ev.
Qed.
End aggregate.

(** ** The theorems on four replicas *)

Module EcdsaExample.
#[local] Existing Instance ScalarBLS.
#[local] Existing Instance ToyECDSA.

Definition env4 : CryptoEnv :=
  mkEnv 1 (PrivECDSA (101%N : ecdsa_PrivateKey))
    {[1 := PubECDSA 101; 2 := PubECDSA 102; 3 := PubECDSA 103; 4 := PubECDSA 104]}%N [].

Definition h0 : Hash := View_ToHash 7.
Definition sg (id : ID) : ecdsa_Signature := ec_sig (100 + id) (big_SetBytes h0) id.
Definition bad (id : ID) : ecdsa_Signature := ec_sig 0 0 id.

Lemma env4_ecdsa : ecdsa_config env4.
Proof.
  unfold ecdsa_config, env4. simpl.
  repeat (apply map_Forall_insert_2; [done|]). apply map_Forall_empty.
Qed.

(** A bad signature and a repeated one among three good ones. *)
Lemma ecdsa_create_verify_witness :
  ∃ thr, ec_VerifyThresholdSignature env4 (λ s h, pure_op (ec_Verify env4 s h))
           (Some (ThrECDSA thr)) h0 () = Ok (true, ()) ∧ dom thr = {[1; 2; 3]}%N.
Proof.
  pose proof (ecdsa_create_verify env4
    (Some ∘ SigECDSA <$> [sg 1; bad 4; sg 2; sg 1; sg 3]%N) h0 env4_ecdsa
    (proj2 (Forall_fmap _ _ _) (proj2 (Forall_forall _ _) (λ x _, ex_intro _ _ eq_refl)))) as H.
  cbv zeta in H.
  destruct (Z.leb_spec (env_QuorumSize env4) (Z.of_nat (size (valid_signers env4 (λ _, Some h0)
    (Some ∘ SigECDSA <$> [sg 1; bad 4; sg 2; sg 1; sg 3]%N))))) as [_|Hlt].
  - destruct H as (thr & _ & Hdom & _ & Hv). exists thr. split; [exact Hv|].
    rewrite Hdom. vm_compute. reflexivity.
  - exfalso. revert Hlt. apply Z.le_ngt. vm_compute. discriminate.
Defined.

Definition thr_a : ecdsa_ThresholdSignature := RestoreThresholdSignature [sg 1; sg 2; sg 3]%N.
Definition thr_b : ecdsa_ThresholdSignature := RestoreThresholdSignature [sg 2; sg 3; sg 4; bad 1]%N.

(** Replica 2 is faulty; replica 3 is the one in both quorums. *)
Lemma ecdsa_quorums_intersect_witness :
  ∃ id pk s1 s2, (id ∉ ({[2]} : gset ID)%N) ∧ env_replicas env4 !! id = Some (PubECDSA pk) ∧
    thr_a !! id = Some s1 ∧ ecdsa_Verify pk h0 (ec_r s1) (ec_s s1) = true ∧
    thr_b !! id = Some s2 ∧ ecdsa_Verify pk h0 (ec_r s2) (ec_s s2) = true.
Proof.
  apply (ecdsa_quorums_intersect env4 thr_a thr_b h0 h0 {[2%N]}).
  - exact env4_ecdsa.
  - discriminate.
  - apply wf_RestoreThresholdSignature.
  - apply wf_RestoreThresholdSignature.
  - vm_compute. reflexivity.
  - vm_compute. reflexivity.
  - apply singleton_subseteq_l, elem_of_dom. vm_compute. by eexists.
  - vm_compute. discriminate.
Defined.

(** Two hashes and three signatures: the verification never returns. *)
Lemma ecdsa_verify_message_set_witness :
  ec_VerifyThresholdSignatureForMessageSet env4 (λ s h, pure_op (ec_Verify env4 s h))
    (Some (ThrECDSA thr_a)) {[1%N := h0; 2%N := View_ToHash 8]} () = Blocked.
Proof.
  pose proof (ecdsa_verify_message_set env4 thr_a {[1%N := h0; 2%N := View_ToHash 8]}
    env4_ecdsa) as H.
  cbv zeta in H.
  match type of H with (if ?c then _ else _) =>
    replace c with true in H by (vm_compute; reflexivity) end.
  match type of H with (if ?c then _ else _) =>
    replace c with false in H by (vm_compute; reflexivity) end.
  exact H.
Defined.
(** Three timeouts whose certificates have views 5, 9 and 3. *)
Definition qc_at (v : View) : QuorumCert := NewQuorumCert None v (b_hash GetGenesis).
Definition tmo (id : ID) (v : View) : TimeoutMsg :=
  mkTimeout id 4 None None (SyncInfo_WithQC NewSyncInfo (qc_at v)).
Definition signed (t : TimeoutMsg) : TimeoutMsg :=
  mkTimeout (tm_ID t) (tm_View t) None
    (Some (SigECDSA (ec_sig (100 + tm_ID t) (big_SetBytes (TimeoutMsg_Hash t)) (tm_ID t))))
    (tm_SyncInfo t).
Definition agg3 : AggregateQC :=
  match CreateAggregateQC (CI := ecdsaCrypto env4) 4
          (signed <$> [tmo 1 5; tmo 2 9; tmo 3 3]%N) () with
  | Ok (inl a, _) => a
  | _ => NewAggregateQC ∅ None 0
  end.

Lemma VerifyAggregateQC_high_witness :
  (∃ id, agg_qcs agg3 !! id = Some (qc_at 9)) ∧
  (∀ id qc, agg_qcs agg3 !! id = Some qc → (qc_view qc ≤ 9)%N) ∧
  ∃ s1 s2, VerifyQuorumCert (CI := ecdsaCrypto env4) (qc_at 9) s1 = Ok (true, s2).
Proof.
  apply (VerifyAggregateQC_high (CI := ecdsaCrypto env4) (map_to_list (agg_qcs agg3)) agg3
           () () (qc_at 9)).
  - reflexivity.
  - vm_compute. reflexivity.
Defined.

(** Replica 4 sends a timeout without a message signature. *)
Definition spoiled : list TimeoutMsg :=
  (signed <$> [tmo 1 5; tmo 2 9; tmo 3 3]%N) ++ [tmo 4 2].
Definition created (m : res (fallible AggregateQC * ())) : AggregateQC :=
  match m with
  | Ok (inl a, _) => a
  | _ => NewAggregateQC ∅ None 0
  end.
Definition agg4 : AggregateQC := created (CreateAggregateQC (CI := ecdsaCrypto env4) 4 spoiled ()).

Lemma aggQC_spoiled_witness :
  VerifyAggregateQC (CI := ecdsaCrypto env4) agg4 () = Ok ((false, zero_QC), ()).
Proof.
  apply (aggQC_spoiled env4 4 spoiled (tmo 4 2)).
  - exact env4_ecdsa.
  - apply elem_of_app. right. by apply list_elem_of_singleton.
  - by eexists.
  - intros t' sig h Hin Hsig Hid. exfalso. unfold spoiled in Hin.
    apply elem_of_app in Hin as [Hin|Hin]; [|apply list_elem_of_singleton in Hin; subst t'; discriminate].
    apply list_elem_of_fmap in Hin as (t & -> & Hin).
    injection Hsig as <-. cbn in Hid.
    repeat (apply elem_of_cons in Hin as [->|Hin]; [discriminate|]).
    by apply not_elem_of_nil in Hin.
  - vm_compute. reflexivity.
Defined.
End EcdsaExample.
