(* ===== verification/Bls12.v ===== *)
(** * crypto/bls12/bls12.go: aggregate signatures on BLS12-381

    Signing, aggregation and the pairing checks, over the curve library of
    [BLS12Lib].  A Go map is visited in the order of [map_to_list]. *)

From S2P Require Import Prelude Encoding Bitfield Types CryptoBase.
From Stdlib Require Import Strings.Byte.

(** The domain separation tag. *)
Definition domain : bytes :=
  String.list_byte_of_string "BLS_SIG_BLS12381G2_XMD:SHA-256_SSWU_RO_POP_".

Section bls12.
Context {B : BLS12Lib} {E : ECDSALib}.

(** ** Keys and signatures *)

Definition PublicKey_ToBytes (p : PointG1) : bytes := G1_ToCompressed p.
Definition PublicKey_FromBytes (b : bytes) : option PointG1 := G1_FromCompressed b.
Definition PrivateKey_ToBytes (k : N) : bytes := big_Bytes k.
Definition PrivateKey_FromBytes (b : bytes) : N := big_SetBytes b.

(** [draw] is what rand.Int returns, an integer below the curve order. *)
Definition GeneratePrivateKey (draw : option N) : option N := draw.
Definition PrivateKey_Public (k : N) : PointG1 := G1_MulScalarBig G1One k.

(** Reading the signer needs four bytes; fewer panic. *)
Definition bls12_Signature_FromBytes (b : bytes) : res (option bls12_Signature) :=
  if (length b <? 4)%nat then Panic "index out of range"
  else Ok (p ← G2_FromCompressed (drop 4 b); Some (bls_sig (Uint32 b) p)).

Definition RestoreAggregateSignature (sig : bytes) (participants : Bitfield) : option AggregateSignature :=
  p ← G2_FromCompressed sig; Some (agg_sig_mk p participants).

Context (env : CryptoEnv).

Definition bls_getPrivateKey : res N :=
  match env_PrivateKey env with
  | PrivBLS12 k => Ok k
  | PrivECDSA _ => Panic "interface conversion"
  end.

Definition bls_Sign (hash : Hash) : res (fallible Signature) :=
  match G2_HashToCurve hash domain with
  | None => Ok (inr [ErrSignFailed])
  | Some p => k ← bls_getPrivateKey; Ok (inl (SigBLS12 (bls_sig (env_ID env) (G2_MulScalarBig p k))))
  end.

(** The loop of [aggregateSignatures]. *)
Fixpoint agg_loop (sigs : list (ID * bls12_Signature)) (sig : PointG2) (participants : Bitfield)
    : res AggregateSignature :=
  match sigs with
  | [] => Ok (agg_sig_mk sig participants)
  | (id, s) :: rest =>
    participants' ← Bitfield_Add participants id;
    agg_loop rest (G2_Add sig (bls_s s)) participants'
  end.

Definition aggregateSignatures (signatures : gmap ID bls12_Signature)
    : res (option AggregateSignature) :=
  if (size signatures =? 0)%nat then Ok None
  else agg ← agg_loop (map_to_list signatures) G2_Zero []; Ok (Some agg).

(** The public key behind a replica; a nil replica or another key panics. *)
Definition bls_key (id : ID) : res PointG1 :=
  match env_replicas env !! id with
  | None => Panic "nil pointer dereference"
  | Some (PubBLS12 p) => Ok p
  | Some (PubECDSA _) => Panic "interface conversion"
  end.

(** The signer that is not in the configuration is only logged. *)
Definition bls_Verify (sig : option Signature) (hash : Hash) : res bool :=
  match sig with
  | Some (SigBLS12 s) =>
    pk ← bls_key (bls_signer s);
    mret (match G2_HashToCurve hash domain with
          | None => false
          | Some p => engine_IsOne [(true, G1One, bls_s s); (false, pk, p)]
          end)
  | Some (SigECDSA _) | None => Panic "interface conversion"
  end.

(** The keys of the participants that are in the configuration. *)
Fixpoint participant_keys (ids : list ID) : res (list PointG1) :=
  match ids with
  | [] => Ok []
  | id :: ids =>
    match env_replicas env !! id with
    | None => participant_keys ids
    | Some (PubBLS12 p) => ps ← participant_keys ids; Ok (p :: ps)
    | Some (PubECDSA _) => Panic "interface conversion"
    end
  end.

Definition bls_VerifyThresholdSignature (signature : option ThresholdSignature) (hash : Hash) : res bool :=
  match signature with
  | Some (ThrBLS12 None) => Panic "nil pointer dereference"
  | Some (ThrBLS12 (Some sig)) =>
    pubKeys ← participant_keys (Bitfield_ForEach (as_participants sig));
    mret (match G2_HashToCurve hash domain with
          | None => false
          | Some ps =>
            if (Z.of_nat (length pubKeys) <? env_QuorumSize env)%Z then false
            else engine_IsOne ((true, G1One, as_sig sig) :: ((λ pub, (false, pub, ps)) <$> pubKeys))
          end)
  | Some (ThrECDSA _) | None => Ok false
  end.

(** The loop over the message hashes: the pairs to add and the hashes seen;
    [None] when it returns false. *)
Fixpoint set_pairs (hashes : list (ID * Hash)) (hashSet : gset Hash)
    (pairs : list (bool * PointG1 * PointG2)) : option (gset Hash * list (bool * PointG1 * PointG2)) :=
  match hashes with
  | [] => Some (hashSet, pairs)
  | (id, hash) :: rest =>
    if bool_decide (hash ∈ hashSet) then set_pairs rest hashSet pairs
    else
      match env_replicas env !! id with
      | Some (PubBLS12 pk) =>
        match G2_HashToCurve hash domain with
        | None => None
        | Some p2 => set_pairs rest ({[hash]} ∪ hashSet) (pairs ++ [(false, pk, p2)])
        end
      | Some (PubECDSA _) | None => None
      end
  end.

Definition bls_VerifyThresholdSignatureForMessageSet (signature : option ThresholdSignature)
    (hashes : gmap ID Hash) : res bool :=
  match signature with
  | Some (ThrBLS12 None) => Panic "nil pointer dereference"
  | Some (ThrBLS12 (Some sig)) =>
    Ok (match set_pairs (map_to_list hashes) ∅ [(true, G1One, as_sig sig)] with
        | None => false
        | Some (hashSet, pairs) =>
          if negb (engine_IsOne pairs) then false
          else (env_QuorumSize env <=? Z.of_nat (size hashSet))%Z
        end)
  | Some (ThrECDSA _) | None => Ok false
  end.

(** The loop that sorts the partial signatures by signer. *)
Fixpoint collect_sigs (partialSignatures : list (option Signature)) (sigs : gmap ID bls12_Signature)
    (err : list crypto_error) : res (gmap ID bls12_Signature * list crypto_error) :=
  match partialSignatures with
  | [] => Ok (sigs, err)
  | None :: _ => Panic "nil pointer dereference"
  | Some sig :: rest =>
    if bool_decide (is_Some (sigs !! Signature_Signer sig))
    then collect_sigs rest sigs (err ++ [ErrPartialDuplicate])
    else match sig with
         | SigECDSA _ => collect_sigs rest sigs (err ++ [ErrWrongType])
         | SigBLS12 s => collect_sigs rest (<[bls_signer s := s]> sigs) err
         end
  end.

Definition bls_CreateThresholdSignature (partialSignatures : list (option Signature)) (_ : Hash)
    : res (fallible ThresholdSignature) :=
  if (Z.of_nat (length partialSignatures) <? env_QuorumSize env)%Z then Ok (inr [ErrNotAQuorum])
  else
    '(sigs, err) ← collect_sigs partialSignatures ∅ [];
    if (Z.of_nat (size sigs) <? env_QuorumSize env)%Z then Ok (inr (ErrNotAQuorum :: err))
    else agg ← aggregateSignatures sigs; Ok (inl (ThrBLS12 agg)).

Definition bls_CreateThresholdSignatureForMessageSet (partialSignatures : list (option Signature))
    (hashes : gmap ID Hash) : res (fallible ThresholdSignature) :=
  bls_CreateThresholdSignature partialSignatures zero_hash.

(** The module never calls the registered verifier. *)
Definition bls12Raw : RawCrypto :=
  mkRaw bls_Sign bls_Verify
    (λ C _ sigs h, pure_op (bls_CreateThresholdSignature sigs h))
    (λ C _ sigs hs, pure_op (bls_CreateThresholdSignatureForMessageSet sigs hs))
    (λ C _ sig h, pure_op (bls_VerifyThresholdSignature sig h))
    (λ C _ sig hs, pure_op (bls_VerifyThresholdSignatureForMessageSet sig hs)).
End bls12.

(** ** Properties *)

(** The algebra of the pairing: a bilinear map into a commutative group, and
    an engine that multiplies the pairings of its pairs, inverted where they
    were added with AddPairInv. *)
Class BLS12Pairing (B : BLS12Lib) := {
  GT : Type;
  gt_one : GT;
  gt_mul : GT → GT → GT;
  gt_inv : GT → GT;
  pairing : PointG1 → PointG2 → GT;
  gt_mul_assoc a b c : gt_mul a (gt_mul b c) = gt_mul (gt_mul a b) c;
  gt_mul_comm a b : gt_mul a b = gt_mul b a;
  gt_mul_one a b : gt_mul (gt_mul a b) gt_one = gt_mul a b;
  gt_one_one : gt_mul gt_one gt_one = gt_one;
  gt_inv_l p q : gt_mul (gt_inv (pairing p q)) (pairing p q) = gt_one;
  pairing_zero p : pairing p G2_Zero = gt_one;
  pairing_add p q1 q2 : pairing p (G2_Add q1 q2) = gt_mul (pairing p q1) (pairing p q2);
  pairing_scalar k q : pairing (G1_MulScalarBig G1One k) q = pairing G1One (G2_MulScalarBig q k);
  engine_product l :
    foldl (λ acc x, gt_mul acc (if x.1.1 : bool then gt_inv (pairing x.1.2 x.2) else pairing x.1.2 x.2))
      gt_one l = gt_one → engine_IsOne l = true;
}.

Section bls12_facts.
Context {B : BLS12Lib} {E : ECDSALib} {P : BLS12Pairing B} (env : CryptoEnv).

(** [keys id] is the private key of a replica whose public key the
    configuration has. *)
Context (keys : gmap ID N).

Definition bls_config : Prop :=
  env_replicas env = (λ k, PubBLS12 (PrivateKey_Public k)) <$> keys ∧
  ∀ id, id ∈ dom keys → (1 ≤ id)%N ∧ (id + 8 ≤ two32)%N.

(** The signature of a replica on [h]. *)
Definition signature_of (p : PointG2) (id : ID) (k : N) : bls12_Signature :=
  bls_sig id (G2_MulScalarBig p k).

Lemma agg_loop_spec (ids : list ID) (s : ID → bls12_Signature) sig bm :
  bf_fits bm → (∀ id, id ∈ ids → (1 ≤ id)%N ∧ (id + 8 ≤ two32)%N) →
  ∃ bm', agg_loop ((λ id, (id, s id)) <$> ids) sig bm =
      Ok (agg_sig_mk (foldl (λ acc id, G2_Add acc (bls_s (s id))) sig ids) bm') ∧
    bf_set bm' = list_to_set ids ∪ bf_set bm ∧ bf_fits bm'.
Proof.
  revert sig bm. induction ids as [|id ids IH]; intros sig bm Hf Hids.
  { exists bm. split_and!; [done| |done]. set_solver. }
  rewrite fmap_cons. cbn [agg_loop foldl].
  destruct (Hids id) as [H1 H2]; [by left|].
  destruct (Bitfield_Add_set bm id Hf H1 H2) as (bm1 & -> & Hs1 & Hf1).
  cbn [mbind res_bind]. destruct (IH (G2_Add sig (bls_s (s id))) bm1 Hf1) as (bm2 & -> & Hs2 & Hf2).
  { intros x Hx. apply Hids. by right. }
  exists bm2. split_and!; [done| |done]. rewrite Hs2, Hs1. set_solver.
Qed.

Lemma pairing_sum (ids : list ID) (s : ID → bls12_Signature) p sig :
  pairing p (foldl (λ acc id, G2_Add acc (bls_s (s id))) sig ids) =
  foldl (λ acc id, gt_mul acc (pairing p (bls_s (s id)))) (pairing p sig) ids.
Proof.
  revert sig. induction ids as [|id ids IH]; intros sig; simpl; [done|].
  by rewrite IH, pairing_add.
Qed.

Lemma gt_prod_perm {A} (f : A → GT) (l1 l2 : list A) acc :
  l1 ≡ₚ l2 → foldl (λ acc x, gt_mul acc (f x)) acc l1 = foldl (λ acc x, gt_mul acc (f x)) acc l2.
Proof.
  intros Hp. revert acc. induction Hp as [|x l1 l2 _ IH|x y l|l1 l2 l3 _ IH1 _ IH2]; intros acc; simpl; auto.
  - f_equal. by rewrite <-!gt_mul_assoc, (gt_mul_comm (f y)).
  - by rewrite IH1.
Qed.

(** Multiplying a list into an accumulator is multiplying by its product. *)
Lemma gt_prod_acc {A} (f : A → GT) (l : list A) a b :
  foldl (λ acc x, gt_mul acc (f x)) (gt_mul a b) l =
  gt_mul a (foldl (λ acc x, gt_mul acc (f x)) b l).
Proof.
  revert b. induction l as [|x l IH]; intros b; simpl; [done|]. by rewrite <-gt_mul_assoc, IH.
Qed.

Lemma participant_keys_spec ids :
  bls_config → (∀ id, id ∈ ids → id ∈ dom keys) →
  participant_keys env ids = Ok ((λ id, PrivateKey_Public (keys !!! id)) <$> ids).
Proof.
  intros [Hcfg _]. induction ids as [|id ids IH]; intros Hids; simpl; [done|].
  destruct (elem_of_dom keys id) as [Hd _]. destruct (Hd (Hids id ltac:(by left))) as [k Hk].
  rewrite Hcfg, lookup_fmap, Hk. simpl. rewrite IH by (intros; apply Hids; by right). simpl.
  by rewrite (lookup_total_correct _ _ _ Hk).
Qed.

Lemma collect_sigs_spec (ids : list ID) (s : ID → bls12_Signature) m err :
  NoDup ids → (∀ id, bls_signer (s id) = id) → (∀ id, id ∈ ids → m !! id = None) →
  ∃ m', collect_sigs ((λ id, Some (SigBLS12 (s id))) <$> ids) m err = Ok (m', err) ∧
    (∀ id, m' !! id = if bool_decide (id ∈ ids) then Some (s id) else m !! id).
Proof.
  intros Hnd Hs. revert m. induction Hnd as [|id ids Hid Hnd IH]; intros m Hm.
  { exists m. split; [done|]. intros id. by rewrite bool_decide_eq_false_2 by apply not_elem_of_nil. }
  rewrite fmap_cons. cbn [collect_sigs Signature_Signer]. rewrite Hs, (Hm id) by (by left).
  rewrite bool_decide_eq_false_2 by (by intros [? ?]).
  destruct (IH (<[id := s id]> m)) as (m' & Hrun & Hl).
  { intros x Hx. rewrite lookup_insert_ne by (intros ->; done). apply Hm. by right. }
  exists m'. split; [done|]. intros x. rewrite Hl. destruct (decide (x = id)) as [->|Hne].
  - rewrite (bool_decide_eq_false_2 (id ∈ ids)), bool_decide_eq_true_2 by (done || by left).
    by rewrite lookup_insert_eq.
  - rewrite lookup_insert_ne by done. destruct (decide (x ∈ ids)).
    + by rewrite !bool_decide_eq_true_2 by (done || by right).
    + by rewrite !bool_decide_eq_false_2 by (by rewrite ?not_elem_of_cons).
Qed.

(** A map that holds exactly the signatures of [ids], as a list. *)
Lemma sigs_to_list (ids : list ID) (s : ID → bls12_Signature) (m : gmap ID bls12_Signature) :
  NoDup ids → (∀ id, m !! id = if bool_decide (id ∈ ids) then Some (s id) else None) →
  ∃ ids', ids' ≡ₚ ids ∧ map_to_list m = (λ id, (id, s id)) <$> ids' ∧ size m = length ids.
Proof.
  intros Hnd Hm. exists (fst <$> map_to_list m).
  assert (∀ id x, (id, x) ∈ map_to_list m → x = s id) as Hval.
  { intros id x Hin. apply elem_of_map_to_list in Hin. rewrite Hm in Hin. case_bool_decide; congruence. }
  assert (fst <$> map_to_list m ≡ₚ ids) as Hp.
  { apply NoDup_Permutation; [apply NoDup_fst_map_to_list|done|]. intros id. rewrite list_elem_of_fmap. split.
    - intros ([id' x] & -> & Hin). apply elem_of_map_to_list in Hin. rewrite Hm in Hin. simpl.
      by case_bool_decide.
    - intros Hid. exists (id, s id). split; [done|]. apply elem_of_map_to_list. rewrite Hm.
      by rewrite bool_decide_eq_true_2. }
  split_and!; [done| |].
  - rewrite <-list_fmap_compose. rewrite <-(list_fmap_id (map_to_list m)) at 1.
    apply list_fmap_ext. intros i [id x] Hin. simpl. f_equal. apply Hval. by eapply list_elem_of_lookup_2.
  - rewrite <-length_map_to_list, <-(length_fmap fst), Hp. done.
Qed.

(** The pairing equation holds for the sum of the signatures. *)
Lemma engine_accepts (ids ids' : list ID) (p : PointG2) :
  ids ≡ₚ ids' →
  engine_IsOne ((true, G1One, foldl (λ acc id, G2_Add acc (G2_MulScalarBig p (keys !!! id))) G2_Zero ids') ::
    ((λ pub, (false, pub, p)) <$> ((λ id, PrivateKey_Public (keys !!! id)) <$> ids))) = true.
Proof.
  intros Hp. apply engine_product. cbn [foldl fst snd].
  set (S := foldl _ G2_Zero ids'). set (f := λ id, pairing G1One (G2_MulScalarBig p (keys !!! id))).
  rewrite <-list_fmap_compose.
  assert (∀ acc l, foldl (λ acc x, gt_mul acc (if x.1.1 : bool then gt_inv (pairing x.1.2 x.2) else pairing x.1.2 x.2))
    acc (((λ pub, (false, pub, p)) ∘ (λ id, PrivateKey_Public (keys !!! id))) <$> l) =
    foldl (λ acc id, gt_mul acc (f id)) acc l) as Hfold.
  { intros acc l. revert acc. induction l as [|id l IH]; intros acc; [done|]. rewrite fmap_cons.
    cbn [foldl]. rewrite IH. cbn [compose fst snd]. unfold PrivateKey_Public. by rewrite pairing_scalar. }
  rewrite Hfold, (gt_prod_perm f _ _ _ Hp), <-gt_mul_one, gt_prod_acc.
  assert (foldl (λ acc id, gt_mul acc (f id)) gt_one ids' = pairing G1One S) as ->.
  { unfold S. symmetry.
    etrans; [exact (pairing_sum ids' (λ id, bls_sig id (G2_MulScalarBig p (keys !!! id))) G1One G2_Zero)|].
    by rewrite pairing_zero. }
  by rewrite <-gt_mul_assoc, gt_inv_l, gt_one_one.
Qed.

(** C21: signatures on one hash of a quorum of distinct replicas aggregate into
    a threshold signature whose participants are exactly those replicas and
    which passes verification. *)
Theorem bls_create_verify (ids : list ID) (h : Hash) (p : PointG2) :
  bls_config → G2_HashToCurve h domain = Some p → NoDup ids → ids ≠ [] →
  (∀ id, id ∈ ids → id ∈ dom keys) → (env_QuorumSize env ≤ Z.of_nat (length ids))%Z →
  ∃ agg, bls_CreateThresholdSignature env
      ((λ id, Some (SigBLS12 (signature_of p id (keys !!! id)))) <$> ids) h =
      Ok (inl (ThrBLS12 (Some agg))) ∧
    bf_set (as_participants agg) = list_to_set ids ∧
    bls_VerifyThresholdSignature env (Some (ThrBLS12 (Some agg))) h = Ok true.
Proof.
  intros Hcfg Hp Hnd Hne Hids Hq. unfold bls_CreateThresholdSignature.
  rewrite length_fmap. destruct (Z.ltb_spec (Z.of_nat (length ids)) (env_QuorumSize env)); [lia|].
  set (s := λ id, signature_of p id (keys !!! id)).
  change ((λ id, Some (SigBLS12 (signature_of p id (keys !!! id)))) <$> ids)
    with ((λ id, Some (SigBLS12 (s id))) <$> ids).
  destruct (collect_sigs_spec ids s ∅ []) as (m & -> & Hm); [done|done|by intros; rewrite lookup_empty|].
  destruct (sigs_to_list ids s m Hnd) as (ids' & Hperm & Hlist & Hsize).
  { intros id. by rewrite Hm, lookup_empty. }
  cbn [mbind res_bind]. rewrite Hsize.
  destruct (Z.ltb_spec (Z.of_nat (length ids)) (env_QuorumSize env)); [lia|].
  unfold aggregateSignatures. rewrite Hsize, Hlist.
  destruct (Nat.eqb_spec (length ids) 0); [by destruct ids|].
  destruct (agg_loop_spec ids' s G2_Zero []) as (bm & -> & Hbm & Hfits); [done| |].
  { intros id Hid. rewrite Hperm in Hid. by apply Hcfg, Hids. }
  eexists. split; [done|]. cbn [as_participants]. rewrite Hbm.
  assert (Bitfield_ForEach bm ≡ₚ ids') as HL.
  { apply NoDup_Permutation; [by apply ForEach_sorted|by rewrite Hperm|]. intros x.
    rewrite <-(elem_of_list_to_set (C:=gset ID)). fold (bf_set bm). rewrite Hbm.
    rewrite elem_of_union, elem_of_list_to_set. unfold bf_set. simpl. set_solver. }
  split; [rewrite Hperm; unfold bf_set; simpl; set_solver|].
  unfold bls_VerifyThresholdSignature. cbn [as_participants as_sig].
  rewrite participant_keys_spec by (done || (intros id Hid; apply Hids; by rewrite <-Hperm, <-HL)).
  cbn [mbind res_bind]. rewrite Hp, length_fmap, HL, Hperm.
  destruct (Z.ltb_spec (Z.of_nat (length ids)) (env_QuorumSize env)); [lia|].
  unfold mret, res_ret. f_equal. by apply engine_accepts.
Qed.

(** A signature that names a signer outside the configuration makes
    [Verify] panic instead of being rejected. *)
Theorem bls_Verify_unknown_panics (s : bls12_Signature) (h : Hash) :
  env_replicas env !! bls_signer s = None →
  bls_Verify env (Some (SigBLS12 s)) h = Panic "nil pointer dereference".
Proof. intros Hn. unfold bls_Verify, bls_key. by rewrite Hn. Qed.
End bls12_facts.

(** ** Round trips of the encodings *)

Section encodings.
Context {B : BLS12Lib} {BL : BLS12Laws B}.

Lemma bls_signature_undo (s : bls12_Signature) :
  (bls_signer s < two32)%N → bls12_Signature_FromBytes (bls12_Signature_ToBytes s) = Ok (Some s).
Proof.
  intros Hs. unfold bls12_Signature_FromBytes, bls12_Signature_ToBytes.
  assert (length (PutUint32 (bls_signer s)) = 4) as Hl by apply length_le_bytes.
  rewrite length_app, Hl. cbn [Nat.ltb Nat.leb Nat.add].
  unfold Uint32. rewrite (take_app_le _ _ 4), take_ge by lia.
  rewrite (drop_app_ge _ _ 4), Hl by lia. cbn [Nat.sub drop]. rewrite drop_0.
  rewrite G2_FromCompressed_ToCompressed. cbn [mbind option_bind]. unfold PutUint32.
  rewrite le_val_le_bytes_small by done. by destruct s.
Qed.

(** Keys, signatures and aggregates survive their byte encodings. *)
Theorem bls_encodings_roundtrip (pk : PointG1) (sk : N) (s : bls12_Signature) (agg : AggregateSignature) :
  (bls_signer s < two32)%N →
  PublicKey_FromBytes (PublicKey_ToBytes pk) = Some pk ∧
  PrivateKey_FromBytes (PrivateKey_ToBytes sk) = sk ∧
  bls12_Signature_FromBytes (bls12_Signature_ToBytes s) = Ok (Some s) ∧
  RestoreAggregateSignature (AggregateSignature_ToBytes (Some agg)) (as_participants agg) = Some agg.
Proof.
  intros Hs. split_and!.
  - apply G1_FromCompressed_ToCompressed.
  - apply big_SetBytes_Bytes.
  - by apply bls_signature_undo.
  - unfold RestoreAggregateSignature. simpl. rewrite G2_FromCompressed_ToCompressed. by destruct agg.
Qed.
End encodings.

(** ** The scalar model has the algebra of a pairing *)

#[export] Program Instance ScalarPairing : BLS12Pairing ScalarBLS := {|
  GT := N;
  gt_one := 0%N;
  gt_mul a b := ((a + b) mod curveOrder)%N;
  gt_inv a := (curveOrder - a)%N;
  pairing := λ p q : N, (p * q mod curveOrder)%N;
|}.
Next Obligation. intros a b c. cbn beta. by rewrite N.Div0.add_mod_idemp_l, N.Div0.add_mod_idemp_r, N.add_assoc. Qed.
Next Obligation. intros a b. cbn beta. by rewrite N.add_comm. Qed.
Next Obligation. intros a b. cbn beta. by rewrite N.add_0_r, N.Div0.mod_mod. Qed.
Next Obligation. done. Qed.
Next Obligation.
  intros p q. cbn beta. pose proof (N.mod_lt (p * q) curveOrder ltac:(done)).
  rewrite N.sub_add by lia. by rewrite N.Div0.mod_same.
Qed.
Next Obligation. intros p. simpl. by rewrite N.mul_0_r. Qed.
Next Obligation.
  intros p q1 q2. simpl.
  by rewrite N.Div0.mul_mod_idemp_r, <-N.Div0.add_mod, N.mul_add_distr_l.
Qed.
Next Obligation.
  intros k q. change ((1 * k mod curveOrder) * q mod curveOrder = 1 * (q * k mod curveOrder) mod curveOrder)%N.
  rewrite N.Div0.mul_mod_idemp_l, N.Div0.mul_mod_idemp_r, !N.mul_1_l. by rewrite N.mul_comm.
Qed.
Next Obligation.
  intros l Hl. apply N.eqb_eq. rewrite <-Hl at 2. clear Hl. generalize 0%N.
  induction l as [|[[inv p] q] l IH]; intros acc; cbn [foldl]; [done|]. rewrite IH. do 2 f_equal.
  cbn [fst snd]. destruct inv; [done|]. by rewrite N.Div0.add_mod_idemp_r.
Qed.

(** ** The theorems on four replicas *)

Module BlsExample.
#[local] Existing Instance ScalarBLS.
#[local] Existing Instance ToyECDSA.

Definition keys4 : gmap ID N := {[1 := 11; 2 := 12; 3 := 13; 4 := 14]}%N.
Definition env4 : CryptoEnv :=
  mkEnv 1 (PrivBLS12 11) ((λ k, PubBLS12 (PrivateKey_Public k)) <$> keys4) [].
Definition h0 : Hash := View_ToHash 7.
Definition p0 : PointG2 := default 0%N (G2_HashToCurve h0 domain).

Lemma bls_create_verify_witness :
  ∃ agg, bf_set (as_participants agg) = list_to_set [3; 1; 4]%N ∧
    bls_VerifyThresholdSignature env4 (Some (ThrBLS12 (Some agg))) h0 = Ok true.
Proof.
  destruct (bls_create_verify env4 keys4 [3; 1; 4]%N h0 p0) as (agg & _ & Hp & Hv).
  - split; [reflexivity|]. intros id Hid. apply elem_of_dom in Hid as [k Hk].
    assert (forallb (λ x, (1 <=? x.1) && (x.1 + 8 <=? two32))%N (map_to_list keys4) = true) as H
      by (vm_compute; reflexivity).
    rewrite forallb_forall in H. apply elem_of_map_to_list, list_elem_of_In, H in Hk.
    apply andb_true_iff in Hk as [H1 H2]. split; by apply N.leb_le.
  - reflexivity.
  - apply (bool_decide_eq_true_1 (NoDup [3; 1; 4]%N)). vm_compute. reflexivity.
  - discriminate.
  - intros id Hid. apply elem_of_dom.
    repeat (apply elem_of_cons in Hid as [->|Hid]; [vm_compute; by eexists|]).
    by apply not_elem_of_nil in Hid.
  - vm_compute. discriminate.
  - exists agg. split; [exact Hp|exact Hv].
Defined.

Lemma bls_Verify_unknown_panics_witness :
  bls_Verify env4 (Some (SigBLS12 (bls_sig 9 1%N))) h0 = Panic "nil pointer dereference".
Proof. apply bls_Verify_unknown_panics. reflexivity. Defined.

Lemma bls_encodings_roundtrip_witness :
  bls12_Signature_FromBytes (bls12_Signature_ToBytes (bls_sig 3 5%N)) = Ok (Some (bls_sig 3 5%N)).
Proof.
  exact (proj1 (proj2 (proj2 (bls_encodings_roundtrip (5%N : PointG1) 5 (bls_sig 3 5%N)
    (agg_sig_mk 5%N []) eq_refl)))).
Defined.
End BlsExample.
