(* ===== verification/CryptoCache.v ===== *)
(** * crypto/cache.go: the LRU cache of verified signatures

    The key of an entry is the hash of the signed message hash followed by the
    bytes of the signature.  The doubly linked list [accessOrder] is a list of
    keys, the most recently used first; [entries] are the keys of the map whose
    values are the elements of that list. *)

From S2P Require Import Prelude Encoding Bitfield Types CryptoBase Ecdsa.
From Stdlib Require Import Strings.Byte.

(** ** The cache *)

Record cache := mkCache {
  ca_capacity : Z;
  ca_entries : gset Hash;
  ca_accessOrder : list Hash }.

Definition NewCache (capacity : Z) : cache := mkCache capacity ∅ [].

(** [accessOrder.MoveToFront(elem)], for the element that holds [key]. *)
Definition MoveToFront (key : Hash) (l : list Hash) : list Hash :=
  key :: filter (.≠ key) l.

(** Removing from an empty list dereferences the nil that [Back] returns. *)
Definition cache_evict (c : cache) : res cache :=
  if (Z.of_nat (size (ca_entries c)) <? ca_capacity c)%Z then Ok c
  else match last (ca_accessOrder c) with
       | None => Panic "nil pointer dereference"
       | Some key =>
         Ok (mkCache (ca_capacity c) (ca_entries c ∖ {[key]})
               (take (length (ca_accessOrder c) - 1) (ca_accessOrder c)))
       end.

Definition cache_insert (key : Hash) : M cache () := λ c,
  if bool_decide (key ∈ ca_entries c)
  then Ok ((), mkCache (ca_capacity c) (ca_entries c) (MoveToFront key (ca_accessOrder c)))
  else c' ← cache_evict c;
       Ok ((), mkCache (ca_capacity c') ({[key]} ∪ ca_entries c') (key :: ca_accessOrder c')).

Definition cache_check (key : Hash) : M cache bool := λ c,
  if bool_decide (key ∈ ca_entries c)
  then Ok (true, mkCache (ca_capacity c) (ca_entries c) (MoveToFront key (ca_accessOrder c)))
  else Ok (false, c).

(** ** The cached operations *)

Section cached.
Context {B : BLS12Lib} (raw : RawCrypto).

(** The order in which Go visits the map of message hashes. *)
Context (order : gmap ID Hash → list (ID * Hash)).

Definition sig_key (hash : Hash) (sig : Signature) : Hash :=
  sha256_Sum256 (hash ++ Signature_ToBytes sig).
Definition thr_key (hash : Hash) (sig : ThresholdSignature) : Hash :=
  sha256_Sum256 (hash ++ Threshold_ToBytes sig).
Definition set_key (hashes : gmap ID Hash) (sig : ThresholdSignature) : Hash :=
  sha256_Sum256 (concat (snd <$> order hashes) ++ Threshold_ToBytes sig).

Definition cache_Sign (hash : Hash) : M cache (fallible Signature) :=
  r ← pure_op (raw_Sign raw hash);
  match r with
  | inr err => mret (inr err)
  | inl sig => _ ← cache_insert (sig_key hash sig); mret (inl sig)
  end.

(** Look the key up, and on a miss verify and remember a success. *)
Definition check_or (key : Hash) (verify : M cache bool) : M cache bool :=
  hit ← cache_check key;
  if hit : bool then mret true
  else ok ← verify;
       if ok : bool then (_ ← cache_insert key; mret true) else mret false.

Definition cache_Verify (sig : option Signature) (hash : Hash) : M cache bool :=
  match sig with
  | None => mret false
  | Some s => check_or (sig_key hash s) (pure_op (raw_Verify raw sig hash))
  end.

Definition cache_CreateThresholdSignature (partialSignatures : list (option Signature)) (hash : Hash)
    : M cache (fallible ThresholdSignature) :=
  r ← raw_CreateThresholdSignature raw _ cache_Verify partialSignatures hash;
  match r with
  | inr err => mret (inr err)
  | inl sig => _ ← cache_insert (thr_key hash sig); mret (inl sig)
  end.

Definition cache_VerifyThresholdSignature (signature : option ThresholdSignature) (hash : Hash)
    : M cache bool :=
  match signature with
  | None => mret false
  | Some s => check_or (thr_key hash s) (raw_VerifyThresholdSignature raw _ cache_Verify signature hash)
  end.

Definition cache_CreateThresholdSignatureForMessageSet (partialSignatures : list (option Signature))
    (hashes : gmap ID Hash) : M cache (fallible ThresholdSignature) :=
  r ← raw_CreateThresholdSignatureForMessageSet raw _ cache_Verify partialSignatures hashes;
  match r with
  | inr err => mret (inr err)
  | inl sig => _ ← cache_insert (set_key hashes sig); mret (inl sig)
  end.

Definition cache_VerifyThresholdSignatureForMessageSet (signature : option ThresholdSignature)
    (hashes : gmap ID Hash) : M cache bool :=
  match signature with
  | None => mret false
  | Some s => check_or (set_key hashes s)
                (raw_VerifyThresholdSignatureForMessageSet raw _ cache_Verify signature hashes)
  end.

Definition cachedCrypto : CryptoImpl cache := {|
  Sign := cache_Sign;
  Verify := cache_Verify;
  CreateThresholdSignature := cache_CreateThresholdSignature;
  CreateThresholdSignatureForMessageSet := cache_CreateThresholdSignatureForMessageSet;
  VerifyThresholdSignature := cache_VerifyThresholdSignature;
  VerifyThresholdSignatureForMessageSet := cache_VerifyThresholdSignatureForMessageSet;
|}.
End cached.

(** ** The replacement policy

    The reference: the keys used so far, most recent first, without repeats,
    cut at the capacity. *)

Fixpoint recent (history : list Hash) : list Hash :=
  match history with
  | [] => []
  | k :: rest => k :: filter (.≠ k) (recent rest)
  end.

Definition lru (capacity : Z) (history : list Hash) : list Hash :=
  take (Z.to_nat capacity) (recent history).

(** A cache that has seen the accesses of [history]. *)
Definition cache_repr (history : list Hash) (c : cache) : Prop :=
  (0 < ca_capacity c)%Z ∧
  ca_accessOrder c = lru (ca_capacity c) history ∧
  ca_entries c = list_to_set (ca_accessOrder c).

Lemma NoDup_recent history : NoDup (recent history).
Proof.
  induction history as [|k history IH]; simpl; constructor.
  - rewrite list_elem_of_filter. naive_solver.
  - by apply NoDup_filter.
Qed.

Lemma NoDup_lru n history : NoDup (take n (recent history)).
Proof.
  pose proof (NoDup_recent history) as H. rewrite <-(take_drop n (recent history)) in H.
  by apply NoDup_app in H as [? _].
Qed.

Lemma filter_neq_id (k : Hash) (l : list Hash) : k ∉ l → filter (.≠ k) l = l.
Proof.
  induction l as [|x l IH]; [done|]. rewrite not_elem_of_cons. intros [Hx Hl].
  rewrite filter_cons_True by congruence. by rewrite IH.
Qed.

(** Moving a key of the first [n] to the front keeps the first [n] the same. *)
Lemma take_move_front (k : Hash) n (l : list Hash) :
  NoDup l → k ∈ take n l → take n (k :: filter (.≠ k) l) = k :: filter (.≠ k) (take n l).
Proof.
  destruct n as [|n]; [by rewrite elem_of_nil|]. intros Hnd Hin. cbn [take]. f_equal.
  revert n Hin. induction l as [|x l IH]; intros n Hin; [by rewrite take_nil in Hin; apply not_elem_of_nil in Hin|].
  apply NoDup_cons in Hnd as [Hx Hnd]. cbn [take] in Hin |- *.
  destruct (decide (x = k)) as [->|Hne].
  - rewrite !filter_cons_False by naive_solver.
    rewrite !filter_neq_id; [done| |done]. intros Hc. apply Hx. rewrite <-(take_drop n l). apply elem_of_app. by left.
  - rewrite !filter_cons_True by done. apply elem_of_cons in Hin as [?|Hin]; [congruence|].
    destruct n as [|n]; [by apply not_elem_of_nil in Hin|]. cbn [take]. f_equal. by apply IH.
Qed.

(** Adding a key that is not among the first [n] drops the [n]th. *)
Lemma take_push_front (k : Hash) n (l : list Hash) :
  NoDup l → k ∉ take (S n) l → take (S n) (k :: filter (.≠ k) l) = k :: take n l.
Proof.
  intros Hnd Hin. cbn [take]. f_equal. revert n Hin.
  induction l as [|x l IH]; intros n Hin; [done|].
  apply NoDup_cons in Hnd as [Hx Hnd]. cbn [take] in Hin.
  apply not_elem_of_cons in Hin as [Hne Hin].
  rewrite filter_cons_True by congruence. destruct n as [|n]; [done|]. cbn [take].
  f_equal. by apply IH.
Qed.

Lemma recent_cons k history : recent (k :: history) = k :: filter (.≠ k) (recent history).
Proof. done. Qed.

Lemma cache_access_repr history c key :
  cache_repr history c → key ∈ ca_entries c →
  cache_repr (key :: history)
    (mkCache (ca_capacity c) (ca_entries c) (MoveToFront key (ca_accessOrder c))).
Proof.
  intros (Hcap & Hord & Hent) Hin. rewrite Hent, elem_of_list_to_set, Hord in Hin.
  split_and!; cbn [ca_capacity ca_entries ca_accessOrder]; [done| |].
  - unfold lru in *. rewrite recent_cons, take_move_front, <-Hord; [done|apply NoDup_recent|done].
  - rewrite Hent. unfold MoveToFront. apply set_eq. intros k.
    rewrite !elem_of_list_to_set, elem_of_cons, list_elem_of_filter, Hord.
    destruct (decide (k = key)) as [->|]; naive_solver.
Qed.

Lemma cache_insert_repr history c key :
  cache_repr history c →
  ∃ c', cache_insert key c = Ok ((), c') ∧ cache_repr (key :: history) c' ∧
        ca_capacity c' = ca_capacity c.
Proof.
  intros Hr. unfold cache_insert. case_bool_decide as Hin.
  { eexists. split; [done|]. split; [by apply cache_access_repr|done]. }
  destruct Hr as (Hcap & Hord & Hent). rewrite Hent, elem_of_list_to_set, Hord in Hin.
  unfold lru in *. destruct (Z.to_nat (ca_capacity c)) as [|n] eqn:Hn; [lia|].
  pose proof (take_push_front key n (recent history) (NoDup_recent _) Hin) as Htake.
  unfold cache_evict. rewrite Hent, size_list_to_set by (rewrite Hord; apply NoDup_lru).
  rewrite Hord, length_take.
  destruct (Z.ltb_spec (Z.of_nat (S n `min` length (recent history))) (ca_capacity c)).
  - eexists. split; [done|]. split; [|done]. split_and!; simpl; [done| |by rewrite Hent].
    unfold lru. rewrite Hn, recent_cons, Htake, Hord.
    rewrite !take_ge by lia. done.
  - destruct (last (take (S n) (recent history))) as [old|] eqn:Hl.
    2: { apply last_None in Hl. apply (f_equal length) in Hl. rewrite length_take in Hl.
         cbn [length] in Hl. lia. }
    eexists. split; [done|]. split; [|done]. split_and!; cbn [ca_capacity ca_entries ca_accessOrder]; [done| |].
    + unfold lru. rewrite Hn, recent_cons, Htake. f_equal. rewrite take_take. f_equal. lia.
    + rewrite list_to_set_cons. f_equal. apply last_Some in Hl as [l' Hl].
      assert (NoDup (l' ++ [old])) as Hnd by (rewrite <-Hl; apply NoDup_lru).
      replace (S n `min` length (recent history) - 1) with (length l')
        by (apply (f_equal length) in Hl; rewrite length_app, length_take in Hl; cbn [length] in Hl; lia).
      rewrite Hl, take_app_length. apply NoDup_app in Hnd as (_ & Hd & _).
      rewrite list_to_set_app_L. simpl.
      assert (old ∉ (list_to_set l' : gset Hash)); [|set_solver].
      rewrite elem_of_list_to_set. intros Hc. apply (Hd _ Hc). by left.
Qed.

(** One access: an insertion or a lookup. *)
Inductive access := AInsert (key : Hash) | ACheck (key : Hash).

Definition run_access (a : access) : M cache bool :=
  match a with
  | AInsert key => _ ← cache_insert key; mret true
  | ACheck key => cache_check key
  end.

(** The same access on the reference: it answers, and records a use. *)
Definition lru_access (capacity : Z) (a : access) (history : list Hash) : bool * list Hash :=
  match a with
  | AInsert key => (true, key :: history)
  | ACheck key => if bool_decide (key ∈ lru capacity history) then (true, key :: history)
                  else (false, history)
  end.

Fixpoint run_accesses (l : list access) : M cache (list bool) :=
  match l with
  | [] => mret []
  | a :: l => b ← run_access a; bs ← run_accesses l; mret (b :: bs)
  end.

Fixpoint lru_accesses (capacity : Z) (l : list access) (history : list Hash)
    : list bool * list Hash :=
  match l with
  | [] => ([], history)
  | a :: l =>
    let '(b, history1) := lru_access capacity a history in
    let '(bs, history2) := lru_accesses capacity l history1 in
    (b :: bs, history2)
  end.

Lemma run_access_repr a history c :
  cache_repr history c →
  ∃ c', run_access a c = Ok ((lru_access (ca_capacity c) a history).1, c') ∧
        cache_repr (lru_access (ca_capacity c) a history).2 c' ∧ ca_capacity c' = ca_capacity c.
Proof.
  intros Hr. destruct a as [key|key]; simpl.
  - destruct (cache_insert_repr history c key Hr) as (c' & Hrun & ? & ?).
    exists c'. by erewrite M_bind_run by exact Hrun.
  - unfold cache_check. destruct Hr as (Hcap & Hord & Hent) eqn:Heq.
    rewrite <-Hord. destruct (decide (key ∈ ca_accessOrder c)) as [Hin|Hin].
    + rewrite !bool_decide_eq_true_2 by (rewrite ?Hent, ?elem_of_list_to_set; done).
      eexists. split; [done|]. split; [|done]. apply cache_access_repr; [done|].
      by rewrite Hent, elem_of_list_to_set.
    + rewrite !bool_decide_eq_false_2 by (rewrite ?Hent, ?elem_of_list_to_set; done). by exists c.
Qed.

(** C14: the cache implements least-recently-used replacement.  From a fresh
    cache of positive capacity, any sequence of insertions and lookups returns
    the answers of the reference, never panics, and leaves the [capacity] most
    recently used keys, most recent first, with the map and the list in step. *)
Theorem cache_refines_lru (capacity : Z) (l : list access) :
  (0 < capacity)%Z →
  let '(answers, history) := lru_accesses capacity l [] in
  ∃ c, run_accesses l (NewCache capacity) = Ok (answers, c) ∧
       ca_accessOrder c = lru capacity history ∧
       ca_entries c = list_to_set (ca_accessOrder c) ∧
       (Z.of_nat (size (ca_entries c)) ≤ capacity)%Z.
Proof.
  intros Hcap.
  assert (∀ c history, cache_repr history c → ca_capacity c = capacity →
    let '(answers, history') := lru_accesses capacity l history in
    ∃ c', run_accesses l c = Ok (answers, c') ∧ cache_repr history' c' ∧ ca_capacity c' = capacity) as Hrun.
  { induction l as [|a l IH]; intros c history Hr Hc; [by exists c|]. cbn [lru_accesses run_accesses].
    destruct (run_access_repr a history c Hr) as (c1 & Hrun1 & Hr1 & Hc1). rewrite Hc in *.
    destruct (lru_access capacity a history) as [b history1]. simpl in *.
    specialize (IH c1 history1 Hr1 Hc1).
    destruct (lru_accesses capacity l history1) as [bs history2].
    destruct IH as (c2 & Hrun2 & ? & ?). exists c2.
    erewrite M_bind_run by exact Hrun1. by erewrite M_bind_run by exact Hrun2. }
  specialize (Hrun (NewCache capacity) []). destruct (lru_accesses capacity l []) as [answers history].
  destruct Hrun as (c & Hrun & (_ & Hord & Hent) & Hc); [| done|].
  { split_and!; [done| |done]. unfold lru. simpl. by destruct (Z.to_nat capacity). }
  exists c. rewrite Hc in Hord. split_and!; [done..|]. rewrite Hent, size_list_to_set.
  - rewrite Hord. unfold lru. rewrite length_take. lia.
  - rewrite Hord. apply NoDup_lru.
Qed.

Lemma cache_refines_lru_witness :
  ∃ c, run_accesses [AInsert [Byte.x01]; AInsert [Byte.x02]; ACheck [Byte.x01]; AInsert [Byte.x03];
                     ACheck [Byte.x02]; ACheck [Byte.x01]] (NewCache 2) =
         Ok ([true; true; true; true; false; true], c) ∧
       ca_accessOrder c = [[Byte.x01]; [Byte.x03]] ∧
       ca_entries c = list_to_set (ca_accessOrder c) ∧
       (Z.of_nat (size (ca_entries c)) ≤ 2)%Z.
Proof.
  exact (cache_refines_lru 2 [AInsert [Byte.x01]; AInsert [Byte.x02]; ACheck [Byte.x01];
    AInsert [Byte.x03]; ACheck [Byte.x02]; ACheck [Byte.x01]] eq_refl).
Defined.

(** A cache without room panics on the first insertion. *)
Lemma cache_insert_no_capacity key : cache_insert key (NewCache 0) = Panic "nil pointer dereference".
Proof. done. Qed.

(** ** What a hit means *)

Section meaning.
Context {B : BLS12Lib} (raw : RawCrypto) (order : gmap ID Hash → list (ID * Hash)).

(** [J] holds of the byte strings that have been vouched for.  A cache is
    justified when each of its keys is the hash of such a string. *)
Context (J : bytes → Prop).

Definition justified (c : cache) : Prop :=
  ∀ key, key ∈ ca_entries c → ∃ pre, J pre ∧ key = sha256_Sum256 pre.

Lemma cache_insert_justified pre c c' :
  justified c → J pre → cache_insert (sha256_Sum256 pre) c = Ok ((), c') → justified c'.
Proof.
  intros Hj Hpre. unfold cache_insert, cache_evict.
  assert (∀ X, (∀ key, key ∈ X → ∃ p, J p ∧ key = sha256_Sum256 p) →
    ∀ key, key ∈ ({[sha256_Sum256 pre]} ∪ X : gset Hash) → ∃ p, J p ∧ key = sha256_Sum256 p) as Hadd.
  { intros X HX key [->%elem_of_singleton|?]%elem_of_union; [by eauto|by apply HX]. }
  case_bool_decide; [intros [= <-]; exact Hj|].
  destruct (_ <? _)%Z; [intros [= <-]; intros key; by apply (Hadd (ca_entries c))|].
  destruct (last _) as [old|]; [|done]. intros [= <-] key. apply (Hadd (ca_entries c ∖ {[old]})).
  intros k [? _]%elem_of_difference. by apply Hj.
Qed.

Lemma check_or_justified pre verify c ok c' :
  justified c →
  (∀ c1 b c2, justified c1 → verify c1 = Ok (b, c2) → justified c2 ∧ (b = true → J pre)) →
  check_or (sha256_Sum256 pre) verify c = Ok (ok, c') →
  justified c' ∧ (ok = true → ∃ pre', J pre' ∧ sha256_Sum256 pre' = sha256_Sum256 pre).
Proof.
  intros Hj Hv. unfold check_or. intros (hit & c1 & Hc & H)%M_bind_Ok.
  unfold cache_check in Hc. case_bool_decide as Hin.
  - injection Hc as <- <-. injection H as <- <-. split; [exact Hj|].
    destruct (Hj _ Hin) as (p & ? & ?). intros _. by exists p.
  - injection Hc as <- <-. apply M_bind_Ok in H as (b & c2 & Hb & H).
    destruct (Hv _ _ _ Hj Hb) as [Hj2 Hp]. destruct b.
    + apply M_bind_Ok in H as ([] & c3 & Hi & H). injection H as <- <-.
      split; [by eapply cache_insert_justified; eauto|]. by eauto.
    + by injection H as <- <-.
Qed.

(** A cached verification is as good as the strings the cache has vouched
    for.  If every signature the implementation verifies is vouched for, then
    from a justified cache [Verify] leaves a justified cache, and a positive
    answer means that the message hash and signature, or another string with
    the same SHA-256 hash, was vouched for. *)
Theorem cache_Verify_sound (sig : Signature) (hash : Hash) (c c' : cache) (ok : bool) :
  justified c →
  (∀ s h, raw_Verify raw (Some s) h = Ok true → J (h ++ Signature_ToBytes s)) →
  cache_Verify raw (Some sig) hash c = Ok (ok, c') →
  justified c' ∧
  (ok = true → J (hash ++ Signature_ToBytes sig) ∨
     ∃ pre, J pre ∧ pre ≠ hash ++ Signature_ToBytes sig ∧
            sha256_Sum256 pre = sha256_Sum256 (hash ++ Signature_ToBytes sig)).
Proof.
  intros Hj Hraw Hrun. apply check_or_justified in Hrun as [? Hok]; [|done|].
  - split; [done|]. intros Ht. destruct (Hok Ht) as (pre & ? & ?).
    destruct (decide (pre = hash ++ Signature_ToBytes sig)) as [->|]; [by left|right; by eauto].
  - intros c1 b c2 Hj1 (b' & Hb & [= <- <-])%res_bind_Ok. split; [done|]. intros ->. by apply Hraw.
Qed.

(** A verified signature stays verified through the cache. *)
Lemma cache_Verify_complete history sig hash c :
  cache_repr history c → raw_Verify raw (Some sig) hash = Ok true →
  ∃ c', cache_Verify raw (Some sig) hash c = Ok (true, c') ∧
        cache_repr (sig_key hash sig :: history) c'.
Proof.
  intros Hr Hraw. unfold cache_Verify, check_or, pure_op. rewrite Hraw.
  unfold mbind at 1, M_bind at 1, cache_check. case_bool_decide as Hin.
  - eexists. split; [done|]. by apply cache_access_repr.
  - destruct (cache_insert_repr history c (sig_key hash sig) Hr) as (c' & Hi & Hr' & _).
    exists c'. erewrite M_bind_run by done. cbv beta iota. by erewrite M_bind_run by exact Hi.
Qed.
End meaning.

(** ** Partial signatures and threshold signatures share one key space *)

Section confusion.
Context {B : BLS12Lib} {E : ECDSALib} (env : CryptoEnv) (order : gmap ID Hash → list (ID * Hash)).

Lemma singleton_ToBytes sig :
  Threshold_ToBytes (ThrECDSA {[ec_signer sig := sig]}) = Signature_ToBytes (SigECDSA sig).
Proof.
  simpl. unfold ecdsa_Threshold_ToBytes. rewrite map_to_list_singleton. simpl.
  by rewrite lookup_singleton_eq, app_nil_r.
Qed.

(** C13: with ECDSA behind the cache, one valid partial signature is enough to
    forge a quorum.  A threshold signature of a single signer has the bytes
    of its only signature, so after that signature has been verified the
    cached [VerifyThresholdSignature] accepts it, while without the cache it
    is rejected whenever a quorum needs two replicas. *)
Theorem cache_forges_quorum (history : list Hash) (c : cache) (sig : ecdsa_Signature) (hash : Hash) :
  cache_repr history c → ec_valid env sig hash = true → (2 ≤ env_QuorumSize env)%Z →
  ∃ c1 c2,
    cache_Verify (ecdsaRaw env) (Some (SigECDSA sig)) hash c = Ok (true, c1) ∧
    cache_VerifyThresholdSignature (ecdsaRaw env)
      (Some (ThrECDSA {[ec_signer sig := sig]})) hash c1 = Ok (true, c2) ∧
    VerifyThresholdSignature (CryptoImpl := plainCrypto (ecdsaRaw env))
      (Some (ThrECDSA {[ec_signer sig := sig]})) hash () = Ok (false, ()).
Proof.
  intros Hr Hv Hq.
  assert (raw_Verify (ecdsaRaw env) (Some (SigECDSA sig)) hash = Ok true) as Hraw.
  { unfold ec_valid in Hv. simpl. destruct (env_replicas env !! ec_signer sig) as [[]|]; [|done..].
    by rewrite Hv. }
  destruct (cache_Verify_complete (ecdsaRaw env) history _ hash c Hr Hraw) as (c1 & H1 & Hr1).
  exists c1. unfold cache_VerifyThresholdSignature, check_or, thr_key. rewrite singleton_ToBytes.
  unfold mbind, M_bind at 1, cache_check. rewrite bool_decide_eq_true_2.
  - eexists. split_and!; [done|done|]. simpl. unfold ec_VerifyThresholdSignature.
    rewrite map_size_singleton. by rewrite (proj2 (Z.ltb_lt _ _)) by lia.
  - destruct Hr1 as (Hcap & Hord & ->). rewrite elem_of_list_to_set, Hord. unfold lru.
    destruct (Z.to_nat (ca_capacity c1)) eqn:?; [lia|]. simpl. by left.
Qed.
End confusion.

Module CacheExample.
Import EcdsaExample.
#[local] Existing Instance ScalarBLS.
#[local] Existing Instance ToyECDSA.

Lemma cache_forges_quorum_witness :
  ∃ c1 c2,
    cache_Verify (ecdsaRaw env4) (Some (SigECDSA (sg 2))) h0 (NewCache 100) = Ok (true, c1) ∧
    cache_VerifyThresholdSignature (ecdsaRaw env4)
      (Some (ThrECDSA {[ec_signer (sg 2) := sg 2]})) h0 c1 = Ok (true, c2) ∧
    VerifyThresholdSignature (CryptoImpl := plainCrypto (ecdsaRaw env4))
      (Some (ThrECDSA {[ec_signer (sg 2) := sg 2]})) h0 () = Ok (false, ()).
Proof.
  apply (cache_forges_quorum env4 [] (NewCache 100) (sg 2) h0).
  - by split_and!.
  - vm_compute. reflexivity.
  - vm_compute. discriminate.
Defined.

(** Everything is vouched for that replica 2 can verify. *)
Definition vouched (pre : bytes) : Prop :=
  ∃ s h, raw_Verify (ecdsaRaw env4) (Some s) h = Ok true ∧ pre = h ++ Signature_ToBytes s.

Lemma cache_Verify_sound_witness :
  ∃ c', cache_Verify (ecdsaRaw env4) (Some (SigECDSA (sg 2))) h0 (NewCache 100) = Ok (true, c') ∧
        justified vouched c'.
Proof.
  destruct (cache_Verify_complete (ecdsaRaw env4) [] (SigECDSA (sg 2)) h0 (NewCache 100))
    as (c' & Hrun & _); [by split_and!|vm_compute; reflexivity|].
  exists c'. split; [exact Hrun|].
  refine (proj1 (cache_Verify_sound (ecdsaRaw env4) vouched (SigECDSA (sg 2)) h0 (NewCache 100) c' true
    _ _ Hrun)).
  - intros key Hin. exfalso. revert Hin. apply not_elem_of_empty.
  - intros s h Hs. exists s, h. split; [exact Hs|reflexivity].
Defined.
End CacheExample.
