(* ===== verification/Replica.v ===== *)
(** * The state of a replica and the interfaces of its modules

    consensus/modules.go gives every module a pointer to every other; here the
    modules' mutable fields are one record [Replica], and a method is a
    computation in [M Replica].  The modules that are interfaces in Go are
    type classes: the command queue and acceptor, the view duration, the leader
    rotation and the consensus rules.  What a replica sends, executes or posts
    to the event loop is appended to [r_out]. *)

From S2P Require Import Prelude Encoding Bitfield Types BlockChain CryptoBase.
From Stdlib Require Import Strings.Byte SpecFloat.

(** ** Interfaces without access to the replica *)

(** consensus.CommandQueue and consensus.Acceptor, one object in the program.
    [cq_Get] is the outcome of waiting for a batch until the view context is
    cancelled. *)
Class CommandSource (Q : Type) := {
  cq_Get : M Q (option Command);
  aq_Accept : Command → Q → bool;
  aq_Proposed : Command → Q → Q;
}.

(** synchronizer.ViewDuration; durations are in nanoseconds. *)
Class ViewDuration (D : Type) := {
  vd_Duration : View → D → res Z;
  vd_ViewStarted : D → D;
  vd_ViewSucceeded : D → res D;
  vd_ViewTimeout : D → D;
}.

Section replica.
Context {B : BLS12Lib}.

(** ** State of the modules *)

(** consensus.consensusBase *)
Record consensusBase := mkCS {
  cs_lastVote : View;
  cs_bExec : Block }.

(** synchronizer.Synchronizer; a context is its number, the dummy timer and
    the real one are not told apart. *)
Record Synchronizer := mkSync {
  sy_currentView : View;
  sy_highTC : TimeoutCert;
  sy_highQC : QuorumCert;
  sy_leafBlock : Block;
  sy_lastTimeout : option TimeoutMsg;
  sy_viewCtx : nat;
  sy_mostValue : spec_float;
  sy_nextLeader : ID;
  sy_timeouts : gmap View (gmap ID TimeoutMsg) }.

(** What a replica does to the outside. *)
Inductive effect :=
| EPropose (proposal : ProposeMsg)            (** Configuration().Propose *)
| EVote (leader : ID) (pc : PartialCert)      (** leader.Vote *)
| EVoteSelf (vote : VoteMsg)                  (** go EventLoop().AddEvent *)
| ENewView (leader : ID) (si : SyncInfo)      (** replica.NewView *)
| ETimeout (msg : TimeoutMsg)                 (** Configuration().Timeout *)
| EExec (block : Block)                       (** Executor().Exec *)
| EFork (block : Block)                       (** ForkHandler().Fork *)
| EAddEvent (msg : NewViewMsg)                (** EventLoop().AddEvent *)
| EDelay (vote : VoteMsg)                     (** EventLoop().DelayUntil(ProposeMsg{}, vote) *)
| EVerify (cert : PartialCert) (block : Block) (** go vm.verifyCert *)
| EViewChange (view : View) (timeout : bool)  (** MetricsEventLoop().AddEvent *)
| EStopTimer
| EResetTimer (duration : Z).

(** What does not change while the replica runs. *)
Record Static := mkStatic {
  st_ID : ID;
  st_replicas : gset ID;
  st_opts : Options;
  st_net : Network;
  st_fuel : nat }.   (** bound on walks along the chain *)

Definition st_QuorumSize (st : Static) : Z := QuorumSize (Z.of_nat (size (st_replicas st))).

Context {C Q L D : Type}.

Record Replica := mkReplica {
  r_cs : consensusBase;
  r_lock : Block;          (** bLock or locked, of the rules that have one *)
  r_sync : Synchronizer;
  r_votes : gmap Hash (list PartialCert);   (** VotingMachine.verifiedVotes *)
  r_chain : blockChain;
  r_crypto : C;
  r_cmds : Q;
  r_leader : L;
  r_duration : D;
  r_out : list effect }.

Definition set_cs x r := mkReplica x (r_lock r) (r_sync r) (r_votes r) (r_chain r) (r_crypto r)
  (r_cmds r) (r_leader r) (r_duration r) (r_out r).
Definition set_lock x r := mkReplica (r_cs r) x (r_sync r) (r_votes r) (r_chain r) (r_crypto r)
  (r_cmds r) (r_leader r) (r_duration r) (r_out r).
Definition set_sync x r := mkReplica (r_cs r) (r_lock r) x (r_votes r) (r_chain r) (r_crypto r)
  (r_cmds r) (r_leader r) (r_duration r) (r_out r).
Definition set_votes x r := mkReplica (r_cs r) (r_lock r) (r_sync r) x (r_chain r) (r_crypto r)
  (r_cmds r) (r_leader r) (r_duration r) (r_out r).
Definition set_chain x r := mkReplica (r_cs r) (r_lock r) (r_sync r) (r_votes r) x (r_crypto r)
  (r_cmds r) (r_leader r) (r_duration r) (r_out r).
Definition set_crypto x r := mkReplica (r_cs r) (r_lock r) (r_sync r) (r_votes r) (r_chain r) x
  (r_cmds r) (r_leader r) (r_duration r) (r_out r).
Definition set_cmds x r := mkReplica (r_cs r) (r_lock r) (r_sync r) (r_votes r) (r_chain r)
  (r_crypto r) x (r_leader r) (r_duration r) (r_out r).
Definition set_leader x r := mkReplica (r_cs r) (r_lock r) (r_sync r) (r_votes r) (r_chain r)
  (r_crypto r) (r_cmds r) x (r_duration r) (r_out r).
Definition set_duration x r := mkReplica (r_cs r) (r_lock r) (r_sync r) (r_votes r) (r_chain r)
  (r_crypto r) (r_cmds r) (r_leader r) x (r_out r).
Definition emit (e : effect) : M Replica () :=
  modify (λ r, mkReplica (r_cs r) (r_lock r) (r_sync r) (r_votes r) (r_chain r) (r_crypto r)
    (r_cmds r) (r_leader r) (r_duration r) (r_out r ++ [e])).

Definition set_lastVote v r := set_cs (mkCS v (cs_bExec (r_cs r))) r.
Definition set_bExec b r := set_cs (mkCS (cs_lastVote (r_cs r)) b) r.

(** The synchronizer's fields. *)
Definition upd_sync (f : Synchronizer → Synchronizer) : M Replica () :=
  modify (λ r, set_sync (f (r_sync r)) r).
Definition set_currentView v s := mkSync v (sy_highTC s) (sy_highQC s) (sy_leafBlock s)
  (sy_lastTimeout s) (sy_viewCtx s) (sy_mostValue s) (sy_nextLeader s) (sy_timeouts s).
Definition set_highTC tc s := mkSync (sy_currentView s) tc (sy_highQC s) (sy_leafBlock s)
  (sy_lastTimeout s) (sy_viewCtx s) (sy_mostValue s) (sy_nextLeader s) (sy_timeouts s).
Definition set_highQC qc b s := mkSync (sy_currentView s) (sy_highTC s) qc b
  (sy_lastTimeout s) (sy_viewCtx s) (sy_mostValue s) (sy_nextLeader s) (sy_timeouts s).
Definition set_lastTimeout t s := mkSync (sy_currentView s) (sy_highTC s) (sy_highQC s)
  (sy_leafBlock s) t (sy_viewCtx s) (sy_mostValue s) (sy_nextLeader s) (sy_timeouts s).
Definition next_ctx s := mkSync (sy_currentView s) (sy_highTC s) (sy_highQC s)
  (sy_leafBlock s) (sy_lastTimeout s) (S (sy_viewCtx s)) (sy_mostValue s) (sy_nextLeader s)
  (sy_timeouts s).
Definition set_timeouts t s := mkSync (sy_currentView s) (sy_highTC s) (sy_highQC s)
  (sy_leafBlock s) (sy_lastTimeout s) (sy_viewCtx s) (sy_mostValue s) (sy_nextLeader s) t.

(** Synchronizer.UpdateValues *)
Definition Synchronizer_UpdateValues (newleader : ID) (newvalue : spec_float) : M Replica () :=
  upd_sync (λ s, mkSync (sy_currentView s) (sy_highTC s) (sy_highQC s) (sy_leafBlock s)
    (sy_lastTimeout s) (sy_viewCtx s) newvalue newleader (sy_timeouts s)).

(** Synchronizer.New and consensus.New, with the certificates
    InitConsensusModule creates for the genesis block and view 0. *)
Definition Synchronizer_New : Synchronizer :=
  mkSync 1 (NewTimeoutCert None 0) (NewQuorumCert None 0 (b_hash GetGenesis)) GetGenesis
    None 0 (S754_zero false) 0 ∅.
Definition consensus_New : consensusBase := mkCS 0 GetGenesis.

Definition Replica_New (crypto : C) (cmds : Q) (leader : L) (duration : D) : Replica :=
  mkReplica consensus_New GetGenesis Synchronizer_New ∅ blockChain_New crypto cmds leader
    duration [].

(** ** Calls into the modules *)

Section calls.
Context (st : Static) {CI : CryptoImpl C} {CQ : CommandSource Q} {VD : ViewDuration D}.

Definition crypto {A} (m : M C A) : M Replica A := lift_res r_crypto set_crypto m.

Definition chain_Get (h : Hash) : M Replica (option Block) :=
  lift_st r_chain set_chain (blockChain_Get (st_net st) h).
Definition chain_LocalGet (h : Hash) : M Replica (option Block) :=
  gets (λ r, blockChain_LocalGet h (r_chain r)).
Definition chain_Store (b : Block) : M Replica () :=
  modify (λ r, set_chain (blockChain_Store b (r_chain r)) r).
Definition chain_Extends (b target : Block) : M Replica bool :=
  lift_res r_chain set_chain (blockChain_Extends (st_net st) (st_fuel st) b target).

Definition cmd_Get : M Replica (option Command) := lift_res r_cmds set_cmds cq_Get.
Definition Accept (cmd : Command) : M Replica bool := gets (λ r, aq_Accept cmd (r_cmds r)).
Definition Proposed (cmd : Command) : M Replica () :=
  modify (λ r, set_cmds (aq_Proposed cmd (r_cmds r)) r).

Definition Duration : M Replica Z := λ r,
  d ← vd_Duration (sy_currentView (r_sync r)) (r_duration r); Ok (d, r).
Definition ViewSucceeded : M Replica () := λ r,
  d ← vd_ViewSucceeded (r_duration r); Ok ((), set_duration d r).

(** Synchronizer.View, LeafBlock and HighQC. *)
Definition View_ : M Replica View := gets (λ r, sy_currentView (r_sync r)).
Definition LeafBlock : M Replica Block := gets (λ r, sy_leafBlock (r_sync r)).
Definition HighQC : M Replica QuorumCert := gets (λ r, sy_highQC (r_sync r)).

(** The signature is checked again, although every caller but the chained
    rules has just done so. *)
Definition UpdateHighQC (qc : QuorumCert) : M Replica () :=
  ok ← crypto (VerifyQuorumCert qc);
  if negb ok then mret ()
  else
    newBlock ← chain_Get (qc_hash qc);
    match newBlock with
    | None => mret ()
    | Some newBlock =>
      high ← HighQC;
      oldBlock ← chain_Get (qc_hash high);
      match oldBlock with
      | None => panic "Block from the old highQC missing from chain"
      | Some oldBlock =>
        if (b_view oldBlock <? b_view newBlock)%N
        then upd_sync (set_highQC qc newBlock)
        else mret ()
      end
    end.
End calls.

(** ** Interfaces with access to the replica *)

(** The part of the state that no module but its owner changes: asking for a
    leader, looking up or fetching blocks and checking signatures keep it. *)
Record same_core (r r' : Replica) : Prop := {
  core_cs : r_cs r' = r_cs r;
  core_lock : r_lock r' = r_lock r;
  core_sync : r_sync r' = r_sync r;
  core_votes : r_votes r' = r_votes r;
  core_cmds : r_cmds r' = r_cmds r;
  core_out : r_out r' = r_out r;
  core_chain : chain_grows (r_chain r) (r_chain r') }.

(** consensus.LeaderRotation *)
Class LeaderRotation := {
  GetLeader : View → M Replica ID;
  GetLeader_core v : preserves same_core (GetLeader v);
}.

Context {CI : CryptoImpl C}.

(** [m] accepted at some time. *)
Definition accepted (m : M C bool) : Prop := ∃ s s', m s = Ok (true, s').

(** A certificate that verified and whose block is stored. *)
Definition held (qc : QuorumCert) (r : Replica) : Prop :=
  accepted (VerifyQuorumCert qc) ∧ is_Some (blocks (r_chain r) !! qc_hash qc).

(** What a commit rule may change: the lock, the high QC, which remains one
    that verified and whose block is stored, and what [same_core] allows. *)
Record same_voting (r r' : Replica) : Prop := {
  voting_cs : r_cs r' = r_cs r;
  voting_view : sy_currentView (r_sync r') = sy_currentView (r_sync r);
  voting_highTC : sy_highTC (r_sync r') = sy_highTC (r_sync r);
  voting_lastTimeout : sy_lastTimeout (r_sync r') = sy_lastTimeout (r_sync r);
  voting_timeouts : sy_timeouts (r_sync r') = sy_timeouts (r_sync r);
  voting_votes : r_votes r' = r_votes r;
  voting_cmds : r_cmds r' = r_cmds r;
  voting_out : r_out r' = r_out r;
  voting_lock : (b_view (r_lock r) ≤ b_view (r_lock r'))%N;
  voting_high : sy_highQC (r_sync r') = sy_highQC (r_sync r) ∨ held (sy_highQC (r_sync r')) r';
  voting_chain : chain_grows (r_chain r) (r_chain r') }.

(** consensus.Rules, and consensus.ProposeRuler for the implementations that
    have it. *)
Class Rules := {
  VoteRule : ProposeMsg → M Replica bool;
  CommitRule : Block → M Replica (option Block);
  ProposeRule : option (SyncInfo → Command → M Replica (option ProposeMsg));
  VoteRule_core p : preserves same_core (VoteRule p);
  CommitRule_voting b : preserves same_voting (CommitRule b);
  ProposeRule_core f : ProposeRule = Some f → ∀ si cmd, preserves same_core (f si cmd);
}.

(** ** Frame lemmas *)

#[export] Instance same_core_preorder : PreOrder same_core.
Proof.
  split; [by intros r; split|].
  intros x y z [] []. split; try congruence. by etrans.
Qed.

Lemma held_grows qc (r r' : Replica) : chain_grows (r_chain r) (r_chain r') → held qc r → held qc r'.
Proof. intros [Hg _] [? ?]. split; auto. Qed.

#[export] Instance same_voting_preorder : PreOrder same_voting.
Proof.
  split; [intros r; split; try done; by left|].
  intros x y z [] []. split; try congruence; try by etrans.
  destruct voting_high1 as [Heq|]; [|by right]. rewrite Heq. destruct voting_high0 as [|Hheld]; [by left|right].
  by eapply held_grows.
Qed.

Lemma same_core_voting r r' : same_core r r' → same_voting r r'.
Proof. intros []. split; try congruence; try done; [..|left]; by rewrite ?core_sync0, ?core_lock0. Qed.

Lemma core_voting {A} (m : M Replica A) : preserves same_core m → preserves same_voting m.
Proof. apply preserves_weaken. apply same_core_voting. Qed.

Section call_frames.
Context (st : Static) {CQ : CommandSource Q} {VD : ViewDuration D}.

Lemma crypto_core {A} (m : M C A) : preserves same_core (crypto m).
Proof. apply preserves_lift_res. intros r a c _. by split. Qed.

Lemma crypto_accepted (m : M C bool) r r' : crypto m r = Ok (true, r') → accepted m.
Proof.
  unfold crypto, lift_res. destruct (m (r_crypto r)) as [[]| | |] eqn:E; intros; simplify_eq.
  by eexists _, _.
Qed.

Lemma chain_Get_core h : preserves same_core (chain_Get st h).
Proof. apply preserves_lift_st. intros r. split; try done. apply Get_grows. Qed.

Lemma chain_LocalGet_core h : preserves same_core (chain_LocalGet h).
Proof. apply preserves_gets. typeclasses eauto. Qed.

Lemma chain_Extends_core b t : preserves same_core (chain_Extends st b t).
Proof.
  apply preserves_lift_res. intros r a c H. split; try done. simpl.
  exact (Extends_grows _ _ _ _ _ _ H).
Qed.

Lemma Duration_core : preserves same_core Duration.
Proof. intros r a r'. unfold Duration. rewrite res_bind_Ok. intros (d & _ & [= <- <-]). by split. Qed.

Lemma ViewSucceeded_core : preserves same_core ViewSucceeded.
Proof.
  intros r a r'. unfold ViewSucceeded. rewrite res_bind_Ok. intros (d & _ & [= <- <-]). by split.
Qed.
End call_frames.
End replica.

Arguments Replica {B} C Q L D.
Arguments LeaderRotation {B} C Q L D.
Arguments Rules {B} C Q L D {CI}.

#[export] Hint Resolve crypto_core chain_Get_core chain_LocalGet_core chain_Extends_core
  Duration_core ViewSucceeded_core GetLeader_core VoteRule_core CommitRule_voting : pres.
#[export] Hint Resolve core_voting : pres.

Section update_high_qc.
Context {B : BLS12Lib} {C Q L D : Type}.
Context (st : Static) {CI : CryptoImpl C}.

(** What [Get] returns is stored. *)
Lemma chain_Get_stored h (r r' : Replica C Q L D) b :
  chain_Get st h r = Ok (Some b, r') → blocks (r_chain r') !! h = Some b.
Proof.
  unfold chain_Get, lift_st. pose proof (Get_stored (st_net st) h (r_chain r) b) as Hs.
  destruct (blockChain_Get (st_net st) h (r_chain r)) as [res c]. intros [= -> <-]. by apply Hs.
Qed.

Lemma UpdateHighQC_voting qc : preserves (same_voting (C:=C) (Q:=Q) (L:=L) (D:=D)) (UpdateHighQC st qc).
Proof.
  intros r a r'. unfold UpdateHighQC. rewrite M_bind_Ok. intros (ok & r1 & H1 & H).
  pose proof (crypto_core _ _ _ _ H1) as C1. destruct ok; cbn [negb] in H; cycle 1.
  { injection H as <- <-. by apply same_core_voting. }
  apply crypto_accepted in H1 as Hacc.
  apply M_bind_Ok in H as (new & r2 & H2 & H). pose proof (chain_Get_core _ _ _ _ _ H2) as C2.
  destruct new as [new|]; cycle 1.
  { injection H as <- <-. apply same_core_voting. by etrans. }
  assert (held qc r2) as Hheld.
  { split; [done|]. exists new. by eapply chain_Get_stored. }
  apply M_bind_Ok in H as (high & r3 & [= <- <-] & H).
  apply M_bind_Ok in H as (old & r4 & H4 & H). pose proof (chain_Get_core _ _ _ _ _ H4) as C4.
  destruct old as [old|]; [|done]. assert (same_voting r r4) as Hv by (apply same_core_voting; transitivity r1; [done|]; by transitivity r2).
  destruct (b_view old <? b_view new)%N; injection H as <- <-; [|done].
  destruct Hv. split; try done. right. apply (held_grows _ r2); [|done]. by destruct C4.
Qed.
End update_high_qc.

#[export] Hint Resolve UpdateHighQC_voting : pres.
