(* ===== verification/Rules.v ===== *)
(** * The consensus rules

    consensus/chainedhotstuff, consensus/fasthotstuff, consensus/simplehotstuff
    and the wrappers of consensus/byzantine, as instances of [Rules]. *)

From S2P Require Import Prelude Encoding Bitfield Types BlockChain CryptoBase Replica.

Section rules.
Context {B : BLS12Lib} {C Q L D : Type}.
Context (st : Static) {CI : CryptoImpl C}.
Abbreviation R := (Replica C Q L D).

Definition qcRef (qc : QuorumCert) : M R (option Block) :=
  if bool_decide (zero_hash = qc_hash qc) then mret None
  else chain_Get st (qc_hash qc).

Lemma qcRef_core qc : preserves same_core (qcRef qc).
Proof. unfold qcRef. pres_solve. Qed.

(** ** ChainedHotStuff *)

(** Lock on a block of a higher view. *)
Definition raise_lock (b : Block) : M R () := λ r,
  if (b_view (r_lock r) <? b_view b)%N then Ok ((), set_lock b r) else Ok ((), r).

Definition Chained_CommitRule (block : Block) : M R (option Block) :=
  _ ← UpdateHighQC st (b_cert block);
  block1 ← qcRef (b_cert block);
  match block1 with
  | None => mret None
  | Some block1 =>
    block2 ← qcRef (b_cert block1);
    match block2 with
    | None => mret None
    | Some block2 =>
      _ ← raise_lock block2;
      block3 ← qcRef (b_cert block2);
      match block3 with
      | None => mret None
      | Some block3 =>
        mret (if bool_decide (b_parent block1 = b_hash block2)
                 && bool_decide (b_parent block2 = b_hash block3)
              then Some block3 else None)
      end
    end
  end.

Definition Chained_VoteRule (proposal : ProposeMsg) : M R bool :=
  let block := pm_Block proposal in
  qcBlock ← chain_Get st (qc_hash (b_cert block));
  bLock ← gets r_lock;
  if match qcBlock with Some q => (b_view bLock <? b_view q)%N | None => false end
  then mret true
  else chain_Extends st block bLock.

(** ** FastHotStuff *)

(** [parent.View()+1] is uint64 addition. *)
Definition Fast_CommitRule (block : Block) : M R (option Block) :=
  parent ← qcRef (b_cert block);
  match parent with
  | None => mret None
  | Some parent =>
    grandparent ← qcRef (b_cert parent);
    match grandparent with
    | None => mret None
    | Some grandparent =>
      mret (if bool_decide (b_parent block = b_hash parent)
               && (b_view block =? wrap64 (b_view parent + 1))%N
               && bool_decide (b_parent parent = b_hash grandparent)
               && (b_view parent =? wrap64 (b_view grandparent + 1))%N
            then Some grandparent else None)
    end
  end.

Definition Fast_VoteRule (proposal : ProposeMsg) : M R bool :=
  let block := pm_Block proposal in
  match pm_AggregateQC proposal with
  | Some _ =>
    hqcBlock ← chain_Get st (qc_hash (b_cert block));
    match hqcBlock with
    | None => mret false
    | Some hqcBlock => chain_Extends st block hqcBlock
    end
  | None =>
    view ← View_;
    mret ((view <=? b_view block)%N && (b_view block =? wrap64 (qc_view (b_cert block) + 1))%N)
  end.

(** ** SimpleHotStuff *)

Definition Simple_VoteRule (proposal : ProposeMsg) : M R bool :=
  let block := pm_Block proposal in
  view ← View_;
  if (b_view block <? view)%N then mret false
  else
    parent ← chain_Get st (qc_hash (b_cert block));
    match parent with
    | None => mret false
    | Some parent =>
      locked ← gets r_lock;
      mret (negb (b_view parent <? b_view locked)%N)
    end.

Definition Simple_CommitRule (block : Block) : M R (option Block) :=
  p ← chain_Get st (qc_hash (b_cert block));
  match p with
  | None => mret None
  | Some p =>
    gp ← chain_Get st (qc_hash (b_cert p));
    match gp with
    | None => mret None
    | Some gp =>
      _ ← raise_lock gp;
      ggp ← chain_Get st (qc_hash (b_cert gp));
      mret (match ggp with
            | Some ggp => if (wrap64 (b_view ggp + 2) =? b_view p)%N then Some ggp else None
            | None => None
            end)
    end
  end.

(** ** The rules keep what the interface says *)

#[local] Hint Resolve qcRef_core : pres.

Lemma raise_lock_pres b : preserves same_voting (raise_lock b).
Proof.
  intros r a r'. unfold raise_lock.
  destruct (N.ltb_spec (b_view (r_lock r)) (b_view b)); intros [= <- <-]; [|done].
  split; try done; [simpl; lia|by left].
Qed.
#[local] Hint Resolve raise_lock_pres : pres.

Program Definition ChainedHotStuff : Rules C Q L D := {|
  VoteRule := Chained_VoteRule;
  CommitRule := Chained_CommitRule;
  ProposeRule := None;
|}.
Next Obligation. intros p. unfold Chained_VoteRule. pres_solve. Qed.
Next Obligation. intros b. unfold Chained_CommitRule. pres_solve. Qed.
Next Obligation. done. Qed.

Program Definition FastHotStuff : Rules C Q L D := {|
  VoteRule := Fast_VoteRule;
  CommitRule := Fast_CommitRule;
  ProposeRule := None;
|}.
Next Obligation. intros p. unfold Fast_VoteRule, View_. pres_solve. Qed.
Next Obligation. intros b. unfold Fast_CommitRule. pres_solve. Qed.
Next Obligation. done. Qed.

Program Definition SimpleHotStuff : Rules C Q L D := {|
  VoteRule := Simple_VoteRule;
  CommitRule := Simple_CommitRule;
  ProposeRule := None;
|}.
Next Obligation. intros p. unfold Simple_VoteRule, View_. pres_solve. Qed.
Next Obligation. intros b. unfold Simple_CommitRule. pres_solve. Qed.
Next Obligation. done. Qed.

(** ** byzantine: silence and fork *)

Definition silence_ProposeRule (_ : SyncInfo) (_ : Command) : M R (option ProposeMsg) := mret None.

(** The parent of the leaf is looked up twice, the second time by its own
    hash. *)
Definition fork_ProposeRule (cert : SyncInfo) (cmd : Command) : M R (option ProposeMsg) :=
  leaf ← LeafBlock;
  parent ← chain_Get st (b_parent leaf);
  match parent with
  | None => mret None
  | Some parent =>
    grandparent ← chain_Get st (b_hash parent);
    match grandparent with
    | None => mret None
    | Some grandparent =>
      view ← View_;
      let block := NewBlock (b_hash grandparent) (b_cert grandparent) cmd view (st_ID st) in
      let '(aggQC, ok) := SyncInfo_AggQC cert in
      mret (Some (mkPropose (st_ID st) block
              (if shouldUseAggQC (st_opts st) && ok then Some aggQC else None)))
    end
  end.

Program Definition NewSilence (rules : Rules C Q L D) : Rules C Q L D := {|
  VoteRule := VoteRule;
  CommitRule := CommitRule;
  ProposeRule := Some silence_ProposeRule;
|}.
Next Obligation. intros rules. apply VoteRule_core. Qed.
Next Obligation. intros rules. apply CommitRule_voting. Qed.
Next Obligation. intros rules f [= <-] si cmd. unfold silence_ProposeRule. pres_solve. Qed.

Program Definition NewFork (rules : Rules C Q L D) : Rules C Q L D := {|
  VoteRule := VoteRule;
  CommitRule := CommitRule;
  ProposeRule := Some fork_ProposeRule;
|}.
Next Obligation. intros rules. apply VoteRule_core. Qed.
Next Obligation. intros rules. apply CommitRule_voting. Qed.
Next Obligation.
  intros rules f [= <-] si cmd. unfold fork_ProposeRule, LeafBlock, View_. pres_solve.
Qed.
End rules.
