(* ===== verification/Consensus.v ===== *)
(** * consensus/consensus.go, synchronizer/synchronizer.go and
    consensus/votingmachine.go: the handlers of a replica

    [OnPropose], [Propose] and [AdvanceView] call each other; the recursion is
    on fuel, and [AdvanceView_terminates] bounds how much is used.  A deferred
    call runs after the body it was registered in, last registered first. *)

From S2P Require Import Prelude Encoding Bitfield Types BlockChain CryptoBase Replica.
From Stdlib Require Import Strings.Byte Sorted.
From stdpp Require Import sorting.

Section consensus.
Context {B : BLS12Lib} {C Q L D : Type}.
Context (st : Static).
Context {CI : CryptoImpl C} {CQ : CommandSource Q} {VD : ViewDuration D}.
Context {LR : LeaderRotation C Q L D} {RU : Rules C Q L D}.
Abbreviation R := (Replica C Q L D).

(** ** consensus.go *)

(** StopVoting ensures that no voting happens in a view earlier than [view]. *)
Definition StopVoting (view : View) : M R () :=
  modify (λ r, if (cs_lastVote (r_cs r) <? view)%N then set_lastVote view r else r).

Fixpoint commitInner (fuel : nat) (block : Block) : M R () :=
  match fuel with
  | O => nofuel
  | S fuel =>
    bExec ← gets (λ r, cs_bExec (r_cs r));
    if (b_view bExec <? b_view block)%N then
      parent ← chain_Get st (b_parent block);
      _ ← (match parent with
           | Some parent => commitInner fuel parent
           | None => mret ()
           end : M R ());
      _ ← emit (EExec block);
      modify (set_bExec block)
    else mret ()
  end.

Fixpoint emit_forks (bs : list Block) : M R () :=
  match bs with
  | [] => mret ()
  | b :: bs => _ ← emit (EFork b); emit_forks bs
  end.

Definition commit (block : Block) : M R () :=
  _ ← commitInner (st_fuel st) block;
  bExec ← gets (λ r, cs_bExec (r_cs r));
  forked ← lift_res r_chain set_chain
             (blockChain_PruneToHeight (st_fuel st) bExec (b_view block));
  emit_forks forked.

(** The checks of [OnPropose] that come before its first deferred call. *)
Definition OnPropose_verify (proposal : ProposeMsg) : M R bool :=
  let block := pm_Block proposal in
  aggOK ← (match pm_AggregateQC proposal with
           | Some aggQC =>
             if shouldUseAggQC (st_opts st) then
               r ← crypto (VerifyAggregateQC aggQC);
               let '(ok, highQC) := r in
               mret (ok && QC_Equals (b_cert block) highQC)
             else mret true
           | None => mret true
           end : M R bool);
  if negb aggOK then mret false
  else crypto (VerifyQuorumCert (b_cert block)).

(** Vote for the block unless its view is too old, and send the vote to the
    leader of that view. *)
Definition cast_vote (block : Block) : M R () :=
  lastVote ← gets (λ r, cs_lastVote (r_cs r));
  if (b_view block <=? lastVote)%N then mret ()
  else
  pc ← crypto (CreatePartialCert block);
  match pc with
  | inr _ => mret ()
  | inl pc =>
    _ ← modify (set_lastVote (b_view block));
    leaderID ← GetLeader (b_view block);
    if (leaderID =? st_ID st)%N then emit (EVoteSelf (mkVote (st_ID st) pc false))
    else if bool_decide (leaderID ∈ st_replicas st) then emit (EVote leaderID pc)
    else mret ()
  end.

(** From the leader check to the vote.  The result says whether the deferred
    commit was registered. *)
Definition OnPropose_vote (proposal : ProposeMsg) : M R bool :=
  let block := pm_Block proposal in
  expected ← GetLeader (b_view block);
  if negb (pm_ID proposal =? expected)%N then
    _ ← GetLeader (b_view block);   (* once more, for the message it prints *)
    mret false
  else
  safe ← VoteRule proposal;
  if negb safe then mret false
  else
  qcBlock ← chain_Get st (qc_hash (b_cert block));
  _ ← (match qcBlock with
       | Some qcBlock => Proposed (b_cmd qcBlock)
       | None => mret ()
       end : M R ());
  accepted ← Accept (b_cmd block);
  if negb accepted then mret false
  else
  _ ← chain_Store block;
  _ ← cast_vote block;
  mret true.

(** The deferred commit. *)
Definition OnPropose_commit (block : Block) : M R () :=
  b ← CommitRule block;
  match b with
  | Some b => commit b
  | None => mret ()
  end.

Definition OnPropose_with (AdvanceView : SyncInfo → M R ()) (proposal : ProposeMsg) : M R () :=
  ok ← OnPropose_verify proposal;
  if negb ok then mret ()
  else
    stored ← OnPropose_vote proposal;
    _ ← (if stored : bool then OnPropose_commit (pm_Block proposal) else mret ());
    AdvanceView (SyncInfo_WithQC NewSyncInfo (b_cert (pm_Block proposal))).

(** The proposal [Propose] makes, if it makes one. *)
Definition make_proposal (cert : SyncInfo) (cmd : Command) : M R (option ProposeMsg) :=
  match ProposeRule with
  | Some rule => rule cert cmd
  | None =>
    let '(qc, _) := SyncInfo_QC cert in
    leaf ← LeafBlock;
    view ← View_;
    let block := NewBlock (b_hash leaf) qc cmd view (st_ID st) in
    let '(aggQC, ok) := SyncInfo_AggQC cert in
    mret (Some (mkPropose (st_ID st) block
            (if ok && shouldUseAggQC (st_opts st) then Some aggQC else None)))
  end.

(** Tell the acceptor that the proposal of the QC succeeded; false when its
    block cannot be found. *)
Definition Propose_ack (cert : SyncInfo) : M R bool :=
  let '(qc, ok) := SyncInfo_QC cert in
  if negb ok then mret true
  else
    qcBlock ← chain_Get st (qc_hash qc);
    match qcBlock with
    | None => mret false
    | Some qcBlock => _ ← Proposed (b_cmd qcBlock); mret true
    end.

Definition Propose_with (OnPropose : ProposeMsg → M R ()) (cert : SyncInfo) : M R () :=
  acked ← Propose_ack cert;
  if negb acked then mret ()
  else
    cmd ← cmd_Get;
    match cmd with
    | None => mret ()
    | Some cmd =>
      proposal ← make_proposal cert cmd;
      match proposal with
      | None => mret ()
      | Some proposal =>
        _ ← chain_Store (pm_Block proposal);
        _ ← emit (EPropose proposal);
        OnPropose proposal
      end
    end.

(** ** synchronizer.go *)

Definition getSyncInfo : M R SyncInfo :=
  gets (λ r, let s := r_sync r in
    let si := SyncInfo_WithQC NewSyncInfo (sy_highQC s) in
    if (tc_view (sy_highTC s) <=? qc_view (sy_highQC s))%N then si
    else SyncInfo_WithTC si (sy_highTC s)).

Definition newCtx : M R () :=
  _ ← Duration;
  upd_sync next_ctx.

(** The certificate of [syncInfo] that counts: its view, and whether it is a
    timeout certificate.  [None] when it does not verify.  The view goes into a
    variable of 64 bits. *)
Definition AdvanceView_cert (syncInfo : SyncInfo) : M R (option (View * bool)) :=
  match si_tc syncInfo with
  | Some tc =>
    ok ← crypto (VerifyTimeoutCert tc);
    if negb ok then mret None
    else
      _ ← upd_sync (λ s, if (tc_view (sy_highTC s) <? tc_view tc)%N then set_highTC tc s else s);
      mret (Some (wrap64 (tc_view tc), true))
  | None =>
    match si_qc syncInfo with
    | Some qc =>
      ok ← crypto (VerifyQuorumCert qc);
      if negb ok then mret None
      else
        _ ← UpdateHighQC st qc;
        _ ← ViewSucceeded;
        mret (Some (wrap64 (qc_view qc), false))
    | None => mret (Some (0%N, false))
    end
  end.

(** Enter the view after [v]. *)
Definition enter_view (v : View) (timeout : bool) : M R () :=
  _ ← emit EStopTimer;
  _ ← upd_sync (λ s, set_lastTimeout None (set_currentView (wrap64 (v + 1)) s));
  _ ← modify (λ r, set_duration (vd_ViewStarted (r_duration r)) r);
  _ ← newCtx;
  d ← Duration;
  _ ← emit (EResetTimer d);
  emit (EViewChange (wrap64 (v + 1)) timeout).

(** The body of [AdvanceView]; [rec] is the call that [OnPropose] makes when
    the replica proposes in the view it enters. *)
Definition AdvanceView_body (rec : SyncInfo → M R ()) (syncInfo : SyncInfo) : M R () :=
  cert ← AdvanceView_cert syncInfo;
  match cert with
  | None => mret ()
  | Some (v, timeout) =>
    currentView ← View_;
    if (v <? currentView)%N then mret ()
    else
      _ ← enter_view v timeout;
      leader ← GetLeader (wrap64 (v + 1));
      if (leader =? st_ID st)%N then Propose_with (OnPropose_with rec) syncInfo
      else if bool_decide (leader ∈ st_replicas st) then emit (ENewView leader syncInfo)
      else mret ()
  end.

Fixpoint AdvanceView (fuel : nat) (syncInfo : SyncInfo) : M R () :=
  match fuel with
  | O => nofuel
  | S fuel => AdvanceView_body (AdvanceView fuel) syncInfo
  end.

Definition OnPropose (fuel : nat) : ProposeMsg → M R () := OnPropose_with (AdvanceView fuel).
Definition Propose (fuel : nat) : SyncInfo → M R () := Propose_with (OnPropose fuel).

(** [Start] proposes when the replica leads the first view; its timer and its
    goroutine are the environment's. *)
Definition Start (fuel : nat) : M R () :=
  d ← Duration;
  _ ← emit (EResetTimer d);
  view ← View_;
  if (view =? 1)%N then
    leader ← GetLeader view;
    if (leader =? st_ID st)%N then si ← getSyncInfo; Propose fuel si
    else mret ()
  else mret ().

Definition OnNewView (fuel : nat) (newView : NewViewMsg) : M R () :=
  AdvanceView fuel (nv_SyncInfo newView).

(** The deferred cleanup of [OnRemoteTimeout]. *)
Definition drop_old_timeouts : M R () :=
  upd_sync (λ s, set_timeouts (filter (λ '(v, _), (sy_currentView s ≤ v)%N) (sy_timeouts s)) s).

(** Remember the first timeout of a replica in a view; returns those of the
    view. *)
Definition add_timeout (timeout : TimeoutMsg) : M R (gmap ID TimeoutMsg) := λ r,
  let s := r_sync r in
  let timeouts := default ∅ (sy_timeouts s !! tm_View timeout) in
  let timeouts' := match timeouts !! tm_ID timeout with
                   | Some _ => timeouts
                   | None => <[tm_ID timeout := timeout]> timeouts
                   end in
  Ok (timeouts', set_sync (set_timeouts (<[tm_View timeout := timeouts']> (sy_timeouts s)) s) r).

Definition OnRemoteTimeout_body (fuel : nat) (timeout : TimeoutMsg) : M R () :=
  ok ← crypto (Verify (tm_ViewSignature timeout) (View_ToHash (tm_View timeout)));
  if negb ok then mret ()
  else
    _ ← AdvanceView fuel (tm_SyncInfo timeout);
    timeouts ← add_timeout timeout;
    if (Z.of_nat (size timeouts) <? st_QuorumSize st)%Z then mret ()
    else
      let timeoutList := snd <$> map_to_list timeouts in
      tc ← crypto (CreateTimeoutCert (tm_View timeout) timeoutList);
      match tc with
      | inr _ => mret ()
      | inl tc =>
        si0 ← getSyncInfo;
        let si := SyncInfo_WithTC si0 tc in
        si' ← (if shouldUseAggQC (st_opts st) then
                 view ← View_;
                 agg ← crypto (CreateAggregateQC view timeoutList);
                 mret (match agg with
                       | inl aggQC => SyncInfo_WithAggQC si aggQC
                       | inr _ => si
                       end)
               else mret si : M R SyncInfo);
        _ ← upd_sync (λ s, set_timeouts (delete (tm_View timeout) (sy_timeouts s)) s);
        AdvanceView fuel si'
      end.

Definition OnRemoteTimeout (fuel : nat) (timeout : TimeoutMsg) : M R () :=
  _ ← OnRemoteTimeout_body fuel timeout;
  drop_old_timeouts.

(** Sign a timeout for the current view, stop voting in it, and send it. *)
Definition new_timeout (fuel : nat) : M R () :=
  _ ← modify (λ r, set_duration (vd_ViewTimeout (r_duration r)) r);
  view ← View_;
  sig ← crypto (Sign (View_ToHash view));
  match sig with
  | inr _ => mret ()
  | inl sig =>
    si ← getSyncInfo;
    let timeoutMsg := mkTimeout (st_ID st) view (Some sig) None si in
    msg ← (if shouldUseAggQC (st_opts st) then
             sig2 ← crypto (Sign (TimeoutMsg_Hash timeoutMsg));
             mret (match sig2 with
                   | inr _ => None
                   | inl sig2 => Some (mkTimeout (st_ID st) view (Some sig) (Some sig2) si)
                   end)
           else mret (Some timeoutMsg) : M R (option TimeoutMsg));
    match msg with
    | None => mret ()
    | Some timeoutMsg =>
      _ ← upd_sync (set_lastTimeout (Some timeoutMsg));
      _ ← StopVoting view;
      _ ← emit (ETimeout timeoutMsg);
      OnRemoteTimeout fuel timeoutMsg
    end
  end.

(** [ctxDone] says whether the view context has expired when the deferred
    function runs. *)
Definition onLocalTimeout (fuel : nat) (ctxDone : bool) : M R () :=
  s ← gets r_sync;
  _ ← (match sy_lastTimeout s with
       | Some t => if (tm_View t =? sy_currentView s)%N then emit (ETimeout t) else new_timeout fuel
       | None => new_timeout fuel
       end : M R ());
  _ ← (if ctxDone then newCtx else mret () : M R ());
  d ← Duration;
  emit (EResetTimer d).

(** ** votingmachine.go *)

Definition OnVote (vote : VoteMsg) : M R () :=
  let cert := vm_PartialCert vote in
  block ← (if negb (vm_Deferred vote) then chain_LocalGet (pc_blockHash cert)
           else chain_Get st (pc_blockHash cert));
  match block with
  | None =>
    if negb (vm_Deferred vote) then emit (EDelay (mkVote (vm_ID vote) cert true)) else mret ()
  | Some block =>
    leaf ← LeafBlock;
    if (b_view block <=? b_view leaf)%N then mret ()
    else emit (EVerify cert block)
  end.

(** The deferred cleanup: keep the votes for known blocks above the leaf. *)
Definition clean_votes : M R () :=
  modify (λ r, set_votes (filter (λ '(h, _),
    match blockChain_LocalGet h (r_chain r) with
    | Some block => (b_view (sy_leafBlock (r_sync r)) <? b_view block)%N
    | None => false
    end = true) (r_votes r)) r).

(** The goroutine that [OnVote] starts, from taking the lock to releasing it. *)
Definition verifyCert (cert : PartialCert) (block : Block) : M R () :=
  ok ← crypto (VerifyPartialCert cert);
  if negb ok then mret ()
  else
    r ← gets id;
    let votes := default [] (r_votes r !! pc_blockHash cert) ++ [cert] in
    _ ← modify (set_votes (<[pc_blockHash cert := votes]> (r_votes r)));
    _ ← (if (Z.of_nat (length votes) <? st_QuorumSize st)%Z then mret ()
         else
           qc ← crypto (CreateQuorumCert block votes);
           match qc with
           | inr _ => mret ()
           | inl qc =>
             _ ← modify (λ r, set_votes (delete (pc_blockHash cert) (r_votes r)) r);
             emit (EAddEvent (mkNewView (st_ID st) (SyncInfo_WithQC NewSyncInfo qc)))
           end : M R ());
    clean_votes.

(** ** What every handler preserves *)

(** The certificate of a vote, for the effects that are votes. *)
Definition vote_of (e : effect) : option PartialCert :=
  match e with
  | EVote _ pc => Some pc
  | EVoteSelf vote => Some (vm_PartialCert vote)
  | _ => None
  end.

(** The replica's own proposals are for blocks in [P]. *)
Definition own_in (P : Block → Prop) (out : list effect) : Prop :=
  ∀ p, EPropose p ∈ out → P (pm_Block p).

Lemma own_in_app P out es : own_in P (out ++ es) → own_in P out.
Proof. intros H p Hp. apply H, elem_of_app. by left. Qed.

Section advances.
Context (P : Block → Prop).

(** Votes go to blocks in [P] of ever higher views: [vote_trace v es v'] when
    the effects [es] take the last vote from [v] to [v']. *)
Inductive vote_trace : View → list effect → View → Prop :=
| vt_stop v v' : (v ≤ v')%N → vote_trace v [] v'
| vt_other v e es v' : vote_of e = None → vote_trace v es v' → vote_trace v (e :: es) v'
| vt_vote v e pc b es v' :
    vote_of e = Some pc → pc_blockHash pc = b_hash b → P b → (v < b_view b)%N →
    vote_trace (b_view b) es v' → vote_trace v (e :: es) v'.

Lemma vote_trace_le v es v' : vote_trace v es v' → (v ≤ v')%N.
Proof. induction 1; lia. Qed.

Lemma vote_trace_weaken u v es v' : (u ≤ v)%N → vote_trace v es v' → vote_trace u es v'.
Proof.
  intros Hu. induction 1 as [| |v e pc b es v' ? ? ? ? ? _].
  - constructor. lia.
  - by constructor; auto.
  - eapply vt_vote; [done..| |done]. lia.
Qed.

Lemma vote_trace_app v1 es1 v2 es2 v3 :
  vote_trace v1 es1 v2 → vote_trace v2 es2 v3 → vote_trace v1 (es1 ++ es2) v3.
Proof.
  induction 1 as [| |v e pc b es v' ? ? ? ? _ IH]; intros Hnext; simpl.
  - by eapply vote_trace_weaken.
  - constructor; auto.
  - eapply vt_vote; eauto.
Qed.

(** The view counter went from the largest uint64 to zero. *)
Definition overflowed (es : list effect) : Prop := ∃ t, EViewChange 0 t ∈ es.

(** From one state of a replica to a later one: effects are only appended,
    votes follow [vote_trace] while own proposals are in [P], nothing that is committed, locked or stored is
    given up, and the view does not decrease unless its counter overflowed. *)
Record advances (r r' : R) : Prop := {
  adv_out : ∃ es, r_out r' = r_out r ++ es ∧
    (own_in P (r_out r') → vote_trace (cs_lastVote (r_cs r)) es (cs_lastVote (r_cs r'))) ∧
    ((sy_currentView (r_sync r) ≤ sy_currentView (r_sync r'))%N ∨ overflowed es);
  adv_lastVote : (cs_lastVote (r_cs r) ≤ cs_lastVote (r_cs r'))%N;
  adv_exec : (b_view (cs_bExec (r_cs r)) ≤ b_view (cs_bExec (r_cs r')))%N;
  adv_lock : (b_view (r_lock r) ≤ b_view (r_lock r'))%N;
  adv_highTC : (tc_view (sy_highTC (r_sync r)) ≤ tc_view (sy_highTC (r_sync r')))%N;
  adv_chain : chain_grows (r_chain r) (r_chain r') }.

#[export] Instance advances_preorder : PreOrder advances.
Proof.
  split.
  - intros r. split; try done. exists []. rewrite app_nil_r. split_and!; [done|by constructor|by left].
  - intros x y z [(e1 & O1 & T1 & V1) N1 E1 L1 H1 C1] [(e2 & O2 & T2 & V2) N2 E2 L2 H2 C2].
    split; [|by etrans..]. exists (e1 ++ e2).
    split_and!; [by rewrite O2, O1, <-app_assoc| |].
    { intros Hown. eapply vote_trace_app; [apply T1|by apply T2]. rewrite O2 in Hown. by eapply own_in_app. }
    destruct V1 as [V1|(t & V1)]; [|right; exists t; rewrite elem_of_app; by auto].
    destruct V2 as [V2|(t & V2)]; [left; by etrans|right; exists t; rewrite elem_of_app; by auto].
Qed.

Lemma same_voting_advances r r' : same_voting r r' → advances r r'.
Proof.
  intros [Hcs Hview HTC _ _ _ _ Hout Hlock _ Hchain]. split; rewrite ?Hcs, ?HTC; try done.
  exists []. rewrite app_nil_r. split_and!; [done|by constructor|]. left. by rewrite Hview.
Qed.

Lemma voting_advances {A} (m : M R A) : preserves same_voting m → preserves advances m.
Proof. apply preserves_weaken, same_voting_advances. Qed.
#[local] Hint Resolve voting_advances : pres.

Lemma emit_advances e : vote_of e = None → preserves advances (emit e).
Proof.
  intros He. apply preserves_modify. intros r. split; try done. exists [e].
  split_and!; [done| |by left]. intros _. constructor; [done|]. by constructor.
Qed.
#[local] Hint Extern 1 (preserves advances (emit _)) => (apply emit_advances; reflexivity) : pres.

Lemma chain_Store_advances b : preserves advances (chain_Store b).
Proof.
  apply preserves_modify. intros r. split; try done; [|apply Store_grows].
  exists []. rewrite app_nil_r. split_and!; [done|by constructor|by left].
Qed.
#[local] Hint Resolve chain_Store_advances : pres.

(** An update of fields that [advances] does not mention. *)
Lemma modify_advances (f : R → R) :
  (∀ r, r_cs (f r) = r_cs r ∧ r_lock (f r) = r_lock r ∧ r_out (f r) = r_out r ∧
        r_chain (f r) = r_chain r ∧ sy_currentView (r_sync (f r)) = sy_currentView (r_sync r) ∧
        (tc_view (sy_highTC (r_sync r)) ≤ tc_view (sy_highTC (r_sync (f r))))%N) →
  preserves advances (modify f).
Proof.
  intros Hf. apply preserves_modify. intros r. destruct (Hf r) as (E1 & E2 & E3 & E4 & E5 & E6).
  split; rewrite ?E1, ?E2, ?E4; try done. exists []. rewrite E3, app_nil_r.
  split_and!; [done|by constructor|left; by rewrite E5].
Qed.

Lemma StopVoting_advances v : preserves advances (StopVoting v).
Proof.
  apply preserves_modify. intros r. destruct (N.ltb_spec (cs_lastVote (r_cs r)) v); [|done].
  split; try done; [|simpl; lia]. exists []. rewrite app_nil_r. split_and!; [done| |by left].
  intros _. constructor. simpl. lia.
Qed.

(** ** Commit *)

Lemma commitInner_advances fuel b : preserves advances (commitInner fuel b).
Proof.
  revert b. induction fuel as [|fuel IH]; intros b; cbn [commitInner]; [by apply preserves_nofuel|].
  intros r a r'. rewrite M_bind_Ok. intros (bExec & r0 & [= <- <-] & H).
  destruct (N.ltb_spec (b_view (cs_bExec (r_cs r))) (b_view b)) as [Hlt|]; [|by injection H as <- <-].
  apply M_bind_Ok in H as (parent & r1 & H1 & H).
  apply M_bind_Ok in H as ([] & r2 & H2 & H).
  apply M_bind_Ok in H as ([] & r3 & H3 & [= <- <-]).
  assert (advances r r3) as Hadv.
  { transitivity r1; [by eapply voting_advances; [|exact H1]; eauto with pres|].
    transitivity r2; [destruct parent; [by eapply IH|by injection H2 as <-]|].
    by eapply emit_advances in H3. }
  destruct Hadv as [Hout Hn _ Hl Ht Hc]. split; try done. simpl. lia.
Qed.
#[local] Hint Resolve commitInner_advances StopVoting_advances : pres.

Lemma emit_forks_advances bs : preserves advances (emit_forks bs).
Proof. induction bs as [|b bs IH]; cbn [emit_forks]; pres_solve. Qed.
#[local] Hint Resolve emit_forks_advances : pres.

Lemma prune_advances committed height :
  preserves advances (lift_res (S:=R) r_chain set_chain
    (blockChain_PruneToHeight (st_fuel st) committed height)).
Proof.
  apply preserves_lift_res. intros r a c H. split; try done.
  - exists []. rewrite app_nil_r. split_and!; [done|by constructor|by left].
  - exact (PruneToHeight_grows _ _ _ _ _ H).
Qed.
#[local] Hint Resolve prune_advances : pres.

Lemma commit_advances b : preserves advances (commit b).
Proof. unfold commit. pres_solve. Qed.
#[local] Hint Resolve commit_advances : pres.

(** ** Voting *)

(** A certificate that has just been created names the block. *)
Lemma CreatePartialCert_hash b (s s' : C) pc :
  CreatePartialCert b s = Ok (inl pc, s') → pc_blockHash pc = b_hash b.
Proof.
  unfold CreatePartialCert. rewrite M_bind_Ok. intros (r & s1 & _ & H).
  destruct r; simplify_eq. by injection H as <-.
Qed.

Lemma cast_vote_advances b : P b → preserves advances (cast_vote b).
Proof.
  intros HP r a r'. unfold cast_vote. rewrite M_bind_Ok. intros (lv & r0 & [= <- <-] & H).
  destruct (N.leb_spec (b_view b) (cs_lastVote (r_cs r))) as [|Hlt]; [by injection H as <- <-|].
  apply M_bind_Ok in H as (pc & r1 & H1 & H).
  pose proof (crypto_core _ _ _ _ H1) as Hr1.
  destruct pc as [pc|]; [|injection H as <- <-; by apply same_voting_advances, same_core_voting].
  assert (pc_blockHash pc = b_hash b) as Hpc.
  { unfold crypto, lift_res in H1. destruct (CreatePartialCert b (r_crypto r)) as [[]| | |] eqn:Hc;
      simplify_eq. by eapply CreatePartialCert_hash. }
  apply M_bind_Ok in H as ([] & r2 & [= <-] & H).
  apply M_bind_Ok in H as (leader & r3 & H3 & H). apply GetLeader_core in H3.
  destruct Hr1 as [E1 E2 E3 _ _ E4 E5]. destruct H3 as [F1 F2 F3 _ _ F4 F5].
  simpl in F1, F2, F3, F4, F5. rewrite E1 in F1.
  assert (∀ e, vote_of e = Some pc → advances r (mkReplica (r_cs r3) (r_lock r3) (r_sync r3)
    (r_votes r3) (r_chain r3) (r_crypto r3) (r_cmds r3) (r_leader r3) (r_duration r3)
    (r_out r3 ++ [e]))) as Hvote.
  { intros e He. split; simpl; rewrite ?F1, ?F2, ?F3, ?E2, ?E3; simpl; try done; [|lia|by etrans].
    exists [e]. rewrite F4, E4. split_and!; [done| |by left]. intros _.
    by eapply vt_vote; [..|by constructor]. }
  destruct (leader =? st_ID st)%N; [injection H as <- <-; by apply Hvote|].
  case_bool_decide; injection H as <- <-; [by apply Hvote|].
  split; rewrite ?F1, ?F2, ?F3, ?E2, ?E3; simpl; try done; [|lia|by etrans].
  exists []. rewrite F4, E4, app_nil_r. split_and!; [done|constructor; lia|by left].
Qed.
#[local] Hint Resolve cast_vote_advances : pres.

Lemma Proposed_advances cmd : preserves advances (Proposed cmd).
Proof. by apply modify_advances. Qed.
Lemma cmd_Get_advances : preserves advances cmd_Get.
Proof.
  apply preserves_lift_res. intros r a q _. split; try done.
  exists []. rewrite app_nil_r. split_and!; [done|by constructor|by left].
Qed.
#[local] Hint Resolve Proposed_advances cmd_Get_advances : pres.

Lemma OnPropose_verify_advances p : preserves advances (OnPropose_verify p).
Proof. unfold OnPropose_verify. pres_solve. Qed.

Lemma OnPropose_vote_advances p : P (pm_Block p) → preserves advances (OnPropose_vote p).
Proof. intros HP. unfold OnPropose_vote, Accept. pres_solve. Qed.

Lemma OnPropose_commit_advances b : preserves advances (OnPropose_commit b).
Proof. unfold OnPropose_commit. pres_solve. Qed.
#[local] Hint Resolve OnPropose_verify_advances OnPropose_vote_advances OnPropose_commit_advances : pres.

Lemma OnPropose_with_advances adv p :
  (∀ si, preserves advances (adv si)) → P (pm_Block p) → preserves advances (OnPropose_with adv p).
Proof. intros Hadv HP. unfold OnPropose_with. pres_solve. Qed.

Lemma make_proposal_advances cert cmd : preserves advances (make_proposal cert cmd).
Proof.
  unfold make_proposal, LeafBlock, View_. destruct ProposeRule as [f|] eqn:E.
  - apply voting_advances, core_voting. by eapply ProposeRule_core.
  - pres_solve.
Qed.

Lemma Propose_ack_advances cert : preserves advances (Propose_ack cert).
Proof. unfold Propose_ack. pres_solve. Qed.
#[local] Hint Resolve make_proposal_advances Propose_ack_advances : pres.

(** ** Views *)

Lemma newCtx_advances : preserves advances newCtx.
Proof. unfold newCtx. pres_solve. by apply modify_advances. Qed.
#[local] Hint Resolve newCtx_advances : pres.

Lemma AdvanceView_cert_advances si : preserves advances (AdvanceView_cert si).
Proof.
  unfold AdvanceView_cert. pres_solve. apply modify_advances. intros r. simpl.
  destruct (N.ltb_spec (tc_view (sy_highTC (r_sync r))) (tc_view t)); simpl; split_and!; (done || lia).
Qed.
#[local] Hint Resolve AdvanceView_cert_advances : pres.

(** Entering a view that is not below the current one. *)
Lemma enter_view_advances v timeout r a r' :
  (sy_currentView (r_sync r) ≤ v < two64)%N →
  enter_view v timeout r = Ok (a, r') → advances r r'.
Proof.
  intros Hle. unfold enter_view. rewrite M_bind_Ok. intros ([] & r1 & [= <-] & H).
  rewrite M_bind_Ok in H. destruct H as ([] & r2 & [= <-] & H).
  rewrite M_bind_Ok in H. destruct H as ([] & r3 & [= <-] & H).
  rewrite M_bind_Ok in H. destruct H as ([] & r4 & H4 & H).
  rewrite M_bind_Ok in H. destruct H as (d & r5 & H5 & H).
  rewrite M_bind_Ok in H. destruct H as ([] & r6 & [= <-] & [= <- <-]).
  apply Duration_core in H5. destruct H5 as [E1 E2 E3 _ _ E4 E5].
  unfold newCtx in H4. rewrite M_bind_Ok in H4. destruct H4 as (d' & r7 & H7 & [= <-]).
  apply Duration_core in H7. destruct H7 as [F1 F2 F3 _ _ F4 F5]. simpl in *.
  split; simpl; rewrite ?E1, ?E2, ?E3, ?F1, ?F2; simpl; rewrite ?F3; simpl; try done.
  2: { etrans; [exact F5|exact E5]. }
  exists [EStopTimer; EResetTimer d; EViewChange (wrap64 (v + 1)) timeout].
  rewrite E4, F4, <-!app_assoc. simpl. split_and!; [done| |].
  - intros _. repeat (apply vt_other; [done|]). by constructor.
  - destruct (N.lt_ge_cases (v + 1) two64) as [Hlt|Hge].
    + left. rewrite wrap64_small by done. lia.
    + right. exists timeout. replace (v + 1)%N with two64 by lia. repeat constructor.
Qed.
End advances.

(** What a proposal of the replica itself leads to: that its block is in [P] is
    known once it has been sent. *)
Lemma advances_own P (r r' : R) :
  advances (λ _, True) r r' → (own_in P (r_out r') → advances P r r') → advances P r r'.
Proof.
  intros [(es & Hout & _ & Hv) Hn He Hl Ht Hc] HP. split; try done. exists es. split_and!; [done| |done].
  intros Hown. destruct (HP Hown) as [(es' & Hout' & Htr & _) _ _ _ _ _].
  rewrite Hout in Hout'. apply app_inv_head in Hout' as <-. by apply Htr.
Qed.

Lemma Propose_with_advances P onPropose cert :
  (∀ P p, P (pm_Block p) → preserves (advances P) (onPropose p)) →
  preserves (advances P) (Propose_with onPropose cert).
Proof.
  intros Hon r a r'. unfold Propose_with. rewrite M_bind_Ok. intros (acked & r1 & H1 & H).
  transitivity r1; [by eapply Propose_ack_advances|]. destruct acked; cbn [negb] in H; [|by injection H as <- <-].
  apply M_bind_Ok in H as (cmd & r2 & H2 & H). transitivity r2; [by eapply cmd_Get_advances|].
  destruct cmd as [cmd|]; [|by injection H as <- <-].
  apply M_bind_Ok in H as (p & r3 & H3 & H). transitivity r3; [by eapply make_proposal_advances|].
  destruct p as [p|]; [|by injection H as <- <-].
  apply M_bind_Ok in H as ([] & r4 & H4 & H). transitivity r4; [by eapply chain_Store_advances|].
  apply M_bind_Ok in H as ([] & r5 & H5 & H). transitivity r5; [by eapply (emit_advances P (EPropose p))|].
  apply advances_own; [by eapply Hon; [|exact H]|]. intros Hown. eapply Hon; [|exact H]. apply Hown.
  destruct (Hon (λ _, True) p I _ _ _ H) as [(es & -> & _) _ _ _ _ _]. injection H5 as <-. cbn.
  apply elem_of_app. left. apply elem_of_app. right. by left.
Qed.

Lemma AdvanceView_cert_fits si r v timeout r' :
  AdvanceView_cert si r = Ok (Some (v, timeout), r') → (v < two64)%N.
Proof.
  unfold AdvanceView_cert. destruct (si_tc si) as [tc|]; [|destruct (si_qc si) as [qc|]].
  - rewrite M_bind_Ok. intros ([] & r1 & _ & H); [|done].
    apply M_bind_Ok in H as ([] & r2 & _ & [= <- _ _]). apply wrap64_lt.
  - rewrite M_bind_Ok. intros ([] & r1 & _ & H); [|done]. apply M_bind_Ok in H as ([] & r2 & _ & H).
    apply M_bind_Ok in H as ([] & r3 & _ & [= <- _ _]). apply wrap64_lt.
  - by intros [= <- _ _].
Qed.

Lemma AdvanceView_advances P fuel si : preserves (advances P) (AdvanceView fuel si).
Proof.
  revert P si. induction fuel as [|fuel IH]; intros P si; cbn [AdvanceView]; [by apply preserves_nofuel|].
  intros r a r'. unfold AdvanceView_body. rewrite M_bind_Ok. intros (cert & r1 & H1 & H).
  transitivity r1; [by eapply AdvanceView_cert_advances|].
  destruct cert as [[v timeout]|]; [|by injection H as <- <-]. apply AdvanceView_cert_fits in H1.
  apply M_bind_Ok in H as (cur & r2 & [= <- <-] & H).
  destruct (N.ltb_spec v (sy_currentView (r_sync r1))); [by injection H as <- <-|].
  apply M_bind_Ok in H as ([] & r3 & H3 & H).
  transitivity r3; [by eapply enter_view_advances|].
  apply M_bind_Ok in H as (leader & r4 & H4 & H).
  transitivity r4; [by eapply voting_advances; [apply core_voting, GetLeader_core|]|].
  destruct (leader =? st_ID st)%N; cycle 1.
  { case_bool_decide; [|by injection H as <- <-]. revert H. by apply emit_advances. }
  revert H. apply Propose_with_advances. intros P' p HP. by apply OnPropose_with_advances.
Qed.

Section handlers.
Context (P : Block → Prop).
#[local] Hint Resolve voting_advances chain_Store_advances commitInner_advances StopVoting_advances
  emit_forks_advances Proposed_advances cmd_Get_advances newCtx_advances AdvanceView_advances : pres.
#[local] Hint Extern 1 (preserves (advances _) (emit _)) => (apply emit_advances; reflexivity) : pres.
Abbreviation advances := (advances P).

Lemma OnPropose_advances fuel p : P (pm_Block p) → preserves advances (OnPropose fuel p).
Proof. intros HP. apply OnPropose_with_advances; [|done]. intros si. apply AdvanceView_advances. Qed.

Lemma Propose_advances fuel si : preserves advances (Propose fuel si).
Proof.
  apply Propose_with_advances. intros P' p HP. apply OnPropose_with_advances; [|done].
  intros si'. apply AdvanceView_advances.
Qed.
#[local] Hint Resolve OnPropose_advances Propose_advances : pres.

Lemma Start_advances fuel : preserves advances (Start fuel).
Proof. unfold Start, View_, getSyncInfo. pres_solve. Qed.

Lemma add_timeout_advances t : preserves advances (add_timeout t).
Proof.
  intros r a r' [= _ <-]. split; try done. exists []. rewrite app_nil_r.
  split_and!; [done|by constructor|by left].
Qed.
#[local] Hint Resolve add_timeout_advances : pres.

Lemma OnRemoteTimeout_advances fuel t : preserves advances (OnRemoteTimeout fuel t).
Proof.
  unfold OnRemoteTimeout, OnRemoteTimeout_body, drop_old_timeouts, getSyncInfo, View_.
  pres_solve; by apply modify_advances.
Qed.
#[local] Hint Resolve OnRemoteTimeout_advances : pres.

Lemma onLocalTimeout_advances fuel ctxDone : preserves advances (onLocalTimeout fuel ctxDone).
Proof.
  unfold onLocalTimeout, new_timeout, getSyncInfo, View_. pres_solve; by apply modify_advances.
Qed.

Lemma OnVote_advances vote : preserves advances (OnVote vote).
Proof. unfold OnVote, LeafBlock. pres_solve. Qed.

Lemma verifyCert_advances cert b : preserves advances (verifyCert cert b).
Proof. unfold verifyCert, clean_votes. pres_solve; by apply modify_advances. Qed.

End handlers.

(** ** Runs *)

(** The events of a replica: what the event loop hands to a handler, the
    start, and the goroutines of the voting machine. *)
Inductive event :=
| EvStart
| EvPropose (proposal : ProposeMsg)
| EvNewView (msg : NewViewMsg)
| EvTimeout (timeout : TimeoutMsg)
| EvLocalTimeout (ctxDone : bool)
| EvVote (vote : VoteMsg)
| EvVerify (cert : PartialCert) (block : Block).

Definition handle (fuel : nat) (e : event) : M R () :=
  match e with
  | EvStart => Start fuel
  | EvPropose p => OnPropose fuel p
  | EvNewView m => OnNewView fuel m
  | EvTimeout t => OnRemoteTimeout fuel t
  | EvLocalTimeout c => onLocalTimeout fuel c
  | EvVote v => OnVote v
  | EvVerify cert b => verifyCert cert b
  end.

Fixpoint run (fuel : nat) (es : list event) : M R () :=
  match es with
  | [] => mret ()
  | e :: es => _ ← handle fuel e; run fuel es
  end.

(** The blocks of the proposals that are received are in [P]. *)
Definition received_in (P : Block → Prop) (es : list event) : Prop :=
  ∀ p, EvPropose p ∈ es → P (pm_Block p).

Lemma received_in_cons P e es : received_in P (e :: es) → received_in P [e] ∧ received_in P es.
Proof.
  intros H. split; intros p Hp; apply H; [|by right].
  apply list_elem_of_singleton in Hp as <-. by left.
Qed.

Lemma handle_advances P fuel e : received_in P [e] → preserves (advances P) (handle fuel e).
Proof.
  intros HP. destruct e; eauto using Start_advances, onLocalTimeout_advances, OnVote_advances,
    verifyCert_advances, AdvanceView_advances, OnRemoteTimeout_advances.
  apply OnPropose_advances, HP. by left.
Qed.

Lemma run_advances P fuel es : received_in P es → preserves (advances P) (run fuel es).
Proof.
  induction es as [|e es IH]; cbn [run]; intros HP; [apply preserves_ret; typeclasses eauto|].
  apply received_in_cons in HP as [He Hes].
  apply preserves_bind; [typeclasses eauto|by apply handle_advances|]. intros _. by apply IH.
Qed.

Lemma vote_trace_blocks P v es v' :
  vote_trace P v es v' →
  ∃ bs, pc_blockHash <$> omap vote_of es = b_hash <$> bs ∧
        StronglySorted N.lt (b_view <$> bs) ∧ Forall (λ b, P b ∧ v < b_view b ≤ v')%N bs.
Proof.
  induction 1 as [|v e es v' He _ IH|v e pc b es v' He Hpc HP Hlt Htr IH].
  - exists []. repeat constructor.
  - cbn [omap list_omap]. by rewrite He.
  - destruct IH as (bs & IH1 & IH2 & IH3). exists (b :: bs). cbn [omap list_omap].
    rewrite He, !fmap_cons. pose proof (vote_trace_le _ _ _ _ Htr). split_and!.
    + by rewrite IH1, Hpc.
    + constructor; [done|]. apply Forall_fmap. eapply Forall_impl; [exact IH3|]. simpl. lia.
    + constructor; [done|]. eapply Forall_impl; [exact IH3|]. simpl. intuition lia.
Qed.

(** The blocks of the proposals of a run: received, or the replica's own. *)
Definition proposed (es : list event) (out : list effect) (b : Block) : Prop :=
  ∃ p, pm_Block p = b ∧ (EvPropose p ∈ es ∨ EPropose p ∈ out).

(** The hash of a proposed block determines its view. *)
Definition hashes_fix_views (P : Block → Prop) : Prop :=
  ∀ b b', P b → P b' → b_hash b = b_hash b' → b_view b = b_view b'.

Lemma proposed_own es out : own_in (proposed es out) out.
Proof. intros p Hp. exists p. auto. Qed.
Lemma proposed_received es out : received_in (proposed es out) es.
Proof. intros p Hp. exists p. auto. Qed.

Lemma sorted_lt_unique (vs : list N) i j v :
  StronglySorted N.lt vs → vs !! i = Some v → vs !! j = Some v → i = j.
Proof.
  intros Hs. revert i j. induction Hs as [|u vs Hs IH Hu]; intros i j; [done|].
  rewrite Forall_lookup in Hu. destruct i as [|i], j as [|j]; simpl; intros Hi Hj; simplify_eq; [done|..].
  - apply Hu in Hj. lia.
  - apply Hu in Hi. lia.
  - f_equal. by eapply IH.
Qed.

(** Votes for blocks of increasing views: two votes in one view are one. *)
Lemma increasing_votes_unique (P : Block → Prop) (pcs : list PartialCert) bs i j pc pc' b b' :
  pc_blockHash <$> pcs = b_hash <$> bs → StronglySorted N.lt (b_view <$> bs) → Forall P bs →
  hashes_fix_views P → pcs !! i = Some pc → pcs !! j = Some pc' →
  P b → P b' → b_hash b = pc_blockHash pc → b_hash b' = pc_blockHash pc' → b_view b = b_view b' → i = j.
Proof.
  intros Heq Hs HP Hfix Hi Hj Pb Pb' Hb Hb' Hv. rewrite Forall_lookup in HP.
  assert (∀ k pc b, pcs !! k = Some pc → P b → b_hash b = pc_blockHash pc → (b_view <$> bs) !! k = Some (b_view b)) as Hk.
  { intros k c x Hc Px Hx. assert ((b_hash <$> bs) !! k = Some (pc_blockHash c)) as Hbk
      by (by rewrite <-Heq, list_lookup_fmap, Hc).
    rewrite list_lookup_fmap in Hbk. rewrite list_lookup_fmap. destruct (bs !! k) as [y|] eqn:Hy; [|done]. injection Hbk as Hbk. simpl. f_equal.
    apply Hfix; [by eapply HP|done|]. congruence. }
  apply (sorted_lt_unique (b_view <$> bs) i j (b_view b)); [done|by apply (Hk i pc)|].
  rewrite Hv. by apply (Hk j pc').
Qed.

(** C3: a replica never votes twice in a view.  In every run, whatever
    messages arrive in whatever order, the votes it sends are for blocks that
    were proposed to it or by it in this run, of strictly increasing views, none
    above its last vote; so, where the hash of a proposed block determines its
    view, two votes for blocks of the same view are one and the same vote. *)
Theorem one_vote_per_view (fuel : nat) (es : list event) (c : C) (q : Q) (l : L) (d : D) (r : R) :
  run fuel es (Replica_New c q l d) = Ok ((), r) →
  (∃ bs, pc_blockHash <$> omap vote_of (r_out r) = b_hash <$> bs ∧
         StronglySorted N.lt (b_view <$> bs) ∧
         Forall (λ b, proposed es (r_out r) b ∧ 0 < b_view b ≤ cs_lastVote (r_cs r))%N bs) ∧
  (hashes_fix_views (proposed es (r_out r)) → ∀ i j pc pc' b b',
     omap vote_of (r_out r) !! i = Some pc → omap vote_of (r_out r) !! j = Some pc' →
     proposed es (r_out r) b → proposed es (r_out r) b' →
     b_hash b = pc_blockHash pc → b_hash b' = pc_blockHash pc' → b_view b = b_view b' → i = j).
Proof.
  intros H. apply (run_advances (proposed es (r_out r))) in H as [(out & Hout & Htr & _) _ _ _ _ _];
    [|apply proposed_received].
  specialize (Htr (proposed_own _ _)). simpl in Hout, Htr. rewrite <-Hout in Htr.
  destruct (vote_trace_blocks _ _ _ _ Htr) as (bs & Hbs & Hsort & Hall). split; [by exists bs|].
  intros Hfix i j pc pc' b b' Hi Hj Pb Pb' Hb Hb' Hv.
  apply (increasing_votes_unique (proposed es (r_out r)) (omap vote_of (r_out r)) bs i j pc pc' b b'); try done.
  eapply Forall_impl; [exact Hall|]. intros x [Hx _]. exact Hx.
Qed.

(** C4: between any two points of a run the last vote, the committed block, the
    lock and the timeout certificate never go back to a lower view, a block that
    was stored stays available, effects are never taken back, and the current
    view does not decrease unless the view counter goes from the largest uint64
    to zero. *)
Theorem replica_monotone (fuel : nat) (es : list event) (r r' : R) :
  run fuel es r = Ok ((), r') →
  (cs_lastVote (r_cs r) ≤ cs_lastVote (r_cs r'))%N ∧
  (b_view (cs_bExec (r_cs r)) ≤ b_view (cs_bExec (r_cs r')))%N ∧
  (b_view (r_lock r) ≤ b_view (r_lock r'))%N ∧
  (tc_view (sy_highTC (r_sync r)) ≤ tc_view (sy_highTC (r_sync r')))%N ∧
  (∀ h, is_Some (blockChain_LocalGet h (r_chain r)) → is_Some (blockChain_LocalGet h (r_chain r'))) ∧
  ∃ out, r_out r' = r_out r ++ out ∧
    ((sy_currentView (r_sync r) ≤ sy_currentView (r_sync r'))%N ∨ overflowed out).
Proof.
  intros H. apply (run_advances (λ _, True)) in H as [(out & Hout & _ & Hv) Hn He Hl Ht [Hc _]]; [|done].
  split_and!; [done..|]. by exists out.
Qed.

(** ** Termination of the mutual recursion *)

(** The steps between two calls of [AdvanceView] keep the view. *)
Definition keeps_view (r r' : R) : Prop :=
  sy_currentView (r_sync r') = sy_currentView (r_sync r).
#[export] Instance keeps_view_preorder : PreOrder keeps_view.
Proof. split; [done|]. intros x y z. unfold keeps_view. congruence. Qed.

Lemma voting_keeps {A} (m : M R A) : preserves same_voting m → preserves keeps_view m.
Proof. apply preserves_weaken. by intros r r' []. Qed.
#[local] Hint Resolve voting_keeps : pres.

Lemma modify_keeps (f : R → R) :
  (∀ r, sy_currentView (r_sync (f r)) = sy_currentView (r_sync r)) → preserves keeps_view (modify f).
Proof. intros Hf. by apply preserves_modify. Qed.
#[local] Hint Extern 1 (preserves keeps_view (modify _)) => (apply modify_keeps; reflexivity) : pres.
#[local] Hint Extern 1 (preserves keeps_view (emit _)) => (apply modify_keeps; reflexivity) : pres.
#[local] Hint Extern 1 (preserves keeps_view (chain_Store _)) => (apply modify_keeps; reflexivity) : pres.
#[local] Hint Extern 1 (preserves keeps_view (Proposed _)) => (apply modify_keeps; reflexivity) : pres.

Lemma commitInner_keeps fuel b : preserves keeps_view (commitInner fuel b).
Proof. revert b. induction fuel as [|fuel IH]; intros b; cbn [commitInner]; pres_solve. Qed.
Lemma emit_forks_keeps bs : preserves keeps_view (emit_forks bs).
Proof. induction bs as [|b bs IH]; cbn [emit_forks]; pres_solve. Qed.
Lemma lift_chain_keeps {A} (f : blockChain → res (A * blockChain)) :
  preserves keeps_view (lift_res (S:=R) r_chain set_chain f).
Proof. by apply preserves_lift_res. Qed.
#[local] Hint Resolve commitInner_keeps emit_forks_keeps lift_chain_keeps : pres.

Lemma cast_vote_keeps b : preserves keeps_view (cast_vote b).
Proof. unfold cast_vote. pres_solve. Qed.
#[local] Hint Resolve cast_vote_keeps : pres.

Lemma OnPropose_body_keeps p :
  preserves keeps_view (OnPropose_verify p) ∧ preserves keeps_view (OnPropose_vote p) ∧
  preserves keeps_view (OnPropose_commit (pm_Block p)).
Proof.
  unfold OnPropose_verify, OnPropose_vote, OnPropose_commit, commit, Accept.
  split_and!; pres_solve.
Qed.

Lemma cmd_Get_keeps : preserves keeps_view cmd_Get.
Proof. by apply preserves_lift_res. Qed.
Lemma Propose_ack_keeps cert : preserves keeps_view (Propose_ack cert).
Proof. unfold Propose_ack. pres_solve. Qed.

Lemma AdvanceView_cert_keeps si : preserves keeps_view (AdvanceView_cert si).
Proof.
  unfold AdvanceView_cert. pres_solve. apply modify_keeps. intros r. simpl. by case_match.
Qed.

Lemma enter_view_view v timeout r a r' :
  enter_view v timeout r = Ok (a, r') → sy_currentView (r_sync r') = wrap64 (v + 1).
Proof.
  unfold enter_view. rewrite M_bind_Ok. intros ([] & r1 & _ & H).
  rewrite M_bind_Ok in H. destruct H as ([] & r2 & [= <-] & H).
  assert (preserves keeps_view (
    _ ← modify (λ r : R, set_duration (vd_ViewStarted (r_duration r)) r);
    _ ← newCtx; d ← Duration; _ ← emit (EResetTimer d);
    emit (EViewChange (wrap64 (v + 1)) timeout))) as Hk.
  { unfold newCtx. pres_solve. by apply modify_keeps. }
  apply Hk in H. by rewrite H.
Qed.

(** A replica without a [ProposeRule] proposes a block with the QC of the
    certificate it was given. *)
Lemma make_proposal_cert cert cmd r p r' :
  ProposeRule = None → make_proposal cert cmd r = Ok (Some p, r') →
  b_cert (pm_Block p) = (SyncInfo_QC cert).1 ∧ keeps_view r r'.
Proof.
  intros Hn. unfold make_proposal. rewrite Hn.
  destruct (SyncInfo_QC cert) as [qc ok]. rewrite M_bind_Ok. intros (leaf & r1 & [= <- <-] & H).
  apply M_bind_Ok in H as (view & r2 & [= <- <-] & H).
  destruct (SyncInfo_AggQC cert) as [agg ok']. by injection H as <- <-.
Qed.

(** [OnPropose] depends on [AdvanceView] only where the view is the one it
    started in. *)
Lemma OnPropose_with_ext f g p r :
  (∀ r', keeps_view r r' →
     f (SyncInfo_WithQC NewSyncInfo (b_cert (pm_Block p))) r' =
     g (SyncInfo_WithQC NewSyncInfo (b_cert (pm_Block p))) r') →
  OnPropose_with f p r = OnPropose_with g p r.
Proof.
  intros Hfg. destruct (OnPropose_body_keeps p) as (K1 & K2 & K3). unfold OnPropose_with.
  apply M_bind_ext. intros ok r1 H1%K1. destruct ok; [simpl|done].
  apply M_bind_ext. intros stored r2 H2%K2.
  apply M_bind_ext. intros [] r3 H3. apply Hfg. transitivity r1; [done|]. transitivity r2; [done|].
  destruct stored; [by apply K3 in H3|by injection H3 as <-].
Qed.

Lemma Propose_with_ext f g cert r :
  ProposeRule = None →
  (∀ p r', keeps_view r r' → b_cert (pm_Block p) = (SyncInfo_QC cert).1 → f p r' = g p r') →
  Propose_with f cert r = Propose_with g cert r.
Proof.
  intros Hn Hfg. unfold Propose_with.
  apply M_bind_ext. intros acked r1 H1%Propose_ack_keeps. destruct acked; [simpl|done].
  apply M_bind_ext. intros [cmd|] r2 H2%cmd_Get_keeps; [|done].
  apply M_bind_ext. intros [p|] r3 H3; [|done].
  apply make_proposal_cert in H3 as [Hc H3]; [|done].
  apply M_bind_ext. intros [] r4 [= <-]. apply M_bind_ext. intros [] r5 [= <-].
  apply Hfg; [|done]. transitivity r1; [done|]. transitivity r2; [done|exact H3].
Qed.

Abbreviation only_QC qc := (SyncInfo_WithQC NewSyncInfo qc).

Lemma AdvanceView_cert_QC qc r v timeout r' :
  AdvanceView_cert (only_QC qc) r = Ok (Some (v, timeout), r') → v = wrap64 (qc_view qc).
Proof.
  unfold AdvanceView_cert. simpl. rewrite M_bind_Ok. intros ([] & r1 & _ & H); [|done].
  apply M_bind_Ok in H as ([] & r2 & _ & H). by apply M_bind_Ok in H as ([] & r3 & _ & [= <- _ _]).
Qed.

(** A QC of an earlier view ends the recursion. *)
Lemma AdvanceView_stop f g qc r :
  (qc_view qc < two64)%N → (qc_view qc < sy_currentView (r_sync r))%N →
  AdvanceView_body f (only_QC qc) r = AdvanceView_body g (only_QC qc) r.
Proof.
  intros Hfit Hlt. unfold AdvanceView_body. apply M_bind_ext. intros [[v timeout]|] r1 H1; [|done].
  apply AdvanceView_cert_QC in H1 as Hv. rewrite wrap64_small in Hv by done. subst v.
  apply AdvanceView_cert_keeps in H1. rewrite <-H1 in Hlt.
  rewrite !(M_bind_run _ _ _ _ _ (eq_refl : View_ r1 = Ok (_, r1))).
  by rewrite (proj2 (N.ltb_lt _ _)) by done.
Qed.

(** Unfolding one level, two bodies agree if they agree on the nested call. *)
Lemma AdvanceView_level f g si r :
  ProposeRule = None →
  (∀ v timeout r1 r', AdvanceView_cert si r = Ok (Some (v, timeout), r1) →
     (sy_currentView (r_sync r) ≤ v)%N → sy_currentView (r_sync r') = wrap64 (v + 1) →
     f (only_QC (SyncInfo_QC si).1) r' = g (only_QC (SyncInfo_QC si).1) r') →
  AdvanceView_body f si r = AdvanceView_body g si r.
Proof.
  intros Hn Hfg. unfold AdvanceView_body. apply M_bind_ext. intros [[v timeout]|] r1 H1; [|done].
  pose proof (AdvanceView_cert_keeps _ _ _ _ H1) as Hk.
  apply M_bind_ext. intros cur r2 [= <- <-].
  destruct (N.ltb_spec v (sy_currentView (r_sync r1))) as [|Hge]; [done|]. rewrite Hk in Hge.
  apply M_bind_ext. intros [] r3 H3%enter_view_view.
  apply M_bind_ext. intros leader r4 H4. destruct (leader =? st_ID st)%N; [|done].
  assert (sy_currentView (r_sync r4) = wrap64 (v + 1)) as Hr4.
  { apply GetLeader_core in H4. destruct H4 as [_ _ -> _ _ _ _]. done. }
  apply Propose_with_ext; [done|]. intros p r5 Hr5 Hp. apply OnPropose_with_ext.
  intros r6 Hr6. rewrite Hp. apply (Hfg v timeout r1); [done|done|].
  unfold keeps_view in *. congruence.
Qed.

(** C16: [AdvanceView], [Propose] and [OnPropose] call each other to a depth of
    at most three.  For a replica that follows the protocol, and a certificate
    whose view is below the largest uint64, the third nested [AdvanceView] makes
    no further call: whatever [deeper] stands for the call it could make, the
    outcome is the same, and it is the one of any fuel from three on. *)
Theorem AdvanceView_terminates (n : nat) (deeper : SyncInfo → M R ()) (si : SyncInfo) (r : R) :
  ProposeRule = None → (qc_view (SyncInfo_QC si).1 + 1 < two64)%N →
  AdvanceView (3 + n) si r = AdvanceView_body (AdvanceView_body (AdvanceView_body deeper)) si r.
Proof.
  intros Hn Hqc. cbn [AdvanceView plus]. apply AdvanceView_level; [done|]. intros _ _ _ r' _ _ _.
  set (qc := (SyncInfo_QC si).1) in *.
  apply AdvanceView_level; [done|]. intros v timeout r1 r2 Hcert _ Hview.
  cbn [SyncInfo_QC si_qc SyncInfo_WithQC fst].
  apply AdvanceView_cert_QC in Hcert as ->. rewrite (wrap64_small (qc_view qc)) in Hview by lia.
  apply AdvanceView_stop; [lia|]. rewrite Hview, wrap64_small by done. lia.
Qed.

(** ** What a commit executes *)

Lemma rtc_parent_cons chain b p a :
  parent_in chain b p → (rtc (parent_in chain) b a ↔ a = b ∨ rtc (parent_in chain) p a).
Proof.
  intros Hp. split.
  - intros Hrtc. inversion Hrtc as [|? p' ? Hp' Hrtc']; subst; [by left|right].
    unfold parent_in in *. by simplify_eq.
  - intros [->|?]; [done|by eapply rtc_l].
Qed.

Lemma commitInner_spec fuel b r :
  chain_rooted (r_chain r) → parent_below (r_chain r) b → (N.to_nat (b_view b) < fuel) →
  ∃ bs r', commitInner fuel b r = Ok ((), r') ∧
    r_out r' = r_out r ++ (EExec <$> bs) ∧ r_chain r' = r_chain r ∧
    cs_bExec (r_cs r') = default (cs_bExec (r_cs r)) (last bs) ∧
    StronglySorted N.lt (b_view <$> bs) ∧
    ∀ a, a ∈ bs ↔ rtc (parent_in (r_chain r)) b a ∧ (b_view (cs_bExec (r_cs r)) < b_view a)%N.
Proof.
  revert b. induction fuel as [|fuel IH]; intros b Hr Hb Hfuel; [lia|]. cbn [commitInner].
  rewrite (M_bind_run _ _ _ _ _ (eq_refl : gets (λ r : R, cs_bExec (r_cs r)) r = Ok (_, r))).
  destruct (N.ltb_spec (b_view (cs_bExec (r_cs r))) (b_view b)) as [Hlt|Hge].
  2: { exists [], r. simpl. rewrite app_nil_r. split_and!; [done..|constructor|]. intros a.
       split; [by intros ?%not_elem_of_nil|]. intros [Ha Hlt].
       destruct (rtc_parent_view _ _ _ Hr Hb Ha) as [->|?]; lia. }
  pose proof Hb as Hb'. unfold parent_below in Hb'.
  destruct (blocks (r_chain r) !! b_parent b) as [p|] eqn:Hp; [|lia].
  assert (chain_Get st (b_parent b) r = Ok (Some p, r)) as Hget.
  { unfold chain_Get, lift_st. rewrite (Get_local _ _ _ _ Hp). by destruct r. }
  rewrite (M_bind_run _ _ _ _ _ Hget).
  destruct (IH p Hr (Hr _ _ Hp) ltac:(lia)) as (bs & r1 & Hrun & Hout & Hch & Hex & Hs & Hall).
  rewrite (M_bind_run _ _ _ _ _ Hrun).
  eexists (bs ++ [b]), _. split; [done|]. simpl. split_and!.
  - by rewrite Hout, fmap_app, <-app_assoc.
  - done.
  - by rewrite last_snoc.
  - rewrite fmap_app. apply StronglySorted_app_2; [|done|by repeat constructor].
    intros x y Hx Hy. apply list_elem_of_fmap in Hx as (a & -> & Ha).
    apply list_elem_of_singleton in Hy. subst y. apply Hall in Ha as [Ha _].
    destruct (rtc_parent_view _ _ _ Hr (Hr _ _ Hp) Ha) as [->|?]; lia.
  - intros a. rewrite elem_of_app, list_elem_of_singleton, (rtc_parent_cons _ _ p), Hall by done.
    split; [intros [[]|Hab]; [by auto|subst a; by auto]|]. intros [[Hab|?] ?]; by auto.
Qed.

(** C15: committing a block of a rooted chain returns, and executes exactly the
    ancestors of the block, itself included, that are above the last executed
    block, each once, in increasing view order, so that a parent is executed
    before its child and the block itself last. *)
Theorem commitInner_executes (b : Block) (r : R) :
  chain_rooted (r_chain r) → parent_below (r_chain r) b →
  (b_view (cs_bExec (r_cs r)) < b_view b)%N →
  ∃ bs r', commitInner (S (N.to_nat (b_view b))) b r = Ok ((), r') ∧
    r_out r' = r_out r ++ (EExec <$> bs) ∧ cs_bExec (r_cs r') = b ∧
    StronglySorted N.lt (b_view <$> bs) ∧
    ∀ a, a ∈ bs ↔ rtc (parent_in (r_chain r)) b a ∧ (b_view (cs_bExec (r_cs r)) < b_view a)%N.
Proof.
  intros Hr Hb Hlt. destruct (commitInner_spec (S (N.to_nat (b_view b))) b r)
    as (bs & r' & Hrun & Hout & _ & Hex & Hs & Hall); [done..|lia|].
  exists bs, r'. split_and!; [done..| |done|done]. rewrite Hex.
  assert (b ∈ bs) as Hin by (by apply Hall).
  destruct (last bs) as [a|] eqn:Hlast.
  - simpl. apply last_Some in Hlast as [l ->].
    assert (rtc (parent_in (r_chain r)) b a) as Ha by (apply Hall; apply elem_of_app; right; by left).
    destruct (rtc_parent_view _ _ _ Hr Hb Ha) as [->|Hab]; [done|].
    apply elem_of_app in Hin as [Hin|Hin%list_elem_of_singleton]; [|done].
    rewrite fmap_app in Hs. simpl in Hs.
    assert (b_view b < b_view a)%N; [|lia].
    eapply (StronglySorted_app_1_elem_of _ _ _ _ _ Hs); [by apply list_elem_of_fmap_2|by left].
  - apply last_None in Hlast as ->. by apply not_elem_of_nil in Hin.
Qed.
End consensus.
