(* ===== verification/Invariants.v ===== *)
(** * What always holds of a replica's state

    An invariant of the consensus, the synchronizer and the voting machine
    together, over every run of the handlers: the certificates and messages
    that a replica keeps were verified and are filed where they belong, and a
    replica that has sent a timeout for a view does not vote in it any more. *)

From S2P Require Import Prelude Encoding Bitfield Types BlockChain CryptoBase Replica Consensus.

Section invariants.
Context {B : BLS12Lib} {C Q L D : Type}.
Context (st : Static).
Context {CI : CryptoImpl C} {CQ : CommandSource Q} {VD : ViewDuration D}.
Context {LR : LeaderRotation C Q L D} {RU : Rules C Q L D}.
Abbreviation R := (Replica C Q L D).

(** ** The invariant *)

Definition vote_filed (h : Hash) (cert : PartialCert) : Prop :=
  pc_blockHash cert = h ∧ accepted (VerifyPartialCert cert).

Definition timeout_filed (v : View) (id : ID) (t : TimeoutMsg) : Prop :=
  tm_View t = v ∧ tm_ID t = id ∧ accepted (Verify (tm_ViewSignature t) (View_ToHash v)).

Record replica_ok (r : R) : Prop := {
  ok_view : (sy_currentView (r_sync r) < two64)%N;
  ok_highQC : held (sy_highQC (r_sync r)) r;
  ok_highTC : accepted (VerifyTimeoutCert (sy_highTC (r_sync r)));
  ok_votes h certs : r_votes r !! h = Some certs → certs ≠ [] ∧ Forall (vote_filed h) certs;
  ok_timeouts v m : sy_timeouts (r_sync r) !! v = Some m → map_Forall (timeout_filed v) m;
  ok_lastTimeout t : sy_lastTimeout (r_sync r) = Some t →
    tm_ID t = st_ID st ∧ tm_View t = sy_currentView (r_sync r) ∧ (tm_View t ≤ cs_lastVote (r_cs r))%N }.

(** [P] is where the blocks of proposals come from, as in [advances]. *)
Section invariant.
Context (P : Block → Prop).
Abbreviation advances := (Consensus.advances P).

(** The votes after a timeout are for blocks above its view. *)
Definition timeouts_respected (out : list effect) (lastVote : View) : Prop :=
  ∀ pre t post, out = pre ++ ETimeout t :: post → vote_trace P (tm_View t) post lastVote.
Definition respected (r : R) : Prop := timeouts_respected (r_out r) (cs_lastVote (r_cs r)).

Record keeps (r r' : R) : Prop := {
  k_advances : advances r r';
  k_ok : replica_ok r → replica_ok r';
  k_respected : replica_ok r → own_in P (r_out r') → respected r → respected r' }.

Lemma advances_own_in (r r' : R) : advances r r' → own_in P (r_out r') → own_in P (r_out r).
Proof. intros [(es & -> & _) _ _ _ _ _]. apply own_in_app. Qed.

#[export] Instance keeps_preorder : PreOrder keeps.
Proof.
  split; [by intros r; split|]. intros x y z [A1 K1 T1] [A2 K2 T2]. split; [by transitivity y|auto|].
  intros Hok Hown Hx. apply T2; [auto|done|]. apply T1; [done|by eapply advances_own_in|done].
Qed.

Lemma keeps_advances {A} (m : M R A) : preserves keeps m → preserves advances m.
Proof. apply preserves_weaken. by intros r r' []. Qed.

(** ** Steps that send no timeout and file nothing *)

Definition not_timeout (e : effect) : Prop := match e with ETimeout _ => False | _ => True end.

Record quiet (r r' : R) : Prop := {
  q_out : ∃ es, r_out r' = r_out r ++ es ∧ Forall not_timeout es;
  q_view : sy_currentView (r_sync r') = sy_currentView (r_sync r);
  q_highQC : sy_highQC (r_sync r') = sy_highQC (r_sync r) ∨ held (sy_highQC (r_sync r')) r';
  q_highTC : sy_highTC (r_sync r') = sy_highTC (r_sync r) ∨ accepted (VerifyTimeoutCert (sy_highTC (r_sync r')));
  q_lastTimeout : sy_lastTimeout (r_sync r') = sy_lastTimeout (r_sync r);
  q_timeouts : sy_timeouts (r_sync r') = sy_timeouts (r_sync r);
  q_votes : r_votes r' = r_votes r;
  q_chain : chain_grows (r_chain r) (r_chain r') }.

#[export] Instance quiet_preorder : PreOrder quiet.
Proof.
  split.
  - intros r. split; try done; [|by left..]. exists []. by rewrite app_nil_r.
  - intros x y z [(e1 & O1 & N1) ? Q1 T1 ? ? ? ?] [(e2 & O2 & N2) ? Q2 T2 ? ? ? ?].
    split; try congruence; [| | |by etrans].
    + exists (e1 ++ e2). rewrite O2, O1, <-app_assoc. split; [done|by apply Forall_app].
    + destruct Q2 as [Heq|]; [|by right]. rewrite Heq. destruct Q1 as [|Hh]; [by left|right].
      by eapply held_grows.
    + destruct T2 as [Heq|]; [|by right]. rewrite Heq. destruct T1; by auto.
Qed.

Lemma respected_app out es v v' :
  timeouts_respected out v → vote_trace P v es v' → Forall not_timeout es → timeouts_respected (out ++ es) v'.
Proof.
  intros Hout Htr Hes pre t post Heq. apply app_eq_inv in Heq as [(k & -> & Heq)|(k & -> & Heq)].
  - destruct k as [|e k]; simplify_eq/=.
    + by apply Forall_cons in Hes as [[] _].
    + eapply vote_trace_app; [by eapply (Hout pre t k)|done].
  - subst es. apply Forall_app in Hes as [_ Hes]. by apply Forall_cons in Hes as [[] _].
Qed.

(** A step that sends no timeout and keeps the state well formed. *)
Lemma keeps_intro (r r' : R) :
  advances r r' → (replica_ok r → replica_ok r') → (∃ es, r_out r' = r_out r ++ es ∧ Forall not_timeout es) →
  keeps r r'.
Proof.
  intros Hadv Hok (es & Hout & Hes). split; [done..|]. intros _ Hown Hr.
  destruct Hadv as [(es' & Hout' & Htr & _) _ _ _ _ _].
  rewrite Hout in Hout'. apply app_inv_head in Hout' as <-. unfold respected. rewrite Hout.
  eapply respected_app; [exact Hr|by apply Htr|done].
Qed.

Lemma same_out_keeps (r r' : R) :
  advances r r' → (replica_ok r → replica_ok r') → r_out r' = r_out r → keeps r r'.
Proof. intros ? ? Hout. apply keeps_intro; [done..|]. exists []. by rewrite Hout, app_nil_r. Qed.

Lemma quiet_keeps r r' : advances r r' → quiet r r' → keeps r r'.
Proof.
  intros Hadv [Hout Hv HQC HTC HlT Hts Hvotes Hch]. apply keeps_intro; [done| |done].
  intros [O1 O2 O3 O4 O5 O6]. split; rewrite ?Hv, ?Hvotes, ?Hts, ?HlT; try done.
  - destruct HQC as [->|?]; [by eapply held_grows|done].
  - by destruct HTC as [->|?].
  - intros t Ht. destruct (O6 t Ht) as (? & ? & ?). pose proof (adv_lastVote _ _ _ Hadv). split_and!; [done..|lia].
Qed.

Lemma quiet_keeps_run {A} (m : M R A) : preserves advances m → preserves quiet m → preserves keeps m.
Proof. intros Ha Hq r a r' H. apply quiet_keeps; [by eapply Ha|by eapply Hq]. Qed.

Lemma same_voting_quiet r r' : same_voting r r' → quiet r r'.
Proof. intros []. split; try done; [|by left]. exists []. by rewrite app_nil_r. Qed.

Lemma voting_quiet {A} (m : M R A) : preserves same_voting m → preserves quiet m.
Proof. apply preserves_weaken, same_voting_quiet. Qed.

Lemma modify_quiet (f : R → R) :
  (∀ r, r_sync (f r) = r_sync r ∧ r_votes (f r) = r_votes r ∧ r_out (f r) = r_out r ∧ r_chain (f r) = r_chain r) →
  preserves quiet (modify f).
Proof.
  intros Hf. apply preserves_modify. intros r. destruct (Hf r) as (E1 & E2 & E3 & E4).
  split; rewrite ?E1, ?E2, ?E4; try done; [|by left..]. exists []. by rewrite E3, app_nil_r.
Qed.

Lemma emit_quiet e : not_timeout e → preserves quiet (emit e).
Proof. intros He. apply preserves_modify. intros r. split; try done; [|by left..]. exists [e]. auto. Qed.

Lemma chain_Store_quiet b : preserves quiet (chain_Store b).
Proof.
  apply preserves_modify. intros r. split; try done; [|by left..|apply Store_grows]. exists [].
  by rewrite app_nil_r.
Qed.

Lemma prune_quiet fuel committed height :
  preserves quiet (lift_res (S:=R) r_chain set_chain (blockChain_PruneToHeight fuel committed height)).
Proof.
  apply preserves_lift_res. intros r a c H. split; try done; [|by left..|exact (PruneToHeight_grows _ _ _ _ _ H)].
  exists []. by rewrite app_nil_r.
Qed.

Lemma cmd_Get_quiet : preserves quiet cmd_Get.
Proof.
  apply preserves_lift_res. intros r a q _. split; try done; [|by left..]. exists []. by rewrite app_nil_r.
Qed.
#[local] Hint Resolve voting_quiet chain_Store_quiet prune_quiet cmd_Get_quiet : pres.
#[local] Hint Extern 1 (preserves quiet (emit _)) => (apply emit_quiet; exact I) : pres.
#[local] Hint Extern 1 (preserves quiet (modify _)) => (by apply modify_quiet) : pres.
#[local] Hint Extern 1 (preserves quiet (Proposed _)) => (by apply modify_quiet) : pres.

Lemma StopVoting_quiet v : preserves quiet (StopVoting v).
Proof. apply modify_quiet. intros r. by destruct (_ <? _)%N. Qed.
Lemma commitInner_quiet fuel b : preserves quiet (commitInner st fuel b).
Proof. revert b. induction fuel as [|fuel IH]; intros b; cbn [commitInner]; pres_solve. Qed.
Lemma emit_forks_quiet bs : preserves quiet (emit_forks bs).
Proof. induction bs as [|b bs IH]; cbn [emit_forks]; pres_solve. Qed.
#[local] Hint Resolve StopVoting_quiet commitInner_quiet emit_forks_quiet : pres.

Lemma cast_vote_quiet b : preserves quiet (cast_vote st b).
Proof. unfold cast_vote. pres_solve. Qed.
#[local] Hint Resolve cast_vote_quiet : pres.
Lemma OnPropose_verify_quiet p : preserves quiet (OnPropose_verify st p).
Proof. unfold OnPropose_verify. pres_solve. Qed.
Lemma OnPropose_vote_quiet p : preserves quiet (OnPropose_vote st p).
Proof. unfold OnPropose_vote, Accept. pres_solve. Qed.
Lemma OnPropose_commit_quiet b : preserves quiet (OnPropose_commit st b).
Proof. unfold OnPropose_commit, commit. pres_solve. Qed.
Lemma make_proposal_quiet cert cmd : preserves quiet (make_proposal st cert cmd).
Proof.
  unfold make_proposal, LeafBlock, View_. destruct ProposeRule as [f|] eqn:E.
  - apply voting_quiet, core_voting. by eapply ProposeRule_core.
  - pres_solve.
Qed.
Lemma Propose_ack_quiet cert : preserves quiet (Propose_ack st cert).
Proof. unfold Propose_ack. pres_solve. Qed.

Lemma newCtx_quiet : preserves quiet newCtx.
Proof.
  unfold newCtx. pres_solve. apply preserves_modify. intros r. split; try done; [|by left..].
  exists []. by rewrite app_nil_r.
Qed.
#[local] Hint Resolve newCtx_quiet : pres.

Lemma AdvanceView_cert_quiet si : preserves quiet (AdvanceView_cert st si).
Proof.
  unfold AdvanceView_cert. destruct (si_tc si) as [tc|]; [|pres_solve].
  intros r a r'. rewrite M_bind_Ok. intros (ok & r1 & H1 & H).
  assert (quiet r r1) as Hq by (by eapply voting_quiet; [apply core_voting, crypto_core|]).
  destruct ok; cbn [negb] in H; [|by injection H as <- <-]. transitivity r1; [done|].
  apply crypto_accepted in H1. apply M_bind_Ok in H as ([] & r2 & [= <-] & [= <- <-]).
  split; try done; cbn; try (by case_match); [| |].
  - exists []. by rewrite app_nil_r.
  - left. by case_match.
  - case_match; [by right|by left].
Qed.

(** ** Steps of the rest *)

#[local] Hint Resolve keeps_advances : pres.
#[local] Hint Resolve OnPropose_verify_advances OnPropose_vote_advances OnPropose_commit_advances
  make_proposal_advances Propose_ack_advances cmd_Get_advances chain_Store_advances
  AdvanceView_cert_advances newCtx_advances StopVoting_advances OnVote_advances : pres.
#[local] Hint Resolve OnPropose_verify_quiet OnPropose_vote_quiet OnPropose_commit_quiet
  make_proposal_quiet Propose_ack_quiet AdvanceView_cert_quiet : pres.
#[local] Hint Resolve quiet_keeps_run : pres.

Lemma same_voting_keeps r r' : same_voting r r' → keeps r r'.
Proof. intros H. apply quiet_keeps; [by apply same_voting_advances|by apply same_voting_quiet]. Qed.

Lemma voting_keeps_ok {A} (m : M R A) : preserves same_voting m → preserves keeps m.
Proof. apply preserves_weaken, same_voting_keeps. Qed.
#[local] Hint Resolve voting_keeps_ok : pres.

Lemma emit_keeps e : vote_of e = None → not_timeout e → preserves keeps (emit e).
Proof. intros Hv Ht. apply quiet_keeps_run; [by apply emit_advances|by apply emit_quiet]. Qed.
#[local] Hint Extern 1 (preserves keeps (emit _)) => (apply emit_keeps; [reflexivity|exact I]) : pres.

Lemma OnPropose_with_keeps adv p :
  (∀ si, preserves keeps (adv si)) → P (pm_Block p) → preserves keeps (OnPropose_with st adv p).
Proof. intros Hadv HP. unfold OnPropose_with. pres_solve. Qed.

(** A new view starts without a timeout of its own. *)
Lemma enter_view_keeps v timeout r a r' :
  (sy_currentView (r_sync r) ≤ v < two64)%N → enter_view v timeout r = Ok (a, r') → keeps r r'.
Proof.
  intros Hle H. pose proof (enter_view_advances P _ _ _ _ _ Hle H) as Hadv.
  unfold enter_view in H. apply M_bind_Ok in H as ([] & r1 & [= <-] & H).
  apply M_bind_Ok in H as ([] & r2 & [= <-] & H).
  match type of H with _ ?r2 = _ => set (r2' := r2) in H end.
  assert (replica_ok r → replica_ok r2') as Hok.
  { intros [O1 O2 O3 O4 O5 O6]. split; cbn; try done. apply wrap64_lt. }
  assert (preserves quiet (
    _ ← modify (λ r : R, set_duration (vd_ViewStarted (r_duration r)) r);
    _ ← newCtx; d ← Duration; _ ← emit (EResetTimer d); emit (EViewChange (wrap64 (v + 1)) timeout))) as Hq
    by pres_solve.
  assert (preserves keeps (
    _ ← modify (λ r : R, set_duration (vd_ViewStarted (r_duration r)) r);
    _ ← newCtx; d ← Duration; _ ← emit (EResetTimer d); emit (EViewChange (wrap64 (v + 1)) timeout))) as Hk.
  { pres_solve. apply quiet_keeps_run; [by apply modify_advances|by apply modify_quiet]. }
  apply keeps_intro; [done| |].
  - intros Hr. by apply (k_ok _ _ (Hk _ _ _ H)), Hok.
  - destruct (Hq _ _ _ H) as [(es & -> & Hes) _ _ _ _ _ _ _]. exists (EStopTimer :: es). split; [|by constructor].
    cbn. by rewrite <-app_assoc.
Qed.
End invariant.

(** ** Proposing and entering views *)

(** That the block of an own proposal is in [P] is known once it has been sent. *)
Lemma keeps_own P (r r' : R) : keeps (λ _, True) r r' → (own_in P (r_out r') → keeps P r r') → keeps P r r'.
Proof.
  intros [A1 K1 _] HP. split; [|done|].
  - apply advances_own; [done|]. intros Hown. by destruct (HP Hown).
  - intros Hok Hown. by apply HP.
Qed.

Lemma Propose_with_keeps P onPropose cert :
  (∀ P p, P (pm_Block p) → preserves (keeps P) (onPropose p)) → preserves (keeps P) (Propose_with st onPropose cert).
Proof.
  intros Hon r a r'. unfold Propose_with. rewrite M_bind_Ok. intros (acked & r1 & H1 & H).
  transitivity r1.
  { by eapply (quiet_keeps_run P (Propose_ack st cert)); [apply Propose_ack_advances|apply Propose_ack_quiet|]. }
  destruct acked; cbn [negb] in H; [|by injection H as <- <-].
  apply M_bind_Ok in H as (cmd & r2 & H2 & H).
  transitivity r2; [by eapply (quiet_keeps_run P cmd_Get); [apply cmd_Get_advances|apply cmd_Get_quiet|]|].
  destruct cmd as [cmd|]; [|by injection H as <- <-].
  apply M_bind_Ok in H as (p & r3 & H3 & H). transitivity r3.
  { by eapply (quiet_keeps_run P (make_proposal st cert cmd)); [apply make_proposal_advances|apply make_proposal_quiet|]. }
  destruct p as [p|]; [|by injection H as <- <-].
  apply M_bind_Ok in H as ([] & r4 & H4 & H). transitivity r4.
  { by eapply (quiet_keeps_run P (chain_Store (pm_Block p))); [apply chain_Store_advances|apply chain_Store_quiet|]. }
  apply M_bind_Ok in H as ([] & r5 & H5 & H). transitivity r5; [by eapply (emit_keeps P (EPropose p))|].
  apply keeps_own; [by eapply Hon; [|exact H]|]. intros Hown. eapply Hon; [|exact H]. apply Hown.
  destruct (k_advances _ _ _ (Hon (λ _, True) p I _ _ _ H)) as [(es & -> & _) _ _ _ _ _]. injection H5 as <-. cbn.
  apply elem_of_app. left. apply elem_of_app. right. by left.
Qed.

Lemma AdvanceView_keeps P fuel si : preserves (keeps P) (AdvanceView st fuel si).
Proof.
  revert P si. induction fuel as [|fuel IH]; intros P si; cbn [AdvanceView]; [by apply preserves_nofuel|].
  intros r a r'. unfold AdvanceView_body. rewrite M_bind_Ok. intros (cert & r1 & H1 & H). transitivity r1.
  { by eapply (quiet_keeps_run P (AdvanceView_cert st si)); [apply AdvanceView_cert_advances|apply AdvanceView_cert_quiet|]. }
  destruct cert as [[v timeout]|]; [|by injection H as <- <-]. apply AdvanceView_cert_fits in H1.
  apply M_bind_Ok in H as (cur & r2 & [= <- <-] & H).
  destruct (N.ltb_spec v (sy_currentView (r_sync r1))); [by injection H as <- <-|].
  apply M_bind_Ok in H as ([] & r3 & H3 & H).
  transitivity r3; [by eapply enter_view_keeps|].
  apply M_bind_Ok in H as (leader & r4 & H4 & H).
  transitivity r4; [by eapply voting_keeps_ok; [apply core_voting, GetLeader_core|]|].
  destruct (leader =? st_ID st)%N; cycle 1.
  { case_bool_decide; [|by injection H as <- <-]. revert H. by apply emit_keeps. }
  revert H. apply Propose_with_keeps. intros P' p HP. by apply OnPropose_with_keeps.
Qed.

Section handlers.
Context (P : Block → Prop).
Abbreviation advances := (Consensus.advances P).
#[local] Hint Extern 1 (preserves (keeps _) (emit _)) => (apply emit_keeps; [reflexivity|exact I]) : pres.
Abbreviation keeps := (keeps P).
#[local] Hint Resolve AdvanceView_keeps voting_keeps_ok voting_quiet newCtx_quiet newCtx_advances OnVote_advances : pres.
#[local] Hint Resolve quiet_keeps_run : pres.

Lemma OnPropose_keeps fuel p : P (pm_Block p) → preserves keeps (OnPropose st fuel p).
Proof. intros HP. apply OnPropose_with_keeps; [|done]. intros si. apply AdvanceView_keeps. Qed.
Lemma Propose_keeps fuel si : preserves keeps (Propose st fuel si).
Proof.
  apply Propose_with_keeps. intros P' p HP. apply OnPropose_with_keeps; [|done]. intros si'. apply AdvanceView_keeps.
Qed.
#[local] Hint Resolve OnPropose_keeps Propose_keeps : pres.

Lemma Start_keeps fuel : preserves keeps (Start st fuel).
Proof. unfold Start, View_, getSyncInfo. pres_solve. Qed.

(** ** Timeouts *)

Lemma respected_timeout out v t :
  timeouts_respected P out v → (tm_View t ≤ v)%N → timeouts_respected P (out ++ [ETimeout t]) v.
Proof.
  intros Hout Hle pre t' post Heq. apply app_eq_inv in Heq as [(k & -> & Heq)|(k & -> & Heq)].
  - destruct k as [|e k]; simplify_eq/=; [by constructor|].
    eapply vote_trace_app; [by eapply (Hout pre t' k)|]. by repeat constructor.
  - destruct k as [|e k]; simplify_eq/=; [by constructor|]. by destruct k.
Qed.

Lemma emit_timeout_keeps t (r r' : R) a :
  (replica_ok r → (tm_View t ≤ cs_lastVote (r_cs r))%N) → emit (ETimeout t) r = Ok (a, r') → keeps r r'.
Proof.
  intros Ht H. split; [by apply (emit_advances P (ETimeout t) eq_refl) in H|injection H as <- <-..].
  - intros [O1 O2 O3 O4 O5 O6]. by split.
  - intros Hok _ Hr. apply respected_timeout; [exact Hr|by apply Ht].
Qed.

(** Remembering a timeout, stopping to vote and sending it. *)
Lemma announce_keeps t (r r' : R) a :
  tm_ID t = st_ID st → tm_View t = sy_currentView (r_sync r) →
  (_ ← upd_sync (set_lastTimeout (Some t)); _ ← StopVoting (tm_View t); emit (ETimeout t)) r = Ok (a, r') →
  keeps r r'.
Proof.
  intros Hid Hv H. apply M_bind_Ok in H as ([] & r1 & [= <-] & H).
  apply M_bind_Ok in H as ([] & r2 & H2 & H).
  set (r1 := set_sync _ r) in *. assert (advances r r1) as A1
    by (by eapply (modify_advances P (λ r, set_sync (set_lastTimeout (Some t) (r_sync r)) r))).
  pose proof (StopVoting_advances P _ _ _ _ H2) as A2. injection H2 as Hr2.
  assert (r_sync r2 = r_sync r1 ∧ r_votes r2 = r_votes r1 ∧ r_chain r2 = r_chain r1 ∧ r_out r2 = r_out r1 ∧
    (tm_View t ≤ cs_lastVote (r_cs r2))%N ∧ (cs_lastVote (r_cs r1) ≤ cs_lastVote (r_cs r2))%N)
    as (E1 & E2 & E3 & E4 & E5 & E6).
  { subst r2. change (r_cs r1) with (r_cs r).
    destruct (N.ltb_spec (cs_lastVote (r_cs r)) (tm_View t)); split_and!; cbn; (done || lia). }
  assert (keeps r r2) as Hk.
  { apply same_out_keeps; [by transitivity r1| |by rewrite E4]. intros [O1 O2 O3 O4 O5 O6].
    split; unfold held; rewrite ?E1, ?E2, ?E3, ?E4; cbn; try done. intros t' [= <-]. auto. }
  transitivity r2; [done|]. by eapply emit_timeout_keeps; [|exact H].
Qed.

Lemma add_timeout_keeps t :
  accepted (Verify (tm_ViewSignature t) (View_ToHash (tm_View t))) → preserves keeps (add_timeout t).
Proof.
  intros Hacc r a r' H. pose proof (add_timeout_advances P _ _ _ _ H) as Hadv. injection H as _ <-.
  apply same_out_keeps; [done| |done].
  intros [O1 O2 O3 O4 O5 O6]. split; try done. cbn. intros v m.
  rewrite lookup_insert_Some. intros [[<- <-]|[_ Hm]]; [|by apply O5].
  assert (map_Forall (timeout_filed (tm_View t)) (default ∅ (sy_timeouts (r_sync r) !! tm_View t))) as Hold.
  { destruct (sy_timeouts (r_sync r) !! tm_View t) as [m|] eqn:E; [by apply O5|]. apply map_Forall_empty. }
  destruct (default ∅ _ !! tm_ID t); [done|]. by apply map_Forall_insert_2.
Qed.

Lemma fewer_timeouts_keeps (f : Synchronizer → gmap View (gmap ID TimeoutMsg)) :
  (∀ s, f s ⊆ sy_timeouts s) → preserves keeps (upd_sync (λ s, set_timeouts (f s) s) : M R ()).
Proof.
  intros Hf r a r' H. apply same_out_keeps; [revert H; by apply modify_advances| |by injection H as _ <-].
  injection H as <- <-.
  intros [O1 O2 O3 O4 O5 O6]. split; try done. cbn. intros v m Hm. apply O5.
  by eapply lookup_weaken; [|apply Hf].
Qed.

Lemma drop_old_timeouts_keeps : preserves keeps (drop_old_timeouts : M R ()).
Proof.
  apply (fewer_timeouts_keeps (λ s, filter (λ '(v, _), (sy_currentView s ≤ v)%N) (sy_timeouts s))).
  intros s. apply map_filter_subseteq.
Qed.

Lemma OnRemoteTimeout_keeps fuel t : preserves keeps (OnRemoteTimeout st fuel t).
Proof.
  apply preserves_bind; [typeclasses eauto| |intros _; apply drop_old_timeouts_keeps].
  intros r a r'. unfold OnRemoteTimeout_body. rewrite M_bind_Ok. intros (ok & r1 & H1 & H).
  transitivity r1; [by eapply voting_keeps_ok; [apply core_voting, crypto_core|]|].
  destruct ok; cbn [negb] in H; [|by injection H as <- <-]. apply crypto_accepted in H1 as Hacc.
  revert H. generalize a, r'. apply (λ H : preserves keeps _, H r1). unfold getSyncInfo, View_.
  pose proof (add_timeout_keeps t Hacc). pres_solve.
  apply (fewer_timeouts_keeps (λ s, delete (tm_View t) (sy_timeouts s))). intros s. apply delete_subseteq.
Qed.
#[local] Hint Resolve OnRemoteTimeout_keeps : pres.

(** The timeout that [new_timeout] makes is the replica's own and for the
    view it is in. *)
Lemma new_timeout_keeps fuel : preserves keeps (new_timeout st fuel).
Proof.
  apply preserves_bind; [typeclasses eauto| |intros _].
  { apply quiet_keeps_run; [by apply modify_advances|by apply modify_quiet]. }
  intros r a r' H. apply M_bind_Ok in H as (view & r0 & [= <- <-] & H).
  apply M_bind_Ok in H as (sig & r1 & H1%crypto_core & H).
  destruct sig as [sig|]; [|injection H as <- <-; by apply same_voting_keeps, same_core_voting].
  apply M_bind_Ok in H as (si & r2 & [= <- <-] & H).
  apply M_bind_Ok in H as (msg & r3 & H3 & H).
  assert (same_core r1 r3 ∧ ∀ t, msg = Some t → tm_ID t = st_ID st ∧ tm_View t = sy_currentView (r_sync r))
    as [C3 Hmsg].
  { destruct (shouldUseAggQC _); [|injection H3 as <- <-; split; [done|by intros t [= <-]]].
    apply M_bind_Ok in H3 as (sig2 & r4 & H4%crypto_core & H3). injection H3 as <- <-. split; [done|].
    intros t Ht. by destruct sig2; simplify_eq. }
  assert (same_core r r3) as C03 by (by transitivity r1).
  transitivity r3; [by apply same_voting_keeps, same_core_voting|].
  destruct msg as [t|]; [|by injection H as <- <-]. destruct (Hmsg t eq_refl) as [Hid Hv].
  rewrite <-Hv in H. apply M_bind_Ok in H as ([] & r4 & H4 & H). apply M_bind_Ok in H as ([] & r5 & H5 & H).
  apply M_bind_Ok in H as ([] & r6 & H6 & H). transitivity r6; [|by eapply OnRemoteTimeout_keeps].
  eapply (announce_keeps t); [done|by rewrite (core_sync _ _ C03)|].
  rewrite (M_bind_run _ _ _ _ _ H4), (M_bind_run _ _ _ _ _ H5). exact H6.
Qed.

Lemma onLocalTimeout_keeps fuel ctxDone : preserves keeps (onLocalTimeout st fuel ctxDone).
Proof.
  intros r a r' H. apply M_bind_Ok in H as (s & r0 & [= <- <-] & H).
  apply M_bind_Ok in H as ([] & r1 & H1 & H). transitivity r1.
  - destruct (sy_lastTimeout (r_sync r)) as [t|] eqn:Ht; [|by eapply new_timeout_keeps].
    destruct (_ =? _)%N; [|by eapply new_timeout_keeps].
    eapply emit_timeout_keeps; [|exact H1]. intros Hok. by apply (ok_lastTimeout _ Hok).
  - revert H. generalize a, r'. apply (λ H : preserves keeps _, H r1). pres_solve.
Qed.

(** ** Votes *)

Lemma votes_keeps (f : R → gmap Hash (list PartialCert)) (r r' : R) :
  (replica_ok r → ∀ h certs, f r !! h = Some certs → certs ≠ [] ∧ Forall (vote_filed h) certs) →
  r' = set_votes (f r) r → keeps r r'.
Proof.
  intros Hf ->. apply same_out_keeps;
    [by apply (modify_advances P (λ r, set_votes (f r) r) ltac:(done) r () _ eq_refl)| |done].
  intros Hok. pose proof (Hf Hok). by destruct Hok.
Qed.

Lemma verifyCert_keeps cert b : preserves keeps (verifyCert st cert b).
Proof.
  intros r a r'. unfold verifyCert. rewrite M_bind_Ok. intros (ok & r1 & H1 & H).
  transitivity r1; [by eapply voting_keeps_ok; [apply core_voting, crypto_core|]|].
  destruct ok; cbn [negb] in H; [|by injection H as <- <-]. apply crypto_accepted in H1 as Hacc.
  apply M_bind_Ok in H as (r2 & r3 & [= <- <-] & H). unfold id in H.
  apply M_bind_Ok in H as ([] & r2 & [= <-] & H). cbn [id] in H.
  transitivity (set_votes (<[pc_blockHash cert := default [] (r_votes r1 !! pc_blockHash cert) ++ [cert]]> (r_votes r1)) r1).
  { eapply (votes_keeps (λ r, _)); [|reflexivity]. intros [_ _ _ O4 _ _] h certs.
    rewrite lookup_insert_Some. intros [[<- <-]|[_ Hc]]; [|by apply O4]. split; [by destruct (default _ _)|].
    apply Forall_app. split; [|by repeat constructor].
    destruct (r_votes r1 !! pc_blockHash cert) as [cs|] eqn:E; [by apply (O4 _ _ E)|constructor]. }
  revert H. generalize a, r'. apply (λ H : preserves keeps _, H (set_votes _ r1)).
  assert (∀ f : R → gmap Hash (list PartialCert), (∀ r, f r ⊆ r_votes r) →
    preserves keeps (modify (λ r, set_votes (f r) r))) as Hless.
  { intros f Hf. apply preserves_modify. intros r2. eapply (votes_keeps f); [|done].
    intros [_ _ _ O4 _ _] h certs Hc. apply O4. by eapply lookup_weaken. }
  unfold clean_votes. pres_solve; apply Hless; intros r2; [apply delete_subseteq|apply map_filter_subseteq].
Qed.

Lemma OnVote_keeps vote : preserves keeps (OnVote st vote).
Proof. unfold OnVote, LeafBlock. pres_solve. Qed.

End handlers.

(** ** Runs *)

Lemma handle_keeps P fuel e : received_in P [e] → preserves (keeps P) (handle st fuel e).
Proof.
  intros HP. destruct e; eauto using Start_keeps, onLocalTimeout_keeps, OnVote_keeps, verifyCert_keeps,
    AdvanceView_keeps, OnRemoteTimeout_keeps.
  apply OnPropose_keeps, HP. by left.
Qed.

Lemma run_keeps P fuel es : received_in P es → preserves (keeps P) (run st fuel es).
Proof.
  induction es as [|e es IH]; cbn [run]; intros HP; [apply preserves_ret; typeclasses eauto|].
  apply received_in_cons in HP as [He Hes].
  apply preserves_bind; [typeclasses eauto|by apply handle_keeps|]. intros _. by apply IH.
Qed.

Lemma Replica_New_ok c q l d : replica_ok (Replica_New c q l d).
Proof.
  split.
  - reflexivity.
  - split; [|eexists; apply lookup_singleton_eq]. exists c, c. unfold VerifyQuorumCert.
    by rewrite bool_decide_true by reflexivity.
  - by exists c, c.
  - intros h certs [=].
  - intros v m [=].
  - intros t [=].
Qed.

(** C5: in every run, whatever messages arrive, the state of a replica is well
    formed: the view fits its 64 bits; the highest quorum and timeout
    certificates verified, and the block of the former is stored, so that
    updating it cannot panic for want of it; every vote waiting for a quorum
    verified and is filed under the block it is for; every timeout message is
    filed under its own view and sender and its view signature verified; and
    a remembered timeout is the replica's own, for the current view, in which
    it has stopped voting. *)
Theorem replica_well_formed (fuel : nat) (es : list event) (c : C) (q : Q) (l : L) (d : D) (r : R) :
  run st fuel es (Replica_New c q l d) = Ok ((), r) →
  (sy_currentView (r_sync r) < two64)%N ∧
  accepted (VerifyQuorumCert (sy_highQC (r_sync r))) ∧
  is_Some (blockChain_LocalGet (qc_hash (sy_highQC (r_sync r))) (r_chain r)) ∧
  accepted (VerifyTimeoutCert (sy_highTC (r_sync r))) ∧
  (∀ h certs, r_votes r !! h = Some certs →
     certs ≠ [] ∧ Forall (vote_filed h) certs) ∧
  (∀ v m id t, sy_timeouts (r_sync r) !! v = Some m → m !! id = Some t → timeout_filed v id t) ∧
  (∀ t, sy_lastTimeout (r_sync r) = Some t →
     tm_ID t = st_ID st ∧ tm_View t = sy_currentView (r_sync r) ∧ (tm_View t ≤ cs_lastVote (r_cs r))%N).
Proof.
  intros H. apply (run_keeps (λ _, True)) in H as [_ Hok _]; [|done].
  destruct (Hok (Replica_New_ok c q l d)) as [O1 [O2 O2'] O3 O4 O5 O6].
  split_and!; [done..| |done]. intros v m id t Hm Ht. exact (O5 v m Hm id t Ht).
Qed.

(** The votes among some effects are for blocks in [P] above a view. *)
Definition votes_above (P : Block → Prop) (v : View) (es : list effect) : Prop :=
  ∃ bs, pc_blockHash <$> omap vote_of es = b_hash <$> bs ∧ Forall (λ b, P b ∧ v < b_view b)%N bs.

(** C6: a replica that has sent a timeout message for a view never votes in
    that view or an earlier one again: in every run, the votes after a timeout
    message are for blocks of higher views, each proposed to the replica or by
    it in this run. *)
Theorem no_vote_after_timeout (fuel : nat) (es : list event) (c : C) (q : Q) (l : L) (d : D) (r : R)
    (pre post : list effect) (t : TimeoutMsg) :
  run st fuel es (Replica_New c q l d) = Ok ((), r) → r_out r = pre ++ ETimeout t :: post →
  votes_above (proposed es (r_out r)) (tm_View t) post.
Proof.
  intros H Hout. apply (run_keeps (proposed es (r_out r))) in H as [_ _ Hr]; [|apply proposed_received].
  assert (respected (proposed es (r_out r)) r) as Hresp.
  { apply Hr; [apply Replica_New_ok|apply proposed_own|]. intros pre' t' post' Heq. by destruct pre'. }
  destruct (vote_trace_blocks _ _ _ _ (Hresp pre t post Hout)) as (bs & Hbs & _ & Hall).
  exists bs. split; [done|]. eapply Forall_impl; [exact Hall|]. simpl. intuition lia.
Qed.
End invariants.
