(* ===== verification/LeaderRotation.v ===== *)
(** * leaderrotation: who leads a view

    fixed.go, roundrobin.go, carousel.go and reputation.go, as instances of
    [LeaderRotation].  math/rand and github.com/mroth/weightedrand are
    parameters; float64 is IEEE binary64 of the standard library's
    [SpecFloat]. *)

From S2P Require Import Prelude Encoding Bitfield Types BlockChain CryptoBase Replica.
From Stdlib Require Import Strings.Byte SpecFloat.

(** ** float64 *)

Definition f64_add := SFadd 53 1024.
Definition f64_sub := SFsub 53 1024.
Definition f64_mul := SFmul 53 1024.
Definition f64_div := SFdiv 53 1024.
Definition f64_sqrt := SFsqrt 53 1024.
Definition f64_of_Z (z : Z) : spec_float := binary_normalize 53 1024 z 0 false.

(** The integer part; infinities and NaN have none. *)
Definition f64_trunc (f : spec_float) : option Z :=
  match f with
  | S754_zero _ => Some 0%Z
  | S754_finite s m e =>
    let a := if (0 <=? e)%Z then Z.shiftl (Zpos m) e else Z.shiftr (Zpos m) (- e) in
    Some (if s then - a else a)%Z
  | S754_infinity _ | S754_nan => None
  end.

(** Conversion to an integer type truncates; when the integer part is not in
    the range [lo, hi) of the type the result is the processor's, [ub]. *)
Definition f64_convert (lo hi ub : Z) (f : spec_float) : Z :=
  match f64_trunc f with
  | Some z => if (lo <=? z)%Z && (z <? hi)%Z then z else ub
  | None => ub
  end.

(** uint(f) and int64(f) *)
Definition f64_to_uint (ub : N) (f : spec_float) : N := Z.to_N (f64_convert 0 (2 ^ 64) (Z.of_N ub) f).
Definition f64_to_int64 (ub : Z) (f : spec_float) : Z := f64_convert (- 2 ^ 63) (2 ^ 63) ub f.

(** ** Round robin *)

(** [hotstuff.ID(view % View(n) + 1)]; a remainder by zero panics. *)
Definition rr_leader (view : View) (n : nat) : res ID :=
  if (n =? 0)%nat then Panic "integer divide by zero"
  else Ok (wrap32 (wrap64 (view mod N.of_nat n + 1))).

Section rotation.
Context {B : BLS12Lib} {C Q L D : Type}.
Context (st : Static).
Abbreviation R := (Replica C Q L D).

Definition lift_pure {A} (x : res A) : M R A := λ r, a ← x; Ok (a, r).

Lemma lift_pure_core {A} (x : res A) : preserves same_core (lift_pure x).
Proof. intros r a r'. unfold lift_pure. rewrite res_bind_Ok. by intros (? & _ & [= <- <-]). Qed.
#[local] Hint Resolve lift_pure_core : pres.

(** fixed.go *)
Definition fixed_GetLeader (leader : ID) (_ : View) : M R ID := mret leader.

(** roundrobin.go; the hash of the committed block is only printed. *)
Definition roundRobin_GetLeader (view : View) : M R ID :=
  lift_pure (rr_leader view (size (st_replicas st))).

Program Definition NewFixed (leader : ID) : LeaderRotation C Q L D := {|
  GetLeader := fixed_GetLeader leader |}.
Next Obligation. intros leader v. unfold fixed_GetLeader. pres_solve. Qed.

Program Definition NewRoundRobin : LeaderRotation C Q L D := {| GetLeader := roundRobin_GetLeader |}.
Next Obligation. intros v. unfold roundRobin_GetLeader. pres_solve. Qed.

(** ** Carousel *)

(** [remove]: the last element overwrites the one at the index.  The caller
    ignores the shortened slice, so only the write counts. *)
Definition remove_at (active : list ID) (i : nat) : list ID :=
  match last active with
  | Some x => <[i := x]> active
  | None => active
  end.

(** The inner loop of [RemoveActive], at index [i] of [n]: the range
    expression is evaluated once but the elements are read as it goes. *)
Fixpoint remove_id (id : ID) (n i : nat) (active : list ID) : list ID :=
  match n with
  | O => active
  | S n =>
    let active' := match active !! i with
                   | Some a => if (id =? a)%N then remove_at active i else active
                   | None => active
                   end in
    remove_id id n (S i) active'
  end.

Definition RemoveActive (active last : list ID) : list ID :=
  foldl (λ act id, remove_id id (length act) 0 act) active last.

(** Collect the proposers of the latest blocks, at most [f].  A block that
    cannot be found is nil, and asking it for its proposer panics. *)
Fixpoint collect_authors (n : nat) (block : option Block) (authors : list ID)
    : M R (list ID) :=
  match n with
  | O => mret authors
  | S n =>
    match block with
    | None => panic "nil pointer dereference"
    | Some block =>
      if bool_decide (b_hash block = b_hash GetGenesis) then mret authors
      else
        parent ← chain_Get st (b_parent block);
        collect_authors n parent (authors ++ [b_proposer block])
    end
  end.

(** rand.New(rand.NewSource(time.Now().Unix())).Int(), a non-negative int. *)
Context (rand_Int : L → N * L).

(** The order in which the participants of a signature are visited; those of an
    ECDSA signature are the keys of a map. *)
Context (visit : list ID → list ID).

Definition carousel_GetLeader (round : View) : M R ID :=
  commit_head ← gets (λ r : R, cs_bExec (r_cs r));
  if (round <=? 10)%N then lift_pure (rr_leader round (size (st_replicas st)))
  else
  match qc_signature (b_cert commit_head) with
  | None => panic "nil pointer dereference"
  | Some sig =>
    high ← HighQC;
    if negb (qc_view high =? round - 1)%N
    then lift_pure (rr_leader round (size (st_replicas st)))
    else
      endorsers ← lift_pure (Threshold_Participants sig);
      let active := visit endorsers in
      let f := NumFaulty (Z.of_nat (size (st_replicas st))) in
      last_authors ← collect_authors (Z.to_nat f) (Some commit_head) [];
      let leader_candidates := RemoveActive active last_authors in
      draw ← lift_st r_leader set_leader rand_Int;
      if (length leader_candidates =? 0)%nat then panic "integer divide by zero"
      else match leader_candidates !! N.to_nat (draw mod N.of_nat (length leader_candidates)) with
           | Some leader => mret leader
           | None => panic "index out of range"
           end
  end.

Lemma collect_authors_core n b l : preserves same_core (collect_authors n b l).
Proof. revert b l. induction n as [|n IH]; intros b l; cbn [collect_authors]; pres_solve. Qed.

Lemma rand_Int_core : preserves same_core (lift_st (S:=R) r_leader set_leader rand_Int).
Proof. apply preserves_lift_st. intros r. by split. Qed.
#[local] Hint Resolve collect_authors_core rand_Int_core : pres.

Program Definition NewCarousel : LeaderRotation C Q L D := {| GetLeader := carousel_GetLeader |}.
Next Obligation. intros v. unfold carousel_GetLeader, HighQC. pres_solve. Qed.
End rotation.

(** ** Reputation *)

(** weightedrand.NewChooser and PickSource with a source seeded by the third
    argument; [None] when no chooser can be made from the weights. *)
Class WeightedRand := {
  wr_Pick : list (ID * N) → N → option ID;
  wr_ub : N;   (** the processor's uint of an out-of-range float64 *)
}.

Section reputation.
Context {B : BLS12Lib} {C Q D : Type} {W : WeightedRand}.
Context (st : Static) (visit : list ID → list ID).

(** The reputations live in the replicas of the configuration. *)
Abbreviation L := (gmap ID spec_float).
Abbreviation R := (Replica C Q L D).

Definition two_thirds : spec_float := f64_div (f64_of_Z 2) (f64_of_Z 3).

(** gorumsReplica.UpdateRep *)
Definition UpdateRep (rep delta : spec_float) : spec_float := f64_add rep delta.

(** The change for every voter of the committed block's QC. *)
Definition rep_delta (voters : list ID) (numReplicas : nat) : spec_float :=
  let numVotes := foldl (λ acc _, f64_add acc (f64_of_Z 1)) (f64_of_Z 1) voters in
  let frac := f64_mul two_thirds (f64_of_Z (Z.of_nat numReplicas)) in
  f64_div (f64_sub numVotes frac) frac.

(** The second loop over the voters: update each and add it to the list. *)
Fixpoint rep_update (delta : spec_float) (voters : list ID) (reps : L) (choices : list (ID * N))
    : res (list (ID * N) * L) :=
  match voters with
  | [] => Ok (choices, reps)
  | id :: voters =>
    match reps !! id with
    | None => Panic "nil pointer dereference"
    | Some rep =>
      let rep' := UpdateRep rep delta in
      rep_update delta voters (<[id := rep']> reps)
        (choices ++ [(id, f64_to_uint wr_ub (f64_mul rep' (f64_of_Z 10)))])
    end
  end.

(** int(view) <= n + 10, with the uint64 view read as an int64. *)
Definition rep_startup (view : View) (n : nat) : bool :=
  let v := wrap64 view in
  let signed := if (v <? 2 ^ 63)%N then Z.of_N v else (Z.of_N v - 2 ^ 64)%Z in
  (signed <=? Z.of_nat n + 10)%Z.

Definition repBased_GetLeader (view : View) : M R ID :=
  commit_head ← gets (λ r : R, cs_bExec (r_cs r));
  let numReplicas := size (st_replicas st) in
  let hashInt := fnv32a (Hash_String (b_hash commit_head)) in
  if rep_startup view numReplicas then lift_pure (rr_leader view numReplicas)
  else
  match qc_signature (b_cert commit_head) with
  | None => panic "nil pointer dereference"
  | Some sig =>
    voters ← lift_pure (Threshold_Participants sig);
    choices ← lift_res r_leader set_leader (λ reps,
      rep_update (rep_delta voters numReplicas) (visit voters) reps []);
    match wr_Pick choices hashInt with
    | Some leader => mret leader
    | None => panic "nil pointer dereference"
    end
  end.

#[local] Hint Resolve lift_pure_core : pres.
Lemma rep_update_core f : preserves same_core (lift_res (A:=list (ID * N)) (S:=R) r_leader set_leader f).
Proof. apply preserves_lift_res. intros r a l _. by split. Qed.
#[local] Hint Resolve rep_update_core : pres.

Program Definition NewRepBased : LeaderRotation C Q L D := {| GetLeader := repBased_GetLeader |}.
Next Obligation. intros v. unfold repBased_GetLeader. pres_solve. Qed.

(** ** What reputation does *)

Lemma rep_update_spec delta voters reps choices :
  NoDup voters → (∀ id, id ∈ voters → is_Some (reps !! id)) →
  ∃ choices' reps', rep_update delta voters reps choices = Ok (choices ++ choices', reps') ∧
    fst <$> choices' = voters ∧
    (∀ id, reps' !! id = if bool_decide (id ∈ voters) then (λ r, UpdateRep r delta) <$> reps !! id
                         else reps !! id).
Proof.
  revert reps choices. induction voters as [|v voters IH]; intros reps choices Hnd Hin.
  { exists [], reps. rewrite app_nil_r. split_and!; [done..|]. intros id.
    by rewrite bool_decide_eq_false_2 by apply not_elem_of_nil. }
  apply NoDup_cons in Hnd as [Hv Hnd]. destruct (Hin v) as [rep Hrep]; [by left|].
  cbn [rep_update]. rewrite Hrep.
  destruct (IH (<[v := UpdateRep rep delta]> reps)
    (choices ++ [(v, f64_to_uint wr_ub (f64_mul (UpdateRep rep delta) (f64_of_Z 10)))]) Hnd)
    as (choices' & reps' & Hrun & Hfst & Hreps).
  { intros id Hid. rewrite lookup_insert_ne by (intros ->; done). apply Hin. by right. }
  rewrite Hrun, <-app_assoc. eexists (_ :: choices'), reps'. split_and!; [done|by rewrite fmap_cons, Hfst|].
  intros id. rewrite Hreps. destruct (decide (id = v)) as [->|Hne].
  - rewrite bool_decide_eq_false_2, bool_decide_eq_true_2 by (done || by left).
    by rewrite lookup_insert_eq, Hrep.
  - rewrite lookup_insert_ne by done. destruct (decide (id ∈ voters)).
    + by rewrite !bool_decide_eq_true_2 by (done || by right).
    + by rewrite !bool_decide_eq_false_2 by (by rewrite ?not_elem_of_cons).
Qed.

(** C36: asking for a leader is a write.  Past the start-up phase, for a
    committed block certified by members of the configuration, every call
    raises the reputation of each voter by the same amount and changes nothing
    else that matters, so the reputations, and with them the weights of the
    next draw, depend on how often a replica has asked. *)
Theorem repBased_GetLeader_updates (view : View) (r r' : R) (leader : ID)
    (sig : ThresholdSignature) (voters : list ID) :
  rep_startup view (size (st_replicas st)) = false →
  qc_signature (b_cert (cs_bExec (r_cs r))) = Some sig →
  Threshold_Participants sig = Ok voters → NoDup voters → visit voters ≡ₚ voters →
  (∀ id, id ∈ voters → is_Some (r_leader r !! id)) →
  repBased_GetLeader view r = Ok (leader, r') →
  r_cs r' = r_cs r ∧ r_sync r' = r_sync r ∧ r_out r' = r_out r ∧
  ∀ id, r_leader r' !! id =
    if bool_decide (id ∈ voters)
    then (λ rep, f64_add rep (rep_delta voters (size (st_replicas st)))) <$> r_leader r !! id
    else r_leader r !! id.
Proof.
  intros Hst Hsig Hvot Hnd Hvisit Hin Hrun.
  pose proof (GetLeader_core (LeaderRotation := NewRepBased) view _ _ _ Hrun) as [Hcs _ Hsy _ _ Hout _].
  split_and!; [done..|]. unfold repBased_GetLeader in Hrun.
  apply M_bind_Ok in Hrun as (head & r1 & [= <- <-] & H). rewrite Hst, Hsig in H.
  apply M_bind_Ok in H as (vs & r2 & Hvs & H). unfold lift_pure in Hvs. rewrite Hvot in Hvs.
  injection Hvs as <- <-. apply M_bind_Ok in H as (choices & r3 & Hup & H).
  unfold lift_res in Hup.
  destruct (rep_update_spec (rep_delta voters (size (st_replicas st))) (visit voters) (r_leader r) [])
    as (ch & reps & Hrun & _ & Hreps); [by rewrite Hvisit|intros id; rewrite Hvisit; apply Hin|].
  rewrite Hrun in Hup. injection Hup as <- <-.
  destruct (wr_Pick _ _); [|done]. injection H as <- <-. intros id. rewrite Hreps.
  by rewrite (bool_decide_ext (id ∈ visit voters) (id ∈ voters)) by (by rewrite Hvisit).
Qed.
End reputation.

(** ** Round robin is fair *)

Lemma rr_leader_small view n :
  (0 < n)%nat → (N.of_nat n < two32)%N → rr_leader view n = Ok (view mod N.of_nat n + 1)%N.
Proof.
  intros Hn Hlt. unfold rr_leader. destruct (Nat.eqb_spec n 0); [lia|].
  pose proof (N.mod_lt view (N.of_nat n)). rewrite wrap64_small, wrap32_small; [done|lia|].
  unfold two32, two64 in *. lia.
Qed.

(** Over any [n] consecutive views every one of the replicas 1..n leads
    exactly one view, and nobody else leads. *)
Theorem roundRobin_fair (view : View) (n : nat) (id : ID) :
  (0 < n)%nat → (N.of_nat n < two32)%N →
  (∃ leader, rr_leader view n = Ok leader ∧ (1 ≤ leader ≤ N.of_nat n)%N) ∧
  ((1 ≤ id ≤ N.of_nat n)%N →
   exists! k, (k < N.of_nat n)%N ∧ rr_leader (view + k) n = Ok id).
Proof.
  intros Hn Hlt. pose proof (N.mod_lt view (N.of_nat n) ltac:(lia)) as Hm. split.
  { exists (view mod N.of_nat n + 1)%N. split; [by apply rr_leader_small|].
    revert Hm. generalize (view mod N.of_nat n)%N. lia. }
  intros Hid. set (m := N.of_nat n) in *.
  assert (∀ k, (k < m)%N → (view + k) mod m =
    if (view mod m + k <? m) then view mod m + k else view mod m + k - m)%N as Hmod.
  { intros k Hk. rewrite <-N.Div0.add_mod_idemp_l. revert Hm.
    generalize (view mod m)%N. intros q Hq. destruct (N.ltb_spec (q + k) m).
    - by apply N.mod_small.
    - transitivity (((q + k - m) + 1 * m) mod m)%N; [f_equal; lia|].
      rewrite N.Div0.mod_add. apply N.mod_small. lia. }
  assert (∀ k, (k < m)%N → rr_leader (view + k) n = Ok id ↔
    k = if (view mod m <=? id - 1) then id - 1 - view mod m else id - 1 + m - view mod m)%N as Hk.
  { intros k Hk. rewrite rr_leader_small by done. fold m. rewrite Hmod by done. revert Hm.
    generalize (view mod m)%N. intros q Hq. destruct (N.ltb_spec (q + k) m), (N.leb_spec q (id - 1));
      split; intros H'; (injection H' as H' || f_equal); lia. }
  revert Hm Hk. generalize (view mod m)%N. intros q Hq Hk. clear Hmod.
  assert ((if q <=? id - 1 then id - 1 - q else id - 1 + m - q) < m)%N
    by (destruct (N.leb_spec q (id - 1)); lia).
  eexists. split; [split; [done|by apply Hk]|]. intros k [Hkm Hl%Hk]; [done|done].
Qed.

Lemma roundRobin_fair_witness : exists! k, (k < 4)%N ∧ rr_leader (7 + k) 4 = Ok 2%N.
Proof. apply (roundRobin_fair 7 4 2); [lia|done|lia]. Defined.

(** ** The candidates of carousel *)

Lemma remove_at_length active i : length (remove_at active i) = length active.
Proof. unfold remove_at. destruct (last active); [apply length_insert|done]. Qed.

Lemma remove_at_subset active i x : x ∈ remove_at active i → x ∈ active.
Proof.
  unfold remove_at. destruct (last active) as [y|] eqn:Hl; [|done].
  intros Hx. apply list_elem_of_lookup in Hx as [j Hj].
  destruct (decide (i = j)) as [->|Hne].
  - apply list_lookup_insert_Some in Hj as [(_ & <- & _)|(? & _)]; [|done].
    apply last_Some in Hl as [l ->]. apply elem_of_app. right. by left.
  - rewrite list_lookup_insert_ne in Hj by done. by eapply list_elem_of_lookup_2.
Qed.

Lemma remove_id_spec id n i active :
  length (remove_id id n i active) = length active ∧
  ∀ x, x ∈ remove_id id n i active → x ∈ active.
Proof.
  revert i active. induction n as [|n IH]; intros i active; cbn [remove_id]; [done|].
  destruct (active !! i) as [a|]; [|apply IH]. destruct (id =? a)%N; [|apply IH].
  destruct (IH (S i) (remove_at active i)) as [H1 H2]. rewrite H1, remove_at_length.
  split; [done|]. intros x Hx. by eapply remove_at_subset, H2.
Qed.

(** The candidates of carousel are endorsers of the committed block, but the
    removal of recent authors does not shorten the list, and an author that is
    the last of the endorsers stays a candidate. *)
Theorem carousel_candidates (active authors : list ID) (author : ID) :
  (∀ x, x ∈ RemoveActive active authors → x ∈ active) ∧
  length (RemoveActive active authors) = length active ∧
  ((author ∉ active) → RemoveActive (active ++ [author]) [author] = active ++ [author]).
Proof.
  assert (∀ x, x ∈ RemoveActive active authors → x ∈ active) as H1.
  { unfold RemoveActive. revert active. induction authors as [|a authors IH]; intros active x; simpl; [done|].
    intros Hx%IH. by apply remove_id_spec in Hx. }
  assert (length (RemoveActive active authors) = length active) as H2.
  { unfold RemoveActive. clear H1. revert active. induction authors as [|a authors IH]; intros active; simpl; [done|].
    rewrite IH. apply remove_id_spec. }
  split_and!; [done..|]. intros Hna. unfold RemoveActive. simpl.
  assert (∀ n i, remove_id author n i (active ++ [author]) = active ++ [author]) as Hid; [|apply Hid].
  induction n as [|n IH]; intros i; cbn [remove_id]; [done|].
  destruct ((active ++ [author]) !! i) as [a|] eqn:Hi; [|apply IH].
  destruct (N.eqb_spec author a) as [<-|]; [|apply IH].
  replace (remove_at (active ++ [author]) i) with (active ++ [author]); [apply IH|].
  unfold remove_at. rewrite last_snoc. symmetry. by apply list_insert_id.
Qed.

Section panics.
Context {B : BLS12Lib} {C Q D : Type} {W : WeightedRand}.
Context (st : Static) (rand_Int : gmap ID spec_float → N * gmap ID spec_float) (visit : list ID → list ID).
Abbreviation R := (Replica C Q (gmap ID spec_float) D).

(** A committed block whose certificate has no signature, such as the
    genesis block or its first child, makes the carousel and the reputation
    rotation panic for every view after their start-up phase. *)
Theorem rotation_panics_without_signature (view : View) (r : R) :
  qc_signature (b_cert (cs_bExec (r_cs r))) = None →
  ((10 < view)%N → carousel_GetLeader st rand_Int visit view r = Panic "nil pointer dereference") ∧
  (rep_startup view (size (st_replicas st)) = false →
   repBased_GetLeader st visit view r = Panic "nil pointer dereference").
Proof.
  intros Hsig. split.
  - intros Hv. unfold carousel_GetLeader.
    rewrite (M_bind_run _ _ _ _ _ (eq_refl : gets (λ r : R, cs_bExec (r_cs r)) r = Ok (_, r))).
    rewrite (proj2 (N.leb_gt _ _)) by done. by rewrite Hsig.
  - intros Hv. unfold repBased_GetLeader.
    rewrite (M_bind_run _ _ _ _ _ (eq_refl : gets (λ r : R, cs_bExec (r_cs r)) r = Ok (_, r))).
    by rewrite Hv, Hsig.
Qed.
End panics.

Module RotationExample.
#[local] Existing Instance ScalarBLS.

(** A chooser that takes the heaviest choice. *)
#[export] Instance heaviest : WeightedRand := {|
  wr_Pick choices _ :=
    fst <$> foldl (λ best c, match best with
                             | Some b => if (snd b <? snd c)%N then Some c else Some b
                             | None => Some c
                             end) None choices;
  wr_ub := 0 |}.

Definition st4 : Static :=
  mkStatic 1 {[1; 2; 3; 4]}%N (mkOptions false) (λ _ _, ([], None)) 10.

Definition fresh : Replica () () (gmap ID spec_float) () := Replica_New () () ∅ ().

Lemma rotation_panics_without_signature_witness :
  carousel_GetLeader st4 (λ l, (0%N, l)) id 11 fresh = Panic "nil pointer dereference" ∧
  repBased_GetLeader st4 id 15 fresh = Panic "nil pointer dereference".
Proof.
  split.
  - apply (rotation_panics_without_signature st4 (λ l, (0%N, l)) id 11 fresh); reflexivity.
  - apply (rotation_panics_without_signature st4 (λ l, (0%N, l)) id 15 fresh); reflexivity.
Defined.

(** A committed block that replicas 1, 2 and 3 have certified. *)
Definition qc3 : QuorumCert :=
  NewQuorumCert (Some (ThrECDSA (RestoreThresholdSignature [ec_sig 1 1 1; ec_sig 1 1 2; ec_sig 1 1 3]%N)))
    1 zero_hash.
Definition busy : Replica () () (gmap ID spec_float) () :=
  set_bExec (NewBlock zero_hash qc3 [] 2 1)
    (set_leader {[1 := f64_of_Z 1; 2 := f64_of_Z 2; 3 := f64_of_Z 3; 4 := f64_of_Z 4]}%N fresh).

Definition asked : Replica () () (gmap ID spec_float) () :=
  left_by busy (repBased_GetLeader st4 id 15 busy).

Lemma repBased_GetLeader_updates_witness :
  r_leader asked !! 3%N =
    (λ rep, f64_add rep (rep_delta (fst <$> map_to_list
      (RestoreThresholdSignature [ec_sig 1 1 1; ec_sig 1 1 2; ec_sig 1 1 3]%N)) 4)) <$> Some (f64_of_Z 3).
Proof.
  refine (proj2 (proj2 (proj2 (repBased_GetLeader_updates st4 id 15 busy asked 3
    (ThrECDSA (RestoreThresholdSignature [ec_sig 1 1 1; ec_sig 1 1 2; ec_sig 1 1 3]%N))
    (fst <$> map_to_list (RestoreThresholdSignature [ec_sig 1 1 1; ec_sig 1 1 2; ec_sig 1 1 3]%N))
    _ _ _ _ _ _ _))) 3%N).
  - reflexivity.
  - reflexivity.
  - reflexivity.
  - apply NoDup_fst_map_to_list.
  - reflexivity.
  - intros id Hid.
    repeat (apply elem_of_cons in Hid as [->|Hid]; [vm_compute; by eexists|]).
    by apply not_elem_of_nil in Hid.
  - apply left_by_Ok. vm_compute. reflexivity.
Defined.

(** ** Replicas that disagree *)

(** A chooser that sorts by weight, keeps the order of equal weights, and takes
    the choice in which the tenth unit of weight lies. *)
Fixpoint insert_weight (c : ID * N) (l : list (ID * N)) : list (ID * N) :=
  match l with
  | [] => [c]
  | d :: l => if (c.2 <? d.2)%N then c :: d :: l else d :: insert_weight c l
  end.
Fixpoint at_weight (r : N) (l : list (ID * N)) : option ID :=
  match l with
  | [] => None
  | c :: l => if (r <=? c.2)%N then Some c.1 else at_weight (r - c.2) l
  end.
Definition tenth : WeightedRand := {|
  wr_Pick choices _ := at_weight 10 (foldl (λ l c, insert_weight c l) [] choices);
  wr_ub := 0 |}.

Definition leader_of {A} (m : res (ID * A)) : option ID := match m with Ok (id, _) => Some id | _ => None end.
Definition with_reps (reps : list Z) : Replica () () (gmap ID spec_float) () :=
  set_leader (list_to_map (zip [1; 2; 3; 4]%N (f64_of_Z <$> reps))) busy.

(** The same replica when the highest certificate is of view 14. *)
Definition late : Replica () () (gmap ID spec_float) () :=
  set_sync (set_highQC (NewQuorumCert None 14 zero_hash) GetGenesis (r_sync busy)) busy.

(** Replicas in the same state need not agree on the leader.  With reputations,
    neither when they visit the voters of the committed block in different orders,
    as Go's maps do, nor when one of them has asked before; with the carousel, not
    when their clocks show different seconds, which seed the draw. *)
Theorem leaders_differ :
  leader_of (repBased_GetLeader (W := tenth) st4 id 15 (with_reps [1; 1; 1; 1]%Z)) = Some 2%N ∧
  leader_of (repBased_GetLeader (W := tenth) st4 reverse 15 (with_reps [1; 1; 1; 1]%Z)) = Some 1%N ∧
  (let once := with_reps [0; 0; 3; 0]%Z in
   let twice := left_by once (repBased_GetLeader (W := tenth) st4 id 15 once) in
   leader_of (repBased_GetLeader (W := tenth) st4 id 15 once) = Some 1%N ∧
   leader_of (repBased_GetLeader (W := tenth) st4 id 15 twice) = Some 2%N) ∧
  leader_of (carousel_GetLeader st4 (λ l, (0%N, l)) id 15 late) = Some 2%N ∧
  leader_of (carousel_GetLeader st4 (λ l, (1%N, l)) id 15 late) = Some 3%N.
Proof. vm_compute. split_and!; reflexivity. Qed.
End RotationExample.
