(* ===== verification/CmdCache.v ===== *)
(** * replica/cmdcache.go and replica/clientsrv.go: client commands

    [cmdCache] queues client commands, hands out batches to propose and
    refuses commands that are already in the chain; [clientSrv] executes
    batches and answers the waiting clients.  The protobuf encoding of a batch
    is the class [BatchCodec]. *)

From S2P Require Import Prelude Encoding Bitfield Types Replica.
From Stdlib Require Import Strings.Byte.

(** clientpb.Command *)
Record clientCmd := mkCmd {
  cc_ClientID : N;
  cc_SequenceNumber : N;
  cc_Data : bytes }.

#[export] Instance clientCmd_eq_dec : EqDecision clientCmd.
Proof. solve_decision. Defined.

(** proto.Marshal and proto.Unmarshal of clientpb.Batch; both can fail. *)
Class BatchCodec := {
  Batch_Marshal : list clientCmd → option bytes;
  Batch_Unmarshal : bytes → option (list clientCmd);
}.
Class BatchLaws (P : BatchCodec) := {
  Batch_roundtrip batch b : Batch_Marshal batch = Some b → Batch_Unmarshal b = Some batch;
}.

Record cmdCache := mkCmdCache {
  cc_batchSize : Z;
  cc_serialNumbers : gmap N N;
  cc_cache : list clientCmd }.

Definition newCmdCache (batchSize : Z) : cmdCache := mkCmdCache batchSize ∅ [].

(** Reading a missing key of the map yields 0. *)
Definition serialNo (c : cmdCache) (client : N) : N := default 0%N (cc_serialNumbers c !! client).

(** The command's serial number is not above the highest one proposed. *)
Definition too_old (c : cmdCache) (cmd : clientCmd) : bool :=
  (cc_SequenceNumber cmd <=? serialNo c (cc_ClientID cmd))%N.

Definition addCommand (c : cmdCache) (cmd : clientCmd) : cmdCache :=
  if too_old c cmd then c
  else mkCmdCache (cc_batchSize c) (cc_serialNumbers c) (cc_cache c ++ [cmd]).

(** The loop that fills a batch: old commands are dropped and do not count. *)
Fixpoint fill_batch (c : cmdCache) (room : nat) (queue batch : list clientCmd)
    : list clientCmd * list clientCmd :=
  match room, queue with
  | O, _ | _, [] => (batch, queue)
  | S room', cmd :: queue' =>
    if too_old c cmd then fill_batch c room queue' batch
    else fill_batch c room' queue' (batch ++ [cmd])
  end.

Section codec.
Context {P : BatchCodec}.

(** [Get] with the commands that other goroutines add while it waits: one
    list per wake-up of the channel, and the context is done when they run
    out. *)
Fixpoint cmdCache_Get (fuel : nat) (wakeups : list (list clientCmd)) (c : cmdCache)
    : res (option Command * cmdCache) :=
  match fuel with
  | O => NoFuel
  | S fuel =>
    if (Z.of_nat (length (cc_cache c)) <=? cc_batchSize c)%Z then
      match wakeups with
      | [] => Ok (None, c)
      | cmds :: wakeups => cmdCache_Get fuel wakeups (foldl addCommand c cmds)
      end
    else
      let '(batch, queue) := fill_batch c (Z.to_nat (cc_batchSize c)) (cc_cache c) [] in
      let c' := mkCmdCache (cc_batchSize c) (cc_serialNumbers c) queue in
      match batch with
      | [] => cmdCache_Get fuel wakeups c'
      | _ => Ok (Batch_Marshal batch, c')
      end
  end.

Definition cmdCache_Accept (cmd : Command) (c : cmdCache) : bool :=
  match Batch_Unmarshal cmd with
  | None => false
  | Some batch => forallb (λ cmd, negb (too_old c cmd)) batch
  end.

Definition raise_serial (c : cmdCache) (cmd : clientCmd) : cmdCache :=
  if (serialNo c (cc_ClientID cmd) <? cc_SequenceNumber cmd)%N
  then mkCmdCache (cc_batchSize c)
         (<[cc_ClientID cmd := cc_SequenceNumber cmd]> (cc_serialNumbers c)) (cc_cache c)
  else c.

Definition cmdCache_Proposed (cmd : Command) (c : cmdCache) : cmdCache :=
  match Batch_Unmarshal cmd with
  | None => c
  | Some batch => foldl raise_serial c batch
  end.
End codec.

(** As the command queue and acceptor of a replica; the state carries what
    will arrive during each later call of [Get]. *)
Record cmdSource := mkSource {
  cs_cache : cmdCache;
  cs_arrivals : list (list (list clientCmd)) }.

#[export] Instance cmdCache_source {P : BatchCodec} : CommandSource cmdSource := {|
  cq_Get s :=
    let wakeups := default [] (head (cs_arrivals s)) in
    '(cmd, c) ← cmdCache_Get (2 * length wakeups + 2) wakeups (cs_cache s);
    Ok (cmd, mkSource c (tail (cs_arrivals s)));
  aq_Accept cmd s := cmdCache_Accept cmd (cs_cache s);
  aq_Proposed cmd s := mkSource (cmdCache_Proposed cmd (cs_cache s)) (cs_arrivals s);
|}.

(** ** Serial numbers *)

Lemma raise_serial_spec c cmd client :
  serialNo (raise_serial c cmd) client =
    if (client =? cc_ClientID cmd)%N then N.max (serialNo c client) (cc_SequenceNumber cmd)
    else serialNo c client.
Proof.
  unfold raise_serial. destruct (N.ltb_spec (serialNo c (cc_ClientID cmd)) (cc_SequenceNumber cmd)).
  - unfold serialNo at 1. simpl. destruct (N.eqb_spec client (cc_ClientID cmd)) as [->|].
    + rewrite lookup_insert_eq. simpl. lia.
    + by rewrite lookup_insert_ne by done.
  - destruct (N.eqb_spec client (cc_ClientID cmd)) as [->|]; [lia|done].
Qed.

Lemma raise_serial_mono c cmd client : (serialNo c client ≤ serialNo (raise_serial c cmd) client)%N.
Proof. rewrite raise_serial_spec. destruct (_ =? _)%N; lia. Qed.

Lemma foldl_raise_serial_mono batch c client :
  (serialNo c client ≤ serialNo (foldl raise_serial c batch) client)%N.
Proof.
  revert c. induction batch as [|cmd batch IH]; intros c; simpl; [lia|].
  etrans; [apply raise_serial_mono|apply IH].
Qed.

Lemma too_old_mono c c' cmd :
  (∀ client, (serialNo c client ≤ serialNo c' client)%N) → too_old c cmd = true → too_old c' cmd = true.
Proof. unfold too_old. rewrite !N.leb_le. intros Hle ?. by etrans. Qed.

Section cmdcache_facts.
Context {P : BatchCodec} {PL : BatchLaws P}.

Lemma foldl_Proposed_mono later c client :
  (serialNo c client ≤ serialNo (foldl (λ c cmd, cmdCache_Proposed cmd c) c later) client)%N.
Proof.
  revert c. induction later as [|l later IH]; intros c; simpl; [done|]. etrans; [|apply IH].
  unfold cmdCache_Proposed. destruct (Batch_Unmarshal l); [apply foldl_raise_serial_mono|done].
Qed.

(** The serial number of a client after a batch: the highest of the old one and
    those of its commands in the batch. *)
Lemma foldl_raise_serial_lt batch c client n :
  (serialNo (foldl raise_serial c batch) client < n)%N ↔
  (serialNo c client < n)%N ∧ ∀ x, x ∈ batch → cc_ClientID x = client → (cc_SequenceNumber x < n)%N.
Proof.
  revert c. induction batch as [|x batch IH]; intros c; cbn [foldl].
  { split; [|by intros []]. intros H. split; [done|]. by intros x ?%not_elem_of_nil. }
  rewrite IH, raise_serial_spec. setoid_rewrite elem_of_cons. destruct (N.eqb_spec client (cc_ClientID x)) as [->|Hne].
  - split.
    + intros [H1 H2]. split; [lia|]. intros y [->|Hy] Hc; [lia|by apply H2].
    + intros [H1 H2]. split; [specialize (H2 x (or_introl eq_refl) eq_refl); lia|]. intros y Hy. apply H2. by right.
  - split; intros [H1 H2]; (split; [done|]); [intros y [->|Hy] Hc; [done|by apply H2]|intros y Hy; apply H2; by right].
Qed.

(** Once a batch is refused it is refused after any further proposals. *)
Lemma refused_stays later c other :
  cmdCache_Accept other c = false → cmdCache_Accept other (foldl (λ c cmd, cmdCache_Proposed cmd c) c later) = false.
Proof.
  unfold cmdCache_Accept. destruct (Batch_Unmarshal other) as [obatch|]; [|done]. intros Hf.
  apply not_true_is_false. intros Ht. apply not_true_iff_false in Hf. destruct Hf.
  rewrite forallb_forall in Ht |- *. intros y Hy. specialize (Ht y Hy). apply negb_true_iff in Ht. apply negb_true_iff.
  apply not_true_is_false. intros Hold. apply not_true_iff_false in Ht. destruct Ht.
  by eapply too_old_mono; [|exact Hold]; intros client; apply foldl_Proposed_mono.
Qed.

(** C26: a command is proposed at most once.  After [Proposed] a batch is accepted
    exactly if each of its commands has a higher sequence number than the client's
    serial number before and than every command of the same client in the
    proposed batch; so the batch itself, and every batch with a command of one of
    its clients that is not newer, is refused, now and after any further
    proposals.  Other clients' serial numbers do not move, none ever decreases,
    and the queue is unchanged. *)
Theorem Proposed_not_accepted (c : cmdCache) (cmd : Command) (batch : list clientCmd)
    (later : list Command) (other : Command) (obatch : list clientCmd) :
  Batch_Unmarshal cmd = Some batch → Batch_Unmarshal other = Some obatch →
  let c' := cmdCache_Proposed cmd c in
  (cmdCache_Accept other c' = true ↔ ∀ y, y ∈ obatch →
     (serialNo c (cc_ClientID y) < cc_SequenceNumber y)%N ∧
     ∀ x, x ∈ batch → cc_ClientID x = cc_ClientID y → (cc_SequenceNumber x < cc_SequenceNumber y)%N) ∧
  ((∃ x y, x ∈ batch ∧ y ∈ obatch ∧ cc_ClientID x = cc_ClientID y ∧ (cc_SequenceNumber y ≤ cc_SequenceNumber x)%N) →
     cmdCache_Accept other (foldl (λ c cmd, cmdCache_Proposed cmd c) c' later) = false) ∧
  (∀ client, (serialNo c client ≤ serialNo c' client)%N) ∧
  (∀ client, client ∉ (cc_ClientID <$> batch) → serialNo c' client = serialNo c client) ∧
  cc_cache c' = cc_cache c.
Proof.
  intros Hb Ho c'. assert (cmdCache_Accept other c' = true ↔ ∀ y, y ∈ obatch →
     (serialNo c (cc_ClientID y) < cc_SequenceNumber y)%N ∧
     ∀ x, x ∈ batch → cc_ClientID x = cc_ClientID y → (cc_SequenceNumber x < cc_SequenceNumber y)%N) as Hiff.
  { unfold cmdCache_Accept, c', cmdCache_Proposed. rewrite Hb, Ho, forallb_forall.
    setoid_rewrite <-list_elem_of_In. setoid_rewrite negb_true_iff. unfold too_old. setoid_rewrite N.leb_gt.
    by setoid_rewrite foldl_raise_serial_lt. }
  split_and!; [done| |..].
  - intros (x & y & Hx & Hy & Hc & Hle). apply refused_stays, not_true_is_false. rewrite Hiff. intros Hall.
    destruct (Hall y Hy) as [_ Hn]. specialize (Hn x Hx Hc). lia.
  - intros client. unfold c', cmdCache_Proposed. rewrite Hb. apply foldl_raise_serial_mono.
  - unfold c', cmdCache_Proposed. rewrite Hb. clear. intros client. revert c.
    induction batch as [|y batch IH]; intros c; [done|].
    rewrite fmap_cons, not_elem_of_cons. intros [Hne Hni]. simpl. rewrite IH by done.
    rewrite raise_serial_spec. by destruct (N.eqb_spec client (cc_ClientID y)).
  - unfold c', cmdCache_Proposed. rewrite Hb. clear. revert c. induction batch as [|y batch IH]; intros c; simpl; [done|].
    rewrite IH. unfold raise_serial. by destruct (_ <? _)%N.
Qed.








(** A full batch is not enough: with at most [batchSize] commands queued
    [Get] does not return a batch, although [addCommand] signals it as soon as
    there are [batchSize]. *)
Theorem Get_waits_for_one_more (c : cmdCache) :
  (Z.of_nat (length (cc_cache c)) = cc_batchSize c)%Z →
  cmdCache_Get 2 [] c = Ok (None, c).
Proof. intros Hlen. cbn [cmdCache_Get]. by rewrite (proj2 (Z.leb_le _ _)) by lia. Qed.
End cmdcache_facts.

(** ** clientsrv.go *)

(** cmdID *)
Abbreviation cmdID := (N * N)%type.
Definition cmd_id (cmd : clientCmd) : cmdID := (cc_ClientID cmd, cc_SequenceNumber cmd).

(** A channel is its number; [answers] are the values sent on them, [true]
    for nil and [false] for the Aborted error; [hashed] is what was written to
    the running SHA-256; [commits] are the sizes of the commit events. *)
Record clientSrv := mkSrv {
  sv_awaitingCmds : gmap cmdID nat;
  sv_channels : nat;
  sv_answers : list (nat * bool);
  sv_hashed : bytes;
  sv_commits : list nat;
  sv_cmdCache : cmdCache }.

Definition newClientServer (batchSize : Z) : clientSrv :=
  mkSrv ∅ 0 [] [] [] (newCmdCache batchSize).

(** Up to the receive that waits for the answer. *)
Definition ExecCommand (srv : clientSrv) (cmd : clientCmd) : clientSrv :=
  mkSrv (<[cmd_id cmd := sv_channels srv]> (sv_awaitingCmds srv)) (S (sv_channels srv))
    (sv_answers srv) (sv_hashed srv) (sv_commits srv) (addCommand (sv_cmdCache srv) cmd).

(** Answer the call that waits for the command, if there is one. *)
Definition answer (ok : bool) (srv : clientSrv) (cmd : clientCmd) : clientSrv :=
  match sv_awaitingCmds srv !! cmd_id cmd with
  | Some done => mkSrv (delete (cmd_id cmd) (sv_awaitingCmds srv)) (sv_channels srv)
                   (sv_answers srv ++ [(done, ok)]) (sv_hashed srv) (sv_commits srv) (sv_cmdCache srv)
  | None => srv
  end.

Definition exec_one (srv : clientSrv) (cmd : clientCmd) : clientSrv :=
  answer true (mkSrv (sv_awaitingCmds srv) (sv_channels srv) (sv_answers srv)
                 (sv_hashed srv ++ cc_Data cmd) (sv_commits srv) (sv_cmdCache srv)) cmd.

Section srv.
Context {P : BatchCodec}.

Definition clientSrv_Exec (srv : clientSrv) (cmd : Command) : clientSrv :=
  match Batch_Unmarshal cmd with
  | None => srv
  | Some batch =>
    foldl exec_one (mkSrv (sv_awaitingCmds srv) (sv_channels srv) (sv_answers srv) (sv_hashed srv)
      (sv_commits srv ++ [length batch]) (sv_cmdCache srv)) batch
  end.

Definition clientSrv_Fork (srv : clientSrv) (cmd : Command) : clientSrv :=
  match Batch_Unmarshal cmd with
  | None => srv
  | Some batch => foldl (answer false) srv batch
  end.

(** replica.go: GetHash *)
Definition GetHash (srv : clientSrv) : bytes := sha256_Sum256 (sv_hashed srv).

(** What happens at a client server. *)
Inductive srv_event :=
| SvCommand (cmd : clientCmd)
| SvExec (cmd : Command)
| SvFork (cmd : Command).

Definition srv_step (srv : clientSrv) (e : srv_event) : clientSrv :=
  match e with
  | SvCommand cmd => ExecCommand srv cmd
  | SvExec cmd => clientSrv_Exec srv cmd
  | SvFork cmd => clientSrv_Fork srv cmd
  end.

(** The data of the commands that were executed. *)
Definition executed_data (es : list srv_event) : bytes :=
  concat ((λ e, match e with
                | SvExec cmd => concat (cc_Data <$> default [] (Batch_Unmarshal cmd))
                | _ => []
                end) <$> es).

(** Waiting channels are distinct, were created, and have no answer yet; no
    channel has two answers. *)
Record srv_ok (srv : clientSrv) : Prop := {
  ok_nodup : NoDup (fst <$> sv_answers srv);
  ok_created : ∀ id c, sv_awaitingCmds srv !! id = Some c → c < sv_channels srv;
  ok_open : ∀ id c, sv_awaitingCmds srv !! id = Some c → c ∉ (fst <$> sv_answers srv);
  ok_answered : ∀ c, c ∈ (fst <$> sv_answers srv) → c < sv_channels srv;
  ok_inj : ∀ id1 id2 c, sv_awaitingCmds srv !! id1 = Some c →
             sv_awaitingCmds srv !! id2 = Some c → id1 = id2 }.

Lemma answer_ok ok srv cmd : srv_ok srv → srv_ok (answer ok srv cmd).
Proof.
  intros Hok. unfold answer. destruct (sv_awaitingCmds srv !! cmd_id cmd) as [c|] eqn:Hc; [|done].
  destruct Hok as [O1 O2 O3 O4 O5]. split; simpl.
  - rewrite fmap_app. apply NoDup_app. split_and!; [done| |by apply NoDup_singleton].
    intros x Hx ->%list_elem_of_singleton. by apply (O3 _ _ Hc).
  - intros id c' [_ H]%lookup_delete_Some. by eapply O2.
  - intros id c' [Hne H]%lookup_delete_Some. rewrite fmap_app, not_elem_of_app. split; [by eapply O3|].
    simpl. intros ->%list_elem_of_singleton. by apply Hne, (O5 _ _ c).
  - intros c'. rewrite fmap_app, elem_of_app. intros [?|Hc'%list_elem_of_singleton]; [by apply O4|subst c'; by eapply O2].
  - intros id1 id2 c' [_ H1]%lookup_delete_Some [_ H2]%lookup_delete_Some. by eapply O5.
Qed.

Lemma exec_one_ok srv cmd : srv_ok srv → srv_ok (exec_one srv cmd).
Proof. intros []. apply answer_ok. by split. Qed.

Lemma ExecCommand_ok srv cmd : srv_ok srv → srv_ok (ExecCommand srv cmd).
Proof.
  intros [O1 O2 O3 O4 O5]. split; simpl; [done|..].
  - intros id c [[_ <-]|[_ H]]%lookup_insert_Some; [lia|]. apply O2 in H. lia.
  - intros id c [[_ <-]|[_ H]]%lookup_insert_Some; [|by eapply O3]. intros H%O4. lia.
  - intros c Hc%O4. lia.
  - intros id1 id2 c [[<- <-]|[_ H1]]%lookup_insert_Some [[<- H2']|[_ H2]]%lookup_insert_Some.
    + done.
    + apply O2 in H2. lia.
    + subst c. apply O2 in H1. lia.
    + by eapply O5.
Qed.

Lemma foldl_ok {A} (f : clientSrv → A → clientSrv) srv l :
  (∀ s x, srv_ok s → srv_ok (f s x)) → srv_ok srv → srv_ok (foldl f srv l).
Proof. intros Hf. revert srv. induction l; intros srv Hok; simpl; auto. Qed.

Lemma srv_step_ok srv e : srv_ok srv → srv_ok (srv_step srv e).
Proof.
  intros Hok. destruct e; simpl.
  - by apply ExecCommand_ok.
  - unfold clientSrv_Exec. destruct (Batch_Unmarshal cmd); [|done].
    apply foldl_ok; [apply exec_one_ok|]. destruct Hok. by split.
  - unfold clientSrv_Fork. destruct (Batch_Unmarshal cmd); [|done].
    apply foldl_ok; [|done]. intros. by apply answer_ok.
Qed.

Lemma answer_hashed ok srv cmd : sv_hashed (answer ok srv cmd) = sv_hashed srv.
Proof. unfold answer. by destruct (_ !! _). Qed.

Lemma srv_step_hashed srv e : sv_hashed (srv_step srv e) = sv_hashed srv ++ executed_data [e].
Proof.
  unfold executed_data. destruct e; simpl; rewrite ?app_nil_r; [done|..].
  - unfold clientSrv_Exec. destruct (Batch_Unmarshal cmd) as [batch|]; simpl; [|by rewrite app_nil_r].
    assert (∀ s, sv_hashed (foldl exec_one s batch) = sv_hashed s ++ concat (cc_Data <$> batch)) as H;
      [|by rewrite H].
    induction batch as [|x batch IH]; intros s; simpl; [by rewrite app_nil_r|].
    rewrite IH. unfold exec_one. rewrite answer_hashed. simpl. by rewrite <-app_assoc.
  - unfold clientSrv_Fork. destruct (Batch_Unmarshal cmd) as [batch|]; [|done].
    revert srv. induction batch as [|x batch IH]; intros srv; simpl; [done|].
    by rewrite IH, answer_hashed.
Qed.

Lemma foldl_step_hashed es s :
  sv_hashed (foldl srv_step s es) = sv_hashed s ++ executed_data es.
Proof.
  revert s. induction es as [|e es IH]; intros s; simpl; [by rewrite app_nil_r|].
  rewrite IH, srv_step_hashed, <-app_assoc. f_equal. unfold executed_data. simpl. by rewrite app_nil_r.
Qed.

(** C28: the hash a replica reports depends only on the data of the executed
    commands in order, not on its own clients, and every call of a client is
    answered at most once, and only if it was made. *)
Theorem clientSrv_correct (batchSize : Z) (es : list srv_event) :
  let srv := foldl srv_step (newClientServer batchSize) es in
  GetHash srv = sha256_Sum256 (executed_data es) ∧
  NoDup (fst <$> sv_answers srv) ∧
  (∀ c, c ∈ (fst <$> sv_answers srv) → c < sv_channels srv) ∧
  (∀ id c, sv_awaitingCmds srv !! id = Some c → c ∉ (fst <$> sv_answers srv)).
Proof.
  intros srv. assert (srv_ok srv) as [? ? ? ? ?].
  { apply foldl_ok; [apply srv_step_ok|]. split; simpl; try by intros * ?%lookup_empty_Some.
    - constructor.
    - by intros c ?%not_elem_of_nil. }
  split_and!; [|done..]. unfold GetHash. f_equal. unfold srv.
  by rewrite foldl_step_hashed.
Qed.
End srv.

(** ** A codec to evaluate with *)

#[export] Instance clientCmd_countable : Countable clientCmd :=
  inj_countable' (λ c, (cc_ClientID c, cc_SequenceNumber c, cc_Data c))
    (λ '(i, s, d), mkCmd i s d) ltac:(by intros []).

(** A batch as the number that encodes it. *)
Definition NumberCodec : BatchCodec := {|
  Batch_Marshal batch := Some (big_Bytes (Npos (encode batch)));
  Batch_Unmarshal b := match big_SetBytes b with Npos p => decode p | N0 => None end;
|}.

#[export] Instance NumberCodec_laws : BatchLaws NumberCodec.
Proof.
  split. intros batch b [= <-]. cbn [Batch_Unmarshal NumberCodec].
  rewrite big_SetBytes_Bytes. apply decode_encode.
Qed.

Module CmdExample.
#[local] Existing Instance NumberCodec.
Definition cmd1 := mkCmd 1 1 [Byte.x61].
Definition cmd2 := mkCmd 1 2 [Byte.x62].
Definition cmd3 := mkCmd 2 1 [Byte.x63].
Definition payload (batch : list clientCmd) : Command := default [] (Batch_Marshal batch).
Definition queue3 : cmdCache := foldl addCommand (newCmdCache 2) [cmd1; cmd2; cmd3].

(** The second command of a client is proposed: its first one is too late. *)
Lemma Proposed_not_accepted_witness :
  cmdCache_Accept (payload [cmd1; cmd3])
    (foldl (λ c cmd, cmdCache_Proposed cmd c)
       (cmdCache_Proposed (payload [cmd2]) queue3) [payload [cmd3]]) = false.
Proof.
  destruct (Proposed_not_accepted queue3 (payload [cmd2]) [cmd2] [payload [cmd3]]
           (payload [cmd1; cmd3]) [cmd1; cmd3]) as (_ & H & _).
  - apply Batch_roundtrip. reflexivity.
  - apply Batch_roundtrip. reflexivity.
  - apply H. exists cmd2, cmd1. split; [left|]. split; [left|]. split; [reflexivity|discriminate].
Defined.


Lemma Get_waits_for_one_more_witness :
  let c := foldl addCommand (newCmdCache 2) [cmd1; cmd2] in cmdCache_Get 2 [] c = Ok (None, c).
Proof. apply Get_waits_for_one_more. reflexivity. Defined.
End CmdExample.
