(* ===== verification/ViewTimer.v ===== *)
(** * synchronizer/viewduration.go: how long a view may last

    The mean and the variance of past view durations, by Welford's algorithm
    on float64.  [now] is the clock, in nanoseconds, that time.Now and
    time.Since read. *)

From S2P Require Import Prelude Encoding Bitfield Types Replica LeaderRotation.
From Stdlib Require Import SpecFloat.

Record viewDuration := mkVD {
  vd_mul : spec_float;
  vd_limit : N;
  vd_count : N;
  vd_startTime : option Z;     (** [None] for the zero time *)
  vd_mean : spec_float;
  vd_m2 : spec_float;
  vd_prevM2 : spec_float;
  vd_max : spec_float;
  vd_now : Z }.

Definition NewViewDuration (sampleSize : N) (startTimeout maxTimeout multiplier : spec_float) (now : Z)
    : viewDuration :=
  mkVD multiplier sampleSize 0 None startTimeout (S754_zero false) (S754_zero false) maxTimeout now.

Definition set_now (now : Z) (v : viewDuration) : viewDuration :=
  mkVD (vd_mul v) (vd_limit v) (vd_count v) (vd_startTime v) (vd_mean v) (vd_m2 v) (vd_prevM2 v)
    (vd_max v) now.

Definition f64_zero : spec_float := S754_zero false.
Definition millisecond : spec_float := f64_of_Z 1000000.

(** The next mean and sum of squares, given a measurement and its weight. *)
Definition welford (mean m2 duration c : spec_float) : spec_float * spec_float :=
  let d1 := f64_sub duration mean in
  let mean' := f64_add mean (f64_div d1 c) in
  let d2 := f64_sub duration mean' in
  (mean', f64_add m2 (f64_mul d1 d2)).

Definition ViewSucceeded (v : viewDuration) : res viewDuration :=
  match vd_startTime v with
  | None => Ok v
  | Some start =>
    let duration := f64_div (f64_of_Z (vd_now v - start)) millisecond in
    let count := wrap64 (vd_count v + 1) in
    if (vd_limit v =? 0)%N then Panic "integer divide by zero"
    else
      let '(prevM2, m2) := if (count mod vd_limit v =? 0)%N then (vd_m2 v, f64_zero)
                           else (vd_prevM2 v, vd_m2 v) in
      let '(c, mean) :=
        if (vd_limit v <? count)%N then
          let c := f64_of_Z (Z.of_N (vd_limit v)) in (c, f64_sub (vd_mean v) (f64_div (vd_mean v) c))
        else (f64_of_Z (Z.of_N count), vd_mean v) in
      let '(mean', m2') := welford mean m2 duration c in
      Ok (mkVD (vd_mul v) (vd_limit v) count (vd_startTime v) mean' m2' prevM2 (vd_max v) (vd_now v))
  end.

Definition ViewTimeout (v : viewDuration) : viewDuration :=
  mkVD (vd_mul v) (vd_limit v) (vd_count v) (vd_startTime v) (f64_mul (vd_mean v) (vd_mul v))
    (vd_m2 v) (vd_prevM2 v) (vd_max v) (vd_now v).

Definition ViewStarted (v : viewDuration) : viewDuration :=
  mkVD (vd_mul v) (vd_limit v) (vd_count v) (Some (vd_now v)) (vd_mean v) (vd_m2 v) (vd_prevM2 v)
    (vd_max v) (vd_now v).

(** 1.96 as a float64. *)
Definition conf : spec_float := f64_div (f64_of_Z 196) (f64_of_Z 100).

(** The bound of the confidence interval in milliseconds, before the maximum
    is applied. *)
Definition estimate (v : viewDuration) : spec_float :=
  let dev :=
    if (1 <? vd_count v)%N then
      let '(c, m2) :=
        if (vd_limit v <=? vd_count v)%N
        then (f64_add (f64_of_Z (Z.of_N (vd_limit v))) (f64_of_Z (Z.of_N (vd_count v mod vd_limit v))),
              f64_add (vd_m2 v) (vd_prevM2 v))
        else (f64_of_Z (Z.of_N (vd_count v)), vd_m2 v) in
      f64_sqrt (f64_div m2 c)
    else f64_zero in
  f64_add (vd_mean v) (f64_mul dev conf).

Definition capped (v : viewDuration) : spec_float :=
  let duration := estimate v in
  if SFltb f64_zero (vd_max v) && SFltb (vd_max v) duration then vd_max v else duration.

(** Computing the logging condition divides the view by the limit. *)
Definition Duration_ (ub : Z) (view : View) (v : viewDuration) : res Z :=
  if (vd_limit v =? 0)%N then Panic "integer divide by zero"
  else Ok (f64_to_int64 ub (f64_mul (capped v) millisecond)).

(** As the interface of the synchronizer; an unrepresentable duration is the
    smallest int64, as on amd64. *)
#[export] Instance viewDuration_interface : ViewDuration viewDuration := {|
  vd_Duration := Duration_ (- 2 ^ 63);
  vd_ViewStarted := ViewStarted;
  vd_ViewSucceeded := ViewSucceeded;
  vd_ViewTimeout := ViewTimeout;
|}.

(** ** Properties *)

(** With a positive sample size no operation panics, the duration is an
    int64, and the count is the number of successful views that were started. *)
Lemma viewDuration_safe (v : viewDuration) (view : View) (ub : Z) :
  (0 < vd_limit v)%N → (- 2 ^ 63 ≤ ub < 2 ^ 63)%Z →
  (∃ d, Duration_ ub view v = Ok d ∧ (- 2 ^ 63 ≤ d < 2 ^ 63)%Z) ∧
  (∃ v', ViewSucceeded v = Ok v' ∧ vd_limit v' = vd_limit v ∧ vd_max v' = vd_max v ∧
     vd_startTime v' = vd_startTime v ∧
     vd_count v' = match vd_startTime v with
                   | None => vd_count v
                   | Some _ => wrap64 (vd_count v + 1)
                   end).
Proof.
  intros Hl Hub. split.
  - unfold Duration_. destruct (N.eqb_spec (vd_limit v) 0); [lia|]. eexists. split; [done|].
    unfold f64_to_int64, f64_convert. destruct (f64_trunc _) as [z|]; [|done].
    destruct (Z.leb_spec (- 2 ^ 63) z), (Z.ltb_spec z (2 ^ 63)); done.
  - unfold ViewSucceeded. destruct (vd_startTime v) as [start|] eqn:Hs; [|by exists v].
    destruct (N.eqb_spec (vd_limit v) 0); [lia|].
    destruct (_ =? 0)%N, (_ <? _)%N; eexists; split_and!; try reflexivity; exact Hs.
Qed.

(** A duration that is too long for an int64 is the processor's value. *)
Example duration_out_of_range :
  Duration_ (- 2 ^ 63) 1 (NewViewDuration 5 (f64_of_Z (2 ^ 62)) f64_zero (f64_of_Z 2) 0) = Ok (- 2 ^ 63)%Z.
Proof. vm_compute. reflexivity. Qed.

(** A measurement of 30 ms after an initial estimate of 10 ms, and a timeout
    that doubles the mean. *)
Example view_measured :
  match ViewSucceeded (set_now 30000000 (ViewStarted (NewViewDuration 5 (f64_of_Z 10) f64_zero (f64_of_Z 2) 0))) with
  | Ok v => (Duration_ 0 1 v, Duration_ 0 1 (ViewTimeout v))
  | _ => (Blocked, Blocked)
  end = (Ok 30000000%Z, Ok 60000000%Z).
Proof. vm_compute. reflexivity. Qed.
