(* ===== verification/Progress.v ===== *)
(** * Progress: votes and timeouts take a replica to the next view

    The good case of the protocol on the handlers of [Consensus], with ECDSA
    signatures: a quorum of votes becomes a certificate and the certificate a
    new view; a quorum of timeouts becomes a timeout certificate and a new
    view. *)

From S2P Require Import Prelude Encoding Bitfield Types BlockChain CryptoBase Ecdsa Replica.
From S2P Require Import Consensus.
From Stdlib Require Import Strings.Byte.

Section progress.
Context {B : BLS12Lib} {E : ECDSALib} (env : CryptoEnv).
Context {Q L D : Type} (st : Static) {CQ : CommandSource Q} {VD : ViewDuration D}.
#[local] Instance CI : CryptoImpl () := ecdsaCrypto env.
Context {LR : LeaderRotation () Q L D} {RU : Rules () Q L D}.
Context (Hcfg : ecdsa_config env) (Hquorum : st_QuorumSize st = env_QuorumSize env).

Local Abbreviation R := (Replica () Q L D).

(** A quorum of distinct replicas signed the hash. *)
Definition signed_by_quorum (h : Hash) (sigs : list ecdsa_Signature) : Prop :=
  Forall (λ s, ec_valid env s h = true) sigs ∧ NoDup (ec_signer <$> sigs) ∧
  Z.of_nat (length sigs) = env_QuorumSize env.

Lemma signers_of_valid h sigs :
  Forall (λ s, ec_valid env s h = true) sigs →
  valid_signers env (λ _, Some h) ((λ s, Some (SigECDSA s)) <$> sigs) = list_to_set (ec_signer <$> sigs).
Proof.
  intros Hv. unfold valid_signers. f_equal. induction Hv as [|s sigs Hs _ IH]; [done|].
  rewrite !fmap_cons. cbn [omap list_omap]. rewrite Hs. f_equal. exact IH.
Qed.

Lemma signed_by_quorum_perm h sigs sigs' :
  sigs ≡ₚ sigs' → signed_by_quorum h sigs → signed_by_quorum h sigs'.
Proof.
  intros Hp (Hv & Hnd & Hlen). split_and!; [by rewrite <-Hp| |by rewrite <-(Permutation_length Hp)].
  eapply NoDup_Permutation_proper; [|exact Hnd]. apply fmap_Permutation. by symmetry.
Qed.

Lemma quorum_threshold h sigs :
  signed_by_quorum h sigs →
  ∃ thr, CreateThresholdSignature ((λ s, Some (SigECDSA s)) <$> sigs) h () = Ok (inl (ThrECDSA thr), ()) ∧
    VerifyThresholdSignature (Some (ThrECDSA thr)) h () = Ok (true, ()).
Proof.
  intros (Hv & Hnd & Hlen).
  destruct (ec_create_quorum env ((λ s, Some (SigECDSA s)) <$> sigs) h Hcfg) as (thr & Hc & _ & _ & Hver).
  - apply Forall_fmap, Forall_true. by eexists.
  - rewrite signers_of_valid by done. rewrite size_list_to_set by done. rewrite length_fmap. lia.
  - exists thr. split; [exact Hc|exact Hver].
Qed.

Lemma crypto_run {A} (m : M () A) a (r : R) : m () = Ok (a, ()) → crypto m r = Ok (a, r).
Proof. intros H. unfold crypto, lift_res. destruct r as [? ? ? ? ? [] ? ? ? ?]. cbn. by rewrite H. Qed.

(** ** Votes *)

Definition cert_of (b : Block) (s : ecdsa_Signature) : PartialCert :=
  NewPartialCert (Some (SigECDSA s)) (b_hash b).

Lemma cert_verifies b s : ec_valid env s (b_hash b) = true → VerifyPartialCert (cert_of b s) () = Ok (true, ()).
Proof. intros Hs. rewrite <-Hs. exact (self_Verify_run env s (b_hash b) Hcfg). Qed.

(** The replica knows the block, which is above its leaf. *)
Definition voting_on (b : Block) (r : R) : Prop :=
  b_hash b ≠ b_hash GetGenesis ∧ blocks (r_chain r) !! b_hash b = Some b ∧
  (b_view (sy_leafBlock (r_sync r)) < b_view b)%N.

Lemma clean_votes_keeps b votes (r : R) :
  voting_on b r → r_votes r !! b_hash b = Some votes →
  ∃ m, clean_votes r = Ok ((), set_votes m r) ∧ m !! b_hash b = Some votes.
Proof.
  intros (_ & Hb & Hleaf) Hv. eexists. split; [reflexivity|]. apply map_lookup_filter_Some. split; [done|].
  unfold blockChain_LocalGet. rewrite Hb. by apply N.ltb_lt.
Qed.

(** A vote that does not complete the quorum is remembered. *)
Lemma verifyCert_collects b votes s (r : R) :
  voting_on b r → ec_valid env s (b_hash b) = true → default [] (r_votes r !! b_hash b) = votes →
  (Z.of_nat (S (length votes)) < env_QuorumSize env)%Z →
  ∃ m, verifyCert st (cert_of b s) b r = Ok ((), set_votes m r) ∧
    m !! b_hash b = Some (votes ++ [cert_of b s]).
Proof.
  intros Hon Hs Hv Hlen. unfold verifyCert.
  rewrite (M_bind_run _ _ _ true r); [|by apply crypto_run, cert_verifies]. cbn [negb].
  rewrite M_bind_gets, M_bind_modify. cbn [id cert_of pc_blockHash].
  rewrite Hv, Hquorum, length_app. cbn [length]. rewrite (proj2 (Z.ltb_lt _ _)) by lia.
  rewrite M_bind_ret. set (r1 := set_votes _ r).
  destruct (clean_votes_keeps b (votes ++ [cert_of b s]) r1) as (m & Hrun & Hm); [done|apply lookup_insert_eq|].
  exists m. by split.
Qed.

(** The vote that completes it makes a certificate, which the replica sends
    itself. *)
Lemma verifyCert_completes b sigs s (r : R) :
  voting_on b r → signed_by_quorum (b_hash b) (sigs ++ [s]) →
  default [] (r_votes r !! b_hash b) = cert_of b <$> sigs →
  ∃ qc r', verifyCert st (cert_of b s) b r = Ok ((), r') ∧
    qc_hash qc = b_hash b ∧ qc_view qc = b_view b ∧ VerifyQuorumCert qc () = Ok (true, ()) ∧
    r_out r' = r_out r ++ [EAddEvent (mkNewView (st_ID st) (SyncInfo_WithQC NewSyncInfo qc))] ∧
    r_sync r' = r_sync r ∧ r_chain r' = r_chain r ∧ r_duration r' = r_duration r.
Proof.
  intros Hon Hq Hv. destruct (quorum_threshold _ _ Hq) as (thr & Hcreate & Hver).
  destruct Hq as (Hvalid & _ & Hlen). apply Forall_app in Hvalid as [_ [Hs _]%Forall_cons].
  unfold verifyCert. rewrite (M_bind_run _ _ _ true r); [|by apply crypto_run, cert_verifies]. cbn [negb].
  rewrite M_bind_gets, M_bind_modify. cbn [id cert_of pc_blockHash].
  rewrite Hv, Hquorum. rewrite length_app in Hlen |- *. rewrite length_fmap. cbn [length] in Hlen |- *.
  rewrite (proj2 (Z.ltb_ge _ _)) by lia. set (r1 := set_votes _ r).
  set (qc := NewQuorumCert (Some (ThrECDSA thr)) (b_view b) (b_hash b)).
  destruct Hon as (Hgen & Hb & Hleaf).
  assert (CreateQuorumCert b ((cert_of b <$> sigs) ++ [cert_of b s]) () = Ok (inl qc, ())) as Hqc.
  { unfold CreateQuorumCert. rewrite bool_decide_eq_false_2 by done.
    assert (pc_signature <$> (cert_of b <$> sigs) ++ [cert_of b s] = (λ s, Some (SigECDSA s)) <$> sigs ++ [s]) as ->
      by (rewrite !fmap_app, <-list_fmap_compose; done).
    by rewrite (M_bind_run _ _ _ _ _ Hcreate). }
  eexists qc, _. split.
  { erewrite (M_bind_run _ _ r1); [|erewrite (M_bind_run _ _ r1); [|by apply crypto_run]; reflexivity].
    reflexivity. }
  split_and!; try done. unfold VerifyQuorumCert. cbn [qc qc_hash].
  by rewrite bool_decide_eq_false_2.
Qed.

(** The votes of a quorum, one after the other. *)
Lemma votes_collected fuel b sigs done_ (r : R) :
  voting_on b r → default [] (r_votes r !! b_hash b) = cert_of b <$> done_ →
  Forall (λ s, ec_valid env s (b_hash b) = true) sigs →
  (Z.of_nat (length done_ + length sigs) < env_QuorumSize env)%Z →
  ∃ m, run st fuel ((λ s, EvVerify (cert_of b s) b) <$> sigs) r = Ok ((), set_votes m r) ∧
    default [] (m !! b_hash b) = cert_of b <$> (done_ ++ sigs).
Proof.
  intros Hon Hv Hsigs. revert done_ r Hon Hv. induction Hsigs as [|s sigs Hs _ IH]; intros done_ r Hon Hv Hlen.
  { exists (r_votes r). rewrite app_nil_r. split; [by destruct r|done]. }
  cbn [length] in Hlen. rewrite fmap_cons. cbn [run handle].
  destruct (verifyCert_collects b (cert_of b <$> done_) s r Hon Hs Hv) as (m & Hrun & Hm).
  { rewrite length_fmap. lia. }
  rewrite (M_bind_run _ _ _ _ _ Hrun).
  destruct (IH (done_ ++ [s]) (set_votes m r)) as (m' & Hrun' & Hm').
  - exact Hon.
  - cbn [r_votes set_votes]. rewrite Hm. cbn [from_option id]. by rewrite fmap_app.
  - rewrite length_app. cbn [length]. lia.
  - exists m'. split; [exact Hrun'|]. by rewrite <-app_assoc in Hm'.
Qed.

Lemma run_app fuel es es' (r : R) : run st fuel (es ++ es') r = (_ ← run st fuel es; run st fuel es') r.
Proof.
  revert r. induction es as [|e es IH]; intros r; [done|]. cbn [app run].
  unfold mbind, M_bind. destruct (handle st fuel e r) as [[[] r1]| | |]; [|done..]. apply IH.
Qed.

(** ** Entering a view *)

(** In the states [good] the view timer does not fail, and stays so; the
    leader of the view is another replica of the configuration. *)
Context (good : D → Prop).
Definition timer_works : Prop :=
  (∀ v d, good d → ∃ x, vd_Duration v d = Ok x) ∧ (∀ d, good d → good (vd_ViewStarted d)) ∧
  (∀ d, good d → ∃ d', vd_ViewSucceeded d = Ok d' ∧ good d').
Definition led_by (v : View) (leader : ID) : Prop :=
  (∀ r : R, ∃ r', GetLeader v r = Ok (leader, r')) ∧ leader ≠ st_ID st ∧ leader ∈ st_replicas st.

Lemma enter_view_run v timeout (r : R) :
  timer_works → good (r_duration r) → (v + 1 < two64)%N →
  ∃ r' d, enter_view v timeout r = Ok ((), r') ∧ sy_currentView (r_sync r') = (v + 1)%N ∧
    sy_highQC (r_sync r') = sy_highQC (r_sync r) ∧ sy_leafBlock (r_sync r') = sy_leafBlock (r_sync r) ∧
    sy_highTC (r_sync r') = sy_highTC (r_sync r) ∧ sy_timeouts (r_sync r') = sy_timeouts (r_sync r) ∧
    r_out r' = r_out r ++ [EStopTimer; EResetTimer d; EViewChange (v + 1) timeout].
Proof.
  intros (Hd & Hstart & _) Hgood Hv. unfold enter_view, emit, upd_sync. rewrite !M_bind_modify.
  set (r1 := set_duration _ _). assert (good (r_duration r1)) as Hgood1 by by apply Hstart. unfold newCtx.
  destruct (Hd (sy_currentView (r_sync r1)) (r_duration r1) Hgood1) as [d1 Hd1].
  assert (Duration r1 = Ok (d1, r1)) as H1 by (unfold Duration; by rewrite Hd1).
  unfold upd_sync. set (r2 := set_sync (next_ctx (r_sync r1)) r1).
  destruct (Hd (sy_currentView (r_sync r2)) (r_duration r2) Hgood1) as [d2 Hd2].
  assert (Duration r2 = Ok (d2, r2)) as H2 by (unfold Duration; by rewrite Hd2).
  rewrite (M_bind_run _ _ r1 () r2) by (by rewrite (M_bind_run _ _ _ _ _ H1)).
  rewrite (M_bind_run _ _ _ _ _ H2), M_bind_modify. eexists _, d2. split; [reflexivity|].
  cbn. rewrite wrap64_small by done. split_and!; [done..|]. by rewrite <-!app_assoc.
Qed.

(** The leader is told when a view was entered by others. *)
Lemma AdvanceView_run fuel si v timeout leader (r r1 : R) :
  timer_works → good (r_duration r1) → led_by (v + 1) leader → (v + 1 < two64)%N →
  AdvanceView_cert st si r = Ok (Some (v, timeout), r1) → (sy_currentView (r_sync r1) ≤ v)%N →
  ∃ r', AdvanceView st (S fuel) si r = Ok ((), r') ∧ sy_currentView (r_sync r') = (v + 1)%N ∧
    sy_highQC (r_sync r') = sy_highQC (r_sync r1) ∧ sy_leafBlock (r_sync r') = sy_leafBlock (r_sync r1) ∧
    sy_highTC (r_sync r') = sy_highTC (r_sync r1) ∧ sy_timeouts (r_sync r') = sy_timeouts (r_sync r1) ∧
    last (r_out r') = Some (ENewView leader si).
Proof.
  intros Htimer Hgood (Hlead & Hne & Hin) Hv Hcert Hle. cbn [AdvanceView]. unfold AdvanceView_body.
  rewrite (M_bind_run _ _ _ _ _ Hcert). unfold View_. rewrite M_bind_gets.
  rewrite (proj2 (N.ltb_ge _ _) Hle).
  destruct (enter_view_run v timeout r1 Htimer Hgood Hv) as (r2 & d & Hrun & E1 & E2 & E3 & E4 & E5 & E6).
  rewrite (M_bind_run _ _ _ _ _ Hrun). rewrite wrap64_small by done.
  destruct (Hlead r2) as [r3 Hr3]. rewrite (M_bind_run _ _ _ _ _ Hr3).
  rewrite (proj2 (N.eqb_neq _ _) Hne), bool_decide_eq_true_2 by done.
  apply GetLeader_core in Hr3. destruct Hr3 as [_ _ G _ _ _ _].
  eexists. split; [reflexivity|]. cbn [r_sync r_out]. rewrite G. split_and!; [done..|]. by rewrite last_snoc.
Qed.

(** A certificate for a known block above the old one is taken over. *)
Lemma AdvanceView_cert_run qc b old (r : R) :
  timer_works → good (r_duration r) → VerifyQuorumCert qc () = Ok (true, ()) →
  blocks (r_chain r) !! qc_hash qc = Some b →
  blocks (r_chain r) !! qc_hash (sy_highQC (r_sync r)) = Some old → (b_view old < b_view b)%N →
  ∃ r1, AdvanceView_cert st (SyncInfo_WithQC NewSyncInfo qc) r = Ok (Some (wrap64 (qc_view qc), false), r1) ∧
    r_sync r1 = set_highQC qc b (r_sync r) ∧ good (r_duration r1).
Proof.
  intros (_ & _ & Hs) Hgood Hqc Hb Hold Hlt. unfold AdvanceView_cert. cbn [SyncInfo_WithQC NewSyncInfo si_tc si_qc].
  rewrite (M_bind_run _ _ _ _ _ (crypto_run _ _ r Hqc)). cbn [negb].
  assert (∀ h x, blocks (r_chain r) !! h = Some x → chain_Get st h r = Ok (Some x, r)) as Hget.
  { intros h x Hx. unfold chain_Get, lift_st. rewrite (Get_local _ _ _ _ Hx). by destruct r. }
  assert (UpdateHighQC st qc r = Ok ((), set_sync (set_highQC qc b (r_sync r)) r)) as Hup.
  { unfold UpdateHighQC. rewrite (M_bind_run _ _ _ _ _ (crypto_run _ _ r Hqc)). cbn [negb].
    rewrite (M_bind_run _ _ _ _ _ (Hget _ _ Hb)). unfold HighQC. rewrite M_bind_gets.
    rewrite (M_bind_run _ _ _ _ _ (Hget _ _ Hold)). by rewrite (proj2 (N.ltb_lt _ _) Hlt). }
  rewrite (M_bind_run _ _ _ _ _ Hup). set (r1 := set_sync _ r).
  destruct (Hs (r_duration r1) Hgood) as (d & Hd & Hgood').
  assert (ViewSucceeded r1 = Ok ((), set_duration d r1)) as Hvs by (unfold ViewSucceeded; by rewrite Hd).
  rewrite (M_bind_run _ _ _ _ _ Hvs). by eexists.
Qed.

(** C7: when the votes of a quorum of distinct replicas for a block have been
    verified, the replica has made a certificate for it, which verifies, and
    sent it to itself; handling that message takes it to the view after the
    block's, with the block as its leaf, and the leader of that view is told.
    Nothing on the way blocks or panics. *)
Theorem quorum_of_votes_advances (fuel : nat) (b old : Block) (sigs : list ecdsa_Signature) (leader : ID) (r : R) :
  voting_on b r → r_votes r !! b_hash b = None → signed_by_quorum (b_hash b) sigs →
  blocks (r_chain r) !! qc_hash (sy_highQC (r_sync r)) = Some old → (b_view old < b_view b)%N →
  (sy_currentView (r_sync r) ≤ b_view b)%N → (b_view b + 1 < two64)%N →
  timer_works → good (r_duration r) → led_by (b_view b + 1) leader → sigs ≠ [] →
  ∃ qc r1 r2,
    let si := SyncInfo_WithQC NewSyncInfo qc in
    run st (S fuel) ((λ s, EvVerify (cert_of b s) b) <$> sigs) r = Ok ((), r1) ∧
    qc_hash qc = b_hash b ∧ VerifyQuorumCert qc () = Ok (true, ()) ∧
    r_out r1 = r_out r ++ [EAddEvent (mkNewView (st_ID st) si)] ∧
    run st (S fuel) [EvNewView (mkNewView (st_ID st) si)] r1 = Ok ((), r2) ∧
    sy_currentView (r_sync r2) = (b_view b + 1)%N ∧ sy_highQC (r_sync r2) = qc ∧
    sy_leafBlock (r_sync r2) = b ∧ last (r_out r2) = Some (ENewView leader si).
Proof.
  intros Hon Hv Hq Hold Hlt Hview Hsmall Htimer Hgood Hlead Hne.
  destruct (exists_last Hne) as (init & s & ->). pose proof Hq as (Hvalid & _ & Hlen).
  apply Forall_app in Hvalid as [Hinit _]. rewrite length_app in Hlen. cbn [length] in Hlen.
  destruct (votes_collected (S fuel) b init [] r Hon) as (m & Hrun & Hm); [by rewrite Hv|done|cbn [length]; lia|].
  destruct (verifyCert_completes b init s (set_votes m r) Hon Hq Hm)
    as (qc & r1 & Hlast & Hhash & Hqv & Hver & Hout & Hsync & Hchain & Hdur).
  destruct (AdvanceView_cert_run qc b old r1) as (r1' & Hcert & Hs1 & Hg1); [done|by rewrite Hdur|done| | |done|].
  { rewrite Hchain, Hhash. apply Hon. }
  { by rewrite Hchain, Hsync. }
  rewrite Hqv, wrap64_small in Hcert by lia.
  destruct (AdvanceView_run fuel (SyncInfo_WithQC NewSyncInfo qc) (b_view b) false leader r1 r1') as
    (r2 & Hadv & A1 & A2 & A3 & _ & _ & A4); [done..| |].
  { rewrite Hs1. cbn. by rewrite Hsync. }
  exists qc, r1, r2. rewrite Hs1 in A2, A3. split_and!; [|done..| |done|done|done|done].
  - rewrite fmap_app, run_app, (M_bind_run _ _ _ _ _ Hrun). cbn [fmap list_fmap run handle].
    by rewrite (M_bind_run _ _ _ _ _ Hlast).
  - cbn [run handle OnNewView nv_SyncInfo]. unfold OnNewView. cbn [nv_SyncInfo].
    by rewrite (M_bind_run _ _ _ _ _ Hadv).
Qed.

(** ** Timeouts *)

(** What a timeout for view [v] carries of certificates: they verify, and are of
    earlier views.  Only the timeout certificate counts where there is one. *)
Definition earlier_certs (v : View) (si : SyncInfo) : Prop :=
  match si_tc si, si_qc si with
  | Some tc, _ => VerifyTimeoutCert tc () = Ok (true, ()) ∧ (tc_view tc < v)%N
  | None, Some qc => VerifyQuorumCert qc () = Ok (true, ()) ∧ (qc_view qc < v)%N
  | None, None => True
  end.

(** A timeout for view [v], signed by [s]. *)
Definition timeout_for (v : View) (t : TimeoutMsg) (s : ecdsa_Signature) : Prop :=
  tm_View t = v ∧ tm_ViewSignature t = Some (SigECDSA s) ∧ ec_valid env s (View_ToHash v) = true ∧
  earlier_certs v (tm_SyncInfo t).

(** The block of the highest QC is stored, as it is in every run
    ([replica_well_formed]). *)
Definition high_stored (r : R) : Prop := is_Some (blocks (r_chain r) !! qc_hash (sy_highQC (r_sync r))).

(** What the certificates of a timeout may change: the highest certificates and
    the chain. *)
Definition same_timeouts (r r' : R) : Prop :=
  sy_currentView (r_sync r') = sy_currentView (r_sync r) ∧ sy_timeouts (r_sync r') = sy_timeouts (r_sync r) ∧
  (good (r_duration r) → good (r_duration r')).

Lemma chain_Get_returns h (r : R) :
  ∃ b c, chain_Get st h r = Ok (b, set_chain c r) ∧ chain_grows (r_chain r) c ∧ ∀ x, b = Some x → blocks c !! h = Some x.
Proof.
  pose proof (Get_grows (st_net st) h (r_chain r)) as Hg.
  pose proof (λ b, Get_stored (st_net st) h (r_chain r) b) as Hs. unfold chain_Get, lift_st.
  destruct (blockChain_Get (st_net st) h (r_chain r)) as [b c]. exists b, c. split_and!; [done..|].
  intros x ->. by apply Hs.
Qed.

(** A certificate that verifies is taken over or not, whether its block can be
    fetched or not. *)
Lemma UpdateHighQC_run qc (r : R) :
  VerifyQuorumCert qc () = Ok (true, ()) → high_stored r →
  ∃ r1, UpdateHighQC st qc r = Ok ((), r1) ∧ same_timeouts r r1 ∧ high_stored r1.
Proof.
  intros Hqc Hst. unfold UpdateHighQC. rewrite (M_bind_run _ _ _ _ _ (crypto_run _ _ r Hqc)). cbn [negb].
  destruct (chain_Get_returns (qc_hash qc) r) as (b & c & Hget & [Hg _] & Hb). rewrite (M_bind_run _ _ _ _ _ Hget).
  destruct b as [b|]; [|by exists (set_chain c r); split_and!; try done; apply Hg].
  unfold HighQC. rewrite M_bind_gets. cbn [r_sync set_chain].
  destruct (Hg _ Hst) as [old Hold].
  destruct (chain_Get_returns (qc_hash (sy_highQC (r_sync r))) (set_chain c r)) as (o & c' & Hget' & [Hg' _] & _).
  assert (o = Some old) as ->.
  { unfold chain_Get, lift_st in Hget'. cbn [r_chain set_chain] in Hget'. rewrite (Get_local _ _ _ _ Hold) in Hget'. by injection Hget' as <-. }
  rewrite (M_bind_run _ _ _ _ _ Hget'). cbn [r_chain set_chain] in Hg'.
  destruct (b_view old <? b_view b)%N; (eexists; split; [reflexivity|]); split; try done.
  - apply (Hg' (qc_hash qc)). exists b. by apply Hb.
  - apply Hg'. by exists old.
Qed.

(** The certificates of a timeout do not take the replica out of its view. *)
Lemma earlier_certs_run fuel v si (r : R) :
  earlier_certs v si → timer_works → sy_currentView (r_sync r) = v → v ≠ 0%N → (v < two64)%N →
  good (r_duration r) → high_stored r →
  ∃ r1, AdvanceView st (S fuel) si r = Ok ((), r1) ∧ same_timeouts r r1 ∧ high_stored r1.
Proof.
  intros Hsi (_ & _ & Hsucc) Hcur Hv0 Hv Hgood Hst. cbn [AdvanceView]. unfold AdvanceView_body.
  assert (∃ w timeout r1, AdvanceView_cert st si r = Ok (Some (w, timeout), r1) ∧ (w < v)%N ∧
    same_timeouts r r1 ∧ high_stored r1) as (w & timeout & r1 & Hcert & Hw & Hsame & Hst1).
  { unfold earlier_certs in Hsi. unfold AdvanceView_cert.
    destruct (si_tc si) as [tc|]; [|destruct (si_qc si) as [qc|]].
    - destruct Hsi as [Htc Hlt]. rewrite (M_bind_run _ _ _ _ _ (crypto_run _ _ r Htc)). cbn [negb].
      unfold upd_sync. rewrite M_bind_modify. eexists _, _, _. split; [reflexivity|].
      rewrite wrap64_small by lia. split; [done|].
      unfold same_timeouts, high_stored. cbn. by destruct (_ <? _)%N.
    - destruct Hsi as [Hqc Hlt]. rewrite (M_bind_run _ _ _ _ _ (crypto_run _ _ r Hqc)). cbn [negb].
      destruct (UpdateHighQC_run qc r Hqc Hst) as (r1 & Hup & (S1 & S2 & S3) & Hst1).
      rewrite (M_bind_run _ _ _ _ _ Hup). destruct (Hsucc (r_duration r1) (S3 Hgood)) as (d & Hd & Hgood').
      assert (ViewSucceeded r1 = Ok ((), set_duration d r1)) as Hvs by (unfold ViewSucceeded; by rewrite Hd).
      rewrite (M_bind_run _ _ _ _ _ Hvs). eexists _, _, _. split; [reflexivity|].
      rewrite wrap64_small by lia. done.
    - exists 0%N, false, r. split_and!; [done|lia|done..]. }
  rewrite (M_bind_run _ _ _ _ _ Hcert). unfold View_. rewrite M_bind_gets. destruct Hsame as (S1 & S2 & S3).
  rewrite S1, Hcur, (proj2 (N.ltb_lt _ _)) by done. by exists r1.
Qed.

(** The timeouts that were collected for the current view. *)
Definition collected (v : View) (m : gmap ID TimeoutMsg) (r : R) : Prop :=
  sy_currentView (r_sync r) = v ∧ default ∅ (sy_timeouts (r_sync r) !! v) = m ∧ good (r_duration r) ∧ high_stored r.

(** What the views and the timer have to be like. *)
Context (Htimer : timer_works).

(** What handling a timeout does up to the count. *)
Lemma timeout_added fuel v t s m (r : R) (k : gmap ID TimeoutMsg → M R ()) :
  timeout_for v t s → collected v m r → v ≠ 0%N → (v < two64)%N → m !! tm_ID t = None →
  ∃ r1, (ok ← crypto (Verify (tm_ViewSignature t) (View_ToHash (tm_View t)));
         if negb ok then mret ()
         else _ ← AdvanceView st (S fuel) (tm_SyncInfo t); timeouts ← add_timeout t; k timeouts) r =
        k (<[tm_ID t := t]> m) r1 ∧
    sy_currentView (r_sync r1) = v ∧ sy_timeouts (r_sync r1) !! v = Some (<[tm_ID t := t]> m) ∧
    good (r_duration r1) ∧ high_stored r1.
Proof.
  intros (Hv & Hsig & Hvalid & Hsi) (Hcur & Hm & Hgood & Hst) Hv0 Hv64 Hnew.
  assert (Verify (tm_ViewSignature t) (View_ToHash (tm_View t)) () = Ok (true, ())) as Hver.
  { rewrite Hsig, Hv, <-Hvalid. exact (self_Verify_run env s (View_ToHash v) Hcfg). }
  rewrite (M_bind_run _ _ _ _ _ (crypto_run _ _ r Hver)). cbn [negb].
  destruct (earlier_certs_run fuel v (tm_SyncInfo t) r) as (r1 & Hadv & (S1 & S2 & S3) & Hst1); [done..|].
  rewrite (M_bind_run _ _ _ _ _ Hadv).
  assert (add_timeout t r1 = Ok (<[tm_ID t := t]> m,
    set_sync (set_timeouts (<[v := <[tm_ID t := t]> m]> (sy_timeouts (r_sync r1))) (r_sync r1)) r1)) as Hadd
    by (unfold add_timeout; by rewrite Hv, S2, Hm, Hnew).
  rewrite (M_bind_run _ _ _ _ _ Hadd). eexists. split; [reflexivity|].
  cbn. rewrite lookup_insert_eq, S1. auto.
Qed.

Lemma timeout_collects fuel v t s m (r : R) :
  timeout_for v t s → collected v m r → v ≠ 0%N → (v < two64)%N → m !! tm_ID t = None →
  (Z.of_nat (S (size m)) < env_QuorumSize env)%Z →
  ∃ r', OnRemoteTimeout st (S fuel) t r = Ok ((), r') ∧ collected v (<[tm_ID t := t]> m) r'.
Proof.
  intros Ht Hc Hv0 Hv Hnew Hsize. unfold OnRemoteTimeout, OnRemoteTimeout_body.
  edestruct (timeout_added fuel v t s m r) as (r1 & Hrun & Hcur & Htos & Hgood & Hst); [done..|].
  rewrite (M_bind_run _ _ r () r1).
  - eexists. split; [reflexivity|]. cbn. split; [done|]. split; [|done]. cbn.
    rewrite (map_lookup_filter_Some_2 _ _ v (<[tm_ID t := t]> m)); [done|done|]. rewrite Hcur. done.
  - etrans; [exact Hrun|]. cbv beta. rewrite map_size_insert_None, Hquorum by done.
    by rewrite (proj2 (Z.ltb_lt _ _)) by lia.
Qed.

(** Timeouts with their signatures, and the map they are collected in. *)
Definition by_sender (ps : list (TimeoutMsg * ecdsa_Signature)) : gmap ID TimeoutMsg :=
  list_to_map ((λ p, (tm_ID p.1, p.1)) <$> ps).

Lemma by_sender_fresh ps t : tm_ID t ∉ (λ p, tm_ID p.1) <$> ps → by_sender ps !! tm_ID t = None.
Proof. intros H. apply not_elem_of_list_to_map_1. by rewrite <-list_fmap_compose. Qed.

Lemma by_sender_size ps : NoDup ((λ p, tm_ID p.1) <$> ps) → size (by_sender ps) = length ps.
Proof.
  intros Hnd. unfold by_sender. rewrite <-length_map_to_list.
  rewrite map_to_list_to_map by (by rewrite <-list_fmap_compose). by rewrite length_fmap.
Qed.

(** The signatures are those of the collected timeouts, in some order. *)
Lemma by_sender_signatures v ps :
  NoDup ((λ p, tm_ID p.1) <$> ps) → Forall (λ p, timeout_for v p.1 p.2) ps →
  ∃ sigs, sigs ≡ₚ snd <$> ps ∧
    tm_ViewSignature <$> (snd <$> map_to_list (by_sender ps)) = (λ s, Some (SigECDSA s)) <$> sigs.
Proof.
  intros Hnd Hps. assert (map_to_list (by_sender ps) ≡ₚ (λ p, (tm_ID p.1, p.1)) <$> ps) as Hperm
    by (apply map_to_list_to_map; by rewrite <-list_fmap_compose).
  apply Permutation_map_inv in Hperm as (ps' & Heq & Hps'). exists (snd <$> ps').
  split; [symmetry; by apply Permutation_map|]. rewrite Heq. change (List.map ?f ?l) with (f <$> l).
  rewrite Hps' in Hps. rewrite <-!list_fmap_compose.
  apply list_fmap_ext. intros k p Hp%list_elem_of_lookup_2. cbn.
  rewrite Forall_forall in Hps. by destruct (Hps p Hp) as (_ & -> & _).
Qed.

Lemma timeouts_collected fuel v ps done_ (r : R) :
  Forall (λ p, timeout_for v p.1 p.2) ps → NoDup ((λ p, tm_ID p.1) <$> (ps ++ done_)) →
  v ≠ 0%N → (v < two64)%N → collected v (by_sender done_) r → (Z.of_nat (length (ps ++ done_)) < env_QuorumSize env)%Z →
  ∃ r', run st (S fuel) ((λ p, EvTimeout p.1) <$> ps) r = Ok ((), r') ∧
    collected v (by_sender (reverse ps ++ done_)) r'.
Proof.
  intros Hps. revert done_ r. induction Hps as [|[t s] ps Ht _ IH]; intros done_ r Hnd Hv0 Hv Hc Hlen; [by exists r|].
  cbn [app] in Hnd, Hlen. rewrite fmap_cons in Hnd. apply NoDup_cons in Hnd as [Hnew Hnd].
  cbn [length] in Hlen. cbn [fst] in Hnew. rewrite fmap_cons.
  rewrite fmap_app, not_elem_of_app in Hnew. rewrite length_app in Hlen.
  assert (NoDup ((λ p, tm_ID p.1) <$> done_)) as Hnd' by (rewrite fmap_app in Hnd; by apply NoDup_app in Hnd as (_ & _ & ?)).
  destruct (timeout_collects fuel v t s (by_sender done_) r Ht Hc Hv0 Hv) as (r1 & Hrun & Hc1).
  { apply by_sender_fresh, Hnew. }
  { rewrite by_sender_size by done. lia. }
  destruct (IH ((t, s) :: done_) r1) as (r2 & Hrun2 & Hc2).
  - rewrite fmap_app, fmap_cons. cbn [fst]. rewrite <-Permutation_middle, <-fmap_app. apply NoDup_cons.
    rewrite fmap_app, not_elem_of_app. by rewrite <-fmap_app.
  - done.
  - done.
  - exact Hc1.
  - rewrite length_app. cbn [length]. lia.
  - exists r2. rewrite reverse_cons, <-app_assoc. cbn [run handle]. rewrite (M_bind_run _ _ _ _ _ Hrun).
    by split.
Qed.

Lemma timeout_completes fuel v t s ps leader (r : R) :
  timeout_for v t s → Forall (λ p, timeout_for v p.1 p.2) ps →
  NoDup ((λ p, tm_ID p.1) <$> (t, s) :: ps) → signed_by_quorum (View_ToHash v) (s :: (snd <$> ps)) →
  collected v (by_sender ps) r → shouldUseAggQC (st_opts st) = false →
  v ≠ 0%N → (v + 1 < two64)%N → led_by (v + 1) leader →
  ∃ r' tc si, OnRemoteTimeout st (S fuel) t r = Ok ((), r') ∧ sy_currentView (r_sync r') = (v + 1)%N ∧
    si_tc si = Some tc ∧ tc_view tc = v ∧ VerifyTimeoutCert tc () = Ok (true, ()) ∧
    last (r_out r') = Some (ENewView leader si).
Proof.
  intros Ht Hps Hnd Hq Hc Hopt Hv0 Hv Hlead.
  assert (Forall (λ p, timeout_for v p.1 p.2) ((t, s) :: ps)) as Hall by by constructor.
  destruct (by_sender_signatures v ((t, s) :: ps) Hnd Hall) as (sigs & Hperm & Hsigs).
  destruct (quorum_threshold (View_ToHash v) sigs) as (thr & Hcreate & Hver).
  { eapply signed_by_quorum_perm; [|exact Hq]. by symmetry. }
  set (tc := NewTimeoutCert (Some (ThrECDSA thr)) v).
  assert (VerifyTimeoutCert tc () = Ok (true, ())) as Htc
    by (unfold VerifyTimeoutCert; cbn [tc tc_view]; by rewrite (proj2 (N.eqb_neq _ _) Hv0)).
  pose proof Hnd as [Hnew Hnd']%NoDup_cons. unfold OnRemoteTimeout, OnRemoteTimeout_body.
  edestruct (timeout_added fuel v t s (by_sender ps) r) as (r1 & Hrun & Hcur & Htos & Hgood & Hst);
    [done..|lia|by apply by_sender_fresh|].
  set (si := SyncInfo_WithTC (left_by NewSyncInfo (res_map (λ x, (x.2, x.1)) (getSyncInfo r1))) tc).
  set (r2 := set_sync (set_timeouts (delete (tm_View t) (sy_timeouts (r_sync r1))) (r_sync r1)) r1).
  assert (AdvanceView_cert st si r2 = Ok (Some (v, true),
    set_sync (if (tc_view (sy_highTC (r_sync r2)) <? v)%N then set_highTC tc (r_sync r2) else r_sync r2) r2)) as Hcert.
  { unfold AdvanceView_cert. cbn [si SyncInfo_WithTC si_tc].
    rewrite (M_bind_run _ _ _ _ _ (crypto_run _ _ r2 Htc)). cbn [negb].
    unfold upd_sync. rewrite M_bind_modify. cbn [tc tc_view]. by rewrite wrap64_small by lia. }
  eassert (good (r_duration (set_sync _ r2))) as Hgood2 by exact Hgood.
  destruct (AdvanceView_run fuel si v true leader _ _ Htimer Hgood2 Hlead Hv Hcert) as (r3 & Hadv & Hv3 & _ & _ & _ & _ & Hlast).
  { cbn [r_sync set_sync]. destruct (_ <? v)%N; cbn; lia. }
  rewrite (M_bind_run _ _ r () r3).
  - eexists _, tc, si. split; [reflexivity|]. cbn. done.
  - etrans; [exact Hrun|]. cbv beta.
    change (<[tm_ID t := t]> (by_sender ps)) with (by_sender ((t, s) :: ps)).
    rewrite by_sender_size, Hquorum by done. destruct Hq as (_ & _ & Hlen). cbn [length] in Hlen |- *.
    rewrite length_fmap in Hlen. rewrite (proj2 (Z.ltb_ge _ _)) by lia.
    assert (CreateTimeoutCert v (snd <$> map_to_list (by_sender ((t, s) :: ps))) () = Ok (inl tc, ())) as Hct.
    { unfold CreateTimeoutCert. rewrite (proj2 (N.eqb_neq _ _) Hv0), Hsigs.
      by rewrite (M_bind_run _ _ _ _ _ Hcreate). }
    destruct Ht as (Htv & _). rewrite Htv.
    rewrite (M_bind_run _ _ _ _ _ (crypto_run _ _ r1 Hct)). cbv iota. unfold getSyncInfo.
    rewrite M_bind_gets, Hopt, M_bind_ret. unfold upd_sync. rewrite M_bind_modify.
    unfold r2 in Hadv. rewrite Htv in Hadv. exact Hadv.
Qed.

(** C8: when a quorum of distinct replicas have sent a timeout for the current
    view, each with certificates of earlier views that verify, as a replica sends
    them, the replica has made a timeout certificate, which verifies, and has
    entered the next view; the leader of that view, another replica, is sent the
    certificate.  Nothing on the way blocks or panics. *)
Theorem quorum_of_timeouts_advances (fuel : nat) (v : View) (ps : list (TimeoutMsg * ecdsa_Signature))
    (leader : ID) (r : R) :
  Forall (λ p, timeout_for v p.1 p.2) ps → NoDup ((λ p, tm_ID p.1) <$> ps) →
  signed_by_quorum (View_ToHash v) (snd <$> ps) → ps ≠ [] →
  sy_currentView (r_sync r) = v → sy_timeouts (r_sync r) !! v = None → high_stored r →
  shouldUseAggQC (st_opts st) = false → v ≠ 0%N → (v + 1 < two64)%N →
  good (r_duration r) → led_by (v + 1) leader →
  ∃ r' tc si, run st (S fuel) ((λ p, EvTimeout p.1) <$> ps) r = Ok ((), r') ∧
    sy_currentView (r_sync r') = (v + 1)%N ∧ si_tc si = Some tc ∧ tc_view tc = v ∧
    VerifyTimeoutCert tc () = Ok (true, ()) ∧ last (r_out r') = Some (ENewView leader si).
Proof.
  intros Hps Hnd Hq Hne Hcur Hnone Hst Hopt Hv0 Hv Hgood Hlead.
  destruct (exists_last Hne) as (init & [t s] & ->). apply Forall_app in Hps as [Hinit [Ht _]%Forall_cons].
  destruct (timeouts_collected fuel v init [] r Hinit) as (r1 & Hrun & Hc).
  { rewrite app_nil_r. rewrite fmap_app in Hnd. by apply NoDup_app in Hnd as (? & _). }
  { done. }
  { lia. }
  { split_and!; [done|by rewrite Hnone|done..]. }
  { destruct Hq as (_ & _ & Hlen). rewrite app_nil_r. rewrite length_fmap, length_app in Hlen. cbn [length] in Hlen. lia. }
  rewrite app_nil_r in Hc. assert ((t, s) :: reverse init ≡ₚ init ++ [(t, s)]) as Hperm
    by (rewrite <-Permutation_cons_append; apply perm_skip, reverse_Permutation).
  destruct (timeout_completes fuel v t s (reverse init) leader r1) as (r' & tc & si & Hlast & Hrest); [done|..].
  - by apply Forall_reverse.
  - eapply NoDup_Permutation_proper; [|exact Hnd]. apply fmap_Permutation. exact Hperm.
  - eapply signed_by_quorum_perm; [|exact Hq]. symmetry.
    exact (fmap_Permutation snd _ _ Hperm).
  - done.
  - done.
  - done.
  - done.
  - done.
  - exists r', tc, si. split; [|exact Hrest]. rewrite fmap_app, run_app, (M_bind_run _ _ _ _ _ Hrun).
    cbn [fmap list_fmap run handle fst]. by rewrite (M_bind_run _ _ _ _ _ Hlast).
Qed.
End progress.
