(* ===== verification/ReplicaExample.v ===== *)
(** * A replica to evaluate

    Four replicas with ECDSA signatures, round-robin leaders, the simple rules
    and a command cache; the theorems of [Consensus] applied to runs of it. *)

From S2P Require Import Prelude Encoding Bitfield Types BlockChain CryptoBase Ecdsa Replica.
From S2P Require Import Rules Consensus Invariants LeaderRotation CmdCache ViewTimer.
From Stdlib Require Import Strings.Byte Sorted SpecFloat.

#[export] Existing Instance ScalarBLS.
#[export] Existing Instance ToyECDSA.
#[export] Existing Instance NumberCodec.

Abbreviation R := (Replica () cmdSource () viewDuration).

Definition env (id : ID) : CryptoEnv :=
  mkEnv id (PrivECDSA ((100 + id)%N : ecdsa_PrivateKey))
    {[1 := PubECDSA 101; 2 := PubECDSA 102; 3 := PubECDSA 103; 4 := PubECDSA 104]}%N [].

Definition st (id : ID) : Static :=
  mkStatic id {[1; 2; 3; 4]}%N (mkOptions false) (λ _ _, ([], None)) 20.

(** Three commands are waiting. *)
Definition commands : cmdSource :=
  mkSource (foldl addCommand (newCmdCache 1)
    [mkCmd 7 1 [Byte.x61]; mkCmd 7 2 [Byte.x62]; mkCmd 7 3 [Byte.x63]]) [].

Definition fresh : R :=
  Replica_New () commands () (NewViewDuration 10 (f64_of_Z 100) (f64_of_Z 1000) (f64_of_Z 2) 0).

Abbreviation run_at id := (run (CI := ecdsaCrypto (env id)) (LR := NewRoundRobin (st id))
  (RU := SimpleHotStuff (st id)) (st id) 5).

(** Replica 2 leads the first view: it proposes and votes for its block. *)
Definition started : R := left_by fresh (run_at 2%N [EvStart] fresh).

Definition proposed_in (out : list effect) : Block :=
  match out with [_; EPropose p; _] => pm_Block p | _ => GetGenesis end.
Definition first_block : Block := proposed_in (r_out started).

Definition vote (id : ID) : VoteMsg :=
  mkVote id (NewPartialCert
    (Some (SigECDSA (ec_sig (100 + id) (big_SetBytes (b_hash first_block)) id))) (b_hash first_block)) false.

(** Three votes make a certificate for the block of view 1. *)
Definition certified_events : list event :=
  [EvStart; EvVerify (vm_PartialCert (vote 1)) first_block; EvVerify (vm_PartialCert (vote 2)) first_block;
   EvVerify (vm_PartialCert (vote 3)) first_block].
Definition certified : R := left_by fresh (run_at 2%N certified_events fresh).

(** The certificate sends replica 2 to view 2, whose leader is replica 3. *)
Definition new_view_in (out : list effect) : list event :=
  match last out with Some (EAddEvent m) => [EvNewView m] | _ => [] end.
Definition second_events : list event := certified_events ++ new_view_in (r_out certified).
Definition second : R := left_by fresh (run_at 2%N second_events fresh).

Lemma second_returns : run_at 2%N second_events fresh = Ok ((), second).
Proof. apply left_by_Ok. vm_compute. reflexivity. Qed.

Example second_view :
  sy_currentView (r_sync second) = 2%N ∧ cs_lastVote (r_cs second) = 1%N ∧
  sy_leafBlock (r_sync second) = first_block ∧
  match last (r_out second) with Some (ENewView 3 _) => true | _ => false end = true.
Proof. vm_compute. repeat split; reflexivity. Qed.

Lemma one_vote_per_view_witness :
  ∃ bs, pc_blockHash <$> omap vote_of (r_out second) = b_hash <$> bs ∧
        StronglySorted N.lt (b_view <$> bs) ∧
        Forall (λ b, proposed second_events (r_out second) b ∧ 0 < b_view b ≤ cs_lastVote (r_cs second))%N bs.
Proof.
  apply (one_vote_per_view (CI := ecdsaCrypto (env 2)) (LR := NewRoundRobin (st 2))
    (RU := SimpleHotStuff (st 2)) (st 2) 5 second_events () commands ()
    (NewViewDuration 10 (f64_of_Z 100) (f64_of_Z 1000) (f64_of_Z 2) 0) second).
  exact second_returns.
Defined.

Lemma replica_monotone_witness :
  (cs_lastVote (r_cs fresh) ≤ cs_lastVote (r_cs second))%N ∧
  (b_view (cs_bExec (r_cs fresh)) ≤ b_view (cs_bExec (r_cs second)))%N ∧
  (b_view (r_lock fresh) ≤ b_view (r_lock second))%N.
Proof.
  refine (let H := replica_monotone (CI := ecdsaCrypto (env 2)) (LR := NewRoundRobin (st 2))
    (RU := SimpleHotStuff (st 2)) (st 2) 5 second_events fresh second second_returns in
    conj (proj1 H) (conj (proj1 (proj2 H)) (proj1 (proj2 (proj2 H))))).
Defined.

Definition genesis_info : SyncInfo :=
  SyncInfo_WithQC NewSyncInfo (NewQuorumCert None 4 (b_hash GetGenesis)).

Abbreviation body := (AdvanceView_body (CI := ecdsaCrypto (env 2)) (LR := NewRoundRobin (st 2))
  (RU := SimpleHotStuff (st 2)) (st 2)).

(** A certificate that takes replica 2 to view 5, which it leads. *)
Lemma AdvanceView_terminates_witness :
  AdvanceView (CI := ecdsaCrypto (env 2)) (LR := NewRoundRobin (st 2)) (RU := SimpleHotStuff (st 2))
    (st 2) (3 + 7) genesis_info fresh =
  body (body (body (λ _, panic "not reached"))) genesis_info fresh.
Proof.
  apply (AdvanceView_terminates (CI := ecdsaCrypto (env 2)) (LR := NewRoundRobin (st 2))
    (RU := SimpleHotStuff (st 2)) (st 2) 7 (λ _, panic "not reached") genesis_info fresh); reflexivity.
Defined.

Lemma replica_well_formed_witness :
  (sy_currentView (r_sync second) < two64)%N ∧
  is_Some (blockChain_LocalGet (qc_hash (sy_highQC (r_sync second))) (r_chain second)) ∧
  ∀ h certs, r_votes second !! h = Some certs → certs ≠ [].
Proof.
  destruct (replica_well_formed (CI := ecdsaCrypto (env 2)) (LR := NewRoundRobin (st 2))
    (RU := SimpleHotStuff (st 2)) (st 2) 5 second_events () commands ()
    (NewViewDuration 10 (f64_of_Z 100) (f64_of_Z 1000) (f64_of_Z 2) 0) second second_returns)
    as (H1 & _ & H2 & _ & H3 & _).
  split; [exact H1|]. split; [exact H2|]. intros h certs H. exact (proj1 (H3 h certs H)).
Defined.

(** A timeout in view 1, and then the certificate: replica 2 proposes in view
    5 and votes for its block. *)
Definition timed_events : list event := [EvLocalTimeout false; EvNewView (mkNewView 3 genesis_info)].
Definition timed : R := left_by fresh (run_at 2%N timed_events fresh).
Definition a_timeout : TimeoutMsg := mkTimeout 0 0 None None NewSyncInfo.
Definition first_timeout (out : list effect) : TimeoutMsg * list effect :=
  match out with ETimeout t :: post => (t, post) | _ => (a_timeout, []) end.

Lemma timed_returns : run_at 2%N timed_events fresh = Ok ((), timed).
Proof. apply left_by_Ok. vm_compute. reflexivity. Qed.

Lemma timed_out : r_out timed = ETimeout (first_timeout (r_out timed)).1 :: (first_timeout (r_out timed)).2 .
Proof. vm_compute. reflexivity. Qed.

Example timed_votes :
  length (omap vote_of (first_timeout (r_out timed)).2) = 1 ∧ tm_View (first_timeout (r_out timed)).1 = 1%N.
Proof. vm_compute. split; reflexivity. Qed.

Lemma no_vote_after_timeout_witness :
  votes_above (proposed timed_events (r_out timed)) (tm_View (first_timeout (r_out timed)).1) (first_timeout (r_out timed)).2 .
Proof.
  exact (no_vote_after_timeout (CI := ecdsaCrypto (env 2)) (LR := NewRoundRobin (st 2))
    (RU := SimpleHotStuff (st 2)) (st 2) 5 timed_events () commands ()
    (NewViewDuration 10 (f64_of_Z 100) (f64_of_Z 1000) (f64_of_Z 2) 0) timed [] _ _ timed_returns timed_out).
Defined.

Import ChainExample.

(** A replica that knows the tree of [ChainExample]. *)
Definition knows_tree : R := set_chain chain fresh.

Lemma commitInner_executes_witness :
  ∃ bs r', commitInner (st 2) 4 b3 knows_tree = Ok ((), r') ∧
    r_out r' = r_out knows_tree ++ (EExec <$> bs) ∧ cs_bExec (r_cs r') = b3 ∧
    StronglySorted N.lt (b_view <$> bs) ∧
    ∀ a, a ∈ bs ↔ rtc (parent_in (r_chain knows_tree)) b3 a ∧
                 (b_view (cs_bExec (r_cs knows_tree)) < b_view a)%N.
Proof.
  apply (commitInner_executes (st 2) b3 knows_tree).
  - apply chain_rootedb_ok. vm_compute. reflexivity.
  - assert (blocks chain !! b_parent b3 = Some b1) as E3 by (vm_compute; reflexivity).
    unfold parent_below, knows_tree. cbn [r_chain set_chain]. rewrite E3. reflexivity.
  - reflexivity.
Defined.

(** A certificate of the largest view for the genesis block verifies, and takes
    the replica back to view 0. *)
Definition wrapping_info : SyncInfo :=
  SyncInfo_WithQC NewSyncInfo (NewQuorumCert None (two64 - 1) (b_hash GetGenesis)).

(** The view counter overflows: a replica accepts a certificate for the
    genesis block that claims the largest view, without any signature, and
    enters view 0. *)
Theorem forged_view_wraps :
  match run_at 2%N [EvStart; EvNewView (mkNewView 4 wrapping_info)] fresh with
  | Ok (_, r) => sy_currentView (r_sync started) = 1%N ∧ sy_currentView (r_sync r) = 0%N
  | _ => False
  end.
Proof. vm_compute. split; reflexivity. Qed.

(** ** The certificate next to a timeout certificate *)

(** The timeout certificate of view 4, signed by replicas 1, 2 and 3, sent with
    a quorum certificate for the block with hash [h]. *)
Definition timeout_cert4 : TimeoutCert :=
  NewTimeoutCert (Some (ThrECDSA (RestoreThresholdSignature
    ((λ id, ec_sig (100 + id) (big_SetBytes (View_ToHash 4)) id) <$> [1; 2; 3]%N)))) 4.
Definition info_with (h : Hash) : SyncInfo :=
  SyncInfo_WithTC (SyncInfo_WithQC NewSyncInfo (NewQuorumCert None 4 h)) timeout_cert4.
Definition proposes_at (h : Hash) : option (View * nat) :=
  match run_at 2%N [EvNewView (mkNewView 3 (info_with h))] fresh with
  | Ok (_, r) => Some (sy_currentView (r_sync r),
      length (omap (λ e, match e with EPropose p => Some p | _ => None end) (r_out r)))
  | _ => None
  end.

(** Of the certificates of a new-view message only the timeout certificate
    is verified when there is one, but the proposal builds on the other.  With a
    certificate for a block that does not exist, replica 2 enters view 5, which
    it leads, and does not propose; with one for the genesis block it does. *)
Theorem newview_spoils_turn :
  proposes_at zero_hash = Some (5%N, 0) ∧ proposes_at (b_hash GetGenesis) = Some (5%N, 1).
Proof. vm_compute. split; reflexivity. Qed.
