(* ===== verification/ProgressExample.v ===== *)
(** * The theorems of [Progress] on four replicas

    Replica 2 of [ReplicaExample] in the first view: the votes of three
    replicas for its block, and the timeouts of three replicas. *)

From S2P Require Import Prelude Encoding Bitfield Types BlockChain CryptoBase Ecdsa Replica.
From S2P Require Import Rules Consensus LeaderRotation CmdCache Progress ViewTimer ReplicaExample.
From Stdlib Require Import Strings.Byte.

#[local] Instance round_robin : LeaderRotation () cmdSource () viewDuration := NewRoundRobin (st 2).
#[local] Instance simple : Rules () cmdSource () viewDuration (CI := ecdsaCrypto (env 2)) := SimpleHotStuff (st 2).

Definition sampling (d : viewDuration) : Prop := (0 < vd_limit d)%N.

Lemma timer_samples : timer_works sampling.
Proof.
  unfold timer_works, sampling. cbn [vd_Duration vd_ViewStarted vd_ViewSucceeded viewDuration_interface].
  assert (∀ d, (0 < vd_limit d)%N → (vd_limit d =? 0)%N = false) as Hnz by (intros d ?; apply N.eqb_neq; lia).
  split_and!.
  - intros v d Hd. unfold Duration_. rewrite Hnz by done. by eexists.
  - done.
  - intros d Hd. unfold ViewSucceeded. destruct (vd_startTime d); [|by eexists]. rewrite Hnz by done.
    repeat match goal with |- context [match ?x with (_, _) => _ end] => destruct x end. by eexists.
Qed.

Lemma env2_ecdsa : ecdsa_config (env 2).
Proof.
  unfold ecdsa_config. cbn [env_replicas env].
  repeat (apply map_Forall_insert_2; [done|]). apply map_Forall_empty.
Qed.

Lemma second_leader : led_by (st 2) 2 3.
Proof.
  split; [by intros r; exists r|]. split; [done|]. apply (bool_decide_unpack _). vm_compute. exact I.
Qed.

(** What the theorems ask of the state and of the block that was proposed in
    it, checked at once. *)
Definition suits (r : R) : Prop :=
  let b := proposed_in (r_out r) in
  let s := r_sync r in
  bool_decide (b_hash b = b_hash GetGenesis) = false ∧
  blocks (r_chain r) !! b_hash b = Some b ∧ r_votes r !! b_hash b = None ∧
  blocks (r_chain r) !! qc_hash (sy_highQC s) = Some GetGenesis ∧
  b_view b = 1%N ∧ b_view (sy_leafBlock s) = 0%N ∧ sy_currentView s = 1%N ∧
  sy_timeouts s !! 1%N = None ∧ (0 <? vd_limit (r_duration r))%N = true.

Lemma started_suits : suits started.
Proof. vm_compute. repeat split; reflexivity. Qed.

Lemma started_facts :
  voting_on first_block started ∧ r_votes started !! b_hash first_block = None ∧
  blocks (r_chain started) !! qc_hash (sy_highQC (r_sync started)) = Some GetGenesis ∧
  b_view first_block = 1%N ∧ sy_currentView (r_sync started) = 1%N ∧
  sy_timeouts (r_sync started) !! 1%N = None ∧ sampling (r_duration started).
Proof.
  destruct started_suits as (H1 & H2 & H3 & H4 & H5 & H6 & H7 & H8 & H9). apply bool_decide_eq_false in H1.
  split_and!; [split; [exact H1|split; [exact H2|]]|exact H3|exact H4|exact H5|exact H7|exact H8|by apply N.ltb_lt].
  rewrite H6. change (0 < b_view (proposed_in (r_out started)))%N. by rewrite H5.
Qed.

(** The signature of a replica. *)
Definition sig_on (h : Hash) (id : ID) : ecdsa_Signature := ec_sig (100 + id) (big_SetBytes h) id.

Lemma three_sign h : signed_by_quorum (env 2) h (sig_on h <$> [1; 2; 3]%N).
Proof.
  split_and!; [|apply (bool_decide_unpack _); vm_compute; exact I|reflexivity].
  assert (∀ i pk, env_replicas (env 2) !! i = Some (PubECDSA pk) → pk = (100 + i)%N →
    ec_valid (env 2) (sig_on h i) h = true) as Hv.
  { intros i pk Hi ->. unfold ec_valid, sig_on. cbn [ec_signer]. rewrite Hi.
    cbn [ecdsa_Verify ToyECDSA ec_r ec_s]. by rewrite !N.eqb_refl. }
  repeat constructor; by eapply Hv.
Qed.

Lemma quorum_of_votes_advances_witness :
  ∃ qc r1 r2,
    let si := SyncInfo_WithQC NewSyncInfo qc in
    run_at 2%N ((λ s, EvVerify (cert_of first_block s) first_block) <$> (sig_on (b_hash first_block) <$> [1; 2; 3]%N))
      started = Ok ((), r1) ∧
    run_at 2%N [EvNewView (mkNewView 2 si)] r1 = Ok ((), r2) ∧ sy_currentView (r_sync r2) = 2%N ∧
    last (r_out r2) = Some (ENewView 3 si).
Proof.
  destruct (quorum_of_votes_advances (env 2) (st 2) env2_ecdsa eq_refl sampling 4 first_block GetGenesis
    (sig_on (b_hash first_block) <$> [1; 2; 3]%N) 3 started)
    as (qc & r1 & r2 & H1 & _ & _ & _ & H2 & H3 & _ & _ & H4).
  - apply started_facts.
  - apply started_facts.
  - apply three_sign.
  - apply started_facts.
  - destruct started_facts as (_ & _ & _ & -> & _). reflexivity.
  - destruct started_facts as (_ & _ & _ & -> & -> & _). reflexivity.
  - destruct started_facts as (_ & _ & _ & -> & _). reflexivity.
  - exact timer_samples.
  - apply started_facts.
  - destruct started_facts as (_ & _ & _ & -> & _). exact second_leader.
  - discriminate.
  - exists qc, r1, r2. split; [exact H1|]. split; [exact H2|]. split; [|exact H4].
    rewrite H3. destruct started_facts as (_ & _ & _ & -> & _). reflexivity.
Defined.

(** What each of the replicas sends when its timer fires in the first view. *)
Definition timed_out_at (id : ID) : R := left_by fresh (run_at id [EvLocalTimeout false] fresh).
Definition timeout_of (id : ID) : TimeoutMsg * ecdsa_Signature :=
  (mkTimeout id 1 (Some (SigECDSA (sig_on (View_ToHash 1) id))) None
     (SyncInfo_WithQC NewSyncInfo (sy_highQC (r_sync fresh))), sig_on (View_ToHash 1) id).

Example timeouts_sent :
  Forall (λ id, ETimeout (timeout_of id).1 ∈ r_out (timed_out_at id)) [1; 2; 3]%N.
Proof. repeat constructor; vm_compute; left. Qed.

Lemma timeout_of_for id :
  ec_valid (env 2) (sig_on (View_ToHash 1) id) (View_ToHash 1) = true →
  timeout_for (env 2) 1 (timeout_of id).1 (timeout_of id).2 .
Proof. intros Hv. split; [done|]. split; [done|]. split; [exact Hv|]. split; [vm_compute; reflexivity|done]. Qed.

Lemma quorum_of_timeouts_advances_witness :
  ∃ r' tc si, run_at 2%N ((λ p, EvTimeout p.1) <$> (timeout_of <$> [1; 2; 3]%N)) started = Ok ((), r') ∧
    sy_currentView (r_sync r') = 2%N ∧ si_tc si = Some tc ∧ tc_view tc = 1%N ∧
    last (r_out r') = Some (ENewView 3 si).
Proof.
  destruct (quorum_of_timeouts_advances (env 2) (st 2) env2_ecdsa eq_refl sampling timer_samples 4 1
    (timeout_of <$> [1; 2; 3]%N) 3 started) as (r' & tc & si & H1 & H2 & H3 & H4 & _ & H5).
  - pose proof (three_sign (View_ToHash 1)) as [Hv _].
    apply Forall_cons in Hv as [H1 Hv]. apply Forall_cons in Hv as [H2 Hv]. apply Forall_cons in Hv as [H3 _].
    repeat constructor; by apply timeout_of_for.
  - apply (bool_decide_unpack _). vm_compute. exact I.
  - exact (three_sign (View_ToHash 1)).
  - discriminate.
  - apply started_facts.
  - apply started_facts.
  - exists GetGenesis. apply started_facts.
  - reflexivity.
  - discriminate.
  - reflexivity.
  - apply started_facts.
  - exact second_leader.
  - exists r', tc, si. split; [exact H1|]. split; [exact H2|]. split; [exact H3|]. split; [exact H4|exact H5].
Defined.
