(* ===== verification/ChainedSafety.v ===== *)
(** * The chained rules do not agree

    A run of the replica of [Consensus] with the rules of
    consensus/chainedhotstuff in which four correct replicas vote for eight
    blocks and each of them executes two conflicting ones.  The commit rule asks
    for parent links between the certified blocks but, unlike the rules of
    consensus/fasthotstuff and consensus/simplehotstuff, not for consecutive
    views. *)

From S2P Require Import Prelude Encoding Bitfield Types BlockChain CryptoBase Ecdsa Replica.
From S2P Require Import Rules Consensus LeaderRotation CmdCache ViewTimer ReplicaExample.
From Stdlib Require Import Strings.Byte Sorted SpecFloat.

(** The block of view [v] on top of [p], certified by [qc]; its command is from
    client [v], its proposer is the leader of the view. *)
Definition leader_of (v : View) : ID := (v mod 4 + 1)%N.
Definition child (p : Block) (qc : QuorumCert) (v : View) : Block :=
  NewBlock (b_hash p) qc (default [] (Batch_Marshal [mkCmd v 1 [Byte.x61]])) v (leader_of v).

(** The certificate of the votes of replicas 1, 2 and 3. *)
Definition cert_of (b : Block) : QuorumCert :=
  NewQuorumCert (Some (ThrECDSA (RestoreThresholdSignature
    ((λ id, ec_sig (100 + id) (big_SetBytes (b_hash b)) id) <$> [1; 2; 3]%N)))) (b_view b) (b_hash b).

Definition genesis_cert : QuorumCert := NewQuorumCert None 0 (b_hash GetGenesis).

(** Two branches from the genesis block: a1 - a3 - a6 - a7 and
    w2 - w4 - w5 - w8, the digit being the view. *)
Definition a1 : Block := Eval vm_compute in child GetGenesis genesis_cert 1.
Definition w2 : Block := Eval vm_compute in child GetGenesis genesis_cert 2.
Definition a3 : Block := Eval vm_compute in child a1 (cert_of a1) 3.
Definition w4 : Block := Eval vm_compute in child w2 (cert_of w2) 4.
Definition w5 : Block := Eval vm_compute in child w4 (cert_of w4) 5.
Definition a6 : Block := Eval vm_compute in child a3 (cert_of a3) 6.
Definition a7 : Block := Eval vm_compute in child a6 (cert_of a6) 7.
Definition w8 : Block := Eval vm_compute in child w5 (cert_of w5) 8.

Definition proposals : list Block := [a1; w2; a3; w4; w5; a6; a7; w8].

(** Every replica receives the eight proposals in view order and has no
    commands of its own to propose. *)
Definition idle : R :=
  Replica_New () (mkSource (newCmdCache 1) []) ()
    (NewViewDuration 10 (f64_of_Z 100) (f64_of_Z 1000) (f64_of_Z 2) 0).

Definition run_chained (id : ID) (bs : list Block) : M R () :=
  run (CI := ecdsaCrypto (env id)) (LR := NewRoundRobin (st id)) 
    (RU := ChainedHotStuff (CI := ecdsaCrypto (env id)) (st id)) (st id) 5
    ((λ b, EvPropose (mkPropose (leader_of (b_view b)) b None)) <$> bs).

(** The blocks a run executes, and the partial certificates it sends. *)
Definition executed (r : R) : list Block :=
  omap (λ e, match e with EExec b => Some b | _ => None end) (r_out r).
Definition sent_votes (r : R) : list PartialCert := omap vote_of (r_out r).

(** The vote of replica [id] for [b], as [CreatePartialCert] makes it, in
    bytes. *)
Definition vote_for (id : ID) (b : Block) : Hash * option bytes :=
  (b_hash b, Some (Signature_ToBytes (SigECDSA (ec_sig (100 + id) (big_SetBytes (b_hash b)) id)))).
Definition vote_bytes (pc : PartialCert) : Hash * option bytes :=
  (pc_blockHash pc, Signature_ToBytes <$> pc_signature pc).

(** Replica [id] votes for exactly [votes] and executes exactly [commits]. *)
Definition outcome (id : ID) (votes commits : list Block) (m : res (() * R)) : bool :=
  match m with
  | Ok (_, r) =>
    bool_decide (vote_bytes <$> sent_votes r = vote_for id <$> votes) &&
    bool_decide (b_hash <$> executed r = b_hash <$> commits)
  | _ => false
  end.
Definition votes_and_commits (id : ID) (votes commits : list Block) : bool :=
  outcome id votes commits (run_chained id proposals idle).

Lemma each_replica_forks :
  forallb (λ id, votes_and_commits id proposals [a1; w2]) [1; 2; 3; 4]%N = true.
Proof. vm_compute. reflexivity. Qed.

(** C9: agreement fails for the chained rules.  Given the eight proposals of the
    leaders of views 1 to 8, whose certificates consist of the votes cast, each of
    four correct replicas votes for all eight blocks and then executes both [a1]
    and [w2], two different children of the genesis block. *)
Theorem chained_commits_conflict :
  (∀ id, id ∈ [1; 2; 3; 4]%N →
     votes_and_commits id proposals [a1; w2] = true) ∧
  (∀ b, b ∈ proposals → b_cert b = genesis_cert ∨
     ∃ b', b' ∈ proposals ∧ (b_view b' < b_view b)%N ∧ b_cert b = cert_of b' ∧ b_parent b = b_hash b') ∧
  b_parent a1 = b_hash GetGenesis ∧ b_parent w2 = b_hash GetGenesis ∧ b_hash a1 ≠ b_hash w2.
Proof.
  split_and!.
  - intros id Hid. pose proof each_replica_forks as H. rewrite forallb_forall in H.
    by apply H, list_elem_of_In.
  - intros b Hb. unfold proposals in Hb.
    repeat (apply elem_of_cons in Hb as [->|Hb]); try by apply not_elem_of_nil in Hb.
    + by left.
    + by left.
    + right. exists a1. split_and!; [|done..]. unfold proposals. by repeat constructor.
    + right. exists w2. split_and!; [|done..]. unfold proposals. by repeat constructor.
    + right. exists w4. split_and!; [|done..]. unfold proposals. by repeat constructor.
    + right. exists a3. split_and!; [|done..]. unfold proposals. by repeat constructor.
    + right. exists a6. split_and!; [|done..]. unfold proposals. by repeat constructor.
    + right. exists w5. split_and!; [|done..]. unfold proposals. by repeat constructor.
  - done.
  - done.
  - apply (bool_decide_eq_false_1 (b_hash a1 = b_hash w2)). vm_compute. reflexivity.
Qed.
