(* ===== verification/FastSafety.v ===== *)
(** * The fast rules do not agree

    The vote rule of consensus/fasthotstuff compares the view of a block with
    the view its certificate claims.  That view is not signed, and a certificate
    for the genesis block needs no signatures at all, so one leader can start a
    second branch at the genesis block that every replica votes for. *)

From S2P Require Import Prelude Encoding Bitfield Types BlockChain CryptoBase Ecdsa Replica.
From S2P Require Import Rules Consensus LeaderRotation CmdCache ViewTimer ReplicaExample ChainedSafety.

(** Three blocks of the first branch, and three of one that starts at the
    genesis block with a certificate that claims view 3. *)
Definition late_cert : QuorumCert := NewQuorumCert None 3 (b_hash GetGenesis).
Definition f1 : Block := Eval vm_compute in child GetGenesis genesis_cert 1.
Definition f2 : Block := Eval vm_compute in child f1 (cert_of f1) 2.
Definition f3 : Block := Eval vm_compute in child f2 (cert_of f2) 3.
Definition g4 : Block := Eval vm_compute in child GetGenesis late_cert 4.
Definition g5 : Block := Eval vm_compute in child g4 (cert_of g4) 5.
Definition g6 : Block := Eval vm_compute in child g5 (cert_of g5) 6.

Definition fast_proposals : list Block := [f1; f2; f3; g4; g5; g6].

(** The fast rules ask for aggregate certificates. *)
Definition st_fast (id : ID) : Static :=
  mkStatic id {[1; 2; 3; 4]}%N (mkOptions true) (λ _ _, ([], None)) 20.
Definition run_fast (id : ID) (bs : list Block) : M R () :=
  run (CI := ecdsaCrypto (env id)) (LR := NewRoundRobin (st_fast id))
    (RU := FastHotStuff (CI := ecdsaCrypto (env id)) (st_fast id)) (st_fast id) 5
    ((λ b, EvPropose (mkPropose (leader_of (b_view b)) b None)) <$> bs).

Lemma each_replica_forks_fast :
  forallb (λ id, outcome id fast_proposals [f1; g4] (run_fast id fast_proposals idle)) [1; 2; 3; 4]%N = true.
Proof. vm_compute. reflexivity. Qed.

(** C10: agreement fails for the fast rules.  Given the proposals of the leaders
    of views 1 to 6, of which only that of view 4 deviates, by passing off the
    genesis block as certified in view 3, each of four correct replicas votes
    for all six blocks and executes both [f1] and [g4], two different children
    of the genesis block. *)
Theorem fast_commits_conflict :
  (∀ id, id ∈ [1; 2; 3; 4]%N →
     outcome id fast_proposals [f1; g4] (run_fast id fast_proposals idle) = true) ∧
  (∀ b, b ∈ fast_proposals → b_view b ≠ 4%N → b_cert b = genesis_cert ∨
     ∃ b', b' ∈ fast_proposals ∧ b_view b = (b_view b' + 1)%N ∧ b_cert b = cert_of b' ∧ b_parent b = b_hash b') ∧
  b_parent f1 = b_hash GetGenesis ∧ b_parent g4 = b_hash GetGenesis ∧ b_hash f1 ≠ b_hash g4.
Proof.
  split_and!.
  - intros id Hid. pose proof each_replica_forks_fast as H. rewrite forallb_forall in H.
    by apply H, list_elem_of_In.
  - intros b Hb Hv. unfold fast_proposals in Hb.
    repeat (apply elem_of_cons in Hb as [->|Hb]); try by apply not_elem_of_nil in Hb.
    + by left.
    + right. exists f1. split_and!; [|done..]. unfold fast_proposals. by repeat constructor.
    + right. exists f2. split_and!; [|done..]. unfold fast_proposals. by repeat constructor.
    + done.
    + right. exists g4. split_and!; [|done..]. unfold fast_proposals. by repeat constructor.
    + right. exists g5. split_and!; [|done..]. unfold fast_proposals. by repeat constructor.
  - done.
  - done.
  - apply (bool_decide_eq_false_1 (b_hash f1 = b_hash g4)). vm_compute. reflexivity.
Qed.
