(* ===== verification/SimpleSafety.v ===== *)
(** * Agreement of the simple rules

    A system of replicas that vote by the rules of
    consensus/simplehotstuff/simplehotstuff.go, with a faulty minority that may
    do anything.  The state of a correct replica is what its rules depend on;
    [Simple_VoteRule_refines] and [Simple_CommitRule_refines] tie it to the
    handlers of [Rules].  The theorem is that two blocks that the commit rule
    returns, to any replicas at any time, are on one chain of certificates. *)

From S2P Require Import Prelude Encoding Bitfield Types BlockChain CryptoBase Replica Rules.

Section safety.
Context {B : BLS12Lib}.

(** The configuration, its faulty members, and the blocks that exist, by
    hash. *)
Context (all faulty : gset ID) (get : Hash → option Block).

Definition n : Z := Z.of_nat (size all).

Hypothesis all_nonempty : (1 ≤ n)%Z.
Hypothesis faulty_all : faulty ⊆ all.
Hypothesis faulty_few : (Z.of_nat (size faulty) ≤ NumFaulty n)%Z.
Hypothesis get_hash : ∀ h b, get h = Some b → b_hash b = h ∧ (b_view b < two64)%N.
Hypothesis get_zero : get zero_hash = None.

(** The block a block's certificate is for. *)
Definition qc_parent (b : Block) : option Block := get (qc_hash (b_cert b)).

Lemma qc_parent_genesis : qc_parent GetGenesis = None.
Proof using get_zero. exact get_zero. Qed.

(** What the rules remember of a replica. *)
Record voter := mkVoter {
  vo_lastVote : View;
  vo_locked : Block }.

(** Rule 2: the certified block is not below the lock. *)
Definition vote_rule (locked b : Block) : bool :=
  match qc_parent b with
  | Some p => negb (b_view p <? b_view locked)%N
  | None => false
  end.

(** The lock after [CommitRule] has seen the block, and what it commits. *)
Definition lock_after (locked b : Block) : Block :=
  match p ← qc_parent b; qc_parent p with
  | Some gp => if (b_view locked <? b_view gp)%N then gp else locked
  | None => locked
  end.
Definition commit_of (b : Block) : option Block :=
  p ← qc_parent b;
  gp ← qc_parent p;
  ggp ← qc_parent gp;
  if (wrap64 (b_view ggp + 2) =? b_view p)%N then Some ggp else None.

(** The votes cast by correct replicas, and the replicas' states. *)
Record sys := mkSys {
  s_votes : list (ID * Block);
  s_voters : ID → voter }.

Definition sys_init : sys := mkSys [] (λ _, mkVoter 0 GetGenesis).

(** Enough votes: a quorum of which every correct member has voted. *)
Definition quorum_voted (votes : list (ID * Block)) (b : Block) (Qm : gset ID) : Prop :=
  Qm ⊆ all ∧ (QuorumSize n ≤ Z.of_nat (size Qm))%Z ∧
  ∀ id, id ∈ Qm → id ∉ faulty → (id, b) ∈ votes.
Definition certified (s : sys) (b : Block) : Prop :=
  b = GetGenesis ∨ ∃ Qm, quorum_voted (s_votes s) b Qm.

Definition upd (f : ID → voter) (id : ID) (v : voter) : ID → voter :=
  λ j, if decide (j = id) then v else f j.

(** A correct replica handles a proposal whose certificate verifies and that
    the vote rule accepts; it votes if the view is above its last vote, and
    then applies the commit rule.  It may also, as when it stops voting or
    fails to sign, raise its last vote or its lock without voting. *)
Inductive sys_step (s : sys) : sys → Prop :=
| step_propose id b p :
    id ∈ all → id ∉ faulty → get (b_hash b) = Some b →
    qc_parent b = Some p → certified s p →
    vote_rule (vo_locked (s_voters s id)) b = true →
    sys_step s
      (if (vo_lastVote (s_voters s id) <? b_view b)%N
       then mkSys (s_votes s ++ [(id, b)])
              (upd (s_voters s) id (mkVoter (b_view b) (lock_after (vo_locked (s_voters s id)) b)))
       else mkSys (s_votes s)
              (upd (s_voters s) id (mkVoter (vo_lastVote (s_voters s id))
                 (lock_after (vo_locked (s_voters s id)) b))))
| step_raise id v :
    (vo_lastVote (s_voters s id) ≤ vo_lastVote v)%N →
    (b_view (vo_locked (s_voters s id)) ≤ b_view (vo_locked v))%N →
    sys_step s (mkSys (s_votes s) (upd (s_voters s) id v)).

Definition reachable : sys → Prop := rtc sys_step sys_init.

(** The commit rule of some replica returns [b]: it has a block whose
    certified parent is [p]. *)
Definition committed (s : sys) (b : Block) : Prop :=
  ∃ x p, qc_parent x = Some p ∧ certified s p ∧ commit_of x = Some b.

(** [a] is on the certificate chain of [b]. *)
Definition extends (b a : Block) : Prop := rtc (λ x y, qc_parent x = Some y) b a.

(** ** Invariant *)

Definition gp_view (b : Block) : View :=
  match p ← qc_parent b; qc_parent p with Some gp => b_view gp | None => 0 end.

Record inv (s : sys) : Prop := {
  (** votes are for known blocks of positive view, not above the last vote *)
  inv_last : ∀ id b, (id, b) ∈ s_votes s →
    get (b_hash b) = Some b ∧ (0 < b_view b ≤ vo_lastVote (s_voters s id))%N;
  (** one vote per replica and view *)
  inv_once : ∀ id b c, (id, b) ∈ s_votes s → (id, c) ∈ s_votes s → b_view b = b_view c → b = c;
  (** the certificate of a block was there before the first vote for it *)
  inv_cert : ∀ id b, (id, b) ∈ s_votes s → ∃ p, qc_parent b = Some p ∧
    (p = GetGenesis ∨ ∃ Qm, quorum_voted (s_votes s) p Qm ∧
       ∀ j, j ∈ Qm → j ∉ faulty → (j, b) ∈ s_votes s → (b_view p < b_view b)%N);
  (** the lock follows the votes *)
  inv_lock : ∀ id b, (id, b) ∈ s_votes s → (gp_view b ≤ b_view (vo_locked (s_voters s id)))%N;
  (** and later votes respect it *)
  inv_safe : ∀ id b c p, (id, b) ∈ s_votes s → (id, c) ∈ s_votes s → (b_view b < b_view c)%N →
    qc_parent c = Some p → (gp_view b ≤ b_view p)%N }.

Lemma lock_after_view locked b :
  (b_view locked ≤ b_view (lock_after locked b) ∧ gp_view b ≤ b_view (lock_after locked b))%N.
Proof using Type.
  clear. unfold lock_after, gp_view. destruct (p ← qc_parent b; qc_parent p) as [gp|]; [|lia].
  destruct (N.ltb_spec (b_view locked) (b_view gp)); lia.
Qed.

Lemma upd_lookup f id v j : upd f id v j = if decide (j = id) then v else f j.
Proof. done. Qed.

Lemma quorum_voted_mono votes votes' b Qm :
  quorum_voted votes b Qm → quorum_voted (votes ++ votes') b Qm.
Proof. intros (? & ? & H). split_and!; [done..|]. intros. apply elem_of_app. left. by apply H. Qed.

Lemma inv_init : inv sys_init.
Proof. split; simpl; intros * ?%not_elem_of_nil; done. Qed.

(** A step that casts no vote and only raises a replica's state. *)
Lemma inv_raise s id v :
  inv s → (vo_lastVote (s_voters s id) ≤ vo_lastVote v)%N →
  (b_view (vo_locked (s_voters s id)) ≤ b_view (vo_locked v))%N →
  inv (mkSys (s_votes s) (upd (s_voters s) id v)).
Proof.
  intros [I1 I2 I3 I4 I5] Hlv Hlk. split; simpl; try done.
  - intros j b Hb. destruct (I1 j b Hb) as [? ?]. split; [done|]. unfold upd.
    destruct (decide (j = id)) as [->|]; lia.
  - intros j b Hb. specialize (I4 j b Hb). unfold upd. destruct (decide (j = id)) as [->|]; lia.
Qed.

Lemma inv_vote s id b p :
  inv s → get (b_hash b) = Some b → qc_parent b = Some p → certified s p →
  vote_rule (vo_locked (s_voters s id)) b = true →
  (vo_lastVote (s_voters s id) < b_view b)%N →
  inv (mkSys (s_votes s ++ [(id, b)])
         (upd (s_voters s) id (mkVoter (b_view b) (lock_after (vo_locked (s_voters s id)) b)))).
Proof.
  intros [I1 I2 I3 I4 I5] Hget Hp Hcert Hrule Hlt.
  assert (∀ j c, (j, c) ∈ s_votes s ++ [(id, b)] ↔ (j, c) ∈ s_votes s ∨ j = id ∧ c = b) as Hin.
  { intros j c. rewrite elem_of_app, list_elem_of_singleton. naive_solver. }
  assert (∀ c, (id, c) ∈ s_votes s → (b_view c < b_view b)%N) as Hbelow.
  { intros c Hc. destruct (I1 _ _ Hc). lia. }
  split; cbn [s_votes s_voters].
  - intros j c [Hc|[-> ->]]%Hin; unfold upd.
    + destruct (I1 _ _ Hc) as [? ?]. split; [done|].
      destruct (decide (j = id)) as [->|]; [|done]. specialize (Hbelow _ Hc). simpl. lia.
    + rewrite decide_True by done. simpl. split; [done|lia].
  - intros j c d [Hc|[-> ->]]%Hin [Hd|[Hj ->]]%Hin Hv; subst; auto.
    + by eapply I2.
    + specialize (Hbelow _ Hc). lia.
    + specialize (Hbelow _ Hd). lia.
  - intros j c Hc. assert ((∃ k, (k, c) ∈ s_votes s) ∨ c = b ∧ ∀ k, (k, b) ∉ s_votes s)
      as [[k Hk]|[-> Hnew]].
    { apply Hin in Hc as [Hc|[-> ->]]; [by eauto|].
      destruct (decide (Exists (λ x, x.2 = b_hash b) ((λ x, (x.1, b_hash x.2)) <$> s_votes s))) as [He|He].
      - left. apply Exists_exists in He as ([k h] & Hk & Hh). simpl in Hh. subst h.
        apply list_elem_of_fmap in Hk as ([k' c] & [= -> Hh] & Hk). exists k'.
        assert (c = b) as -> by (destruct (I1 _ _ Hk) as [Hg _]; rewrite <-Hh in Hg; congruence). done.
      - right. split; [done|]. intros k Hk. apply He, Exists_exists.
        exists (k, b_hash b). split; [|done]. apply list_elem_of_fmap. by exists (k, b). }
    + destruct (I3 k c Hk) as (q & Hq & [Hg|(Qm & Hqm & Hv)]); exists q; (split; [done|]); [by left|right].
      exists Qm. split; [by apply quorum_voted_mono|]. intros i Hi Hnf [Hic|[-> ->]]%Hin; [by eapply Hv|].
      apply Hbelow. by apply Hqm.
    + exists p. split; [done|]. destruct Hcert as [->|[Qm Hqm]]; [by left|right].
      exists Qm. split; [by apply quorum_voted_mono|].
      intros i Hi Hnf [Hic|[-> _]]%Hin; [by apply Hnew in Hic|]. apply Hbelow. by apply Hqm.
  - intros j c [Hc|[-> ->]]%Hin; unfold upd.
    + specialize (I4 _ _ Hc). destruct (decide (j = id)) as [->|]; [|done]. simpl.
      pose proof (lock_after_view (vo_locked (s_voters s id)) b). lia.
    + rewrite decide_True by done. apply lock_after_view.
  - intros j c d q [Hc|[-> ->]]%Hin [Hd|[Hj ->]]%Hin Hv Hq; [by eapply I5| | |lia].
    + subst j. specialize (I4 _ _ Hc). unfold vote_rule in Hrule. rewrite Hq in Hrule.
      apply negb_true_iff, N.ltb_ge in Hrule. lia.
    + specialize (Hbelow _ Hd). lia.
Qed.

Lemma inv_step s s' : inv s → sys_step s s' → inv s'.
Proof.
  intros Hinv [id b p Hall Hnf Hget Hp Hcert Hrule|id v Hlv Hlk].
  - destruct (N.ltb_spec (vo_lastVote (s_voters s id)) (b_view b)).
    + by eapply inv_vote.
    + apply inv_raise; [done|done|]. apply lock_after_view.
  - by apply inv_raise.
Qed.

Lemma reachable_inv s : reachable s → inv s.
Proof.
  unfold reachable. intros Hr. assert (inv sys_init) as Hi by apply inv_init. revert Hi.
  induction Hr as [|x y z Hstep _ IH]; [done|]. intros Hx. apply IH. by eapply inv_step.
Qed.

(** Votes are never taken back. *)
Lemma step_votes s s' v : sys_step s s' → v ∈ s_votes s → v ∈ s_votes s'.
Proof. intros [] Hv; [|done]. destruct (_ <? _)%N; [|done]. cbn. rewrite elem_of_app. by left. Qed.

Lemma steps_votes s s' v : rtc sys_step s s' → v ∈ s_votes s → v ∈ s_votes s'.
Proof. induction 1; eauto using step_votes. Qed.

Lemma certified_mono s s' b :
  (∀ v, v ∈ s_votes s → v ∈ s_votes s') → certified s b → certified s' b.
Proof.
  intros Hsub [->|(Qm & ? & ? & Hv)]; [by left|right]. exists Qm. split_and!; [done..|]. eauto.
Qed.

Lemma committed_mono s s' b :
  (∀ v, v ∈ s_votes s → v ∈ s_votes s') → committed s b → committed s' b.
Proof. intros Hsub (x & p & ? & ? & ?). exists x, p. eauto using certified_mono. Qed.

(** ** Quorums meet in a correct replica *)

Lemma quorums_meet votes b c Q1 Q2 :
  quorum_voted votes b Q1 → quorum_voted votes c Q2 →
  ∃ id, (id ∉ faulty) ∧ id ∈ Q1 ∧ id ∈ Q2 ∧ (id, b) ∈ votes ∧ (id, c) ∈ votes.
Proof.
  intros (S1 & Z1 & V1) (S2 & Z2 & V2).
  destruct (quorum_shares_correct all Q1 Q2 all_nonempty S1 S2 Z1 Z2 faulty faulty_all faulty_few)
    as (id & [H1 H2]%elem_of_intersection & Hnf).
  exists id. split_and!; auto.
Qed.

Section facts.
Context (s : sys) (Hinv : inv s).

Lemma certified_positive b : certified s b → b = GetGenesis ∨ (0 < b_view b)%N.
Proof.
  intros [->|[Qm Hq]]; [by left|right].
  destruct (quorums_meet _ _ _ _ _ Hq Hq) as (id & _ & _ & _ & Hv & _).
  destruct (inv_last s Hinv _ _ Hv). lia.
Qed.

(** One certified block per view. *)
Lemma certified_unique b c :
  certified s b → certified s c → b_view b = b_view c → b = c.
Proof.
  intros Hb Hc Hv.
  destruct (certified_positive b Hb) as [->|Pb], (certified_positive c Hc) as [->|Pc]; [done| | |].
  - simpl in Hv. lia.
  - simpl in Hv. lia.
  - destruct Hb as [->|[Q1 H1]]; [simpl in Pb; lia|]. destruct Hc as [->|[Q2 H2]]; [simpl in Pc; lia|].
    destruct (quorums_meet _ _ _ _ _ H1 H2) as (id & _ & _ & _ & V1 & V2).
    by eapply inv_once.
Qed.

(** The chain of certificates descends through certified blocks of lower
    views. *)
Lemma certified_parent b p :
  certified s b → qc_parent b = Some p → certified s p ∧ (b_view p < b_view b)%N.
Proof.
  intros [->|[Qm Hq]] Hp; [by rewrite qc_parent_genesis in Hp|].
  destruct (quorums_meet _ _ _ _ _ Hq Hq) as (id & _ & _ & _ & Hv & _).
  destruct (inv_cert s Hinv _ _ Hv) as (p' & Hp' & Hc). replace p' with p in * by congruence.
  destruct Hc as [->|(Q2 & Hq2 & Hlt)].
  - split; [by left|]. destruct (inv_last s Hinv _ _ Hv). simpl. lia.
  - split; [right; by eauto|].
    destruct (quorums_meet _ _ _ _ _ Hq Hq2) as (j & Hnf & _ & Hj & Hvb & _). by eapply Hlt.
Qed.

Lemma certified_has_parent b : certified s b → b ≠ GetGenesis → ∃ p, qc_parent b = Some p.
Proof.
  intros [->|[Qm Hq]] Hne; [done|].
  destruct (quorums_meet _ _ _ _ _ Hq Hq) as (id & _ & _ & _ & Hv & _).
  destruct (inv_cert s Hinv _ _ Hv) as (p & Hp & _). by exists p.
Qed.

(** A certified block above a committed one extends it. *)
Lemma commit_extended b0 b1 b2 c :
  certified s b2 → qc_parent b2 = Some b1 → qc_parent b1 = Some b0 →
  b_view b2 = (b_view b0 + 2)%N → certified s c → (b_view b0 ≤ b_view c)%N → extends c b0.
Proof.
  intros H2 P2 P1 Hview. destruct (certified_parent _ _ H2 P2) as [H1 V1].
  destruct (certified_parent _ _ H1 P1) as [H0 V0].
  remember (b_view c) as v eqn:Hv. revert c Hv.
  induction v as [v IH] using (well_founded_induction N.lt_wf_0). intros c -> Hc Hle.
  destruct (N.lt_trichotomy (b_view c) (b_view b2)) as [Hlt|[Heq|Hgt]].
  - destruct (decide (b_view c = b_view b0)) as [Heq|Hne].
    + rewrite (certified_unique c b0 Hc H0 Heq). apply rtc_refl.
    + rewrite (certified_unique c b1 Hc H1) by lia. by apply rtc_once.
  - rewrite (certified_unique c b2 Hc H2 Heq). eapply rtc_l; [exact P2|by apply rtc_once].
  - assert (c ≠ GetGenesis) as Hne by (intros ->; simpl in Hgt; lia).
    destruct (certified_has_parent c Hc Hne) as [p Hp].
    destruct (certified_parent _ _ Hc Hp) as [Hpc Hpv].
    eapply rtc_l; [exact Hp|]. apply (IH (b_view p)); [done|done|done|].
    destruct Hc as [->|[Q1 Hq1]]; [done|]. destruct H2 as [->|[Q2 Hq2]]; [simpl in Hview; lia|].
    destruct (quorums_meet _ _ _ _ _ Hq2 Hq1) as (id & _ & _ & _ & Vb & Vc).
    pose proof (inv_safe s Hinv id b2 c p Vb Vc Hgt Hp) as Hgp.
    unfold gp_view in Hgp. rewrite P2 in Hgp. simpl in Hgp. by rewrite P1 in Hgp.
Qed.

(** What [CommitRule] returns is certified, and the view it compares with
    has not wrapped around. *)
Lemma committed_chain b :
  committed s b → ∃ p gp, certified s p ∧ qc_parent p = Some gp ∧ qc_parent gp = Some b ∧
    certified s b ∧ b_view p = (b_view b + 2)%N.
Proof.
  intros (x & p & Hx & Hp & Hc). unfold commit_of in Hc. rewrite Hx in Hc. simpl in Hc.
  destruct (qc_parent p) as [gp|] eqn:Egp; [simpl in Hc|done].
  destruct (qc_parent gp) as [ggp|] eqn:Eggp; [simpl in Hc|done].
  destruct (N.eqb_spec (wrap64 (b_view ggp + 2)) (b_view p)) as [Hv|]; [|done]. injection Hc as <-.
  destruct (certified_parent _ _ Hp Egp) as [Hgp V1].
  destruct (certified_parent _ _ Hgp Eggp) as [Hggp V0].
  exists p, gp. split_and!; [done..|]. rewrite <-Hv in *. unfold wrap64 in *.
  destruct (N.lt_ge_cases (b_view ggp + 2) two64) as [Hlt|Hge]; [by rewrite N.mod_small|].
  apply get_hash in Eggp as [_ Hbnd].
  assert ((b_view ggp + 2) mod two64 = b_view ggp + 2 - two64)%N as Hm; [|lia].
  symmetry. apply (N.mod_unique _ _ 1); [unfold two64 in *; lia|lia].
Qed.
(** Along the certificates of a certified block the views decrease, down to
    the genesis block. *)
Lemma extends_certified b a :
  certified s b → extends b a → certified s a ∧ (a = b ∨ (b_view a < b_view b)%N).
Proof.
  intros Hb Hext. induction Hext as [b|b p a Hp _ IH]; [auto|].
  destruct (certified_parent _ _ Hb Hp) as [Hpc Hlt]. destruct (IH Hpc) as [Ha [->|?]]; split; auto; right; lia.
Qed.

Lemma certified_rooted b : certified s b → extends b GetGenesis.
Proof.
  remember (b_view b) as v eqn:Hv. revert b Hv.
  induction v as [v IH] using (well_founded_induction N.lt_wf_0). intros b -> Hb.
  destruct (decide (b_view b = 0%N)) as [Hz|Hz].
  - destruct (certified_positive b Hb) as [->|?]; [apply rtc_refl|lia].
  - destruct (certified_has_parent b Hb) as [p Hp]; [by intros ->|].
    destruct (certified_parent _ _ Hb Hp) as [Hpc Hlt]. eapply rtc_l; [exact Hp|]. by apply (IH (b_view p)).
Qed.

(** What is final: the genesis block and the blocks that are committed. *)
Definition final (b : Block) : Prop := b = GetGenesis ∨ committed s b.

Lemma final_certified b : final b → certified s b.
Proof. intros [->|Hb]; [by left|]. by destruct (committed_chain b Hb) as (? & ? & ? & ? & ? & ? & ?). Qed.

Lemma committed_agree b c : committed s b → committed s c → (b_view b ≤ b_view c)%N → extends c b.
Proof.
  intros Hb Hc Hle. destruct (committed_chain b Hb) as (pb & gb & Hpb & E1 & E2 & Cb & Vb).
  destruct (committed_chain c Hc) as (pc & gc & Hpc & E3 & E4 & Cc & Vc). by eapply (commit_extended b gb pb).
Qed.

Lemma final_agree b c : final b → final c → (b_view b ≤ b_view c)%N → extends c b.
Proof.
  intros [->|Hb] Hc Hle; [by apply certified_rooted, final_certified|].
  destruct Hc as [->|Hc]; [|by apply committed_agree].
  assert (certified s b) as Hcb by (apply final_certified; by right).
  destruct (certified_positive b Hcb) as [->|Hpos]; [apply rtc_refl|]. simpl in Hle. lia.
Qed.
End facts.

(** The blocks from the genesis block, which is left out, to a block. *)
Inductive chain_to : Block → list Block → Prop :=
| chain_genesis : chain_to GetGenesis []
| chain_block b p l : qc_parent b = Some p → chain_to p l → chain_to b (l ++ [b]).

Lemma chain_to_parent b p l :
  qc_parent b = Some p → chain_to b l → ∃ l', l = l' ++ [b] ∧ chain_to p l'.
Proof.
  intros Hp Hl. destruct Hl as [|b q l Hq Hl].
  { by rewrite qc_parent_genesis in Hp. }
  replace q with p in * by congruence. by exists l.
Qed.

Lemma chain_to_genesis b l : chain_to b l → b = GetGenesis → l = [].
Proof.
  intros [|b' p l' Hp _] Hb; [done|]. exfalso. by rewrite Hb, qc_parent_genesis in Hp.
Qed.

Lemma chain_to_unique b l : chain_to b l → ∀ l', chain_to b l' → l = l'.
Proof.
  induction 1 as [|b p l Hp _ IH]; intros l' Hl'; [symmetry; by apply (chain_to_genesis GetGenesis)|].
  destruct (chain_to_parent _ _ _ Hp Hl') as (l'' & -> & Hl''). by rewrite (IH l'').
Qed.

Lemma extends_chain_prefix b a la lb : extends b a → chain_to b lb → chain_to a la → la `prefix_of` lb.
Proof.
  intros Hext. revert lb. induction Hext as [b|b p a Hp _ IH]; intros lb Hb Ha.
  - by rewrite (chain_to_unique _ _ Ha _ Hb).
  - destruct (chain_to_parent _ _ _ Hp Hb) as (l & -> & Hl). by apply prefix_app_r, IH.
Qed.

(** Agreement.  In every reachable state of a system with at most
    [NumFaulty n] faulty replicas, of two blocks that the commit rule of any
    replicas returns, one extends the other along the certificates. *)
Theorem simple_agreement (s : sys) (b c : Block) :
  reachable s → committed s b → committed s c → extends b c ∨ extends c b.
Proof.
  intros Hr Hb Hc. apply reachable_inv in Hr as Hinv. destruct (N.le_ge_cases (b_view b) (b_view c)).
  - right. by apply (committed_agree s).
  - left. by apply (committed_agree s).
Qed.
End safety.

(** ** The rules of the code are the rules of the system *)

Section refinement.
Context {B : BLS12Lib} {C Q L D : Type} (st : Static) {CI : CryptoImpl C}.
Abbreviation R := (Replica C Q L D).

(** The blocks the replica has. *)
Definition local (r : R) (h : Hash) : option Block := blocks (r_chain r) !! h.

Lemma chain_Get_local h b (r : R) : local r h = Some b → chain_Get st h r = Ok (Some b, r).
Proof. unfold local, chain_Get, lift_st. intros H. rewrite (Get_local _ _ _ _ H). by destruct r. Qed.

(** C2: for a replica that has the blocks concerned, [VoteRule] and
    [CommitRule] of SimpleHotStuff compute the rules of the system: the vote
    additionally requires a view that is not below the current one, the lock
    becomes the system's lock, and the block returned is the system's
    commit. *)
Theorem simple_rules_refine (proposal : ProposeMsg) (p gp ggp : Block) (r : R) :
  let block := pm_Block proposal in
  qc_parent (local r) block = Some p → qc_parent (local r) p = Some gp →
  qc_parent (local r) gp = Some ggp →
  Simple_VoteRule st proposal r =
    Ok ((sy_currentView (r_sync r) <=? b_view block)%N && vote_rule (local r) (r_lock r) block, r) ∧
  Simple_CommitRule st block r =
    Ok (commit_of (local r) block, set_lock (lock_after (local r) (r_lock r) block) r).
Proof.
  intros block Hp Hgp Hggp. split.
  - unfold Simple_VoteRule, View_. fold block.
    rewrite (M_bind_run _ _ _ _ _ (eq_refl : gets (λ r : R, sy_currentView (r_sync r)) r = Ok (_, r))).
    destruct (N.ltb_spec (b_view block) (sy_currentView (r_sync r))) as [Hlt|Hge].
    { by rewrite (proj2 (N.leb_gt _ _) Hlt). }
    rewrite (proj2 (N.leb_le _ _) Hge).
    rewrite (M_bind_run _ _ _ _ _ (chain_Get_local _ _ _ Hp)).
    unfold vote_rule. by rewrite Hp.
  - unfold Simple_CommitRule. rewrite (M_bind_run _ _ _ _ _ (chain_Get_local _ _ _ Hp)).
    rewrite (M_bind_run _ _ _ _ _ (chain_Get_local _ _ _ Hgp)).
    unfold commit_of, lock_after. rewrite Hp. cbn [mbind option_bind]. rewrite Hgp.
    cbn [mbind option_bind]. rewrite Hggp. cbn [mbind option_bind].
    assert (∀ r' : R, r_chain r' = r_chain r → chain_Get st (qc_hash (b_cert gp)) r' = Ok (Some ggp, r')) as Hget.
    { intros r' Hr'. apply chain_Get_local. unfold local. by rewrite Hr'. }
    unfold raise_lock. destruct (N.ltb_spec (b_view (r_lock r)) (b_view gp)) as [Hlt|Hge].
    + erewrite M_bind_run by (cbv beta; by rewrite (proj2 (N.ltb_lt _ _) Hlt)).
      by erewrite M_bind_run by (by apply Hget).
    + erewrite M_bind_run by (cbv beta; by rewrite (proj2 (N.ltb_ge _ _) Hge)).
      erewrite M_bind_run by (by apply Hget). by destruct r.
Qed.
End refinement.
