(* ===== verification/SimpleExample.v ===== *)
(** * Runs of the simple rules

    A system run in which two blocks are committed, as the witness of the
    agreement theorem, and a run of two replicas that execute different
    commands because the link to the parent of a block is not checked against
    its certificate. *)

From S2P Require Import Prelude Encoding Bitfield Types BlockChain CryptoBase Ecdsa Replica.
From S2P Require Import Rules Consensus LeaderRotation CmdCache ViewTimer ReplicaExample ChainedSafety SimpleSafety.
From Stdlib Require Import Strings.Byte Sorted SpecFloat.

(** ** A chain of five blocks *)

Definition c1 : Block := Eval vm_compute in child GetGenesis genesis_cert 1.
Definition c2 : Block := Eval vm_compute in child c1 (cert_of c1) 2.
Definition c3 : Block := Eval vm_compute in child c2 (cert_of c2) 3.
Definition c4 : Block := Eval vm_compute in child c3 (cert_of c3) 4.
Definition c5 : Block := Eval vm_compute in child c4 (cert_of c4) 5.

Definition store : blockChain :=
  foldl (λ c b, blockChain_Store b c) blockChain_New [c1; c2; c3; c4; c5].
Definition lookup_block (h : Hash) : option Block := blocks store !! h.

Definition config4 : gset ID := {[1; 2; 3; 4]}%N.
Definition bad4 : gset ID := {[4]}%N.

Lemma in1 : 1%N ∈ config4. Proof. apply (bool_decide_eq_true_1 (1%N ∈ config4)). vm_compute. reflexivity. Qed.
Lemma in2 : 2%N ∈ config4. Proof. apply (bool_decide_eq_true_1 (2%N ∈ config4)). vm_compute. reflexivity. Qed.
Lemma in3 : 3%N ∈ config4. Proof. apply (bool_decide_eq_true_1 (3%N ∈ config4)). vm_compute. reflexivity. Qed.
Lemma out1 : 1%N ∉ bad4. Proof. apply (bool_decide_eq_false_1 (1%N ∈ bad4)). vm_compute. reflexivity. Qed.
Lemma out2 : 2%N ∉ bad4. Proof. apply (bool_decide_eq_false_1 (2%N ∈ bad4)). vm_compute. reflexivity. Qed.
Lemma out3 : 3%N ∉ bad4. Proof. apply (bool_decide_eq_false_1 (3%N ∈ bad4)). vm_compute. reflexivity. Qed.

(** ** Votes for a chain of four blocks *)

Section chain4.
Context (get : Hash → option Block) (k1 k2 k3 k4 : Block).
Hypothesis Hk1 : get (b_hash k1) = Some k1.
Hypothesis Hk2 : get (b_hash k2) = Some k2.
Hypothesis Hk3 : get (b_hash k3) = Some k3.
Hypothesis Hk4 : get (b_hash k4) = Some k4.
Hypothesis Hp0 : qc_parent get GetGenesis = None.
Hypothesis Hp1 : qc_parent get k1 = Some GetGenesis.
Hypothesis Hp2 : qc_parent get k2 = Some k1.
Hypothesis Hp3 : qc_parent get k3 = Some k2.
Hypothesis Hp4 : qc_parent get k4 = Some k3.
Hypothesis Hv1 : b_view k1 = 1%N.
Hypothesis Hv2 : b_view k2 = 2%N.
Hypothesis Hv3 : b_view k3 = 3%N.
Hypothesis Hv4 : b_view k4 = 4%N.

(** One vote, which the replica's rules allow. *)
Definition cast (s : sys) (v : ID * Block) : sys :=
  mkSys (s_votes s ++ [v])
    (upd (s_voters s) v.1 (mkVoter (b_view v.2) (lock_after get (vo_locked (s_voters s v.1)) v.2))).

Lemma cast_step s id b p :
  id ∈ config4 → id ∉ bad4 → get (b_hash b) = Some b → qc_parent get b = Some p →
  (p = GetGenesis ∨ (1%N, p) ∈ s_votes s ∧ (2%N, p) ∈ s_votes s ∧ (3%N, p) ∈ s_votes s) →
  (b_view (vo_locked (s_voters s id)) ≤ b_view p)%N → (vo_lastVote (s_voters s id) < b_view b)%N →
  sys_step config4 bad4 get s (cast s (id, b)).
Proof.
  intros Hall Hnf Hget Hp Hc Hlock Hlt.
  pose proof (step_propose config4 bad4 get s id b p Hall Hnf Hget Hp) as Hstep.
  rewrite (proj2 (N.ltb_lt _ _) Hlt) in Hstep. apply Hstep.
  - destruct Hc as [->|Hc]; [by left|right]. exists {[1; 2; 3]}%N. split_and!.
    + apply (bool_decide_eq_true_1 ({[1; 2; 3]}%N ⊆ config4)). vm_compute. reflexivity.
    + vm_compute. discriminate.
    + intros j Hj _. rewrite !elem_of_union, !elem_of_singleton in Hj.
      destruct Hj as [[->| ->]| ->]; tauto.
  - unfold vote_rule. rewrite Hp. apply negb_true_iff, N.ltb_ge. exact Hlock.
Qed.

(** The state of a replica of 1, 2, 3 before and after its vote. *)
Lemma voter_cast s id b j :
  s_voters (cast s (id, b)) j =
    if decide (j = id) then mkVoter (b_view b) (lock_after get (vo_locked (s_voters s id)) b)
    else s_voters s j.
Proof. done. Qed.

(** All three vote for [b], on top of [p], from the same state. *)
Definition round (s : sys) (b : Block) : sys := foldl cast s [(1, b); (2, b); (3, b)]%N.

Lemma round_reachable s b p lv lk :
  get (b_hash b) = Some b → qc_parent get b = Some p →
  (p = GetGenesis ∨ (1%N, p) ∈ s_votes s ∧ (2%N, p) ∈ s_votes s ∧ (3%N, p) ∈ s_votes s) →
  (∀ id, id ∈ [1; 2; 3]%N → s_voters s id = mkVoter lv lk) →
  (b_view lk ≤ b_view p)%N → (lv < b_view b)%N →
  reachable config4 bad4 get s →
  reachable config4 bad4 get (round s b) ∧
  ((1%N, b) ∈ s_votes (round s b) ∧ (2%N, b) ∈ s_votes (round s b) ∧ (3%N, b) ∈ s_votes (round s b)) ∧
  (∀ id, id ∈ [1; 2; 3]%N → s_voters (round s b) id = mkVoter (b_view b) (lock_after get lk b)).
Proof.
  intros Hget Hp Hc Hs Hlk Hlv Hr.
  assert (s_voters s 1%N = mkVoter lv lk) as H1 by (apply Hs; by left).
  assert (s_voters s 2%N = mkVoter lv lk) as H2 by (apply Hs; right; by left).
  assert (s_voters s 3%N = mkVoter lv lk) as H3 by (apply Hs; do 2 right; by left).
  split_and!.
  - assert (∀ s0 id, id ∈ config4 → id ∉ bad4 → s_voters s0 id = mkVoter lv lk →
      (∀ v, v ∈ s_votes s → v ∈ s_votes s0) → reachable config4 bad4 get s0 →
      reachable config4 bad4 get (cast s0 (id, b))) as Hstep.
    { intros s0 id Hall Hnf Hs0 Hsub Hr0. eapply rtc_r; [exact Hr0|].
      apply (cast_step _ _ _ p); [done..| |by rewrite Hs0|by rewrite Hs0].
      destruct Hc as [?|(?&?&?)]; [by left|right; auto]. }
    unfold round. cbn [foldl]. apply Hstep; [exact in3|exact out3| | |apply Hstep;
      [exact in2|exact out2| | |apply Hstep; [exact in1|exact out1|exact H1|auto|exact Hr]]].
    + rewrite !voter_cast. do 2 (rewrite decide_False by done). exact H3.
    + intros v Hv. cbn [cast s_votes]. rewrite !elem_of_app. auto.
    + rewrite voter_cast. rewrite decide_False by done. exact H2.
    + intros v Hv. cbn [cast s_votes]. rewrite !elem_of_app. auto.
  - unfold round. cbn [foldl cast s_votes]. rewrite !elem_of_app, !list_elem_of_singleton. tauto.
  - unfold round. cbn [foldl cast s_votes]. rewrite !elem_of_app, !list_elem_of_singleton. tauto.
  - unfold round. cbn [foldl cast s_votes]. rewrite !elem_of_app, !list_elem_of_singleton. tauto.
  - intros id Hid. unfold round. cbn [foldl]. rewrite !voter_cast.
    rewrite !elem_of_cons in Hid. destruct Hid as [->|[->|[->|Hid]]].
    + do 2 (rewrite decide_False by done). rewrite decide_True by done. by rewrite H1.
    + rewrite decide_False by done. rewrite decide_True by done. rewrite decide_False by done. by rewrite H2.
    + rewrite decide_True by done. do 2 (rewrite decide_False by done). by rewrite H3.
    + by apply not_elem_of_nil in Hid.
Qed.

Definition four_rounds : sys := round (round (round (round sys_init k1) k2) k3) k4.

Lemma four_rounds_reachable :
  reachable config4 bad4 get four_rounds ∧
  ((1%N, k3) ∈ s_votes four_rounds ∧ (2%N, k3) ∈ s_votes four_rounds ∧ (3%N, k3) ∈ s_votes four_rounds) ∧
  ((1%N, k4) ∈ s_votes four_rounds ∧ (2%N, k4) ∈ s_votes four_rounds ∧ (3%N, k4) ∈ s_votes four_rounds).
Proof.
  assert (∀ lk, (b_view lk = 0)%N → lock_after get lk k1 = lk) as L1.
  { intros lk _. unfold lock_after. rewrite Hp1. cbn [mbind option_bind]. by rewrite Hp0. }
  assert (lock_after get GetGenesis k2 = GetGenesis) as L2.
  { unfold lock_after. rewrite Hp2. cbn [mbind option_bind]. by rewrite Hp1. }
  assert (lock_after get GetGenesis k3 = k1) as L3.
  { unfold lock_after. rewrite Hp3. cbn [mbind option_bind]. rewrite Hp2, Hv1. done. }
  destruct (round_reachable sys_init k1 GetGenesis 0 GetGenesis) as (R1 & V1 & S1);
    [done|done|by left|done|done|rewrite Hv1; done|apply rtc_refl|].
  rewrite L1 in S1 by done.
  destruct (round_reachable _ k2 k1 (b_view k1) GetGenesis Hk2 Hp2 (or_intror V1) S1) as (R2 & V2 & S2);
    [rewrite Hv1; done|rewrite Hv1, Hv2; done|exact R1|]. rewrite L2 in S2.
  destruct (round_reachable _ k3 k2 (b_view k2) GetGenesis Hk3 Hp3 (or_intror V2) S2) as (R3 & V3 & S3);
    [rewrite Hv2; done|rewrite Hv2, Hv3; done|exact R2|]. rewrite L3 in S3.
  destruct (round_reachable _ k4 k3 (b_view k3) k1 Hk4 Hp4 (or_intror V3) S3) as (R4 & V4 & S4);
    [rewrite Hv1, Hv3; done|rewrite Hv3, Hv4; done|exact R3|].
  split_and!; [exact R4|..]; try apply V4.
  all: unfold four_rounds; unfold round at 1; cbn [foldl cast s_votes];
    rewrite !elem_of_app; do 3 left; apply V3.
Qed.
End chain4.

Lemma g1 : lookup_block (b_hash c1) = Some c1. Proof. vm_compute. reflexivity. Qed.
Lemma g2 : lookup_block (b_hash c2) = Some c2. Proof. vm_compute. reflexivity. Qed.
Lemma g3 : lookup_block (b_hash c3) = Some c3. Proof. vm_compute. reflexivity. Qed.
Lemma g4 : lookup_block (b_hash c4) = Some c4. Proof. vm_compute. reflexivity. Qed.
Lemma p1 : qc_parent lookup_block c1 = Some GetGenesis. Proof. vm_compute. reflexivity. Qed.
Lemma p2 : qc_parent lookup_block c2 = Some c1. Proof. exact g1. Qed.
Lemma p3 : qc_parent lookup_block c3 = Some c2. Proof. exact g2. Qed.
Lemma p4 : qc_parent lookup_block c4 = Some c3. Proof. exact g3. Qed.
Lemma p5 : qc_parent lookup_block c5 = Some c4. Proof. exact g4. Qed.
Lemma p0 : qc_parent lookup_block GetGenesis = None. Proof. vm_compute. reflexivity. Qed.


(** ** Witnesses *)

Lemma hashes_checked (m : gmap Hash Block) :
  forallb (λ x, bool_decide (b_hash x.2 = x.1) && (b_view x.2 <? two64)%N) (map_to_list m) = true →
  ∀ h b, m !! h = Some b → b_hash b = h ∧ (b_view b < two64)%N.
Proof.
  intros H h b Hl. rewrite forallb_forall in H. apply elem_of_map_to_list, list_elem_of_In, H in Hl.
  apply andb_true_iff in Hl as [H1 H2]. split; [exact (bool_decide_eq_true_1 _ H1)|by apply N.ltb_lt].
Qed.

Lemma lookup_block_hash h b : lookup_block h = Some b → b_hash b = h ∧ (b_view b < two64)%N.
Proof.
  unfold lookup_block. revert h b. refine (hashes_checked (blocks store) _).
  vm_compute. reflexivity.
Qed.

Definition history : sys := four_rounds lookup_block c1 c2 c3 c4.

Lemma history_reachable :
  reachable config4 bad4 lookup_block history ∧
  ((1%N, c3) ∈ s_votes history ∧ (2%N, c3) ∈ s_votes history ∧ (3%N, c3) ∈ s_votes history) ∧
  ((1%N, c4) ∈ s_votes history ∧ (2%N, c4) ∈ s_votes history ∧ (3%N, c4) ∈ s_votes history).
Proof.
  apply (four_rounds_reachable lookup_block c1 c2 c3 c4 g1 g2 g3 g4 p0 p1 p2 p3 p4); reflexivity.
Qed.

Lemma three_certify b s :
  (1%N, b) ∈ s_votes s ∧ (2%N, b) ∈ s_votes s ∧ (3%N, b) ∈ s_votes s → certified config4 bad4 s b.
Proof.
  intros (H1 & H2 & H3). right. exists {[1; 2; 3]}%N. split_and!.
  - apply (bool_decide_eq_true_1 ({[1; 2; 3]}%N ⊆ config4)). vm_compute. reflexivity.
  - vm_compute. discriminate.
  - intros j Hj _. rewrite !elem_of_union, !elem_of_singleton in Hj. destruct Hj as [[->| ->]| ->]; tauto.
Qed.

Lemma commit_of_chain (get : Hash → option Block) x p gp ggp :
  qc_parent get x = Some p → qc_parent get p = Some gp → qc_parent get gp = Some ggp →
  b_view p = wrap64 (b_view ggp + 2) → commit_of get x = Some ggp.
Proof.
  intros H1 H2 H3 Hv. unfold commit_of. rewrite H1. simpl. rewrite H2. simpl. rewrite H3. simpl.
  by rewrite Hv, N.eqb_refl.
Qed.

Lemma commits_c1 : committed config4 bad4 lookup_block history c1.
Proof.
  exists c4, c3. split; [exact p4|]. split; [apply three_certify, history_reachable|].
  exact (commit_of_chain lookup_block c4 c3 c2 c1 p4 p3 p2 eq_refl).
Qed.

Lemma commits_c2 : committed config4 bad4 lookup_block history c2.
Proof.
  exists c5, c4. split; [exact p5|]. split; [apply three_certify, history_reachable|].
  exact (commit_of_chain lookup_block c5 c4 c3 c2 p5 p4 p3 eq_refl).
Qed.

Lemma config4_size : (1 ≤ n config4)%Z ∧ (Z.of_nat (size bad4) ≤ NumFaulty (n config4))%Z.
Proof. split; vm_compute; discriminate. Qed.

Lemma bad4_config4 : bad4 ⊆ config4.
Proof. apply (bool_decide_eq_true_1 (bad4 ⊆ config4)). vm_compute. reflexivity. Qed.

Lemma no_zero_block : lookup_block zero_hash = None.
Proof. vm_compute. reflexivity. Qed.

(** Replicas 1, 2 and 3 certify four blocks; the commit rule applied to [c4] and
    [c5] commits [c1] and [c2]. *)
Lemma simple_agreement_witness : extends lookup_block c1 c2 ∨ extends lookup_block c2 c1.
Proof.
  exact (simple_agreement config4 bad4 lookup_block (proj1 config4_size) bad4_config4
    (proj2 config4_size) lookup_block_hash no_zero_block history c1 c2
    (proj1 history_reachable) commits_c1 commits_c2).
Defined.

(** A replica that has the five blocks and gets the proposal of [c5]. *)
Definition holder : R := set_chain store idle.

Lemma h5 : qc_parent (local holder) c5 = Some c4. Proof. vm_compute. reflexivity. Qed.
Lemma h4 : qc_parent (local holder) c4 = Some c3. Proof. vm_compute. reflexivity. Qed.
Lemma h3 : qc_parent (local holder) c3 = Some c2. Proof. vm_compute. reflexivity. Qed.

Lemma simple_rules_refine_witness :
  Simple_VoteRule (st 1) (mkPropose (leader_of 5) c5 None) holder =
    Ok ((sy_currentView (r_sync holder) <=? b_view c5)%N && vote_rule (local holder) (r_lock holder) c5, holder).
Proof.
  exact (proj1 (simple_rules_refine (st 1) (mkPropose (leader_of 5) c5 None) c4 c3 c2 holder h5 h4 h3)).
Defined.

(** ** The parent link is not checked *)

(** The leader of view 2 proposes a block certified by [c1] whose parent is the
    genesis block. *)
Definition d2 : Block := Eval vm_compute in
  NewBlock (b_hash GetGenesis) (cert_of c1) (default [] (Batch_Marshal [mkCmd 2 1 [Byte.x61]])) 2 (leader_of 2).
Definition d3 : Block := Eval vm_compute in child d2 (cert_of d2) 3.
Definition d4 : Block := Eval vm_compute in child d3 (cert_of d3) 4.
Definition d5 : Block := Eval vm_compute in child d4 (cert_of d4) 5.

(** Replica [id] runs the simple rules on proposals [bs], and can fetch [d4]. *)
Definition st_fetch (id : ID) : Static :=
  mkStatic id {[1; 2; 3; 4]}%N (mkOptions false)
    (λ _ h, if bool_decide (h = b_hash d4) then ([], Some d4) else ([], None)) 20.
Definition run_simple (id : ID) (bs : list Block) : M R () :=
  run (CI := ecdsaCrypto (env id)) (LR := NewRoundRobin (st_fetch id)) (RU := SimpleHotStuff (st_fetch id))
    (st_fetch id) 5 ((λ b, EvPropose (mkPropose (leader_of (b_view b)) b None)) <$> bs).
Definition executes (id : ID) (bs commits : list Block) : bool :=
  match run_simple id bs idle with
  | Ok (_, r) => bool_decide (b_hash <$> executed r = b_hash <$> commits)
  | _ => false
  end.

(** C18: the simple rules follow certificates but [commit] executes along parent
    links, and nothing checks that they agree.  With one block whose parent is
    not the block its certificate is for, a replica that receives every proposal
    executes [c1] and [d2], and one that misses the proposal of view 4 and
    fetches that block executes [d2] only, and passes over [c1] for good. *)
Theorem simple_executions_diverge :
  executes 1 [c1; d2; d3; d4; d5] [c1; d2] = true ∧
  executes 4 [c1; d2; d3; d5] [d2] = true ∧
  b_hash c1 ≠ b_hash d2.
Proof.
  split_and!.
  - vm_compute. reflexivity.
  - vm_compute. reflexivity.
  - apply (bool_decide_eq_false_1 (b_hash c1 = b_hash d2)). vm_compute. reflexivity.
Qed.
