(* ===== verification/SimpleNetwork.v ===== *)
(** * Replicas that run the simple rules agree

    A network of replicas, each of which runs the handlers of [Consensus] with
    the rules of consensus/simplehotstuff and ECDSA signatures.  Faulty
    replicas and the network are the adversary: any correct replica may handle
    any event at any time, as long as it contains no signature of a correct
    replica on a block that the replica has not voted for.  Every step of the
    network is matched by steps of the system of [SimpleSafety], so that its
    agreement carries over to what the replicas execute. *)

From S2P Require Import Prelude Encoding Bitfield Types BlockChain CryptoBase Ecdsa Replica.
From S2P Require Import Rules Consensus SimpleSafety.

Section network.
Context {B : BLS12Lib} {E : ECDSALib} {Q L D : Type} {CQ : CommandSource Q} {VD : ViewDuration D}.
Abbreviation R := (Replica () Q L D).

(** The keys of the configuration, its faulty members, the blocks that exist,
    by hash, and what the replicas are made of. *)
Context (pubs : gmap ID PublicKey) (faulty : gset ID) (get : Hash → option Block).
Context (env : ID → CryptoEnv) (st : ID → Static) (fuel : nat) (LR : ID → LeaderRotation () Q L D).

Definition members : gset ID := dom pubs.

(** ** Effects *)

Definition voted (out : list effect) : list Hash := pc_blockHash <$> omap vote_of out.
Definition executions (out : list effect) : list Block :=
  omap (λ e, match e with EExec b => Some b | _ => None end) out.

Definition silent (e : effect) : Prop :=
  match e with EVote _ _ | EVoteSelf _ | EExec _ => False | _ => True end.

Lemma voted_app o1 o2 : voted (o1 ++ o2) = voted o1 ++ voted o2.
Proof. unfold voted. by rewrite omap_app, fmap_app. Qed.
Lemma executions_app o1 o2 : executions (o1 ++ o2) = executions o1 ++ executions o2.
Proof. apply omap_app. Qed.

Lemma silent_nothing es : Forall silent es → voted es = [] ∧ executions es = [].
Proof. induction 1 as [|e es He _ [IH1 IH2]]; [done|]. by destruct e. Qed.

(** ** Signatures *)

Definition valid (s : ecdsa_Signature) (h : Hash) : bool :=
  match pubs !! ec_signer s with
  | Some (PubECDSA pk) => ecdsa_Verify pk h (ec_r s) (ec_s s)
  | _ => false
  end.

(** A certificate whose signatures all satisfy [G] and are filed under their
    signers, as convert.go does when it receives one. *)
Definition qc_from (G : ecdsa_Signature → Prop) (qc : QuorumCert) : Prop :=
  match qc_signature qc with
  | Some (ThrECDSA m) => wf_ecdsa_Threshold m ∧ map_Forall (λ _ s, G s) m
  | _ => True
  end.
Definition sig_from (G : ecdsa_Signature → Prop) (s : option Signature) : Prop :=
  match s with Some (SigECDSA s) => G s | _ => True end.
Definition si_from (G : ecdsa_Signature → Prop) (si : SyncInfo) : Prop :=
  match si_qc si with Some qc => qc_from G qc | None => True end.

(** ** Blocks *)

Definition in_get (c : blockChain) : Prop := ∀ h b, blocks c !! h = Some b → get h = Some b.
Definition known (b : Block) : Prop := get (b_hash b) = Some b.
Definition proposals_known (out : list effect) : Prop := ∀ p, EPropose p ∈ out → known (pm_Block p).

(** The parent of a block is the block its certificate is for. *)
Definition linked : Prop :=
  ∀ h b, get h = Some b → b ≠ GetGenesis → b_parent b = qc_hash (b_cert b).

(** A fetch delivers the block with the hash if there is one. *)
Definition available (net : Network) : Prop :=
  ∀ k h, (net k h).2 = get h ∧ Forall known (net k h).1 .

(** ** The setting *)

Record setting : Prop := {
  set_envs i : env_replicas (env i) = pubs;
  set_keys i : ecdsa_config (env i);
  set_some : (1 ≤ n members)%Z;
  set_faulty : faulty ⊆ members;
  set_few : (Z.of_nat (size faulty) ≤ NumFaulty (n members))%Z;
  set_hash h b : get h = Some b → b_hash b = h ∧ (b_view b < two64)%N;
  set_zero : get zero_hash = None;
  set_genesis : known GetGenesis;
  set_net i : available (st_net (st i));
  set_leader i v (r r' : R) a : GetLeader (LeaderRotation := LR i) v r = Ok (a, r') →
    in_get (r_chain r) → in_get (r_chain r') }.

Context (HS : setting).

Lemma ec_valid_env i s h : ec_valid (env i) s h = valid s h.
Proof. unfold ec_valid, valid. by rewrite (set_envs HS). Qed.

Lemma set_known h b : get h = Some b → known b.
Proof. intros Hb. unfold known. by destruct (set_hash HS _ _ Hb) as [-> _]. Qed.

(** The facts of the system in this setting. *)
Section facts.
Context (s : sys) (b : Block) (Hreach : reachable members faulty get s).

Lemma net_inv : inv members faulty get s.
Proof. by apply (reachable_inv _ _ _ (set_hash HS)). Qed.

Lemma net_parent p :
  certified members faulty s b → qc_parent get b = Some p → certified members faulty s p.
Proof.
  intros Hb Hp. by apply (certified_parent _ _ _ (set_some HS) (set_faulty HS) (set_few HS) (set_zero HS)
    s net_inv b p).
Qed.

Lemma net_extends a :
  certified members faulty s b → extends get b a →
  certified members faulty s a ∧ (a = b ∨ (b_view a < b_view b)%N).
Proof.
  by apply (extends_certified _ _ _ (set_some HS) (set_faulty HS) (set_few HS) (set_zero HS) s net_inv).
Qed.

Lemma net_final : final members faulty get s b → certified members faulty s b.
Proof.
  by apply (final_certified _ _ _ (set_some HS) (set_faulty HS) (set_few HS) (set_hash HS) (set_zero HS) s net_inv).
Qed.

Lemma net_agree c :
  final members faulty get s b → final members faulty get s c → (b_view b ≤ b_view c)%N → extends get c b.
Proof.
  by apply (final_agree _ _ _ (set_some HS) (set_faulty HS) (set_few HS) (set_hash HS) (set_zero HS) s net_inv).
Qed.
End facts.

Lemma Store_in_get b c : known b → in_get c → in_get (blockChain_Store b c).
Proof. intros Hb Hc h b'. cbn. rewrite lookup_insert_Some. intros [[<- <-]|[_ ?]]; auto. Qed.

Lemma arrived_in_get bs c : Forall known bs → in_get c → in_get (foldl (λ c b, blockChain_Store b c) c bs).
Proof. intros Hbs. revert c. induction Hbs; intros c Hc; [done|]. cbn. auto using Store_in_get. Qed.

(** Looking a block up gives the block that exists. *)
Lemma Get_get i h c :
  in_get c → (blockChain_Get (st_net (st i)) h c).1 = get h ∧ in_get (blockChain_Get (st_net (st i)) h c).2 .
Proof.
  intros Hc. unfold blockChain_Get. destruct (blocks c !! h) as [b|] eqn:Hb; [by rewrite (Hc _ _ Hb)|].
  destruct (set_net HS i (fetches c) h) as [Hreply Harr].
  destruct (st_net (st i) (fetches c) h) as [arrived reply]. cbn in Hreply, Harr. subst reply.
  set (c' := end_fetch h _). assert (in_get c') as Hc' by (by apply arrived_in_get).
  destruct (get h) as [b|] eqn:Hg; cbn [fst snd].
  - split; [done|]. intros k b'. cbn. rewrite lookup_insert_Some. intros [[<- <-]|[_ ?]]; [done|by apply Hc'].
  - split; [|done]. destruct (blocks c' !! h) as [b|] eqn:Hb'; [|done]. apply Hc' in Hb'. congruence.
Qed.

(** ** One replica *)

Section replica.
Context (i : ID) (G : ecdsa_Signature → Prop) (others : ID → voter).

#[local] Instance crypto_i : CryptoImpl () := ecdsaCrypto (env i).
#[local] Instance leader_i : LeaderRotation () Q L D := LR i.
#[local] Instance rules_i : Rules () Q L D := SimpleHotStuff (st i).

Record local_ok (r : R) : Prop := {
  lo_chain : in_get (r_chain r);
  lo_high : qc_from G (sy_highQC (r_sync r));
  lo_votes h certs : r_votes r !! h = Some certs → Forall (λ c, sig_from G (pc_signature c)) certs }.

(** The replica is where the system says it is. *)
Record follows (s : sys) (r : R) : Prop := {
  fo_reach : reachable members faulty get s;
  fo_voter : s_voters s i = mkVoter (cs_lastVote (r_cs r)) (r_lock r);
  fo_others j : j ≠ i → s_voters s j = others j;
  fo_votes h b : h ∈ voted (r_out r) → get h = Some b → (i, b) ∈ s_votes s;
  fo_sigs σ h b : G σ → valid σ h = true → (ec_signer σ ∉ faulty) → get h = Some b → (ec_signer σ, b) ∈ s_votes s;
  fo_final : final members faulty get s (cs_bExec (r_cs r));
  fo_chain : linked → chain_to get (cs_bExec (r_cs r)) (executions (r_out r)) }.

(** Which blocks are proposed does not matter here. *)
Abbreviation advances := (Consensus.advances (λ _, True)).

Definition simulated (r r' : R) : Prop :=
  advances r r' ∧ (proposals_known (r_out r') → local_ok r →
    local_ok r' ∧ ∀ s, follows s r → ∃ s', rtc (sys_step members faulty get) s s' ∧ follows s' r').

Lemma advances_known (r r' : R) : advances r r' → proposals_known (r_out r') → proposals_known (r_out r).
Proof. intros [(es & -> & _) _ _ _ _ _] H p Hp. apply H, elem_of_app. by left. Qed.

#[export] Instance simulated_preorder : PreOrder simulated.
Proof.
  split.
  - intros r. split; [done|]. intros _ Hok. split; [done|]. intros s Hs. by exists s.
  - intros x y z [A1 S1] [A2 S2]. split; [by transitivity y|]. intros Hz Hx.
    destruct (S1 (advances_known _ _ A2 Hz) Hx) as [Hy F1]. destruct (S2 Hz Hy) as [Hzz F2]. split; [done|].
    intros s Hs. destruct (F1 s Hs) as (s1 & R1 & Hs1). destruct (F2 s1 Hs1) as (s2 & R2 & Hs2).
    exists s2. split; [by etrans|done].
Qed.

(** To prove a step one may assume what it needs. *)
Lemma simulated_intro (r r' : R) :
  advances r r' → (proposals_known (r_out r') → local_ok r → simulated r r') → simulated r r'.
Proof. intros Ha H. split; [done|]. intros Hp Hok. by apply H. Qed.

Lemma simulated_local (r r1 r' : R) :
  simulated r r1 → advances r1 r' → proposals_known (r_out r') → local_ok r → local_ok r1.
Proof. intros [_ S1] A2 Hp Hok. by apply (S1 (advances_known _ _ A2 Hp) Hok). Qed.

(** ** Steps that the system does not see *)

Record calm (r r' : R) : Prop := {
  ca_cs : r_cs r' = r_cs r;
  ca_lock : r_lock r' = r_lock r;
  ca_high : sy_highQC (r_sync r') = sy_highQC (r_sync r);
  ca_votes : r_votes r' = r_votes r;
  ca_out : ∃ es, r_out r' = r_out r ++ es ∧ Forall silent es;
  ca_chain : in_get (r_chain r) → in_get (r_chain r') }.

#[export] Instance calm_preorder : PreOrder calm.
Proof.
  split.
  - intros r. split; try done. exists []. by rewrite app_nil_r.
  - intros x y z [] []. split; try congruence; [|auto].
    destruct ca_out0 as (e1 & O1 & F1), ca_out1 as (e2 & O2 & F2). exists (e1 ++ e2).
    rewrite O2, O1, <-app_assoc. split; [done|by apply Forall_app].
Qed.

Lemma calm_local r r' : calm r r' → local_ok r → local_ok r'.
Proof. intros [] []. split; [auto|by rewrite ca_high0|by rewrite ca_votes0]. Qed.

Lemma calm_out (r r' : R) : calm r r' → voted (r_out r') = voted (r_out r) ∧ executions (r_out r') = executions (r_out r).
Proof.
  intros [_ _ _ _ (es & -> & Hes) _]. destruct (silent_nothing es Hes) as [Hv He].
  by rewrite voted_app, executions_app, Hv, He, !app_nil_r.
Qed.

Lemma calm_follows s r r' : calm r r' → follows s r → follows s r'.
Proof.
  intros Hc []. destruct (calm_out r r' Hc) as [Hv He]. destruct Hc.
  split; rewrite ?ca_cs0, ?ca_lock0, ?Hv, ?He; auto.
Qed.

Lemma calm_simulated r r' : advances r r' → calm r r' → simulated r r'.
Proof.
  intros Ha Hc. split; [done|]. intros _ Hok. split; [by eapply calm_local|].
  intros s Hs. exists s. split; [done|by eapply calm_follows].
Qed.

Lemma calm_run {A} (m : M R A) : preserves advances m → preserves calm m → preserves simulated m.
Proof. intros Ha Hc r a r' H. apply calm_simulated; [by eapply Ha|by eapply Hc]. Qed.

(** Changes of fields that [calm] does not mention. *)
Lemma modify_calm (f : R → R) :
  (∀ r, r_cs (f r) = r_cs r ∧ r_lock (f r) = r_lock r ∧ sy_highQC (r_sync (f r)) = sy_highQC (r_sync r) ∧
        r_votes (f r) = r_votes r ∧ r_out (f r) = r_out r ∧ r_chain (f r) = r_chain r) → preserves calm (modify f).
Proof.
  intros Hf. apply preserves_modify. intros r. destruct (Hf r) as (E1 & E2 & E3 & E4 & E5 & E6).
  split; rewrite ?E1, ?E2, ?E3, ?E4, ?E6; try done. exists []. by rewrite E5, app_nil_r.
Qed.

Lemma same_core_calm (r r' : R) : same_core r r' → (in_get (r_chain r) → in_get (r_chain r')) → calm r r'.
Proof.
  intros [E1 E2 E3 E4 _ E6 _] Hin. split; rewrite ?E3; try done. exists []. by rewrite E6, app_nil_r.
Qed.

Lemma crypto_calm {A} (m : M () A) : preserves calm (crypto m).
Proof.
  intros r a r' H. apply same_core_calm; [by eapply crypto_core|]. unfold crypto, lift_res in H.
  by destruct (m (r_crypto r)) as [[]| | |]; simplify_eq.
Qed.

Lemma chain_Get_run h (r : R) :
  in_get (r_chain r) → ∃ r', chain_Get (st i) h r = Ok (get h, r') ∧ calm r r'.
Proof.
  intros Hin. destruct (Get_get i h (r_chain r) Hin) as [Hg Hin'].
  assert (chain_Get (st i) h r = Ok (get h, set_chain (blockChain_Get (st_net (st i)) h (r_chain r)).2 r)) as Hrun.
  { unfold chain_Get, lift_st. destruct (blockChain_Get _ _ _) as [x c]. cbn [fst snd] in *. by subst x. }
  eexists. split; [exact Hrun|]. apply same_core_calm; [by eapply chain_Get_core|done].
Qed.

Lemma chain_Get_calm h : preserves calm (chain_Get (st i) h).
Proof.
  intros r a r' H. apply same_core_calm; [by eapply chain_Get_core|]. intros Hin.
  destruct (chain_Get_run h r Hin) as (r1 & Hrun & Hc). rewrite H in Hrun. injection Hrun as _ ->.
  by apply (ca_chain _ _ Hc).
Qed.

Lemma GetLeader_calm v : preserves calm (GetLeader v).
Proof. intros r a r' H. apply same_core_calm; [by eapply GetLeader_core|by apply (set_leader HS i v _ _ a)]. Qed.

Lemma chain_LocalGet_calm h : preserves calm (chain_LocalGet h).
Proof. apply preserves_gets. typeclasses eauto. Qed.

Lemma Duration_calm : preserves calm Duration.
Proof. intros r a r'. unfold Duration. rewrite res_bind_Ok. by intros (d & _ & [= <- <-]). Qed.

Lemma ViewSucceeded_calm : preserves calm ViewSucceeded.
Proof.
  intros r a r' H. apply same_core_calm; [by eapply ViewSucceeded_core|]. unfold ViewSucceeded in H.
  apply res_bind_Ok in H as (d & _ & [= <- <-]). done.
Qed.

Lemma cmd_Get_calm : preserves calm cmd_Get.
Proof.
  apply preserves_lift_res. intros r a q _. split; try done. exists []. by rewrite app_nil_r.
Qed.

Lemma emit_calm e : silent e → preserves calm (emit e).
Proof. intros He. apply preserves_modify. intros r. split; try done. exists [e]. auto. Qed.

Lemma Store_calm b : known b → preserves calm (chain_Store b).
Proof.
  intros Hb. apply preserves_modify. intros r. split; try done; [exists []; by rewrite app_nil_r|].
  cbn. by apply Store_in_get.
Qed.

Lemma prune_calm k committed height :
  preserves calm (lift_res (S:=R) r_chain set_chain (blockChain_PruneToHeight k committed height)).
Proof.
  apply preserves_lift_res. intros r a c H. split; try done; [exists []; by rewrite app_nil_r|].
  unfold blockChain_PruneToHeight in H. apply res_bind_Ok in H as (views & _ & H).
  destruct (prune_loop _ _ _ _ _). injection H as _ <-. done.
Qed.
#[local] Hint Resolve crypto_calm chain_Get_calm GetLeader_calm chain_LocalGet_calm Duration_calm
  ViewSucceeded_calm cmd_Get_calm prune_calm : pres.
#[local] Hint Extern 1 (preserves calm (emit _)) => (apply emit_calm; exact I) : pres.
#[local] Hint Extern 1 (preserves calm (modify _)) => (by apply modify_calm) : pres.
#[local] Hint Extern 1 (preserves calm (upd_sync _)) => (by apply modify_calm) : pres.
#[local] Hint Extern 1 (preserves calm (Proposed _)) => (by apply modify_calm) : pres.

Lemma emit_forks_calm bs : preserves calm (emit_forks bs).
Proof. induction bs as [|b bs IH]; cbn [emit_forks]; pres_solve. Qed.
Lemma newCtx_calm : preserves calm newCtx.
Proof. unfold newCtx. pres_solve. Qed.
#[local] Hint Resolve emit_forks_calm newCtx_calm : pres.

(** ** Certificates *)

(** A certificate that verifies is for a certified block, if the block
    exists. *)
Lemma verified_certified s r qc p :
  follows s r → qc_from G qc → accepted (VerifyQuorumCert qc) → get (qc_hash qc) = Some p →
  certified members faulty s p.
Proof.
  intros Hf Hfrom ([] & [] & Hacc) Hp. unfold VerifyQuorumCert in Hacc. case_bool_decide as Hg.
  { left. rewrite Hg in Hp. pose proof (set_genesis HS) as Hgen. unfold known in Hgen. congruence. }
  right. unfold qc_from in Hfrom. destruct (qc_signature qc) as [[m|m]|]; [|discriminate Hacc..].
  destruct Hfrom as [Hwf HG].
  change (ec_VerifyThresholdSignature (env i) (λ s h, pure_op (C:=unit) (ec_Verify (env i) s h))
    (Some (ThrECDSA m)) (qc_hash qc) () = Ok (true, ())) in Hacc.
  rewrite (ec_VerifyThreshold_spec (env i) m _ (set_keys HS i)) in Hacc. injection Hacc as Hq%Z.leb_le.
  exists (dom (ec_votes (env i) m (qc_hash qc))). split_and!.
  - unfold members. rewrite <-(set_envs HS i). by apply ec_votes_replicas.
  - rewrite size_dom. unfold env_QuorumSize in Hq. rewrite (set_envs HS) in Hq. unfold n, members.
    by rewrite size_dom.
  - intros j [σ Hσ]%elem_of_dom Hnf. apply map_lookup_filter_Some in Hσ as [Hl Hv].
    rewrite ec_valid_env in Hv. assert (ec_signer σ = j) as <- by exact (Hwf _ _ Hl).
    by apply (fo_sigs _ _ Hf _ _ _ (HG _ _ Hl) Hv).
Qed.

(** ** The rules *)

Lemma VoteRule_run (proposal : ProposeMsg) (r r' : R) ok :
  VoteRule proposal r = Ok (ok, r') → in_get (r_chain r) →
  calm r r' ∧ (ok = true → vote_rule get (r_lock r) (pm_Block proposal) = true).
Proof.
  intros H Hin. change (Simple_VoteRule (st i) proposal r = Ok (ok, r')) in H. unfold Simple_VoteRule in H.
  apply M_bind_Ok in H as (view & r0 & [= <- <-] & H).
  destruct (_ <? _)%N; [by injection H as <- <-|].
  destruct (chain_Get_run (qc_hash (b_cert (pm_Block proposal))) r Hin) as (r1 & Hrun & Hc).
  rewrite (M_bind_run _ _ _ _ _ Hrun) in H. unfold vote_rule, qc_parent.
  destruct (get _) as [p|]; [|by injection H as <- <-].
  apply M_bind_Ok in H as (locked & r2 & [= <- <-] & [= <- <-]). by rewrite (ca_lock _ _ Hc).
Qed.

(** The commit rule computes the system's, and raises the lock. *)
Lemma CommitRule_run (block : Block) (r r' : R) c :
  CommitRule block r = Ok (c, r') → in_get (r_chain r) →
  c = commit_of get block ∧ calm (set_lock (lock_after get (r_lock r) block) r) r'.
Proof.
  intros H Hin. change (Simple_CommitRule (st i) block r = Ok (c, r')) in H. unfold Simple_CommitRule in H.
  destruct (chain_Get_run (qc_hash (b_cert block)) r Hin) as (r1 & Hrun & C1).
  rewrite (M_bind_run _ _ _ _ _ Hrun) in H. unfold commit_of, lock_after, qc_parent.
  assert (∀ ra rb : R, calm ra rb → calm (set_lock (r_lock ra) ra) rb) as Hid by (intros [] ?; done).
  destruct (get (qc_hash (b_cert block))) as [p|]; cbn [mbind option_bind]; [|injection H as <- <-; auto].
  destruct (chain_Get_run (qc_hash (b_cert p)) r1 (ca_chain _ _ C1 Hin)) as (r2 & Hrun2 & C2).
  rewrite (M_bind_run _ _ _ _ _ Hrun2) in H.
  assert (calm r r2) as C12 by (by transitivity r1).
  destruct (get (qc_hash (b_cert p))) as [gp|]; cbn [mbind option_bind]; [|injection H as <- <-; auto].
  set (lock := if (b_view (r_lock r) <? b_view gp)%N then gp else r_lock r).
  assert (∃ r3, raise_lock gp r2 = Ok ((), r3) ∧ calm (set_lock lock r) r3) as (r3 & Hr3 & C3).
  { unfold raise_lock, lock. rewrite (ca_lock _ _ C12).
    destruct (_ <? _)%N; (eexists; split; [reflexivity|]); destruct C12; split; done. }
  rewrite (M_bind_run _ _ _ _ _ Hr3) in H.
  destruct (chain_Get_run (qc_hash (b_cert gp)) r3 (ca_chain _ _ C3 Hin)) as (r4 & Hrun4 & C4).
  rewrite (M_bind_run _ _ _ _ _ Hrun4) in H. injection H as <- <-.
  split; [|by transitivity r3]. by destruct (get (qc_hash (b_cert gp))).
Qed.

(** ** Voting *)

(** What casting a vote changes: nothing, or the last vote and perhaps a vote
    that is sent. *)
Record ballot (b : Block) (r r' : R) : Prop := {
  ba_exec : cs_bExec (r_cs r') = cs_bExec (r_cs r);
  ba_lock : r_lock r' = r_lock r;
  ba_high : sy_highQC (r_sync r') = sy_highQC (r_sync r);
  ba_votes : r_votes r' = r_votes r;
  ba_chain : in_get (r_chain r) → in_get (r_chain r');
  ba_out : ∃ es, r_out r' = r_out r ++ es ∧ executions es = [] ∧
    ((cs_lastVote (r_cs r') = cs_lastVote (r_cs r) ∧ voted es = []) ∨
     (cs_lastVote (r_cs r) < b_view b)%N ∧ cs_lastVote (r_cs r') = b_view b ∧ Forall (.= b_hash b) (voted es)) }.

Lemma calm_ballot b r r' : calm r r' → ballot b r r'.
Proof.
  intros [E1 E2 E3 E4 (es & E5 & Hes) E6]. split; rewrite ?E1; try done. exists es.
  destruct (silent_nothing es Hes). split_and!; try done. by left.
Qed.

Lemma calm_ballot_trans b r1 r2 r3 : calm r1 r2 → ballot b r2 r3 → ballot b r1 r3.
Proof.
  intros [E1 E2 E3 E4 (es & E5 & Hes) E6] [F1 F2 F3 F4 F5 (es' & F6 & Hx & F7)].
  destruct (silent_nothing es Hes) as [V1 V2].
  split; [congruence..|auto|]. exists (es ++ es'). rewrite F6, E5, <-app_assoc, voted_app, executions_app, V1, V2.
  by rewrite <-E1.
Qed.

Lemma cast_vote_ballot b (r r' : R) a : cast_vote (st i) b r = Ok (a, r') → ballot b r r'.
Proof.
  unfold cast_vote. rewrite M_bind_Ok. intros (lv & r0 & [= <- <-] & H).
  destruct (N.leb_spec (b_view b) (cs_lastVote (r_cs r))) as [|Hlt]; [injection H as <- <-; by apply calm_ballot|].
  apply M_bind_Ok in H as (pc & r1 & H1 & H). pose proof (crypto_calm _ _ _ _ H1) as C1.
  destruct pc as [pc|]; [|injection H as <- <-; by apply calm_ballot].
  assert (pc_blockHash pc = b_hash b) as Hpc.
  { unfold crypto, lift_res in H1. destruct (CreatePartialCert b (r_crypto r)) as [[]| | |] eqn:Hc;
      simplify_eq. by eapply CreatePartialCert_hash. }
  apply (calm_ballot_trans _ _ _ _ C1). rewrite <-(ca_cs _ _ C1) in Hlt.
  apply M_bind_Ok in H as ([] & r2 & [= <-] & H).
  apply M_bind_Ok in H as (leader & r3 & H3 & H). apply GetLeader_calm in H3 as C3.
  assert (∀ es, executions es = [] → Forall (.= b_hash b) (voted es) →
    ballot b r1 (mkReplica (r_cs r3) (r_lock r3) (r_sync r3) (r_votes r3) (r_chain r3) (r_crypto r3)
      (r_cmds r3) (r_leader r3) (r_duration r3) (r_out r3 ++ es))) as Hb.
  { intros es Hx Hv. destruct C3 as [E1 E2 E3 E4 (es' & E5 & Hes) E6].
    destruct (silent_nothing es' Hes) as [V1 V2]. split; cbn; rewrite ?E1, ?E2, ?E3, ?E4; try done.
    exists (es' ++ es). rewrite E5, <-app_assoc, voted_app, executions_app, V1, V2.
    split_and!; [done..|]. by right. }
  destruct (leader =? st_ID (st i))%N; [|case_bool_decide]; injection H as <- <-.
  - apply Hb; [done|]. by constructor.
  - apply Hb; [done|]. by constructor.
  - specialize (Hb [] eq_refl (proj2 (Forall_nil _) I)). rewrite app_nil_r in Hb. by destruct r3.
Qed.

Lemma OnPropose_vote_run (proposal : ProposeMsg) (r r' : R) stored :
  OnPropose_vote (st i) proposal r = Ok (stored, r') → known (pm_Block proposal) → in_get (r_chain r) →
  if stored : bool
  then vote_rule get (r_lock r) (pm_Block proposal) = true ∧ ballot (pm_Block proposal) r r'
  else calm r r'.
Proof.
  unfold OnPropose_vote. intros H Hk Hin. apply M_bind_Ok in H as (expected & r1 & H1 & H).
  apply GetLeader_calm in H1 as C1. destruct (_ =? _)%N; cbn [negb] in H; cycle 1.
  { apply M_bind_Ok in H as (l & r2 & H2 & [= <- <-]). apply GetLeader_calm in H2. by transitivity r1. }
  apply M_bind_Ok in H as (safe & r2 & H2 & H).
  destruct (VoteRule_run _ _ _ _ H2 (ca_chain _ _ C1 Hin)) as [C2 Hrule].
  assert (calm r r2) as C12 by (by transitivity r1).
  destruct safe; cbn [negb] in H; [|by injection H as <- <-].
  rewrite (ca_lock _ _ C1) in Hrule. specialize (Hrule eq_refl).
  apply M_bind_Ok in H as (qcb & r3 & H3 & H). apply chain_Get_calm in H3.
  apply M_bind_Ok in H as ([] & r4 & H4 & H).
  assert (calm r3 r4) as C4.
  { destruct qcb as [qcb|]; [|by injection H4 as <-]. revert H4. apply modify_calm. done. }
  apply M_bind_Ok in H as (acc & r5 & [= <- <-] & H).
  assert (calm r r4) as C14 by (transitivity r2; [done|by transitivity r3]).
  destruct (aq_Accept _ _); cbn [negb] in H; [|by injection H as <- <-].
  apply M_bind_Ok in H as ([] & r6 & H6 & H). apply (Store_calm _ Hk) in H6 as C6.
  apply M_bind_Ok in H as ([] & r7 & H7 & [= <- <-]). split; [done|].
  apply (calm_ballot_trans _ _ r6); [by transitivity r4|]. by eapply cast_vote_ballot.
Qed.

(** ** Committing *)

(** What a commit changes: the committed block and what is executed. *)
Record progress (r r' : R) : Prop := {
  pr_last : cs_lastVote (r_cs r') = cs_lastVote (r_cs r);
  pr_lock : r_lock r' = r_lock r;
  pr_high : sy_highQC (r_sync r') = sy_highQC (r_sync r);
  pr_votes : r_votes r' = r_votes r;
  pr_chain : in_get (r_chain r) → in_get (r_chain r');
  pr_voted : voted (r_out r') = voted (r_out r) }.

#[export] Instance progress_preorder : PreOrder progress.
Proof. split; [done|]. intros x y z [] []. split; try congruence. auto. Qed.

Lemma calm_progress r r' : calm r r' → progress r r'.
Proof. intros Hc. destruct (calm_out _ _ Hc). destruct Hc as [E1 ? ? ? ? ?]. split; rewrite ?E1; done. Qed.

Lemma commitInner_progress k b (r r' : R) a :
  commitInner (st i) k b r = Ok (a, r') → progress r r' ∧
    cs_bExec (r_cs r') = if (b_view (cs_bExec (r_cs r)) <? b_view b)%N then b else cs_bExec (r_cs r).
Proof.
  revert b r r' a. induction k as [|k IH]; intros b r r' a H; cbn [commitInner] in H; [done|].
  apply M_bind_Ok in H as (e & r0 & [= <- <-] & H).
  destruct (_ <? _)%N; [|by injection H as <- <-].
  apply M_bind_Ok in H as (parent & r1 & H1 & H). apply chain_Get_calm, calm_progress in H1.
  apply M_bind_Ok in H as ([] & r2 & H2 & H). apply M_bind_Ok in H as ([] & r3 & [= <-] & [= <- <-]).
  split; [|done]. transitivity r1; [done|]. transitivity r2.
  { destruct parent; [by eapply IH|by injection H2 as <-]. }
  split; try done. change (voted (r_out r2 ++ [EExec b]) = voted (r_out r2)). by rewrite voted_app, app_nil_r.
Qed.

(** The blocks that are executed continue the chain to the block that was
    committed last. *)
Lemma commitInner_chain s k b (r r' : R) a :
  commitInner (st i) k b r = Ok (a, r') → reachable members faulty get s → linked →
  in_get (r_chain r) → certified members faulty s b → known b →
  extends get b (cs_bExec (r_cs r)) ∨ (b_view b ≤ b_view (cs_bExec (r_cs r)))%N →
  chain_to get (cs_bExec (r_cs r)) (executions (r_out r)) →
  chain_to get (cs_bExec (r_cs r')) (executions (r_out r')).
Proof.
  intros H Hreach Hlink. revert b r r' a H. induction k as [|k IH]; intros b r r' a H Hin Hcert Hk Hext Hch;
    cbn [commitInner] in H; [done|].
  apply M_bind_Ok in H as (e & r0 & [= <- <-] & H).
  destruct (N.ltb_spec (b_view (cs_bExec (r_cs r))) (b_view b)) as [Hlt|]; [|by injection H as <- <-].
  destruct Hext as [Hext|?]; [|lia].
  assert (b ≠ GetGenesis) as Hne by (intros ->; cbn in Hlt; lia).
  destruct (rtc_inv _ _ Hext) as [Heq|(p & Hp & Hext')]; [rewrite Heq in Hlt; lia|].
  destruct (chain_Get_run (b_parent b) r Hin) as (r1 & Hrun & C1).
  rewrite (Hlink _ _ Hk Hne) in Hrun. rewrite (Hlink _ _ Hk Hne), (M_bind_run _ _ _ _ _ Hrun) in H.
  unfold qc_parent in Hp. rewrite Hp in H.
  apply M_bind_Ok in H as ([] & r2 & H2 & H). apply M_bind_Ok in H as ([] & r3 & [= <-] & [= <- <-]).
  change (chain_to get b (executions (r_out r2 ++ [EExec b]))).
  rewrite executions_app. apply (chain_block _ _ p); [done|].
  assert (chain_to get (cs_bExec (r_cs r2)) (executions (r_out r2))) as Hch2.
  { destruct (calm_out _ _ C1) as [_ Hx]. apply (IH p r1 r2 () H2); rewrite ?(ca_cs _ _ C1), ?Hx; auto.
    - by apply (ca_chain _ _ C1).
    - by apply (net_parent s b).
    - by apply (set_known _ _ Hp). }
  destruct (commitInner_progress k p r1 r2 () H2) as [_ He]. rewrite (ca_cs _ _ C1) in He.
  destruct (net_extends s p Hreach (cs_bExec (r_cs r))) as [_ [Heq|Hlt']]; [by apply (net_parent s b)|done| |].
  - rewrite <-Heq, N.ltb_irrefl in He. by rewrite <-Heq, <-He.
  - rewrite (proj2 (N.ltb_lt _ _) Hlt') in He. by rewrite <-He.
Qed.

Lemma commit_run b (r r' : R) a :
  commit (st i) b r = Ok (a, r') →
  ∃ r1, commitInner (st i) (st_fuel (st i)) b r = Ok ((), r1) ∧ calm r1 r'.
Proof.
  unfold commit. intros H. apply M_bind_Ok in H as ([] & r1 & H1 & H).
  apply M_bind_Ok in H as (e & r2 & [= <- <-] & H). apply M_bind_Ok in H as (forked & r3 & H3 & H).
  exists r1. split; [done|]. transitivity r3; [by eapply prune_calm|by eapply emit_forks_calm].
Qed.

Lemma commit_progress b (r r' : R) a : commit (st i) b r = Ok (a, r') → progress r r'.
Proof.
  intros (r1 & H1 & C)%commit_run. transitivity r1; [by eapply commitInner_progress|by apply calm_progress].
Qed.

Lemma commit_follows s b (r r' : R) a :
  commit (st i) b r = Ok (a, r') → in_get (r_chain r) → follows s r →
  committed members faulty get s b → known b → follows s r'.
Proof.
  intros (r1 & H1 & C2)%commit_run Hin Hf Hb Hk.
  destruct (commitInner_progress _ _ _ _ _ H1) as [P1 He].
  assert (final members faulty get s b) as Hfin by (by right).
  apply (calm_follows s r1 r' C2).
  destruct P1, Hf. split; try done; [by rewrite pr_last0, pr_lock0|by rewrite pr_voted0|..].
  - rewrite He. by destruct (_ <? _)%N.
  - intros Hlink. eapply (commitInner_chain s); try done; [by apply net_final| |by auto].
    destruct (N.le_ge_cases (b_view b) (b_view (cs_bExec (r_cs r)))); [by right|left].
    by apply (net_agree s).
Qed.

Lemma commit_of_known b c : commit_of get b = Some c → known c.
Proof.
  unfold commit_of. destruct (qc_parent get b) as [p|]; [cbn|done]. destruct (qc_parent get p) as [gp|]; [cbn|done].
  destruct (qc_parent get gp) as [ggp|] eqn:Hg; [cbn|done]. destruct (_ =? _)%N; [|done]. intros [= <-].
  by apply set_known in Hg.
Qed.

(** The vote and the lock are a step of the system. *)
Lemma vote_follows s b (r r1 r2 : R) :
  i ∈ members → (i ∉ faulty) → known b → qc_from G (b_cert b) → accepted (VerifyQuorumCert (b_cert b)) →
  vote_rule get (r_lock r) b = true → ballot b r r1 → calm (set_lock (lock_after get (r_lock r1) b) r1) r2 →
  follows s r → ∃ s' p, rtc (sys_step members faulty get) s s' ∧ follows s' r2 ∧
    qc_parent get b = Some p ∧ certified members faulty s' p.
Proof.
  intros Hi Hnf Hk Hfrom Hacc Hrule [B1 B2 B3 B4 B5 (es & B6 & B7 & B8)] C2 Hf.
  destruct (qc_parent get b) as [p|] eqn:Hp; [|unfold vote_rule in Hrule; by rewrite Hp in Hrule].
  pose proof (verified_certified _ _ _ _ Hf Hfrom Hacc Hp) as Hcert.
  rewrite B2 in C2. destruct (calm_out _ _ C2) as [V2 X2]. change (voted (r_out r2) = voted (r_out r1)) in V2.
  change (executions (r_out r2) = executions (r_out r1)) in X2. destruct C2 as [E1 E2 _ _ _ _].
  rewrite B6, voted_app in V2. rewrite B6, executions_app, B7, app_nil_r in X2.
  pose proof (fo_voter _ _ Hf) as Hvo. set (lock' := lock_after get (r_lock r) b) in *.
  assert (∀ s', sys_step members faulty get s s' →
    (∀ j, j ≠ i → s_voters s' j = s_voters s j) → s_voters s' i = mkVoter (cs_lastVote (r_cs r1)) lock' →
    (∀ h b', h ∈ voted es → get h = Some b' → (i, b') ∈ s_votes s') →
    rtc (sys_step members faulty get) s s' ∧ follows s' r2 ∧ Some p = Some p ∧ certified members faulty s' p) as Hstep.
  { intros s' Hst Ho Hv Hes. assert (∀ v, v ∈ s_votes s → v ∈ s_votes s') as Hsub by (intros v; by apply (step_votes _ _ _ _ _ _ Hst)).
    split_and!; [by apply rtc_once| |done|by apply (certified_mono _ _ s)].
    destruct Hf. split; rewrite ?E1, ?E2; cbn; [by eapply rtc_r|done|intros j Hj; by rewrite Ho, fo_others0|..].
    - intros h b'. rewrite V2, elem_of_app. intros [?|?] ?; eauto.
    - eauto.
    - rewrite B1. destruct fo_final0 as [|Hc]; [by left|right]. by apply (committed_mono _ _ _ s).
    - rewrite B1, X2. done. }
  destruct B8 as [[Hlast Hno]|(Hlt & Hlast & Hes)].
  - eexists _, p. apply Hstep; [apply (step_raise _ _ _ s i (mkVoter (cs_lastVote (r_cs r1)) lock'))|..]; cbn.
    + rewrite Hvo. cbn. by rewrite Hlast.
    + rewrite Hvo. by destruct (lock_after_view get (r_lock r) b).
    + intros j Hj. unfold upd. by rewrite decide_False.
    + unfold upd. by rewrite decide_True.
    + rewrite Hno. intros h b' []%not_elem_of_nil.
  - eexists _, p. apply Hstep; [apply (step_propose _ _ _ s i b p); try done; by rewrite Hvo|..];
      rewrite Hvo; cbn [vo_lastVote vo_locked]; rewrite (proj2 (N.ltb_lt _ _) Hlt); cbn [s_votes s_voters].
    + intros j Hj. unfold upd. by rewrite decide_False.
    + unfold upd. by rewrite decide_True, Hlast.
    + intros h b' Hh Hg. rewrite elem_of_app, list_elem_of_singleton. right.
      rewrite Forall_forall in Hes. rewrite (Hes h Hh) in Hg. unfold known in Hk. congruence.
Qed.

(** A proposal whose certificate has been checked: the vote, the lock and the
    commit. *)
Lemma OnPropose_simulated (proposal : ProposeMsg) (r r1 r' : R) a stored :
  OnPropose_vote (st i) proposal r = Ok (stored, r1) →
  (if stored : bool then OnPropose_commit (st i) (pm_Block proposal) else mret ()) r1 = Ok (a, r') →
  i ∈ members → (i ∉ faulty) → known (pm_Block proposal) → qc_from G (b_cert (pm_Block proposal)) →
  accepted (VerifyQuorumCert (b_cert (pm_Block proposal))) → simulated r r'.
Proof.
  set (b := pm_Block proposal). intros Hvote Hcommit Hi Hnf Hk Hfrom Hacc.
  assert (advances r r') as Hadv.
  { transitivity r1; [by eapply OnPropose_vote_advances|]. destruct stored; [by eapply OnPropose_commit_advances|].
    by injection Hcommit as _ <-. }
  split; [done|]. intros _ [Lc Lh Lv]. pose proof (OnPropose_vote_run _ _ _ _ Hvote Hk Lc) as Hrun.
  destruct stored; cycle 1.
  { injection Hcommit as _ <-. split; [by apply (calm_local r)|].
    intros s Hs. exists s. split; [done|by apply (calm_follows s r)]. }
  fold b in Hrun. destruct Hrun as [Hrule Hba].
  unfold OnPropose_commit in Hcommit. apply M_bind_Ok in Hcommit as (c & r2 & H2 & H).
  destruct (CommitRule_run _ _ _ _ H2 (ba_chain _ _ _ Hba Lc)) as [-> C2].
  assert (local_ok r2) as Hok2.
  { apply (calm_local _ _ C2). destruct Hba. split; cbn; [auto|by rewrite ba_high0|by rewrite ba_votes0]. }
  assert (progress r2 r') as Hpr.
  { destruct (commit_of get b); [by eapply commit_progress|by injection H as _ <-]. }
  split; [destruct Hok2, Hpr; split; [auto|by rewrite pr_high0|by rewrite pr_votes0]|].
  intros s Hs. destruct (vote_follows s b r r1 r2) as (s' & p & Hsteps & Hs' & Hp & Hcert); try done.
  exists s'. split; [done|]. destruct (commit_of get b) as [c|] eqn:Hc; [|by injection H as _ <-].
  apply (commit_follows s' c r2 r' a); try done; [by apply lo_chain|by exists b, p|by eapply commit_of_known].
Qed.

(** ** Handlers *)

Lemma core_simulated {A} (m : M R A) : preserves same_core m → preserves calm m → preserves simulated m.
Proof. intros H. apply calm_run. by apply voting_advances, core_voting. Qed.

Lemma crypto_sim {A} (m : M () A) : preserves simulated (crypto m).
Proof. apply core_simulated; auto with pres. Qed.
Lemma chain_Get_sim h : preserves simulated (chain_Get (st i) h).
Proof. apply core_simulated; auto with pres. Qed.
Lemma chain_LocalGet_sim h : preserves simulated (chain_LocalGet h).
Proof. apply core_simulated; auto with pres. Qed.
Lemma GetLeader_sim v : preserves simulated (GetLeader v).
Proof. apply core_simulated; auto with pres. Qed.
Lemma Duration_sim : preserves simulated Duration.
Proof. apply core_simulated; auto with pres. Qed.
Lemma ViewSucceeded_sim : preserves simulated ViewSucceeded.
Proof. apply core_simulated; auto with pres. Qed.
Lemma cmd_Get_sim : preserves simulated cmd_Get.
Proof. apply calm_run; auto using cmd_Get_advances with pres. Qed.
Lemma Proposed_sim cmd : preserves simulated (Proposed cmd).
Proof. apply calm_run; auto using Proposed_advances with pres. Qed.
Lemma newCtx_sim : preserves simulated newCtx.
Proof. apply calm_run; [eapply newCtx_advances|auto with pres]. Qed.
Lemma emit_sim e : silent e → preserves simulated (emit e).
Proof. intros He. apply calm_run; [|by apply emit_calm]. apply emit_advances. by destruct e. Qed.
Lemma Store_sim b : known b → preserves simulated (chain_Store b).
Proof. intros Hb. apply calm_run; [apply chain_Store_advances|by apply Store_calm]. Qed.

(** Changes of fields that neither [advances] nor [calm] mentions. *)
Lemma modify_sim (f : R → R) :
  (∀ r, r_cs (f r) = r_cs r ∧ r_lock (f r) = r_lock r ∧ r_out (f r) = r_out r ∧
        r_chain (f r) = r_chain r ∧ sy_currentView (r_sync (f r)) = sy_currentView (r_sync r) ∧
        (tc_view (sy_highTC (r_sync r)) ≤ tc_view (sy_highTC (r_sync (f r))))%N ∧
        sy_highQC (r_sync (f r)) = sy_highQC (r_sync r) ∧ r_votes (f r) = r_votes r) →
  preserves simulated (modify f).
Proof.
  intros Hf. apply calm_run; [apply modify_advances|apply modify_calm]; intros r;
    destruct (Hf r) as (? & ? & ? & ? & ? & ? & ? & ?); done.
Qed.

#[local] Hint Resolve crypto_sim chain_Get_sim chain_LocalGet_sim GetLeader_sim Duration_sim
  ViewSucceeded_sim cmd_Get_sim Proposed_sim newCtx_sim : pres.
#[local] Hint Extern 1 (preserves simulated (emit _)) => (apply emit_sim; exact I) : pres.
#[local] Hint Extern 1 (preserves simulated (modify _)) => (by apply modify_sim) : pres.
#[local] Hint Extern 1 (preserves simulated (upd_sync _)) => (by apply modify_sim) : pres.

(** The continuation may use what holds when it starts. *)
Lemma simulated_bind {A A'} (m : M R A) (f : A → M R A') :
  preserves simulated m → (∀ a, preserves advances (f a)) →
  (∀ r a r1 b r', m r = Ok (a, r1) → f a r1 = Ok (b, r') → local_ok r1 → proposals_known (r_out r') →
     simulated r1 r') →
  preserves simulated (m ≫= f).
Proof.
  intros Hm Ha Hf r b r' (a & r1 & H1 & H2)%M_bind_Ok. pose proof (Hm _ _ _ H1) as S1.
  pose proof (Ha _ _ _ _ H2) as A2. apply simulated_intro; [transitivity r1; [by destruct S1|done]|].
  intros Hp Hok. transitivity r1; [done|]. eapply Hf; try done. by eapply simulated_local.
Qed.

Lemma highQC_sim qc b : qc_from G qc → preserves simulated (upd_sync (set_highQC qc b)).
Proof.
  intros Hqc r a r' H. split; [revert H; by apply modify_advances|]. injection H as _ <-.
  intros _ []. split; [by split|]. intros s []. exists s. split; [done|by split].
Qed.
#[local] Hint Resolve highQC_sim : pres.

Lemma UpdateHighQC_sim qc : qc_from G qc → preserves simulated (UpdateHighQC (st i) qc).
Proof. intros Hqc. unfold UpdateHighQC, HighQC. pres_solve. Qed.
#[local] Hint Resolve UpdateHighQC_sim : pres.

Lemma AdvanceView_cert_sim si : si_from G si → preserves simulated (AdvanceView_cert (st i) si).
Proof.
  intros Hsi. unfold AdvanceView_cert, si_from in *.
  destruct (si_tc si) as [tc|]; [|destruct (si_qc si) as [qc|]]; pres_solve.
  apply modify_sim. intros r. cbn. destruct (N.ltb_spec (tc_view (sy_highTC (r_sync r))) (tc_view tc)); cbn;
    split_and!; (done || lia).
Qed.

Lemma enter_view_sim v timeout (r r' : R) a :
  (sy_currentView (r_sync r) ≤ v < two64)%N → enter_view v timeout r = Ok (a, r') → simulated r r'.
Proof.
  intros Hle H. apply calm_simulated; [by eapply enter_view_advances|].
  assert (preserves calm (enter_view (C:=()) (Q:=Q) (L:=L) v timeout)) as Hc by (unfold enter_view; pres_solve).
  by eapply Hc.
Qed.

Context (Hi : i ∈ members) (Hnf : i ∉ faulty).

Lemma OnPropose_verify_calm p : preserves simulated (OnPropose_verify (st i) p).
Proof. unfold OnPropose_verify. pres_solve. Qed.

Lemma OnPropose_with_sim adv p :
  (∀ si, si_from G si → preserves simulated (adv si)) → known (pm_Block p) → qc_from G (b_cert (pm_Block p)) →
  preserves simulated (OnPropose_with (st i) adv p).
Proof.
  intros Hadv Hk Hfrom r a r'. unfold OnPropose_with. rewrite M_bind_Ok. intros (ok & r1 & H1 & H).
  transitivity r1; [by eapply OnPropose_verify_calm|]. destruct ok; cbn [negb] in H; [|by injection H as _ <-].
  assert (accepted (VerifyQuorumCert (b_cert (pm_Block p)))) as Hacc.
  { unfold OnPropose_verify in H1. apply M_bind_Ok in H1 as (agg & r0 & _ & H1).
    destruct agg; cbn [negb] in H1; [by eapply crypto_accepted|done]. }
  apply M_bind_Ok in H as (stored & r2 & H2 & H). apply M_bind_Ok in H as ([] & r3 & H3 & H).
  transitivity r3; [by eapply OnPropose_simulated|]. eapply Hadv; [|exact H]. done.
Qed.

Lemma Propose_ack_sim si : preserves simulated (Propose_ack (st i) si).
Proof. unfold Propose_ack. pres_solve. Qed.

Lemma make_proposal_sim si cmd : preserves simulated (make_proposal (st i) si cmd).
Proof. unfold make_proposal, LeafBlock, View_. cbn [ProposeRule rules_i SimpleHotStuff]. pres_solve. Qed.

Lemma own_proposal_cert si cmd (r r' : R) p :
  make_proposal (st i) si cmd r = Ok (Some p, r') → si_from G si → qc_from G (b_cert (pm_Block p)).
Proof.
  unfold make_proposal. cbn [ProposeRule rules_i SimpleHotStuff]. unfold SyncInfo_QC, si_from.
  intros H Hsi. destruct (si_qc si) as [qc|]; cbn in H; destruct (SyncInfo_AggQC si); injection H as <- _; done.
Qed.

Lemma Propose_with_sim onPropose si :
  (∀ p, preserves advances (onPropose p)) →
  (∀ p, known (pm_Block p) → qc_from G (b_cert (pm_Block p)) → preserves simulated (onPropose p)) →
  si_from G si → preserves simulated (Propose_with (st i) onPropose si).
Proof.
  intros Hadv Hon Hsi r a r'. unfold Propose_with. rewrite M_bind_Ok. intros (acked & r1 & H1 & H).
  transitivity r1; [by eapply Propose_ack_sim|]. destruct acked; cbn [negb] in H; [|by injection H as _ <-].
  apply M_bind_Ok in H as (cmd & r2 & H2 & H). transitivity r2; [by eapply cmd_Get_sim|].
  destruct cmd as [cmd|]; [|by injection H as _ <-].
  apply M_bind_Ok in H as (p & r3 & H3 & H). transitivity r3; [by eapply make_proposal_sim|].
  destruct p as [p|]; [|by injection H as _ <-]. pose proof (own_proposal_cert _ _ _ _ _ H3 Hsi) as Hcert.
  apply M_bind_Ok in H as ([] & r4 & H4 & H). apply M_bind_Ok in H as ([] & r5 & H5 & H).
  pose proof (Hadv _ _ _ _ H) as A6. apply simulated_intro.
  { transitivity r4; [by eapply chain_Store_advances|]. transitivity r5; [|done].
    revert H5. by apply emit_advances. }
  intros Hp _. assert (known (pm_Block p)) as Hk.
  { apply Hp. destruct A6 as [(es & -> & _) _ _ _ _ _]. apply elem_of_app. left.
    injection H5 as <-. cbn. apply elem_of_app. right. by left. }
  transitivity r4; [by eapply Store_sim|]. transitivity r5; [revert H5; by apply emit_sim|]. by eapply Hon.
Qed.

Lemma AdvanceView_sim k si : si_from G si → preserves simulated (AdvanceView (st i) k si).
Proof.
  revert si. induction k as [|k IH]; intros si Hsi; cbn [AdvanceView]; [by apply preserves_nofuel|].
  intros r a r'. unfold AdvanceView_body. rewrite M_bind_Ok. intros (cert & r1 & H1 & H).
  transitivity r1; [by eapply AdvanceView_cert_sim|].
  destruct cert as [[v timeout]|]; [|by injection H as _ <-]. apply AdvanceView_cert_fits in H1.
  apply M_bind_Ok in H as (cur & r2 & [= <- <-] & H).
  destruct (N.ltb_spec v (sy_currentView (r_sync r1))); [by injection H as _ <-|].
  apply M_bind_Ok in H as ([] & r3 & H3 & H). transitivity r3; [by eapply enter_view_sim|].
  apply M_bind_Ok in H as (leader & r4 & H4 & H). transitivity r4; [by eapply GetLeader_sim|].
  destruct (leader =? st_ID (st i))%N; cycle 1.
  { case_bool_decide; [|by injection H as _ <-]. revert H. by apply emit_sim. }
  eapply Propose_with_sim; [| |done|exact H].
  - intros p. apply OnPropose_with_advances; [|done]. intros si'. apply AdvanceView_advances.
  - intros p Hk Hq. by apply OnPropose_with_sim.
Qed.
#[local] Hint Resolve AdvanceView_sim : pres.

Lemma OnPropose_sim k p :
  known (pm_Block p) → qc_from G (b_cert (pm_Block p)) → preserves simulated (OnPropose (st i) k p).
Proof. intros Hk Hq. apply OnPropose_with_sim; [|done..]. intros si Hsi. by apply AdvanceView_sim. Qed.

Lemma Propose_sim k si : si_from G si → preserves simulated (Propose (st i) k si).
Proof.
  apply Propose_with_sim; [intros p; by apply OnPropose_advances|]. intros p Hk Hq. by apply OnPropose_sim.
Qed.
#[local] Hint Resolve OnPropose_sim Propose_sim : pres.

(** The certificate the replica has is one it may pass on. *)
Lemma getSyncInfo_from (r r1 : R) si : getSyncInfo r = Ok (si, r1) → local_ok r → si_from G si.
Proof. intros [= <- <-] []. unfold si_from. by destruct (_ <=? _)%N. Qed.

Lemma getSyncInfo_bind {A} (f : SyncInfo → M R A) :
  (∀ si, preserves advances (f si)) → (∀ si, si_from G si → preserves simulated (f si)) →
  preserves simulated (getSyncInfo ≫= f).
Proof.
  intros Ha Hf. apply simulated_bind; [apply preserves_gets; typeclasses eauto|done|].
  intros r si r1 b r' H1 H2 Hok _. eapply Hf; [|done]. injection H1 as <- <-. by eapply getSyncInfo_from.
Qed.

Lemma Start_sim k : preserves simulated (Start (st i) k).
Proof.
  unfold Start, View_. do 3 (apply preserves_bind; [typeclasses eauto|by eauto with pres typeclass_instances|intros ?]).
  destruct (_ =? _)%N; [|eauto with pres typeclass_instances].
  apply preserves_bind; [typeclasses eauto|eauto with pres|intros leader].
  destruct (_ =? _)%N; [|eauto with pres typeclass_instances].
  apply getSyncInfo_bind; [intros si; apply Propose_advances|]. intros si Hsi. by apply Propose_sim.
Qed.

Lemma add_timeout_sim t : preserves simulated (add_timeout t).
Proof.
  intros r a r' H. apply calm_simulated; [by eapply add_timeout_advances|]. injection H as _ <-.
  split; try done. exists []. by rewrite app_nil_r.
Qed.
#[local] Hint Resolve add_timeout_sim : pres.

(** What follows the creation of a timeout certificate. *)
Lemma timeout_cert_sim k view tc timeoutList :
  preserves simulated (si0 ← getSyncInfo;
    let si := SyncInfo_WithTC si0 tc in
    si' ← (if shouldUseAggQC (st_opts (st i)) then
             v ← View_;
             agg ← crypto (CreateAggregateQC v timeoutList);
             mret (match agg with
                   | inl aggQC => SyncInfo_WithAggQC si aggQC
                   | inr _ => si
                   end)
           else mret si : M R SyncInfo);
    _ ← upd_sync (λ s, set_timeouts (delete view (sy_timeouts s)) s);
    AdvanceView (st i) k si').
Proof.
  apply getSyncInfo_bind.
  { intros si. unfold View_. pres_solve; try (by apply modify_advances); try apply AdvanceView_advances;
      apply voting_advances; auto with pres. }
  intros si Hsi r a r' (si' & r1 & H1 & H)%M_bind_Ok.
  assert (simulated r r1 ∧ si_from G si') as [S1 Hsi'].
  { destruct (shouldUseAggQC _); [|injection H1 as <- <-; done].
    apply M_bind_Ok in H1 as (v & r2 & [= <- <-] & H1). apply M_bind_Ok in H1 as (agg & r3 & H3 & [= <- <-]).
    split; [by eapply crypto_sim|]. by destruct agg. }
  transitivity r1; [done|]. revert H. revert a r'. generalize r1. 
  assert (preserves simulated (_ ← upd_sync (λ s, set_timeouts (delete view (sy_timeouts s)) s);
    AdvanceView (st i) k si')) as Hp by pres_solve. intros r2 a r'. apply Hp.
Qed.

Lemma OnRemoteTimeout_sim k t :
  si_from G (tm_SyncInfo t) → preserves simulated (OnRemoteTimeout (st i) k t).
Proof.
  intros Ht. unfold OnRemoteTimeout, drop_old_timeouts. 
  apply preserves_bind; [typeclasses eauto| |intros _; by apply modify_sim].
  unfold OnRemoteTimeout_body.
  apply preserves_bind; [typeclasses eauto|by auto with pres|intros ok]. destruct ok; cbn [negb]; [|by auto with pres typeclass_instances].
  apply preserves_bind; [typeclasses eauto|by auto with pres|intros _].
  apply preserves_bind; [typeclasses eauto|by auto with pres|intros timeouts].
  destruct (_ <? _)%Z; [by auto with pres typeclass_instances|].
  apply preserves_bind; [typeclasses eauto|by auto with pres|intros [tc|]]; [|by auto with pres typeclass_instances].
  apply timeout_cert_sim.
Qed.
#[local] Hint Resolve OnRemoteTimeout_sim : pres.

Lemma StopVoting_sim v : preserves simulated (StopVoting v).
Proof.
  intros r a r' H. split; [by eapply StopVoting_advances|]. injection H as _ <-.
  destruct (N.ltb_spec (cs_lastVote (r_cs r)) v) as [Hlt|]; [|intros _ Hok; split; [done|intros s Hs; by exists s]].
  intros _ []. split; [by split|]. intros s Hs. pose proof (fo_voter _ _ Hs) as Hvo.
  set (s' := mkSys (s_votes s) (upd (s_voters s) i (mkVoter v (r_lock r)))).
  assert (sys_step members faulty get s s') as Hst.
  { apply step_raise; rewrite Hvo; cbn; lia. }
  exists s'. split; [by apply rtc_once|]. destruct Hs. split; try done.
  - by eapply rtc_r.
  - cbn. unfold upd. by rewrite decide_True.
  - intros j Hj. cbn. unfold upd. rewrite decide_False by done. by apply fo_others0.
Qed.
#[local] Hint Resolve StopVoting_sim : pres.

Lemma new_timeout_sim k : preserves simulated (new_timeout (st i) k).
Proof.
  unfold new_timeout, View_. do 3 (apply preserves_bind; [typeclasses eauto|by eauto with pres typeclass_instances|intros ?]).
  destruct a1 as [sig|]; [|by auto with pres typeclass_instances]. apply getSyncInfo_bind.
  { intros si. pres_solve; first [apply OnRemoteTimeout_advances | apply StopVoting_advances
      | by apply emit_advances | by apply modify_advances | apply voting_advances; auto with pres]. }
  intros si Hsi r b r' (msg & r1 & H1 & H)%M_bind_Ok.
  assert (simulated r r1 ∧ match msg with Some t => si_from G (tm_SyncInfo t) | None => True end) as [S1 Hmsg].
  { destruct (shouldUseAggQC _); [|injection H1 as <- <-; done].
    apply M_bind_Ok in H1 as (sig2 & r2 & H2 & [= <- <-]). split; [by eapply crypto_sim|]. by destruct sig2. }
  transitivity r1; [done|]. destruct msg as [t|]; [|by injection H as _ <-].
  assert (preserves simulated (_ ← upd_sync (set_lastTimeout (Some t)); _ ← StopVoting a0;
    _ ← emit (ETimeout t); OnRemoteTimeout (st i) k t)) as Hp by pres_solve. by eapply Hp.
Qed.
#[local] Hint Resolve new_timeout_sim : pres.

Lemma onLocalTimeout_sim k ctxDone : preserves simulated (onLocalTimeout (st i) k ctxDone).
Proof. unfold onLocalTimeout. pres_solve. Qed.

Lemma OnVote_sim vote : preserves simulated (OnVote (st i) vote).
Proof. unfold OnVote, LeafBlock. pres_solve. Qed.

(** The votes a replica has collected. *)
Lemma votes_sim (r r' : R) :
  r' = set_votes (r_votes r') r →
  (local_ok r → ∀ h certs, r_votes r' !! h = Some certs → Forall (λ c, sig_from G (pc_signature c)) certs) →
  simulated r r'.
Proof.
  intros Heq Hv. split.
  { rewrite Heq. eapply (modify_advances _ (λ r, set_votes (r_votes r') r)); [|reflexivity]. done. }
  rewrite Heq. intros _ Hok. specialize (Hv Hok). destruct Hok. split; [by split|]. intros s []. exists s. split; [done|by split].
Qed.

Lemma clean_votes_sim : preserves simulated clean_votes.
Proof.
  apply preserves_modify. intros r. apply votes_sim; [done|]. intros [] h certs. cbn.
  rewrite map_lookup_filter_Some. intros [? _]. eauto.
Qed.
#[local] Hint Resolve clean_votes_sim : pres.

Lemma delete_votes_sim h : preserves simulated (modify (λ r : R, set_votes (delete h (r_votes r)) r)).
Proof.
  apply preserves_modify. intros r. apply votes_sim; [done|]. intros [] h' certs. cbn.
  rewrite lookup_delete_Some. intros [_ ?]. eauto.
Qed.
#[local] Hint Resolve delete_votes_sim : pres.

Lemma verifyCert_sim cert b :
  sig_from G (pc_signature cert) → preserves simulated (verifyCert (st i) cert b).
Proof.
  intros Hc r a r'. unfold verifyCert. rewrite M_bind_Ok. intros (ok & r1 & H1 & H).
  transitivity r1; [by eapply crypto_sim|]. destruct ok; cbn [negb] in H; [|by injection H as _ <-].
  apply M_bind_Ok in H as (r0 & r2 & [= <- <-] & H). apply M_bind_Ok in H as ([] & r3 & [= <-] & H).
  set (votes := default [] (r_votes r1 !! pc_blockHash cert) ++ [cert]) in *.
  transitivity (set_votes (<[pc_blockHash cert := votes]> (r_votes r1)) r1).
  - apply votes_sim; [done|]. intros [] h certs. cbn. rewrite lookup_insert_Some.
    intros [[<- <-]|[_ ?]]; [|by eauto]. unfold votes. apply Forall_app. split; [|by constructor].
    destruct (r_votes r1 !! pc_blockHash cert) eqn:Hl; cbn; [by eauto|constructor].
  - revert H. generalize (set_votes (<[pc_blockHash cert := votes]> (r_votes r1)) r1). revert a r'.
    set (m := _ ≫= _).
    assert (preserves simulated m) as Hp by (unfold m; pres_solve). intros a r' r4. apply Hp.
Qed.

(** Events that contain no signatures but those in [G], and only blocks that
    exist. *)
Definition event_from (e : event) : Prop :=
  match e with
  | EvStart | EvLocalTimeout _ | EvVote _ => True
  | EvPropose p => known (pm_Block p) ∧ qc_from G (b_cert (pm_Block p))
  | EvNewView m => si_from G (nv_SyncInfo m)
  | EvTimeout t => si_from G (tm_SyncInfo t)
  | EvVerify cert _ => sig_from G (pc_signature cert)
  end.

Lemma handle_sim e : event_from e → preserves simulated (handle (st i) fuel e).
Proof.
  destruct e; cbn [event_from handle]; intros He.
  - apply Start_sim.
  - destruct He. by apply OnPropose_sim.
  - by apply AdvanceView_sim.
  - by apply OnRemoteTimeout_sim.
  - apply onLocalTimeout_sim.
  - apply OnVote_sim.
  - by apply verifyCert_sim.
Qed.
End replica.

(** ** The network *)

Context (cmds : ID → Q) (leaders : ID → L) (durations : ID → D).

Definition net_init : ID → R := λ i, Replica_New () (cmds i) (leaders i) (durations i).

(** A signature of a correct replica on a block is one that the replica has
    sent as a vote. *)
Definition unforged (N : ID → R) (σ : ecdsa_Signature) : Prop :=
  ∀ h b, get h = Some b → valid σ h = true → (ec_signer σ ∉ faulty) → h ∈ voted (r_out (N (ec_signer σ))).

Definition net_upd (N : ID → R) (i : ID) (r : R) : ID → R := λ j, if decide (j = i) then r else N j.

(** A correct replica handles an event. *)
Inductive net_step (N : ID → R) : (ID → R) → Prop :=
| net_handle i e r' :
    i ∈ members → (i ∉ faulty) → event_from (unforged N) e →
    handle (st i) (CI:=crypto_i i) (LR:=leader_i i) (RU:=rules_i i) fuel e (N i) = Ok ((), r') →
    proposals_known (r_out r') →
    net_step N (net_upd N i r').

Definition net_reachable : (ID → R) → Prop := rtc net_step net_init.

(** Every correct replica is where one state of the system says it is. *)
Record matched (N : ID → R) (s : sys) (i : ID) : Prop := {
  ma_local : local_ok (unforged N) (N i);
  ma_follows : follows i (unforged N) (s_voters s) s (N i) }.
Definition all_matched (N : ID → R) (s : sys) : Prop :=
  ∀ i, i ∈ members → (i ∉ faulty) → matched N s i.

Lemma local_ok_mono (G G' : ecdsa_Signature → Prop) r : (∀ σ, G σ → G' σ) → local_ok G r → local_ok G' r.
Proof.
  intros HG [Lc Lh Lv]. split; [done|..].
  - unfold qc_from in *. destruct (qc_signature _) as [[m|]|]; [|done..]. destruct Lh as [? Hm]. split; [done|].
    intros j σ Hj. apply HG, (Hm _ _ Hj).
  - intros h certs Hh. eapply Forall_impl; [by apply (Lv h)|]. intros c. unfold sig_from.
    destruct (pc_signature c) as [[]|]; auto.
Qed.

Lemma valid_member σ h : valid σ h = true → ec_signer σ ∈ members.
Proof.
  unfold valid, members. intros Hv. apply elem_of_dom. destruct (pubs !! ec_signer σ); [by eexists|done].
Qed.

Lemma all_matched_init : all_matched net_init sys_init.
Proof.
  intros i _ _. split; split.
  - intros h b Hl. change (<[b_hash GetGenesis := GetGenesis]> (∅ : gmap Hash Block) !! h = Some b) in Hl.
    apply lookup_insert_Some in Hl as [[<- <-]|[_ Hl]]; [apply (set_genesis HS)|]. by apply lookup_empty_Some in Hl.
  - exact I.
  - intros h certs Hl. change ((∅ : gmap Hash (list PartialCert)) !! h = Some certs) in Hl. by apply lookup_empty_Some in Hl.
  - apply rtc_refl.
  - reflexivity.
  - reflexivity.
  - intros h b Hh. by apply not_elem_of_nil in Hh.
  - intros σ h b Hu Hv Hnf Hb. specialize (Hu h b Hb Hv Hnf). by apply not_elem_of_nil in Hu.
  - left. reflexivity.
  - intros _. apply chain_genesis.
Qed.

Lemma all_matched_step N N' s :
  net_step N N' → all_matched N s → ∃ s', all_matched N' s'.
Proof.
  intros [i e r' Hi Hnf He Hrun Hp] Hall. destruct (Hall i Hi Hnf) as [Hloc Hfol].
  destruct (handle_sim i (unforged N) (s_voters s) Hi Hnf e He _ _ _ Hrun) as [[(es & Hout & _) _ _ _ _] Hsim].
  destruct (Hsim Hp Hloc) as [Hloc' Hex]. destruct (Hex s Hfol) as (s' & Hsteps & Hfol'). exists s'.
  assert (∀ v, v ∈ s_votes s → v ∈ s_votes s') as Hsub by (intros v; by apply (steps_votes members faulty get)).
  assert (∀ j h, h ∈ voted (r_out (N j)) → h ∈ voted (r_out (net_upd N i r' j))) as Hgrow.
  { intros j h Hh. unfold net_upd. destruct (decide (j = i)) as [->|]; [|done].
    rewrite Hout, voted_app. apply elem_of_app. by left. }
  assert (∀ σ, unforged N σ → unforged (net_upd N i r') σ) as Hunf by (intros σ Hσ h b ? ? ?; by eapply Hgrow, Hσ).
  assert (∀ σ h b, unforged (net_upd N i r') σ → valid σ h = true → (ec_signer σ ∉ faulty) → get h = Some b →
    (ec_signer σ, b) ∈ s_votes s') as Hsigs.
  { intros σ h b Hσ Hv Hs Hb. specialize (Hσ h b Hb Hv Hs). unfold net_upd in Hσ.
    destruct (decide (ec_signer σ = i)) as [->|]; [by eapply (fo_votes _ _ _ _ _ Hfol')|].
    apply Hsub. destruct (Hall (ec_signer σ) (valid_member _ _ Hv) Hs) as [_ Hf]. by eapply (fo_votes _ _ _ _ _ Hf). }
  intros j Hj Hjf. destruct (decide (j = i)) as [->|Hne].
  - split; unfold net_upd at 2; rewrite decide_True by done; [by apply (local_ok_mono (unforged N))|].
    destruct Hfol'. by split.
  - destruct (Hall j Hj Hjf) as [Lj Fj]. split; unfold net_upd at 2; rewrite decide_False by done;
      [by apply (local_ok_mono (unforged N))|].
    pose proof (fo_others _ _ _ _ _ Hfol' j Hne) as Hvo. pose proof (fo_reach _ _ _ _ _ Hfol'). destruct Fj.
    split; try done; [by rewrite Hvo|by eauto|].
    destruct fo_final0 as [|Hc]; [by left|right]. by apply (committed_mono _ _ _ s).
Qed.

Lemma reachable_matched N : net_reachable N → ∃ s, all_matched N s.
Proof.
  intros Hr. assert (∃ s, all_matched net_init s) as Hinit by (exists sys_init; apply all_matched_init).
  unfold net_reachable in Hr. induction Hr as [|x y z Hst _ IH]; [done|]. apply IH.
  destruct Hinit as [s Hs]. by eapply all_matched_step.
Qed.

(** C1: correct replicas agree.  In every run of a network of replicas that use
    the simple rules and ECDSA signatures, in which at most [NumFaulty n]
    members are faulty, blocks can be fetched, and no vote of a correct replica
    is forged, the committed blocks of any two correct replicas are on one
    branch of certificates; and if every block's parent is the block its
    certificate is for, what one has executed is a prefix of what the other
    has. *)
Theorem replicas_agree (N : ID → R) (i j : ID) :
  net_reachable N → i ∈ members ∖ faulty → j ∈ members ∖ faulty →
  (extends get (cs_bExec (r_cs (N i))) (cs_bExec (r_cs (N j))) ∨
   extends get (cs_bExec (r_cs (N j))) (cs_bExec (r_cs (N i)))) ∧
  (linked →
   executions (r_out (N i)) `prefix_of` executions (r_out (N j)) ∨
   executions (r_out (N j)) `prefix_of` executions (r_out (N i))).
Proof.
  intros [s Hall]%reachable_matched [Hi Hif]%elem_of_difference [Hj Hjf]%elem_of_difference.
  destruct (Hall i Hi Hif) as [_ Fi], (Hall j Hj Hjf) as [_ Fj].
  pose proof (fo_reach _ _ _ _ _ Fi) as Hreach. destruct Fi as [_ _ _ _ _ Xi Ci], Fj as [_ _ _ _ _ Xj Cj].
  destruct (N.le_ge_cases (b_view (cs_bExec (r_cs (N i)))) (b_view (cs_bExec (r_cs (N j))))) as [Hle|Hle].
  - assert (extends get (cs_bExec (r_cs (N j))) (cs_bExec (r_cs (N i)))) as Hext by (by apply (net_agree s)).
    split; [by right|]. intros Hl. left. by eapply (extends_chain_prefix _ (set_zero HS)); [exact Hext|apply Cj|apply Ci].
  - assert (extends get (cs_bExec (r_cs (N i))) (cs_bExec (r_cs (N j)))) as Hext by (by apply (net_agree s)).
    split; [by left|]. intros Hl. right. by eapply (extends_chain_prefix _ (set_zero HS)); [exact Hext|apply Ci|apply Cj].
Qed.
End network.
