(* ===== verification/NetworkExample.v ===== *)
(** * A run of a network

    Replicas 1, 2 and 3 of four receive the proposals of four views, and
    replica 1 that of a fifth: replicas 2 and 3 execute one block and replica 1
    two.  The conditions on a run of [SimpleNetwork] are decided by
    evaluation. *)

From S2P Require Import Prelude Encoding Bitfield Types BlockChain CryptoBase Ecdsa Replica.
From S2P Require Import Rules Consensus LeaderRotation CmdCache ViewTimer ReplicaExample ChainedSafety SimpleSafety.
From S2P Require Import SimpleExample SimpleNetwork.

Definition keys4 : gmap ID PublicKey := env_replicas (env 1).

(** Every block of the chain can be fetched. *)
Definition st_all (id : ID) : Static :=
  mkStatic id {[1; 2; 3; 4]}%N (mkOptions false) (λ _ h, ([], lookup_block h)) 20.
Definition rotation (id : ID) : LeaderRotation () cmdSource () viewDuration := NewRoundRobin (st_all id).

(** ** Deciding the conditions of a step *)

Definition unforgedb (N : ID → R) (σ : ecdsa_Signature) : bool :=
  forallb (λ hb, negb (valid keys4 σ hb.1) || bool_decide (ec_signer σ ∈ bad4)
                 || bool_decide (hb.1 ∈ voted (r_out (N (ec_signer σ))))) (map_to_list (blocks store)).

Definition qc_fromb (N : ID → R) (qc : QuorumCert) : bool :=
  match qc_signature qc with
  | Some (ThrECDSA m) =>
    forallb (λ js, (ec_signer js.2 =? js.1)%N && unforgedb N js.2) (map_to_list m)
  | _ => true
  end.

(** One proposal to replica [id], its conditions, and the network after it. *)
Definition proposal_of (b : Block) : ProposeMsg := mkPropose (leader_of (b_view b)) b None.
Definition handled (N : ID → R) (id : ID) (b : Block) : res (() * R) :=
  handle (CI := ecdsaCrypto (env id)) (LR := rotation id) (RU := SimpleHotStuff (st_all id))
    (st_all id) 5 (EvPropose (proposal_of b)) (N id).
Definition deliver (N : ID → R) (ib : ID * Block) : ID → R :=
  net_upd N ib.1 (left_by (N ib.1) (handled N ib.1 ib.2)).
Definition proposes (e : effect) : bool := match e with EPropose _ => true | _ => false end.
Definition deliverable (N : ID → R) (ib : ID * Block) : bool :=
  bool_decide (ib.1 ∈ dom keys4) && negb (bool_decide (ib.1 ∈ bad4)) &&
  qc_fromb N (b_cert ib.2) && returns () (handled N ib.1 ib.2) && negb (existsb proposes (r_out (deliver N ib ib.1))).
Fixpoint all_deliverable (N : ID → R) (l : list (ID * Block)) : bool :=
  match l with
  | [] => true
  | ib :: l => deliverable N ib && all_deliverable (deliver N ib) l
  end.

Lemma unforgedb_ok N σ : unforgedb N σ = true → unforged keys4 bad4 lookup_block N σ.
Proof.
  unfold unforgedb. rewrite forallb_forall. intros H h b Hb Hv Hs.
  assert ((h, b) ∈ map_to_list (blocks store)) as Hin by exact (proj2 (elem_of_map_to_list _ _ _) Hb).
  apply list_elem_of_In, H in Hin. cbn [fst] in Hin. rewrite Hv, (bool_decide_eq_false_2 _ Hs) in Hin.
  exact (bool_decide_eq_true_1 _ Hin).
Qed.

Lemma qc_fromb_ok N qc : qc_fromb N qc = true → qc_from (unforged keys4 bad4 lookup_block N) qc.
Proof.
  unfold qc_fromb, qc_from. destruct (qc_signature qc) as [[m|]|]; [|done..]. rewrite forallb_forall.
  intros H. assert (∀ j σ, m !! j = Some σ → ec_signer σ = j ∧ unforgedb N σ = true) as Hm.
  { intros j σ Hj%elem_of_map_to_list%list_elem_of_In%H. apply andb_true_iff in Hj as [?%N.eqb_eq ?]. split; assumption. }
  split; intros j σ Hj; destruct (Hm j σ Hj); [assumption|apply unforgedb_ok; assumption].
Qed.

Abbreviation step4 := (net_step keys4 bad4 lookup_block env st_all 5 rotation).

Lemma deliver_step N ib :
  known lookup_block ib.2 → deliverable N ib = true → step4 N (deliver N ib).
Proof.
  destruct ib as [i b]. unfold deliverable. cbn [fst snd].
  intros Hb [[[[Hi Hf]%andb_true_iff Hq]%andb_true_iff Hr]%andb_true_iff Hp]%andb_true_iff.
  apply (net_handle _ _ _ _ _ _ _ N i (EvPropose (proposal_of b))).
  - exact (bool_decide_eq_true_1 _ Hi).
  - apply negb_true_iff in Hf. exact (bool_decide_eq_false_1 _ Hf).
  - split; [exact Hb|exact (qc_fromb_ok _ _ Hq)].
  - apply left_by_Ok. exact Hr.
  - intros p Hin. apply negb_true_iff in Hp. exfalso. rewrite <-not_true_iff_false, existsb_exists in Hp.
    apply Hp. exists (EPropose p). split; [|reflexivity]. apply list_elem_of_In. unfold deliver, net_upd.
    cbn [fst snd]. rewrite decide_True by reflexivity. exact Hin.
Qed.

Lemma deliver_steps N l :
  Forall (λ ib, known lookup_block ib.2) l → all_deliverable N l = true → rtc step4 N (foldl deliver N l).
Proof.
  intros Hl. revert N. induction Hl as [|ib l Hib _ IH]; intros N H; [apply rtc_refl|]. apply andb_true_iff in H as [H1 H2].
  cbn [foldl]. eapply rtc_l; [exact (deliver_step _ _ Hib H1)|]. exact (IH _ H2).
Qed.

(** ** The run *)

Lemma g5 : known lookup_block c5.
Proof. unfold known. vm_compute. reflexivity. Qed.

Definition deliveries : list (ID * Block) :=
  [(1, c1); (2, c1); (3, c1); (3, c2); (2, c2); (1, c2); (1, c3); (2, c3); (3, c3);
   (2, c4); (1, c4); (3, c4); (1, c5)]%N.
Definition net0 : ID → R :=
  net_init (λ _, r_cmds idle) (λ _, r_leader idle) (λ _, r_duration idle).
Definition net : ID → R := foldl deliver net0 deliveries.

Example net_executions :
  (length (executions (r_out (net 1%N))), length (executions (r_out (net 2%N)))) = (2, 1).
Proof. vm_compute. reflexivity. Qed.

Lemma net_reached : net_reachable keys4 bad4 lookup_block env st_all 5 rotation
  (λ _, r_cmds idle) (λ _, r_leader idle) (λ _, r_duration idle) net.
Proof.
  apply deliver_steps; [|vm_compute; reflexivity].
  repeat (constructor; [first [exact g1|exact g2|exact g3|exact g4|exact g5]|]). constructor.
Qed.

Lemma genesis4 : known lookup_block GetGenesis.
Proof. unfold known. vm_compute. reflexivity. Qed.

Lemma setting4 : setting keys4 bad4 lookup_block env st_all rotation.
Proof.
  split.
  - reflexivity.
  - intros i. unfold ecdsa_config. apply map_Forall_to_list. vm_compute. repeat constructor.
  - vm_compute. discriminate.
  - apply (bool_decide_eq_true_1 (bad4 ⊆ members keys4)). vm_compute. reflexivity.
  - vm_compute. discriminate.
  - exact lookup_block_hash.
  - exact no_zero_block.
  - exact genesis4.
  - intros i k h. split; [reflexivity|constructor].
  - intros i v r r' a H Hin. change (roundRobin_GetLeader (st_all i) v r = Ok (a, r')) in H.
    unfold roundRobin_GetLeader, lift_pure in H. apply res_bind_Ok in H as (? & _ & [= _ <-]). exact Hin.
Qed.

Lemma linked4 : linked lookup_block.
Proof.
  intros h b Hb Hne.
  assert (forallb (λ hb, bool_decide (b_parent hb.2 = qc_hash (b_cert hb.2)) || bool_decide (hb.1 = b_hash GetGenesis))
    (map_to_list (blocks store)) = true) as Hall by (vm_compute; reflexivity).
  rewrite forallb_forall in Hall.
  assert ((h, b) ∈ map_to_list (blocks store)) as Hin by exact (proj2 (elem_of_map_to_list _ _ _) Hb).
  apply list_elem_of_In, Hall, orb_true_iff in Hin as [Hin|Hin]; [exact (bool_decide_eq_true_1 _ Hin)|].
  apply bool_decide_eq_true_1 in Hin. cbn [fst] in Hin. exfalso. apply Hne.
  rewrite Hin in Hb. pose proof genesis4 as Hg. unfold known in Hg. rewrite Hb in Hg. injection Hg as Hg. exact Hg.
Qed.

Lemma correct1 : 1%N ∈ members keys4 ∖ bad4.
Proof. apply (bool_decide_eq_true_1 (1%N ∈ members keys4 ∖ bad4)). vm_compute. reflexivity. Qed.
Lemma correct2 : 2%N ∈ members keys4 ∖ bad4.
Proof. apply (bool_decide_eq_true_1 (2%N ∈ members keys4 ∖ bad4)). vm_compute. reflexivity. Qed.

Lemma replicas_agree_witness :
  executions (r_out (net 1%N)) `prefix_of` executions (r_out (net 2%N)) ∨
  executions (r_out (net 2%N)) `prefix_of` executions (r_out (net 1%N)).
Proof.
  exact (proj2 (replicas_agree keys4 bad4 lookup_block env st_all 5 rotation setting4 _ _ _ net 1%N 2%N
    net_reached correct1 correct2) linked4).
Defined.
