(* ===== verification/EventLoop.v ===== *)
(** * eventloop/eventloop.go: queueing and dispatch of events

    [Ev] is the type of event values and [Ty] that of their dynamic types
    (reflect.Type); handlers and observers are names [H], and running one
    appends a call to [el_calls].  The buffered channel is a bounded list;
    goroutines that will add events are lists of events still to be added. *)

From S2P Require Import Prelude.

Section eventloop.
Context {Ev Ty H : Type} `{Countable Ev} `{Countable Ty}.
Context (typeOf : Ev → Ty).

(** [isFunc ev]: the event is a func(), run by the loop itself.
    [startTicker ev]: it is the startTickerEvent of a ticker. *)
Context (isFunc : Ev → bool) (startTickerEvent : nat → Ev) (asStartTicker : Ev → option nat).

(** A key of waitingEvents is an interface value: it holds an event or a
    reflect.Type. *)
Inductive call := CallFunc (f : Ev) | CallObserver (o : H) (ev : Ev) | CallHandler (h : H) (ev : Ev).

(** A ticker: its interval, the event of its callback, and whether its
    context has been made and cancelled. *)
Record ticker := mkTicker { tk_interval : Z; tk_event : Ev; tk_running : bool }.

Record EventLoop := mkLoop {
  el_bufferSize : nat;
  el_eventQ : list Ev;
  el_waitingEvents : gmap (Ev + Ty) (list Ev);
  el_handlers : gmap Ty H;
  el_observers : gmap Ty (list H);
  el_tickers : gmap nat ticker;
  el_tickerID : nat;
  el_goroutines : list (list Ev);
  el_calls : list call }.

Definition New (bufferSize : nat) : EventLoop := mkLoop bufferSize [] ∅ ∅ ∅ ∅ 0 [] [].

Definition set_queue q el := mkLoop (el_bufferSize el) q (el_waitingEvents el) (el_handlers el)
  (el_observers el) (el_tickers el) (el_tickerID el) (el_goroutines el) (el_calls el).
Definition add_call c el := mkLoop (el_bufferSize el) (el_eventQ el) (el_waitingEvents el)
  (el_handlers el) (el_observers el) (el_tickers el) (el_tickerID el) (el_goroutines el)
  (el_calls el ++ [c]).

Definition RegisterHandler (eventType : Ev) (handler : H) (el : EventLoop) : EventLoop :=
  mkLoop (el_bufferSize el) (el_eventQ el) (el_waitingEvents el)
    (<[typeOf eventType := handler]> (el_handlers el)) (el_observers el) (el_tickers el)
    (el_tickerID el) (el_goroutines el) (el_calls el).

Definition RegisterObserver (eventType : Ev) (observer : H) (el : EventLoop) : EventLoop :=
  let t := typeOf eventType in
  mkLoop (el_bufferSize el) (el_eventQ el) (el_waitingEvents el) (el_handlers el)
    (<[t := default [] (el_observers el !! t) ++ [observer]]> (el_observers el)) (el_tickers el)
    (el_tickerID el) (el_goroutines el) (el_calls el).

(** The send blocks when the buffer is full; the loop goroutine itself would
    then wait for ever. *)
Definition AddEvent (event : Ev) (el : EventLoop) : res EventLoop :=
  if (length (el_eventQ el) <? el_bufferSize el)%nat
  then Ok (set_queue (el_eventQ el ++ [event]) el)
  else Blocked.

(** The delayed events of the type are handed to a goroutine. *)
Definition dispatchDelayedEvents (t : Ty) (el : EventLoop) : EventLoop :=
  match el_waitingEvents el !! inr t with
  | Some delayed =>
    mkLoop (el_bufferSize el) (el_eventQ el) (delete (inr t) (el_waitingEvents el)) (el_handlers el)
      (el_observers el) (el_tickers el) (el_tickerID el) (el_goroutines el ++ [delayed]) (el_calls el)
  | None => el
  end.

(** The key is the event type argument itself. *)
Definition DelayUntil (eventType event : Ev) (el : EventLoop) : EventLoop :=
  let v := default [] (el_waitingEvents el !! inl eventType) in
  mkLoop (el_bufferSize el) (el_eventQ el)
    (<[inl eventType := v ++ [event]]> (el_waitingEvents el)) (el_handlers el)
    (el_observers el) (el_tickers el) (el_tickerID el) (el_goroutines el) (el_calls el).

Definition processEvent (event : Ev) (el : EventLoop) : EventLoop :=
  let t := typeOf event in
  let el' :=
    if isFunc event then add_call (CallFunc event) el
    else
      let el1 := foldl (λ el o, add_call (CallObserver o event) el) el
                   (default [] (el_observers el !! t)) in
      match el_handlers el1 !! t with
      | Some h => add_call (CallHandler h event) el1
      | None => el1
      end in
  dispatchDelayedEvents t el'.

(** ** Tickers *)

Definition set_tickers ts el := mkLoop (el_bufferSize el) (el_eventQ el) (el_waitingEvents el)
  (el_handlers el) (el_observers el) ts (el_tickerID el) (el_goroutines el) (el_calls el).

Definition AddTicker (interval : Z) (event : Ev) (el : EventLoop) : res (nat * EventLoop) :=
  let id := el_tickerID el in
  let el' := mkLoop (el_bufferSize el) (el_eventQ el) (el_waitingEvents el) (el_handlers el)
    (el_observers el) (<[id := mkTicker interval event false]> (el_tickers el)) (S id)
    (el_goroutines el) (el_calls el) in
  el'' ← AddEvent (startTickerEvent id) el';
  Ok (id, el'').

Definition RemoveTicker (id : nat) (el : EventLoop) : bool * EventLoop :=
  match el_tickers el !! id with
  | None => (false, el)
  | Some _ => (true, set_tickers (delete id (el_tickers el)) el)
  end.

(** The ticker's goroutine adds its first event at once. *)
Definition startTicker (id : nat) (el : EventLoop) : EventLoop :=
  match el_tickers el !! id with
  | None => el
  | Some t =>
    mkLoop (el_bufferSize el) (el_eventQ el) (el_waitingEvents el) (el_handlers el) (el_observers el)
      (<[id := mkTicker (tk_interval t) (tk_event t) true]> (el_tickers el)) (el_tickerID el)
      (el_goroutines el ++ [[tk_event t]]) (el_calls el)
  end.

(** ** The loop *)

(** One iteration of [Run]: take an event from the queue. *)
Definition loop_once (el : EventLoop) : EventLoop :=
  match el_eventQ el with
  | [] => el
  | event :: q =>
    let el' := set_queue q el in
    match asStartTicker event with
    | Some id => startTicker id el'
    | None => processEvent event el'
    end
  end.

(** After cancellation the events that were queued are handled, [l] of them. *)
Fixpoint drain (l : nat) (el : EventLoop) : EventLoop :=
  match l with
  | O => el
  | S l =>
    match el_eventQ el with
    | [] => el
    | event :: q => drain l (processEvent event (set_queue q el))
    end
  end.

(** ** Properties *)

Lemma processEvent_calls event el :
  el_calls (processEvent event el) = el_calls el ++
    (if isFunc event then [CallFunc event]
     else ((λ o, CallObserver o event) <$> default [] (el_observers el !! typeOf event)) ++
          match el_handlers el !! typeOf event with Some h => [CallHandler h event] | None => [] end).
Proof.
  assert (∀ t el, el_calls (dispatchDelayedEvents t el) = el_calls el) as Hd
    by (intros; unfold dispatchDelayedEvents; by case_match).
  unfold processEvent. rewrite Hd. destruct (isFunc event); [done|].
  assert (∀ os el, el_calls (foldl (λ el o, add_call (CallObserver o event) el) el os) =
      el_calls el ++ ((λ o, CallObserver o event) <$> os) ∧
    el_handlers (foldl (λ el o, add_call (CallObserver o event) el) el os) = el_handlers el) as Ho.
  { induction os as [|o os IH]; intros el0; simpl; [by rewrite app_nil_r|].
    destruct (IH (add_call (CallObserver o event) el0)) as [-> ->]. simpl. by rewrite <-app_assoc. }
  destruct (Ho (default [] (el_observers el !! typeOf event)) el) as [E1 E2].
  rewrite E2. destruct (el_handlers el !! typeOf event); simpl; rewrite E1; [by rewrite <-app_assoc|].
  by rewrite app_nil_r.
Qed.

Lemma processEvent_same event el :
  el_handlers (processEvent event el) = el_handlers el ∧
  el_observers (processEvent event el) = el_observers el ∧
  el_eventQ (processEvent event el) = el_eventQ el ∧
  ∀ k, el_waitingEvents (processEvent event el) !! inl k = el_waitingEvents el !! inl k.
Proof.
  assert (∀ el c, el_handlers (add_call c el) = el_handlers el) by done.
  unfold processEvent, dispatchDelayedEvents.
  set (el' := if isFunc event then _ else _).
  assert (el_handlers el' = el_handlers el ∧ el_observers el' = el_observers el ∧
    el_eventQ el' = el_eventQ el ∧ el_waitingEvents el' = el_waitingEvents el) as (E1 & E2 & E3 & E4).
  { unfold el'. destruct (isFunc event); [done|]. generalize (default [] (el_observers el !! typeOf event)).
    intros os. assert (∀ el0, let e := foldl (λ el o, add_call (CallObserver o event) el) el0 os in
      el_handlers e = el_handlers el0 ∧ el_observers e = el_observers el0 ∧
      el_eventQ e = el_eventQ el0 ∧ el_waitingEvents e = el_waitingEvents el0) as Hos.
    { induction os as [|o os IH]; intros el0; simpl; [done|]. apply (IH (add_call (CallObserver o event) el0)). }
    specialize (Hos el). cbv zeta in Hos. by case_match. }
  destruct (el_waitingEvents el' !! inr (typeOf event)); simpl; rewrite ?E1, ?E2, ?E3, ?E4;
    split_and!; try done. intros k. by rewrite lookup_delete_ne.
Qed.

(** Events are handled in the order they were queued, each by all the
    observers of its type in the order of their registration and then by the
    one handler registered last; a func is run instead. *)
Theorem drain_in_order (el : EventLoop) :
  el_calls (drain (length (el_eventQ el)) el) = el_calls el ++ concat ((λ event,
    if isFunc event then [CallFunc event]
    else ((λ o, CallObserver o event) <$> default [] (el_observers el !! typeOf event)) ++
         match el_handlers el !! typeOf event with
         | Some h => [CallHandler h event] | None => [] end) <$> el_eventQ el).
Proof.
  remember (el_eventQ el) as q eqn:Hq. revert el Hq.
  induction q as [|event q IH]; intros el Hq; simpl; [by rewrite app_nil_r|].
  rewrite <-Hq. destruct (processEvent_same event (set_queue q el)) as (E1 & E2 & E3 & _).
  rewrite IH by done. rewrite E1, E2, processEvent_calls. simpl. by rewrite <-app_assoc.
Qed.

(** An event that was delayed is never handled.  It waits under the event
    value, while dispatching looks under the event's reflect.Type: whatever
    events are handled later, it is still waiting, and no event that is not
    delayed under a reflect.Type is ever handed to the queue. *)
Theorem DelayUntil_never_dispatched (eventType event : Ev) (events : list Ev) (el : EventLoop) :
  (∀ t, el_waitingEvents el !! inr t = None) →
  let el' := foldl (λ el e, processEvent e el) (DelayUntil eventType event el) events in
  (∃ waiting, el_waitingEvents el' !! inl eventType = Some waiting ∧ event ∈ waiting) ∧
  el_goroutines el' = el_goroutines el ∧ el_eventQ el' = el_eventQ el.
Proof.
  intros Hno el'.
  assert (∀ es el0, (∀ t, el_waitingEvents el0 !! inr t = None) →
    let e := foldl (λ el e, processEvent e el) el0 es in
    (∀ k, el_waitingEvents e !! inl k = el_waitingEvents el0 !! inl k) ∧
    el_goroutines e = el_goroutines el0 ∧ el_eventQ e = el_eventQ el0) as Hrun.
  { induction es as [|x es IH]; intros el0 Hn; simpl; [done|].
    assert (el_waitingEvents (processEvent x el0) = el_waitingEvents el0 ∧
      el_goroutines (processEvent x el0) = el_goroutines el0) as [Hw Hg].
    { unfold processEvent, dispatchDelayedEvents. set (e := if isFunc x then _ else _).
      assert (el_waitingEvents e = el_waitingEvents el0 ∧ el_goroutines e = el_goroutines el0) as [W G].
      { unfold e. destruct (isFunc x); [done|]. generalize (default [] (el_observers el0 !! typeOf x)).
        intros os. assert (∀ el1, let e1 := foldl (λ el o, add_call (CallObserver o x) el) el1 os in
          el_waitingEvents e1 = el_waitingEvents el1 ∧ el_goroutines e1 = el_goroutines el1) as Hos.
        { induction os as [|o os IHo]; intros el1; simpl; [done|]. apply (IHo (add_call (CallObserver o x) el1)). }
        specialize (Hos el0). cbv zeta in Hos. by case_match. }
      by rewrite W, Hn. }
    destruct (IH (processEvent x el0)) as (I1 & I2 & I3); [by rewrite Hw|].
    destruct (processEvent_same x el0) as (_ & _ & Q & _).
    split_and!; [intros k; by rewrite I1, Hw|by rewrite I2|by rewrite I3]. }
  destruct (Hrun events (DelayUntil eventType event el)) as (Ra & Rb & Rc).
  { intros t. simpl. by rewrite lookup_insert_ne. }
  split_and!; [|done..]. eexists. unfold el'. rewrite Ra. simpl. rewrite lookup_insert_eq.
  split; [done|]. apply elem_of_app. right. by left.
Qed.

(** A ticker is added under a fresh number and can be removed once. *)
Theorem ticker_add_remove (interval : Z) (event : Ev) (el el' : EventLoop) (id : nat) :
  (∀ i, is_Some (el_tickers el !! i) → i < el_tickerID el) →
  AddTicker interval event el = Ok (id, el') →
  el_tickers el !! id = None ∧
  (∀ i, is_Some (el_tickers el' !! i) → i < el_tickerID el') ∧
  let '(removed, el'') := RemoveTicker id el' in
  removed = true ∧ el_tickers el'' = el_tickers el ∧ (RemoveTicker id el'').1 = false.
Proof.
  intros Hlt. unfold AddTicker, AddEvent. rewrite res_bind_Ok. intros (el1 & Hadd & [= <- <-]).
  simpl in Hadd. destruct (_ <? _)%nat; [|done]. injection Hadd as <-. simpl.
  assert (el_tickers el !! el_tickerID el = None) as Hnone.
  { destruct (el_tickers el !! el_tickerID el) eqn:E; [|done]. specialize (Hlt (el_tickerID el)). rewrite E in Hlt.
    specialize (Hlt ltac:(by eexists)). lia. }
  split_and!; [done| |].
  - intros i. rewrite lookup_insert_is_Some. intros [<-|[_ Hi]]; [lia|]. specialize (Hlt i Hi). lia.
  - unfold RemoveTicker. simpl. rewrite lookup_insert_eq. simpl. split_and!; [done| |].
    + by rewrite delete_insert_id.
    + by rewrite lookup_delete_eq.
Qed.
End eventloop.

(** ** Instances of the theorems *)

(** Events are a type and a number. *)
Module LoopExample.
Abbreviation Ev := (nat * nat)%type.
Definition typeOf : Ev → nat := fst.
Definition isFunc (_ : Ev) : bool := false.
Definition ticks (id : nat) : Ev := (99, id).

Definition loop : EventLoop (Ev := Ev) (Ty := nat) (H := string) :=
  RegisterObserver typeOf (1, 0) "observer"
    (RegisterHandler typeOf (1, 0) "handler" (New 10)).

Lemma DelayUntil_never_dispatched_witness :
  let el' := foldl (λ el e, processEvent typeOf isFunc e el) (DelayUntil (1, 0) (2, 7) loop) [(1, 5); (1, 0)] in
  (∃ waiting, el_waitingEvents el' !! inl (1, 0) = Some waiting ∧ (2, 7) ∈ waiting) ∧
  el_goroutines el' = [] ∧ el_eventQ el' = [].
Proof.
  apply (DelayUntil_never_dispatched typeOf isFunc (1, 0) (2, 7) [(1, 5); (1, 0)] loop). reflexivity.
Defined.

Definition ticked : EventLoop (Ev := Ev) (Ty := nat) (H := string) :=
  match AddTicker ticks 5 (3, 0) loop with Ok (_, el) => el | _ => loop end.

Lemma ticker_add_remove_witness :
  (RemoveTicker 0 ticked).1 = true ∧ (RemoveTicker 0 (RemoveTicker 0 ticked).2).1 = false.
Proof.
  pose proof (ticker_add_remove ticks 5 (3, 0) loop ticked 0) as Ht.
  destruct (RemoveTicker 0 ticked) as [removed el''] eqn:E.
  destruct Ht as (_ & _ & H1 & _ & H2).
  - intros i [t Ht]. discriminate Ht.
  - vm_compute. reflexivity.
  - split; [exact H1|exact H2].
Defined.
End LoopExample.
