(* ===== verification/Loops.v ===== *)
(** * Running and stopping event loops

    [EventLoop.Run] as a state machine: the queue is a channel of bounded
    capacity, and the loop takes events from it until it sees that its context
    is cancelled, handles what is queued then, and ends.  [ReplicaRun] and
    [ClientRun] put two such loops, and the goroutines around them, together. *)

From S2P Require Import Prelude.

(** Where [Run] is: not called yet, at the select, in the loop after
    [cancelled] with some events to go, or returned. *)
Inductive phase := NotStarted | Selecting | Draining (k : nat) | Ended.

#[export] Instance phase_eq_dec : EqDecision phase.
Proof. solve_decision. Defined.

(** A loop: the channel, where its goroutine is, the events it has handled,
    and, once it has seen the cancellation, the events that were added before. *)
Record loop (E : Type) := mkLp {
  lp_queue : list E;
  lp_phase : phase;
  lp_handled : list E;
  lp_due : list E }.
Arguments mkLp {E} _ _ _ _.
Arguments lp_queue {E} _.
Arguments lp_phase {E} _.
Arguments lp_handled {E} _.
Arguments lp_due {E} _.

Section loop.
Context {E : Type}.

Definition new_loop : loop E := mkLp [] NotStarted [] [].

(** The send on the channel; [None] while it is full. *)
Definition loop_add (bufferSize : nat) (e : E) (lp : loop E) : option (loop E) :=
  if (length (lp_queue lp) <? bufferSize)%nat
  then Some (mkLp (lp_queue lp ++ [e]) (lp_phase lp) (lp_handled lp) (lp_due lp))
  else None.

Definition loop_start (lp : loop E) : loop E := mkLp (lp_queue lp) Selecting (lp_handled lp) (lp_due lp).

(** The steps of [Run]: receiving an event, seeing the cancellation, receiving
    one of the events that are left, and returning. *)
Inductive loop_label := LTake | LCancel | LDrain | LEnd.

Definition loop_step (l : loop_label) (cancelled : bool) (lp : loop E) : option (loop E) :=
  match l, lp_phase lp with
  | LTake, Selecting =>
    match lp_queue lp with
    | e :: q => Some (mkLp q Selecting (lp_handled lp ++ [e]) (lp_due lp))
    | [] => None
    end
  | LCancel, Selecting =>
    if cancelled
    then Some (mkLp (lp_queue lp) (Draining (length (lp_queue lp))) (lp_handled lp) (lp_handled lp ++ lp_queue lp))
    else None
  | LDrain, Draining (S k) =>
    match lp_queue lp with
    | e :: q => Some (mkLp q (Draining k) (lp_handled lp ++ [e]) (lp_due lp))
    | [] => None
    end
  | LEnd, Draining O => Some (mkLp (lp_queue lp) Ended (lp_handled lp) (lp_due lp))
  | _, _ => None
  end.

(** ** Facts *)

(** What the events that are due have to do with the handled ones. *)
Definition loop_ok (bufferSize : nat) (lp : loop E) : Prop :=
  length (lp_queue lp) ≤ bufferSize ∧
  match lp_phase lp with
  | Draining k => k ≤ length (lp_queue lp) ∧ lp_due lp = lp_handled lp ++ take k (lp_queue lp)
  | Ended => lp_due lp = lp_handled lp
  | _ => True
  end.

(** A bound on the steps that are left after the cancellation. *)
Definition loop_size (lp : loop E) : nat :=
  match lp_phase lp with
  | NotStarted => 3 + length (lp_queue lp)
  | Selecting => 2 + length (lp_queue lp)
  | Draining k => 1 + k
  | Ended => 0
  end.

Lemma loop_add_ok n e lp lp' : loop_add n e lp = Some lp' → loop_ok n lp → loop_ok n lp'.
Proof.
  unfold loop_add. destruct (Nat.ltb_spec (length (lp_queue lp)) n); [|done]. intros [= <-] [H1 H2].
  split; cbn [lp_queue lp_phase lp_due lp_handled]; [rewrite length_app; cbn; lia|].
  destruct (lp_phase lp) as [| |k|]; [done..| |done]. destruct H2 as [Hl ->].
  split; [rewrite length_app; lia|]. by rewrite take_app_le.
Qed.

Lemma loop_add_size n e lp lp' : loop_add n e lp = Some lp' → loop_size lp' ≤ S (loop_size lp).
Proof.
  unfold loop_add. destruct (_ <? _); [|done]. intros [= <-]. unfold loop_size. cbn [lp_phase lp_queue].
  rewrite length_app. cbn. destruct (lp_phase lp); lia.
Qed.

Lemma loop_step_ok n l c lp lp' : loop_step l c lp = Some lp' → loop_ok n lp → loop_ok n lp'.
Proof.
  destruct lp as [q ph h d]. unfold loop_ok. cbn [lp_queue lp_phase lp_handled lp_due].
  destruct l, ph as [| |[|k]|]; cbn; try done.
  - destruct q as [|e q]; [done|]. intros [= <-]. cbn. lia.
  - destruct c; [|done]. intros [= <-]. cbn. intros [Hq _]. by rewrite take_ge.
  - destruct q as [|e q]; [done|]. intros [= <-]. cbn. intros (? & ? & ->). rewrite <-app_assoc. split_and!; [lia..|done].
  - intros [= <-]. cbn. intros (? & _ & ->). by rewrite app_nil_r.
Qed.

Lemma loop_step_size l c lp lp' : loop_step l c lp = Some lp' → S (loop_size lp') ≤ loop_size lp.
Proof.
  destruct lp as [q ph h d], l, ph as [| |[|k]|]; cbn; try done; repeat case_match; intros [= <-]; cbn; lia.
Qed.

Lemma loop_add_phase n e lp lp' : loop_add n e lp = Some lp' → lp_phase lp' = lp_phase lp.
Proof. unfold loop_add. case_match; [|done]. by intros [= <-]. Qed.

(** Only the last event that is due ends a loop, and no step starts one. *)
Lemma loop_step_phase l c lp lp' :
  loop_step l c lp = Some lp' →
  lp_phase lp ≠ NotStarted ∧ lp_phase lp' ≠ NotStarted ∧ lp_phase lp ≠ Ended ∧ (lp_phase lp' = Ended → l = LEnd).
Proof. destruct lp as [q ph h d], l, ph as [| |[|k]|]; cbn; try done; repeat case_match; intros [= <-]; cbn; done. Qed.

(** A loop that is running can make a step once it is cancelled. *)
Lemma loop_progress n lp :
  loop_ok n lp → (∀ l, loop_step l true lp = None) → lp_phase lp = Ended ∨ lp_phase lp = NotStarted.
Proof.
  destruct lp as [q ph h d]. unfold loop_ok. cbn [lp_queue lp_phase lp_handled lp_due]. intros [_ Hd] Hstuck.
  destruct ph as [| |[|k]|]; [by right| | | |by left]; exfalso.
  - specialize (Hstuck LCancel). discriminate Hstuck.
  - specialize (Hstuck LEnd). discriminate Hstuck.
  - destruct Hd as [Hl _], q as [|e q]; [cbn in Hl; lia|]. specialize (Hstuck LDrain). discriminate Hstuck.
Qed.
End loop.

Create HintDb loops discriminated.
#[export] Hint Resolve loop_add_ok loop_step_ok : loops.
