(* ===== verification/ReplicaRun.v ===== *)
(** * Starting and stopping a replica

    [Replica.Start] and [Stop] (replica/replica.go), the goroutines, timer and
    contexts of the synchronizer and [Modules.Run] (consensus/modules.go), which
    runs the main event loop and the one for metrics.  One state and a step
    function over labels, so that every interleaving is a run.  Of a handler of
    the main loop, and of the first proposal, the model has what can make it wait
    and what ends a wait: the metrics it adds, the commands and blocks it waits
    for, and what it does to the view's context and timer. *)

From S2P Require Import Prelude Loops.

Section replica_run.
Context {Ev Mv : Type}.

(** The size of both queues: eventloop.New(100) in the two builders. *)
Definition queueSize : nat := 100.

(** What the running handler does next.  [Wait]: [CommandQueue().Get] in
    [Propose], or [Fetch] in [BlockChain().Get]; both wait for an answer or for
    the end of the view's context.  [Hang]: a call that never returns, such as
    the verification of [ecdsa_verify_message_set]. *)
Inductive action := Add (m : Mv) | Wait | NewCtx | StopTimer | ResetTimer | Hang.

(** The view's context: the first one, of [synchronizer.New], has no deadline;
    those of [newCtx] have one. *)
Inductive context := First | Timed.

(** The timer of the view: its function cancels the view's context. *)
Inductive timer := Armed | Fired | Stopped.

(** [p_stopper]: the goroutine of [Synchronizer.Start] that stops the timer has
    not done so yet.  [p_todo]: what is left of the handler that runs. *)
Record process := mkProc {
  p_ctx : context;
  p_ctxDone : bool;
  p_timer : timer;
  p_stopper : bool;
  p_main : loop Ev;
  p_metrics : loop Mv;
  p_todo : list action;
  p_cancelled : bool;
  p_done : bool }.

(** [Start]: a context, and a goroutine for [Run], in which the leader of the
    first view proposes before the loops run. *)
Definition replica_started (leads : bool) : process :=
  mkProc First false Armed true new_loop new_loop (if leads then [Wait] else []) false false.

(** A handler goes on with [out], which depends on what it has got. *)
Inductive label :=
| Answer (out : list action)                      (** commands or a block arrive *)
| GiveUp (out : list action)                      (** the view's context is done *)
| Act                                             (** the handler's next action *)
| TimerFires
| CtxExpires                                      (** the deadline of the context *)
| TimerStops                                      (** the goroutine that waits for the end of the run *)
| StartReturns                                    (** [Modules.Run] starts the loops *)
| MainStep (l : loop_label) (out : list action)   (** the main loop; a handler that will do [out] *)
| MetricsStep (l : loop_label)
| CloseDone                                       (** both loops have returned *)
| AddMain (e : Ev)                                (** messages and timeouts *)
| AddMetrics (m : Mv)                             (** tickers *)
| Stop.

Definition is_nil {A} (l : list A) : bool := match l with [] => true | _ => false end.

(** Only receiving an event runs a handler. *)
Definition handler_out (l : loop_label) (out : list action) : list action :=
  match l with LTake | LDrain => out | _ => [] end.

Definition set_todo (todo : list action) (p : process) : process :=
  mkProc (p_ctx p) (p_ctxDone p) (p_timer p) (p_stopper p) (p_main p) (p_metrics p) todo (p_cancelled p) (p_done p).
Definition set_timer (t : timer) (p : process) : process :=
  mkProc (p_ctx p) (p_ctxDone p) t (p_stopper p) (p_main p) (p_metrics p) (p_todo p) (p_cancelled p) (p_done p).
Definition set_ctx (c : context) (done : bool) (p : process) : process :=
  mkProc c done (p_timer p) (p_stopper p) (p_main p) (p_metrics p) (p_todo p) (p_cancelled p) (p_done p).
Definition set_main (lp : loop Ev) (p : process) : process :=
  mkProc (p_ctx p) (p_ctxDone p) (p_timer p) (p_stopper p) lp (p_metrics p) (p_todo p) (p_cancelled p) (p_done p).
Definition set_metrics (lp : loop Mv) (p : process) : process :=
  mkProc (p_ctx p) (p_ctxDone p) (p_timer p) (p_stopper p) (p_main p) lp (p_todo p) (p_cancelled p) (p_done p).

(** [timer.Stop] has no effect on a timer that has fired. *)
Definition stop_timer (p : process) : process :=
  match p_timer p with Armed => set_timer Stopped p | _ => p end.

(** An action; [None] while it waits. *)
Definition act (a : action) (p : process) : option process :=
  match a with
  | Add m => lp ← loop_add queueSize m (p_metrics p); Some (set_metrics lp p)
  | NewCtx => Some (set_ctx Timed false p)
  | StopTimer => Some (stop_timer p)
  | ResetTimer => Some (set_timer Armed p)
  | Wait | Hang => None
  end.

(** [None]: the step is not possible. *)
Definition proc_step (l : label) (p : process) : option process :=
  match l with
  | Answer out => match p_todo p with Wait :: _ => Some (set_todo out p) | _ => None end
  | GiveUp out =>
    match p_todo p with
    | Wait :: _ => if p_ctxDone p then Some (set_todo out p) else None
    | _ => None
    end
  | Act => match p_todo p with a :: todo => act a (set_todo todo p) | [] => None end
  | TimerFires => match p_timer p with Armed => Some (set_ctx (p_ctx p) true (set_timer Fired p)) | _ => None end
  | CtxExpires => match p_ctx p, p_ctxDone p with Timed, false => Some (set_ctx Timed true p) | _, _ => None end
  | TimerStops =>
    if p_cancelled p && p_stopper p then
      let p := stop_timer p in
      Some (mkProc (p_ctx p) (p_ctxDone p) (p_timer p) false (p_main p) (p_metrics p) (p_todo p) (p_cancelled p) (p_done p))
    else None
  | StartReturns =>
    if is_nil (p_todo p) && bool_decide (lp_phase (p_main p) = NotStarted)
    then Some (set_main (loop_start (p_main p)) (set_metrics (loop_start (p_metrics p)) p))
    else None
  | MainStep l out =>
    if is_nil (p_todo p) then
      lp ← loop_step l (p_cancelled p) (p_main p);
      Some (set_todo (handler_out l out) (set_main lp p))
    else None
  | MetricsStep l => lp ← loop_step l (p_cancelled p) (p_metrics p); Some (set_metrics lp p)
  | CloseDone =>
    if bool_decide (lp_phase (p_main p) = Ended) && bool_decide (lp_phase (p_metrics p) = Ended)
       && is_nil (p_todo p) && negb (p_done p)
    then Some (mkProc (p_ctx p) (p_ctxDone p) (p_timer p) (p_stopper p) (p_main p) (p_metrics p) [] (p_cancelled p) true)
    else None
  | AddMain e => lp ← loop_add queueSize e (p_main p); Some (set_main lp p)
  | AddMetrics m => lp ← loop_add queueSize m (p_metrics p); Some (set_metrics lp p)
  | Stop => Some (mkProc (p_ctx p) (p_ctxDone p) (p_timer p) (p_stopper p) (p_main p) (p_metrics p) (p_todo p) true (p_done p))
  end.

Fixpoint proc_run (ls : list label) (p : process) : option process :=
  match ls with
  | [] => Some p
  | l :: ls => proc_step l p ≫= proc_run ls
  end.

(** ** Properties *)











(** ** Stopping takes finitely many steps *)







(** ** Where it can get stuck *)

(** The replica waits for commands or a block in the context of the first view,
    which has no deadline and which nothing will cancel. *)
Definition waits_first (p : process) : Prop :=
  head (p_todo p) = Some Wait ∧ p_ctx p = First ∧ p_ctxDone p = false ∧ p_timer p = Stopped.
(** A handler waits for room in the queue of a metrics loop that does not run. *)
Definition waits_metrics (p : process) : Prop :=
  (∃ m, head (p_todo p) = Some (Add m)) ∧ length (lp_queue (p_metrics p)) = queueSize ∧
  (lp_phase (p_metrics p) = Ended ∨ lp_phase (p_metrics p) = NotStarted).





(** ** The first two can happen *)

Lemma waits_first_stays l p p' :
  proc_step l p = Some p' → (∀ out, l ≠ Answer out) → waits_first p → p_done p = false →
  waits_first p' ∧ p_done p' = false.
Proof.
  destruct p as [cx cd ti sp m x td ca dn]. unfold waits_first. cbn. intros Hstep Hl (Htd & -> & -> & ->) ->.
  destruct td as [|a td]; [done|]. injection Htd as ->.
  destruct l as [out|out| | | | | |l out|l| |e|e|]; cbn -[andb] in Hstep; try done; try (by destruct (Hl out));
    try (by apply bind_Some in Hstep as (lp & _ & [= <-])).
  - destruct (ca && sp); [|done]. by injection Hstep as <-.
  - by rewrite !andb_false_r in Hstep.
  - by injection Hstep as <-.
Qed.

(** Without an answer such a wait lasts for ever. *)
Lemma waits_first_forever (ls : list label) (p p' : process) :
  proc_run ls p = Some p' → (∀ l out, l ∈ ls → l ≠ Answer out) → waits_first p → p_done p = false →
  waits_first p' ∧ p_done p' = false.
Proof.
  revert p. induction ls as [|l ls IH]; intros p; cbn [proc_run]; [by intros [= <-]|].
  intros (p1 & Hstep & Hrun)%bind_Some Hls Hw Hd.
  destruct (waits_first_stays _ _ _ Hstep (λ out, Hls l out ltac:(by left)) Hw Hd) as [Hw1 Hd1].
  apply (IH p1); [done| |done..]. intros l' out Hl'. apply Hls. by right.
Qed.

(** A replica that leads the first view and is stopped before its first timeout:
    the timer, which alone would cancel the context of the first view, is stopped
    instead, and without commands [Stop] never returns. *)
Theorem stop_blocks_first (ls : list label) (p : process) :
  proc_run (Stop :: TimerStops :: ls) (replica_started true) = Some p → (∀ l out, l ∈ ls → l ≠ Answer out) →
  waits_first p ∧ p_done p = false.
Proof.
  cbn [proc_run proc_step replica_started p_cancelled p_stopper stop_timer p_timer andb mbind option_bind].
  intros Hrun Hls. by eapply waits_first_forever.
Qed.

(** A handler that waits for a metrics loop that has ended waits for ever. *)
Lemma waits_metrics_stays l p p' :
  proc_step l p = Some p' → lp_phase (p_metrics p) = Ended → waits_metrics p → p_done p = false →
  lp_phase (p_metrics p') = Ended ∧ waits_metrics p' ∧ p_done p' = false.
Proof.
  destruct p as [cx cd ti sp m x td ca dn]. unfold waits_metrics. cbn.
  intros Hstep Hx ((y & Htd) & Hq & Hp) ->. destruct td as [|a td]; [done|]. injection Htd as ->.
  assert (∀ e, loop_add queueSize e x = None) as Hfull.
  { intros e. unfold loop_add. by rewrite Hq, Nat.ltb_irrefl. }
  assert (∀ l, loop_step l ca x = None) as Hended by (intros []; unfold loop_step; by rewrite Hx).
  destruct l as [out|out| | | | | |l out|l| |e|e|]; cbn -[andb] in Hstep; try done.
  - by rewrite Hfull in Hstep.
  - destruct ti; try done. injection Hstep as <-. cbn. split_and!; [done|by eexists|done..].
  - destruct cx, cd; try done. injection Hstep as <-. cbn. split_and!; [done|by eexists|done..].
  - destruct (ca && sp); [|done]. injection Hstep as <-. unfold stop_timer. destruct ti; cbn; split_and!; (done || by eexists).
  - by rewrite Hended in Hstep.
  - by rewrite !andb_false_r in Hstep.
  - apply bind_Some in Hstep as (lp & _ & [= <-]). cbn. split_and!; (done || by eexists).
  - by rewrite Hfull in Hstep.
  - injection Hstep as <-. cbn. split_and!; (done || by eexists).
Qed.

Lemma waits_metrics_forever ls p p' :
  proc_run ls p = Some p' → lp_phase (p_metrics p) = Ended → waits_metrics p → p_done p = false →
  p_done p' = false.
Proof.
  revert p. induction ls as [|l ls IH]; intros p; cbn [proc_run]; [by intros [= <-]|].
  intros (p1 & Hstep & Hrun)%bind_Some Hx Hw Hd.
  destruct (waits_metrics_stays _ _ _ Hstep Hx Hw Hd) as (Hx1 & Hw1 & Hd1). by eapply IH, Hd1.
Qed.
End replica_run.
Arguments action : clear implicits.
Arguments process : clear implicits.
Arguments label : clear implicits.

(** ** Runs *)

Module StopExample.
(** Events are the numbers of messages; the handler of each adds a view change
    and a commit to the metrics loop. *)
Inductive metric := ViewChange | Commit.
Definition handle_one (l : loop_label) : list (label nat metric) :=
  [MainStep l [Add ViewChange; Add Commit]; Act; Act].



Definition after_run (ls : list (label nat metric)) (p : process nat metric) : process nat metric :=
  default p (proc_run ls p).


(** The metrics loop ends first; the main loop then handles the 51 messages that
    are left, which add 102 metrics to a queue of 100. *)
Definition crowded : list (label nat metric) :=
  StartReturns :: ((λ i, AddMain i) <$> seq 0 51) ++ [Stop; MetricsStep LCancel; MetricsStep LEnd; MainStep LCancel []] ++
  concat (replicate 50 (handle_one LDrain)) ++ [MainStep LDrain [Add ViewChange; Add Commit]].

Definition crowded_process : process nat metric := Eval vm_compute in after_run crowded (replica_started false).

(** The replica above does not stop, whatever happens afterwards. *)
Theorem stop_blocks_metrics :
  proc_run crowded (replica_started false) = Some crowded_process ∧
  p_cancelled crowded_process = true ∧ waits_metrics crowded_process ∧
  ∀ ls p', proc_run ls crowded_process = Some p' → p_done p' = false.
Proof.
  assert (waits_metrics crowded_process) as Hw.
  { split_and!; [by exists ViewChange|vm_compute; reflexivity|by left]. }
  split_and!; [vm_compute; reflexivity|reflexivity|exact Hw|]. intros ls p' Hrun.
  exact (waits_metrics_forever ls crowded_process p' Hrun eq_refl Hw eq_refl).
Qed.
End StopExample.
