(* ===== verification/Convert.v ===== *)
(** * internal/proto/hotstuffpb/convert.go: messages to and from protobuf

    The generated message types are records; a pointer to a message is an
    [option], and the getters of a nil message return zero values.  A oneof is
    an option of its cases, so a signature message is an
    [option (option pSignature)]: nil, empty, or set.  Reading a short
    bls12 signature panics. *)

From S2P Require Import Prelude Encoding Bitfield Types CryptoBase Bls12.
From Stdlib Require Import Strings.Byte.

(** ** The messages *)

Record pECDSA := mkPE { pe_Signer : N; pe_R : bytes; pe_S : bytes }.

Inductive pSignature :=
| Signature_ECDSASig (s : pECDSA)
| Signature_BLS12Sig (sig : bytes).

Inductive pThreshold :=
| ThresholdSignature_ECDSASigs (sigs : list pECDSA)
| ThresholdSignature_BLS12Sig (sig participants : bytes).

Abbreviation ptr_Signature := (option (option pSignature)).
Abbreviation ptr_Threshold := (option (option pThreshold)).

Record pPartialCert := mkPPC { ppc_Sig : ptr_Signature; ppc_Hash : bytes }.
Record pQuorumCert := mkPQC { pqc_Sig : ptr_Threshold; pqc_View : N; pqc_Hash : bytes }.
Record pTimeoutCert := mkPTC { ptc_Sig : ptr_Threshold; ptc_View : N }.
Record pAggQC := mkPAgg { pagg_QCs : gmap N pQuorumCert; pagg_Sig : ptr_Threshold; pagg_View : N }.
Record pSyncInfo := mkPSI {
  psi_QC : option pQuorumCert; psi_TC : option pTimeoutCert; psi_AggQC : option pAggQC }.
Record pBlock := mkPBlock {
  pb_Parent : bytes; pb_QC : option pQuorumCert; pb_View : N; pb_Command : bytes; pb_Proposer : N }.
Record pProposal := mkPProposal { pp_Block : option pBlock; pp_AggQC : option pAggQC }.
Record pTimeoutMsg := mkPTM {
  ptm_View : N; ptm_SyncInfo : option pSyncInfo; ptm_ViewSig : ptr_Signature; ptm_MsgSig : ptr_Signature }.

(** Run a conversion on every value of a map. *)
Definition traverse_map {A A'} (f : A → res A') (m : gmap N A) : res (gmap N A') :=
  foldl (λ acc '(k, a), acc' ← acc; b ← f a; Ok (<[k := b]> acc')) (Ok ∅) (map_to_list m).

(** The traversal of an optional sub-message. *)
Definition traverse_option {A A'} (f : A → res A') (o : option A) : res (option A') :=
  match o with
  | Some a => b ← f a; Ok (Some b)
  | None => Ok None
  end.

Section convert.
Context {B : BLS12Lib}.

(** ** Signatures *)

Definition ecdsa_to (s : ecdsa_Signature) : pECDSA :=
  mkPE (wrap32 (ec_signer s)) (big_Bytes (ec_r s)) (big_Bytes (ec_s s)).
Definition ecdsa_from (p : pECDSA) : ecdsa_Signature :=
  RestoreSignature (big_SetBytes (pe_R p)) (big_SetBytes (pe_S p)) (pe_Signer p).

Definition SignatureToProto (sig : option Signature) : ptr_Signature :=
  Some (match sig with
        | Some (SigECDSA s) => Some (Signature_ECDSASig (ecdsa_to s))
        | Some (SigBLS12 s) => Some (Signature_BLS12Sig (bls12_Signature_ToBytes s))
        | None => None
        end).

Definition SignatureFromProto (sig : ptr_Signature) : res (option Signature) :=
  match sig with
  | Some (Some (Signature_ECDSASig p)) => Ok (Some (SigECDSA (ecdsa_from p)))
  | Some (Some (Signature_BLS12Sig b)) =>
    res_map (fmap SigBLS12) (bls12_Signature_FromBytes b)
  | Some None | None => Ok None
  end.

(** [Bitfield] is called through the pointer, which panics when it is nil. *)
Definition ThresholdSignatureToProto (sig : option ThresholdSignature) : res ptr_Threshold :=
  match sig with
  | Some (ThrECDSA s) =>
    Ok (Some (Some (ThresholdSignature_ECDSASigs ((λ '(_, p), ecdsa_to p) <$> map_to_list s))))
  | Some (ThrBLS12 (Some s)) =>
    Ok (Some (Some (ThresholdSignature_BLS12Sig (AggregateSignature_ToBytes (Some s)) (as_participants s))))
  | Some (ThrBLS12 None) => Panic "nil pointer dereference"
  | None => Ok (Some None)
  end.

Definition ThresholdSignatureFromProto (sig : ptr_Threshold) : option ThresholdSignature :=
  match sig with
  | Some (Some (ThresholdSignature_ECDSASigs sigs)) =>
    Some (ThrECDSA (RestoreThresholdSignature (ecdsa_from <$> sigs)))
  | Some (Some (ThresholdSignature_BLS12Sig sig participants)) =>
    s ← RestoreAggregateSignature sig participants; Some (ThrBLS12 (Some s))
  | Some None | None => None
  end.

(** ** Certificates *)

Definition PartialCertToProto (cert : PartialCert) : pPartialCert :=
  mkPPC (SignatureToProto (pc_signature cert)) (pc_blockHash cert).
Definition PartialCertFromProto (cert : pPartialCert) : res PartialCert :=
  sig ← SignatureFromProto (ppc_Sig cert);
  Ok (NewPartialCert sig (copy_array 32 (ppc_Hash cert))).

Definition QuorumCertToProto (qc : QuorumCert) : res pQuorumCert :=
  sig ← ThresholdSignatureToProto (qc_signature qc);
  Ok (mkPQC sig (qc_view qc) (qc_hash qc)).

(** The getters make a nil certificate the zero one. *)
Definition QuorumCertFromProto (qc : option pQuorumCert) : QuorumCert :=
  match qc with
  | Some qc => NewQuorumCert (ThresholdSignatureFromProto (pqc_Sig qc)) (pqc_View qc)
                 (copy_array 32 (pqc_Hash qc))
  | None => NewQuorumCert None 0 (copy_array 32 [])
  end.

Definition TimeoutCertToProto (tc : TimeoutCert) : res pTimeoutCert :=
  sig ← ThresholdSignatureToProto (tc_signature tc); Ok (mkPTC sig (tc_view tc)).
Definition TimeoutCertFromProto (m : pTimeoutCert) : TimeoutCert :=
  NewTimeoutCert (ThresholdSignatureFromProto (ptc_Sig m)) (ptc_View m).

Definition AggregateQCToProto (aggQC : AggregateQC) : res pAggQC :=
  qcs ← traverse_map QuorumCertToProto (agg_qcs aggQC);
  sig ← ThresholdSignatureToProto (agg_sig aggQC);
  Ok (mkPAgg qcs sig (agg_view aggQC)).
Definition AggregateQCFromProto (m : pAggQC) : AggregateQC :=
  NewAggregateQC ((λ qc, QuorumCertFromProto (Some qc)) <$> pagg_QCs m)
    (ThresholdSignatureFromProto (pagg_Sig m)) (pagg_View m).

Definition SyncInfoToProto (si : SyncInfo) : res pSyncInfo :=
  qc ← traverse_option QuorumCertToProto (si_qc si);
  tc ← traverse_option TimeoutCertToProto (si_tc si);
  agg ← traverse_option AggregateQCToProto (si_aggQC si);
  Ok (mkPSI qc tc agg).
Definition SyncInfoFromProto (m : option pSyncInfo) : SyncInfo :=
  match m with
  | None => NewSyncInfo
  | Some m =>
    let si := NewSyncInfo in
    let si := match psi_QC m with
              | Some qc => SyncInfo_WithQC si (QuorumCertFromProto (Some qc)) | None => si end in
    let si := match psi_TC m with
              | Some tc => SyncInfo_WithTC si (TimeoutCertFromProto tc) | None => si end in
    match psi_AggQC m with
    | Some agg => SyncInfo_WithAggQC si (AggregateQCFromProto agg) | None => si
    end
  end.

(** ** Messages *)

Definition BlockToProto (block : Block) : res pBlock :=
  qc ← QuorumCertToProto (b_cert block);
  Ok (mkPBlock (b_parent block) (Some qc) (b_view block) (b_cmd block) (wrap32 (b_proposer block))).

(** The hash of the block is computed anew. *)
Definition BlockFromProto (block : option pBlock) : Block :=
  match block with
  | Some block => NewBlock (copy_array 32 (pb_Parent block)) (QuorumCertFromProto (pb_QC block))
                    (pb_Command block) (pb_View block) (pb_Proposer block)
  | None => NewBlock (copy_array 32 []) (QuorumCertFromProto None) [] 0 0
  end.

Definition ProposalToProto (proposal : ProposeMsg) : res pProposal :=
  block ← BlockToProto (pm_Block proposal);
  agg ← traverse_option AggregateQCToProto (pm_AggregateQC proposal);
  Ok (mkPProposal (Some block) agg).

(** The receiver fills in the ID. *)
Definition ProposalFromProto (p : pProposal) : ProposeMsg :=
  mkPropose 0 (BlockFromProto (pp_Block p)) (AggregateQCFromProto <$> pp_AggQC p).

Definition TimeoutMsgToProto (t : TimeoutMsg) : res pTimeoutMsg :=
  si ← SyncInfoToProto (tm_SyncInfo t);
  Ok (mkPTM (tm_View t) (Some si) (SignatureToProto (tm_ViewSignature t))
        (match tm_MsgSignature t with
         | Some _ => SignatureToProto (tm_MsgSignature t)
         | None => None
         end)).

(** Whether the message signature is read depends on the view signature. *)
Definition TimeoutMsgFromProto (m : pTimeoutMsg) : res TimeoutMsg :=
  viewSig ← SignatureFromProto (ptm_ViewSig m);
  msgSig ← match ptm_ViewSig m with
           | Some _ => SignatureFromProto (ptm_MsgSig m)
           | None => Ok None
           end;
  Ok (mkTimeout 0 (ptm_View m) viewSig msgSig (SyncInfoFromProto (ptm_SyncInfo m))).

(** ** Well-formed values *)

Definition wf_sig (sig : option Signature) : Prop :=
  match sig with Some s => (Signature_Signer s < two32)%N | None => True end.
Definition wf_thr (sig : option ThresholdSignature) : Prop :=
  match sig with
  | Some (ThrECDSA s) => wf_ecdsa_Threshold s ∧ map_Forall (λ _ x, (ec_signer x < two32)%N) s
  | Some (ThrBLS12 s) => is_Some s
  | None => True
  end.
Definition wf_QC (qc : QuorumCert) : Prop := wf_thr (qc_signature qc) ∧ length (qc_hash qc) = 32.
Definition wf_AggQC (a : AggregateQC) : Prop :=
  map_Forall (λ _ qc, wf_QC qc) (agg_qcs a) ∧ wf_thr (agg_sig a).
Definition wf_SI (si : SyncInfo) : Prop :=
  (∀ qc, si_qc si = Some qc → wf_QC qc) ∧ (∀ tc, si_tc si = Some tc → wf_thr (tc_signature tc)) ∧
  (∀ a, si_aggQC si = Some a → wf_AggQC a).
End convert.

(** ** Round trips *)

(** A traversal by a conversion that another one undoes. *)
Lemma traverse_map_undo {A A'} (f : A → res A') (g : A' → A) (m : gmap N A) :
  map_Forall (λ _ a, ∃ b, f a = Ok b ∧ g b = a) m →
  ∃ m', traverse_map f m = Ok m' ∧ g <$> m' = m.
Proof.
  intros Hf. unfold traverse_map.
  enough (∀ (l : list (N * A)) (acc : gmap N A) (acc' : gmap N A'), (∀ k a, (k, a) ∈ l → ∃ b, f a = Ok b ∧ g b = a) → g <$> acc' = acc →
    ∃ m', foldl (λ acc '(k, a), acc' ← acc; b ← f a; Ok (<[k := b]> acc')) (Ok acc') l = Ok m' ∧
      g <$> m' = foldl (λ acc '(k, a), <[k := a]> acc) acc l) as H.
  { destruct (H (map_to_list m) ∅ ∅) as (m' & Hrun & Hm').
    { intros k a Hin. apply (Hf k a). by apply elem_of_map_to_list. }
    { apply fmap_empty. }
    exists m'. split; [done|]. rewrite Hm'. clear. rewrite <-(list_to_map_to_list m) at 2.
    rewrite <-(list_to_map_proper (reverse (map_to_list m)) (map_to_list m)).
    2: { rewrite fmap_reverse, reverse_Permutation. apply NoDup_fst_map_to_list. }
    2: { apply reverse_Permutation. }
    rewrite <-(reverse_involutive (map_to_list m)) at 1. generalize (reverse (map_to_list m)) as l.
    induction l as [|[k a] l IH]; [done|].
    rewrite reverse_cons, foldl_app. cbn [foldl list_to_map]. simpl. by rewrite IH. }
  induction l as [|[k a] l IH]; intros acc acc' Hl Hacc; [by exists acc'|]. cbn [foldl].
  destruct (Hl k a) as (b & Hb & Hg); [by left|]. cbn [mbind res_bind]. rewrite Hb. cbn [mbind res_bind].
  apply IH; [intros k' a' Hin; apply (Hl k' a'); by right|]. by rewrite fmap_insert, Hg, Hacc.
Qed.

Section convert_facts.
Context {B : BLS12Lib} {BL : BLS12Laws B}.

Lemma ecdsa_from_to s : (ec_signer s < two32)%N → ecdsa_from (ecdsa_to s) = s.
Proof.
  intros Hs. destruct s as [r t id]. unfold ecdsa_from, ecdsa_to, RestoreSignature.
  cbn [ec_signer ec_r ec_s pe_R pe_S pe_Signer] in *.
  by rewrite !big_SetBytes_Bytes, wrap32_small.
Qed.

(** Rebuilding a map of signatures from its values, in any order. *)
Lemma RestoreThreshold_values (s : ecdsa_ThresholdSignature) l :
  wf_ecdsa_Threshold s → l ≡ₚ (snd <$> map_to_list s) → RestoreThresholdSignature l = s.
Proof.
  intros Hwf Hl. unfold RestoreThresholdSignature.
  enough (∀ m : ecdsa_ThresholdSignature, (∀ x, x ∈ l → s !! ec_signer x = Some x) → (∀ k x, m !! k = Some x → s !! k = Some x) →
    (∀ k x, s !! k = Some x → x ∈ l ∨ m !! k = Some x) →
    foldl (λ sig x, <[ec_signer x := x]> sig) m l = s) as H.
  { apply (H ∅).
    - intros x Hx. rewrite Hl in Hx. apply list_elem_of_fmap in Hx as ([k y] & -> & Hin).
      apply elem_of_map_to_list in Hin. cbn. by rewrite (Hwf k y Hin).
    - intros k x. by rewrite lookup_empty.
    - intros k x Hk. left. rewrite Hl. apply list_elem_of_fmap. exists (k, x).
      split; [done|]. by apply elem_of_map_to_list. }
  clear Hl. induction l as [|x l IH]; intros m Hl Hm Hs; cbn [foldl].
  - apply map_eq. intros k. destruct (s !! k) as [y|] eqn:E.
    + destruct (Hs k y E) as [Hin|Hin]; [by apply not_elem_of_nil in Hin|done].
    + destruct (m !! k) as [y|] eqn:E'; [|done]. apply Hm in E'. congruence.
  - apply IH.
    + intros y Hy. apply Hl. by right.
    + intros k y. destruct (decide (k = ec_signer x)) as [->|Hne].
      * rewrite lookup_insert_eq. intros [= <-]. apply Hl. by left.
      * rewrite lookup_insert_ne by done. apply Hm.
    + intros k y Hk. destruct (decide (k = ec_signer x)) as [->|Hne].
      * right. rewrite lookup_insert_eq. rewrite <-Hk. symmetry. apply Hl. by left.
      * rewrite lookup_insert_ne by done. destruct (Hs k y Hk) as [Hin|Hin]; [|by right].
        apply elem_of_cons in Hin as [->|Hin]; [|by left]. by rewrite (Hwf k _ Hk) in Hne.
Qed.

Lemma Signature_undo sig : wf_sig sig → SignatureFromProto (SignatureToProto sig) = Ok sig.
Proof.
  destruct sig as [[s|s]|]; intros Hs; [| |done]; cbn [SignatureToProto SignatureFromProto].
  - by rewrite ecdsa_from_to.
  - by rewrite bls_signature_undo.
Qed.

Lemma Threshold_undo sig : wf_thr sig →
  ∃ p, ThresholdSignatureToProto sig = Ok p ∧ ThresholdSignatureFromProto p = sig.
Proof.
  destruct sig as [[s|s]|]; cbn; intros Hs; [|destruct Hs as [a ->]|by eexists].
  - destruct Hs as [Hwf Hlt]. eexists. split; [done|]. cbn. do 2 f_equal.
    rewrite <-list_fmap_compose. apply RestoreThreshold_values; [done|].
    erewrite list_fmap_ext; [reflexivity|]. intros i [k x] Hi. cbn. apply ecdsa_from_to, (Hlt k x).
    apply elem_of_map_to_list. by eapply list_elem_of_lookup_2.
  - eexists. split; [done|]. unfold ThresholdSignatureFromProto, RestoreAggregateSignature.
    cbn [AggregateSignature_ToBytes]. rewrite G2_FromCompressed_ToCompressed. by destruct a.
Qed.

Lemma QuorumCert_undo qc : wf_QC qc →
  ∃ p, QuorumCertToProto qc = Ok p ∧ QuorumCertFromProto (Some p) = qc.
Proof.
  intros [Hs Hh]. destruct (Threshold_undo _ Hs) as (p & Hp & Hf). unfold QuorumCertToProto.
  rewrite Hp. eexists. split; [done|]. cbn [QuorumCertFromProto pqc_Sig pqc_View pqc_Hash].
  rewrite Hf, copy_array_id by done. by destruct qc.
Qed.

Lemma TimeoutCert_undo tc : wf_thr (tc_signature tc) →
  ∃ p, TimeoutCertToProto tc = Ok p ∧ TimeoutCertFromProto p = tc.
Proof.
  intros Hs. destruct (Threshold_undo _ Hs) as (p & Hp & Hf). unfold TimeoutCertToProto.
  rewrite Hp. eexists. split; [done|]. unfold TimeoutCertFromProto. cbn. rewrite Hf. by destruct tc.
Qed.

Lemma AggregateQC_undo a : wf_AggQC a →
  ∃ p, AggregateQCToProto a = Ok p ∧ AggregateQCFromProto p = a.
Proof.
  intros [Hq Hs]. destruct (Threshold_undo _ Hs) as (p & Hp & Hf). unfold AggregateQCToProto.
  destruct (traverse_map_undo QuorumCertToProto (λ p, QuorumCertFromProto (Some p)) (agg_qcs a))
    as (m & -> & Hm).
  { intros k qc Hk. apply QuorumCert_undo, (Hq k qc Hk). }
  cbn [mbind res_bind]. rewrite Hp. eexists. split; [done|]. unfold AggregateQCFromProto.
  cbn [pagg_QCs pagg_Sig pagg_View]. rewrite Hf, Hm. by destruct a.
Qed.

(** The conversion of an optional part. *)
Lemma traverse_option_undo {A A'} (f : A → res A') (g : A' → A) (o : option A) :
  (∀ a, o = Some a → ∃ b, f a = Ok b ∧ g b = a) →
  ∃ o', traverse_option f o = Ok o' ∧ g <$> o' = o.
Proof.
  destruct o as [a|]; intros Ho; [|by exists None].
  destruct (Ho a eq_refl) as (b & Hb & Hg). exists (Some b). cbn. rewrite Hb. cbn. by rewrite Hg.
Qed.

Lemma SyncInfo_undo si : wf_SI si →
  ∃ p, SyncInfoToProto si = Ok p ∧ SyncInfoFromProto (Some p) = si.
Proof.
  intros (Hqc & Htc & Hagg). unfold SyncInfoToProto.
  destruct (traverse_option_undo QuorumCertToProto (λ p, QuorumCertFromProto (Some p)) (si_qc si))
    as (q & -> & Hq); [intros; by apply QuorumCert_undo, Hqc|]. cbn [mbind res_bind].
  destruct (traverse_option_undo TimeoutCertToProto TimeoutCertFromProto (si_tc si))
    as (t & -> & Ht); [intros; by apply TimeoutCert_undo, Htc|]. cbn [mbind res_bind].
  destruct (traverse_option_undo AggregateQCToProto AggregateQCFromProto (si_aggQC si))
    as (a & -> & Ha); [intros; by apply AggregateQC_undo, Hagg|]. cbn [mbind res_bind].
  eexists. split; [done|]. destruct si as [x y z]. cbn in *. by destruct q, t, a; simplify_eq/=.
Qed.

Lemma Block_undo b : wf_block b → wf_QC (b_cert b) →
  ∃ p, BlockToProto b = Ok p ∧ BlockFromProto (Some p) = b.
Proof.
  intros (Hh & Hp & Hi & _) Hqc. destruct (QuorumCert_undo _ Hqc) as (p & Hp' & Hf).
  unfold BlockToProto. rewrite Hp'. eexists. split; [done|].
  cbn [BlockFromProto pb_Parent pb_QC pb_Command pb_View pb_Proposer].
  rewrite Hf, copy_array_id, wrap32_small by done. unfold NewBlock. fold (Block_ToBytes b). rewrite <-Hh.
  by destruct b.
Qed.

Lemma Proposal_undo p :
  wf_block (pm_Block p) → wf_QC (b_cert (pm_Block p)) →
  (∀ a, pm_AggregateQC p = Some a → wf_AggQC a) →
  ∃ m, ProposalToProto p = Ok m ∧ ProposalFromProto m = mkPropose 0 (pm_Block p) (pm_AggregateQC p).
Proof.
  intros Hb Hqc Hagg. unfold ProposalToProto. destruct (Block_undo _ Hb Hqc) as (b & -> & Hfb).
  cbn [mbind res_bind].
  destruct (traverse_option_undo AggregateQCToProto AggregateQCFromProto (pm_AggregateQC p))
    as (a & -> & Ha); [intros; by apply AggregateQC_undo, Hagg|].
  eexists. split; [done|]. unfold ProposalFromProto. cbn [pp_Block pp_AggQC]. by rewrite Hfb, Ha.
Qed.

Lemma TimeoutMsg_undo t :
  wf_sig (tm_ViewSignature t) → wf_sig (tm_MsgSignature t) → wf_SI (tm_SyncInfo t) →
  ∃ m, TimeoutMsgToProto t = Ok m ∧
    TimeoutMsgFromProto m =
      Ok (mkTimeout 0 (tm_View t) (tm_ViewSignature t) (tm_MsgSignature t) (tm_SyncInfo t)).
Proof.
  intros Hv Hm Hsi. unfold TimeoutMsgToProto. destruct (SyncInfo_undo _ Hsi) as (si & -> & Hf).
  eexists. split; [done|]. unfold TimeoutMsgFromProto.
  cbn [ptm_ViewSig ptm_MsgSig ptm_View ptm_SyncInfo]. rewrite Signature_undo by done.
  cbn [mbind res_bind]. unfold SignatureToProto at 1. rewrite Hf.
  destruct (tm_MsgSignature t) as [s|] eqn:E; [|done]. by rewrite Signature_undo.
Qed.

Lemma PartialCert_undo pc :
  wf_sig (pc_signature pc) → length (pc_blockHash pc) = 32 →
  PartialCertFromProto (PartialCertToProto pc) = Ok pc.
Proof.
  intros Hs Hh. unfold PartialCertFromProto, PartialCertToProto. cbn [ppc_Sig ppc_Hash].
  rewrite Signature_undo by done. cbn [mbind res_bind]. rewrite copy_array_id by done. by destruct pc.
Qed.

(** A proposal, a timeout message and a vote that are converted to
    protobuf and back are the same messages, except for the sender, which the
    receiver fills in: in particular the hash that the receiver computes for
    the block is the one the proposer signed. *)
Theorem messages_roundtrip (p : ProposeMsg) (t : TimeoutMsg) (pc : PartialCert) :
  wf_block (pm_Block p) → wf_QC (b_cert (pm_Block p)) →
  (∀ a, pm_AggregateQC p = Some a → wf_AggQC a) →
  wf_sig (tm_ViewSignature t) → wf_sig (tm_MsgSignature t) → wf_SI (tm_SyncInfo t) →
  wf_sig (pc_signature pc) → length (pc_blockHash pc) = 32 →
  (∃ m, ProposalToProto p = Ok m ∧
    ProposalFromProto m = mkPropose 0 (pm_Block p) (pm_AggregateQC p)) ∧
  (∃ m, TimeoutMsgToProto t = Ok m ∧
    TimeoutMsgFromProto m =
      Ok (mkTimeout 0 (tm_View t) (tm_ViewSignature t) (tm_MsgSignature t) (tm_SyncInfo t))) ∧
  PartialCertFromProto (PartialCertToProto pc) = Ok pc.
Proof. intros. split_and!; eauto using Proposal_undo, TimeoutMsg_undo, PartialCert_undo. Qed.

(** A vote whose bls12 signature has fewer than four bytes makes the receiver
    panic. *)
Lemma short_signature_panics (short hash : bytes) :
  length short < 4 →
  PartialCertFromProto (mkPPC (Some (Some (Signature_BLS12Sig short))) hash) = Panic "index out of range".
Proof.
  intros Hl. unfold PartialCertFromProto. cbn. unfold bls12_Signature_FromBytes.
  by rewrite (proj2 (Nat.ltb_lt _ _) Hl).
Qed.
End convert_facts.

(** ** The theorems on concrete messages *)

Module ConvertExample.
#[local] Existing Instance ScalarBLS.

Definition thr2 : ecdsa_ThresholdSignature := RestoreThresholdSignature [ec_sig 300 4 2; ec_sig 5 6 1]%N.
Definition qc2 : QuorumCert := NewQuorumCert (Some (ThrECDSA thr2)) 1 (b_hash GetGenesis).
Definition agg2 : AggregateQC := NewAggregateQC {[3%N := qc2]} (Some (ThrECDSA thr2)) 2.
Definition proposal2 : ProposeMsg :=
  mkPropose 3 (NewBlock (b_hash GetGenesis) qc2 [x61] 2 3) (Some agg2).
Definition sig3 : Signature := SigBLS12 (bls_sig 3 77%N).
Definition timeout2 : TimeoutMsg :=
  mkTimeout 3 2 (Some sig3) None (SyncInfo_WithAggQC (SyncInfo_WithQC NewSyncInfo qc2) agg2).

Lemma wf_thr2 : wf_thr (Some (ThrECDSA thr2)).
Proof.
  split; [apply wf_RestoreThresholdSignature|].
  apply (bool_decide_eq_true_1 (map_Forall (λ _ x, ec_signer x < two32)%N thr2)). vm_compute. reflexivity.
Qed.

Lemma wf_qc2 : wf_QC qc2.
Proof. split; [exact wf_thr2|apply length_b_hash, wf_genesis]. Qed.

Lemma wf_agg2 : wf_AggQC agg2.
Proof. split; [|exact wf_thr2]. apply map_Forall_singleton, wf_qc2. Qed.

Definition vote2 : PartialCert := NewPartialCert (Some sig3) (b_hash GetGenesis).

Lemma wf_proposal2 : wf_block (pm_Block proposal2).
Proof. apply wf_NewBlock; [apply length_b_hash, wf_genesis|reflexivity|reflexivity]. Qed.

Lemma wf_proposal2_agg a : pm_AggregateQC proposal2 = Some a → wf_AggQC a.
Proof. intros [= <-]. exact wf_agg2. Qed.

Lemma wf_timeout2 : wf_SI (tm_SyncInfo timeout2).
Proof.
  split; [intros qc [= <-]; exact wf_qc2|]. split; [discriminate|]. intros a [= <-]. exact wf_agg2.
Qed.

Lemma messages_roundtrip_witness :
  ∃ m, ProposalToProto proposal2 = Ok m ∧
    ProposalFromProto m = mkPropose 0 (pm_Block proposal2) (Some agg2).
Proof.
  exact (proj1 (messages_roundtrip proposal2 timeout2 vote2 wf_proposal2 wf_qc2 wf_proposal2_agg
    eq_refl I wf_timeout2 eq_refl (length_b_hash _ wf_genesis))).
Defined.
End ConvertExample.
