(* ===== verification/Backend.v ===== *)
(** * backend/gorums: the configuration and the server of a replica

    What the gorums framework and gRPC hold for a call (the peer of a
    connection, its metadata, the reply of a quorum call) is an argument of the
    operations.  A context.CancelFunc is the number of the context it cancels,
    as in [BlockChain]. *)

From S2P Require Import Prelude Encoding Bitfield Types BlockChain CryptoBase Replica Bls12.
From S2P Require Import Convert Consensus LeaderRotation.
From Stdlib Require Import Strings.Byte SpecFloat.

(** ** Decimal numbers: strconv.Atoi and the verb %d *)

Definition digit (d : N) : Byte.byte := byte_of_N (48 + d).
Definition digit_of (b : Byte.byte) : option N :=
  let n := Byte.to_N b in if (48 <=? n)%N && (n <=? 57)%N then Some (n - 48)%N else None.

(** Digits of [n], the last one first. *)
Fixpoint digits_rev (fuel : nat) (n : N) : bytes :=
  match fuel with
  | O => []
  | S fuel => digit (n mod 10) :: if (n <? 10)%N then [] else digits_rev fuel (n / 10)
  end.

(** A number below 2^k has at most k digits. *)
Definition Sprintf_d (n : N) : bytes := reverse (digits_rev (S (N.to_nat (N.size n))) n).

Fixpoint digits_val (acc : N) (s : bytes) : option N :=
  match s with
  | [] => Some acc
  | b :: s => d ← digit_of b; digits_val (10 * acc + d) s
  end.

Definition unsigned_val (s : bytes) : option Z :=
  match s with [] => None | _ => Z.of_N <$> digits_val 0 s end.

Definition Atoi (s : bytes) : option Z :=
  n ← match s with
      | x2d :: s => Z.opp <$> unsigned_val s
      | x2b :: s => unsigned_val s
      | _ => unsigned_val s
      end;
  if (- 2 ^ 63 <=? n)%Z && (n <? 2 ^ 63)%Z then Some n else None.

(** The conversion of an int to hotstuff.ID. *)
Definition ID_of_int (n : Z) : ID := Z.to_N (n mod 2 ^ 32).

(** ** gorumsserver.go *)

(** The authentication of a connection: the type it names and, when it is a
    credentials.TLSInfo, the common names of the peer's certificates. *)
Record AuthInfo := mkAuth { AuthType : string; TLSInfo : option (list bytes) }.

(** What the context of a call holds: peer.FromContext and
    metadata.FromIncomingContext, here the values of the field "id". *)
Record ServerCtx := mkCtx {
  ctx_peer : option (option AuthInfo);
  ctx_md : option (list bytes) }.

Inductive id_error := NoPeerInfo | WrongAuthType | NoCertificate | NoMetadata | NoIDField | BadID.

(** The loop over the replicas: the first whose ID the subject names. *)
Definition match_subject (ids : list ID) (commonName : bytes) : option ID :=
  snd <$> list_find (λ id, ID_of_int <$> Atoi commonName = Some id) ids.

Definition getClientID (replicas : list ID) (ctx : ServerCtx) : ID + id_error :=
  match ctx_peer ctx with
  | None => inr NoPeerInfo
  | Some auth =>
    let from_metadata :=
      match ctx_md ctx with
      | None => inr NoMetadata
      | Some [] => inr NoIDField
      | Some (v :: _) => match Atoi v with Some id => inl (ID_of_int id) | None => inr BadID end
      end in
    match auth with
    | Some a =>
      if bool_decide (AuthType a = "tls") then
        match TLSInfo a with
        | None => inr WrongAuthType
        | Some [] => inr NoCertificate
        | Some (cert :: _) =>
          match match_subject replicas cert with
          | Some id => inl id
          | None => inr NoCertificate
          end
        end
      else from_metadata
    | None => from_metadata
    end
  end.

Section server.
Context {B : BLS12Lib}.
Context (replicas : list ID).

(** A handler posts an event to the event loop, or returns early. *)

(** The proposer of the block is overwritten by the sender; a proposal
    without a block panics there. *)
Definition Server_Propose (ctx : ServerCtx) (proposal : pProposal) : res (option event) :=
  match getClientID replicas ctx with
  | inr _ => Ok None
  | inl id =>
    match pp_Block proposal with
    | None => Panic "nil pointer dereference"
    | Some b =>
      let block := mkPBlock (pb_Parent b) (pb_QC b) (pb_View b) (pb_Command b) (wrap32 id) in
      let proposeMsg := ProposalFromProto (mkPProposal (Some block) (pp_AggQC proposal)) in
      Ok (Some (EvPropose (mkPropose id (pm_Block proposeMsg) (pm_AggregateQC proposeMsg))))
    end
  end.

Definition Server_Vote (ctx : ServerCtx) (cert : pPartialCert) : res (option event) :=
  match getClientID replicas ctx with
  | inr _ => Ok None
  | inl id => pc ← PartialCertFromProto cert; Ok (Some (EvVote (mkVote id pc false)))
  end.

Definition Server_NewView (ctx : ServerCtx) (msg : pSyncInfo) : res (option event) :=
  match getClientID replicas ctx with
  | inr _ => Ok None
  | inl id => Ok (Some (EvNewView (mkNewView id (SyncInfoFromProto (Some msg)))))
  end.

(** A timeout is posted even when its sender is unknown, as replica 0. *)
Definition Server_Timeout (ctx : ServerCtx) (msg : pTimeoutMsg) : res (option event) :=
  t ← TimeoutMsgFromProto msg;
  let id := match getClientID replicas ctx with inl id => id | inr _ => 0%N end in
  Ok (Some (EvTimeout (mkTimeout id (tm_View t) (tm_ViewSignature t) (tm_MsgSignature t) (tm_SyncInfo t)))).

(** [None] is the status NotFound. *)
Definition Server_Fetch (chain : blockChain) (pb : bytes) : res (option pBlock) :=
  match blockChain_LocalGet (copy_array 32 pb) chain with
  | None => Ok None
  | Some block => res_map Some (BlockToProto block)
  end.
End server.

(** ** gorumsconfig.go *)

Section config.
Context {B : BLS12Lib} {E : ECDSALib}.

(** [gr_node]: whether the replica has a connection. *)
Record gorumsReplica := mkGReplica {
  gr_node : bool;
  gr_id : ID;
  gr_pubKey : PublicKey;
  gr_voteCancel : option nat;      (** [None]: the function that does nothing *)
  gr_newviewCancel : option nat;
  gr_reputation : spec_float }.

(** Messages handed to gorums, with the context that can still cancel them. *)
Inductive sent :=
| SentVote (to : ID) (ctx : nat) (cert : pPartialCert)
| SentNewView (to : ID) (ctx : nat) (msg : pSyncInfo)
| SentProposal (ctx : nat) (p : pProposal)
| SentTimeout (ctx : nat) (t : pTimeoutMsg).

Record Config := mkConfig {
  c_md : bytes;                    (** the metadata field "id" of every call *)
  c_cfg : bool;                    (** whether the gorums configuration is set *)
  c_replicas : gmap ID gorumsReplica;
  c_proposeCancel : option nat;
  c_timeoutCancel : option nat;
  c_contexts : nat;                (** contexts created so far *)
  c_cancelled : gset nat;
  c_sent : list sent }.

Definition NewConfig (id : ID) : Config := mkConfig (Sprintf_d id) false ∅ None None 0 ∅ [].

(** config.ReplicaInfo and config.ReplicaConfig. *)
Record ReplicaInfo := mkInfo { ri_ID : ID; ri_Address : bytes; ri_PubKey : PublicKey }.
Record ReplicaConfig := mkReplicaConfig { rc_ID : ID; rc_Replicas : gmap ID ReplicaInfo }.

Definition fresh_replica (r : ReplicaInfo) : gorumsReplica :=
  mkGReplica false (ri_ID r) (ri_PubKey r) None None (f64_of_Z (Z.of_N (ri_ID r))).

Definition set_node (r : gorumsReplica) : gorumsReplica :=
  mkGReplica true (gr_id r) (gr_pubKey r) (gr_voteCancel r) (gr_newviewCancel r) (gr_reputation r).

(** The loop over the nodes of the new configuration. *)
Fixpoint set_nodes (nodes : list ID) (replicas : gmap ID gorumsReplica) : res (gmap ID gorumsReplica) :=
  match nodes with
  | [] => Ok replicas
  | id :: nodes =>
    match replicas !! id with
    | None => Panic "interface conversion"
    | Some r => set_nodes nodes (<[id := set_node r]> replicas)
    end
  end.

(** [newConfiguration] connects to the addresses it is given: the nodes, or
    an error. *)
Definition Connect (newConfiguration : gmap bytes ID → option (list ID)) (replicaCfg : ReplicaConfig)
    (cfg : Config) : res (bool * Config) :=
  let infos := snd <$> map_to_list (rc_Replicas replicaCfg) in
  let replicas := foldl (λ m r, <[ri_ID r := fresh_replica r]> m) (c_replicas cfg) infos in
  let idMapping := foldl (λ m r, if (ri_ID r =? rc_ID replicaCfg)%N then m else <[ri_Address r := ri_ID r]> m)
                     ∅ infos in
  let set rs up := mkConfig (c_md cfg) up rs (c_proposeCancel cfg) (c_timeoutCancel cfg)
                     (c_contexts cfg) (c_cancelled cfg) (c_sent cfg) in
  match newConfiguration idMapping with
  | None => Ok (false, set replicas false)
  | Some nodes => replicas' ← set_nodes nodes replicas; Ok (true, set replicas' true)
  end.

Definition Config_Len (cfg : Config) : Z := Z.of_nat (size (c_replicas cfg)).
Definition Config_QuorumSize (cfg : Config) : Z := QuorumSize (Config_Len cfg).
Definition Config_Replica (id : ID) (cfg : Config) : option gorumsReplica := c_replicas cfg !! id.

(** Calling a CancelFunc. *)
Definition call_cancel (cancel : option nat) (cancelled : gset nat) : gset nat :=
  match cancel with Some k => {[k]} ∪ cancelled | None => cancelled end.

(** [Vote] and [NewView] of the replica [id]; a call on a nil replica panics. *)
Definition Replica_Vote (id : ID) (cert : PartialCert) (cfg : Config) : res Config :=
  match c_replicas cfg !! id with
  | None => Panic "nil pointer dereference"
  | Some r =>
    if negb (gr_node r) then Ok cfg
    else
      let ctx := c_contexts cfg in
      let r' := mkGReplica (gr_node r) (gr_id r) (gr_pubKey r) (Some ctx) (gr_newviewCancel r) (gr_reputation r) in
      Ok (mkConfig (c_md cfg) (c_cfg cfg) (<[id := r']> (c_replicas cfg)) (c_proposeCancel cfg) (c_timeoutCancel cfg)
            (S ctx) (call_cancel (gr_voteCancel r) (c_cancelled cfg))
            (c_sent cfg ++ [SentVote id ctx (PartialCertToProto cert)]))
  end.

Definition Replica_NewView (id : ID) (msg : SyncInfo) (cfg : Config) : res Config :=
  match c_replicas cfg !! id with
  | None => Panic "nil pointer dereference"
  | Some r =>
    if negb (gr_node r) then Ok cfg
    else
      let ctx := c_contexts cfg in
      let r' := mkGReplica (gr_node r) (gr_id r) (gr_pubKey r) (gr_voteCancel r) (Some ctx) (gr_reputation r) in
      m ← SyncInfoToProto msg;
      Ok (mkConfig (c_md cfg) (c_cfg cfg) (<[id := r']> (c_replicas cfg)) (c_proposeCancel cfg) (c_timeoutCancel cfg)
            (S ctx) (call_cancel (gr_newviewCancel r) (c_cancelled cfg)) (c_sent cfg ++ [SentNewView id ctx m]))
  end.

Definition Config_Propose (proposal : ProposeMsg) (cfg : Config) : res Config :=
  if negb (c_cfg cfg) then Ok cfg
  else
    let ctx := c_contexts cfg in
    p ← ProposalToProto proposal;
    Ok (mkConfig (c_md cfg) (c_cfg cfg) (c_replicas cfg) (Some ctx) (c_timeoutCancel cfg) (S ctx)
          (call_cancel (c_proposeCancel cfg) (c_cancelled cfg)) (c_sent cfg ++ [SentProposal ctx p])).

Definition Config_Timeout (msg : TimeoutMsg) (cfg : Config) : res Config :=
  if negb (c_cfg cfg) then Ok cfg
  else
    let ctx := c_contexts cfg in
    t ← TimeoutMsgToProto msg;
    Ok (mkConfig (c_md cfg) (c_cfg cfg) (c_replicas cfg) (c_proposeCancel cfg) (Some ctx) (S ctx)
          (call_cancel (c_timeoutCancel cfg) (c_cancelled cfg)) (c_sent cfg ++ [SentTimeout ctx t])).

(** The replies are visited in the order of the list. *)
Definition FetchQF (inHash : bytes) (replies : list (N * pBlock)) : option pBlock :=
  let h := copy_array 32 inHash in
  snd <$> (snd <$> list_find (λ b, h = b_hash (BlockFromProto (Some b.2))) replies).

(** The error of a quorum call, as far as [Fetch] distinguishes. *)
Inductive call_error := Canceled | OtherError.

(** [call] is the quorum call: a reply, which may be nil, and an error.
    A cancelled call counts as successful. *)
Definition Config_Fetch (call : bytes → option pBlock * option call_error) (hash : Hash) : option Block :=
  match call hash with
  | (_, Some OtherError) => None
  | (reply, Some Canceled) | (reply, None) => Some (BlockFromProto reply)
  end.

Definition Replica_GetRep (r : gorumsReplica) : spec_float := gr_reputation r.
Definition Replica_UpdateRep (rep : spec_float) (r : gorumsReplica) : gorumsReplica :=
  mkGReplica (gr_node r) (gr_id r) (gr_pubKey r) (gr_voteCancel r) (gr_newviewCancel r)
    (UpdateRep (Replica_GetRep r) rep).
End config.

(** ** Decimal numbers survive the metadata *)

Lemma digit_of_digit d : (d < 10)%N → digit_of (digit d) = Some d.
Proof.
  intros Hd. unfold digit_of, digit.
  destruct d as [|[[[[]|[]|]|[[]|[]|]|]|[[[]|[]|]|[[]|[]|]|]|]]; try reflexivity; lia.
Qed.

Lemma digits_val_app s t acc :
  digits_val acc (s ++ t) = digits_val acc s ≫= λ acc', digits_val acc' t.
Proof.
  revert acc. induction s as [|b s IH]; intros acc; cbn [app digits_val]; [done|].
  destruct (digit_of b); cbn [mbind option_bind]; [apply IH|done].
Qed.

Lemma digits_val_print fuel n :
  (n < 2 ^ N.of_nat fuel)%N → (0 < fuel)%nat → digits_val 0 (reverse (digits_rev fuel n)) = Some n.
Proof.
  revert n. induction fuel as [|fuel IH]; intros n Hn Hf; [lia|]. cbn [digits_rev].
  rewrite reverse_cons, digits_val_app. pose proof (N.mod_lt n 10 ltac:(done)).
  pose proof (N.div_mod n 10 ltac:(done)). rewrite Nat2N.inj_succ, N.pow_succ_r' in Hn.
  destruct (N.ltb_spec n 10).
  - cbn [reverse rev_append digits_val mbind option_bind]. rewrite digit_of_digit by done.
    cbn [mbind option_bind]. f_equal. rewrite N.mod_small by done. lia.
  - assert (n / 10 < 2 ^ N.of_nat fuel)%N by (apply N.Div0.div_lt_upper_bound; lia).
    rewrite IH; [|done|]. 2: { destruct fuel; [|lia]. cbn in *. lia. }
    cbn [mbind option_bind digits_val]. rewrite digit_of_digit by done. cbn. f_equal. lia.
Qed.

(** What a number is printed as has no sign. *)
Lemma digits_unsigned s n : digits_val 0 s = Some n → s ≠ [] → unsigned_val s = Some (Z.of_N n) ∧
  ∃ b s', s = b :: s' ∧ b ≠ x2d ∧ b ≠ x2b.
Proof.
  destruct s as [|b s]; [done|]. intros Hv _. unfold unsigned_val. rewrite Hv. split; [done|].
  exists b, s. split; [done|]. by split; intros ->.
Qed.

Lemma Atoi_Sprintf n : (n < two32)%N → Atoi (Sprintf_d n) = Some (Z.of_N n).
Proof.
  intros Hn. pose proof (digits_val_print (S (N.to_nat (N.size n))) n) as Hv.
  destruct (digits_unsigned (Sprintf_d n) n) as (Hu & b & s & Hs & H1 & H2).
  { apply Hv; [|lia]. rewrite Nat2N.inj_succ, N2Nat.id, N.pow_succ_r'. pose proof (N.size_gt n). lia. }
  { unfold Sprintf_d. cbn [digits_rev]. rewrite reverse_cons. intros H. by apply app_nil in H as [_ ?]. }
  unfold Atoi. rewrite Hs in Hu |- *.
  assert ((match b :: s with x2d :: s0 => Z.opp <$> unsigned_val s0 | x2b :: s0 => unsigned_val s0
           | _ => unsigned_val (b :: s) end) = unsigned_val (b :: s)) as -> by (by destruct b).
  rewrite Hu. cbn [mbind option_bind]. unfold two32 in Hn.
  destruct (Z.leb_spec (- 2 ^ 63) (Z.of_N n)); [|lia]. destruct (Z.ltb_spec (Z.of_N n) (2 ^ 63)); [done|lia].
Qed.

Lemma ID_of_int_small n : (n < two32)%N → ID_of_int (Z.of_N n) = n.
Proof. unfold two32, ID_of_int. intros Hn. rewrite Z.mod_small by lia. lia. Qed.

(** ** Properties *)

Section server_facts.
Context {B : BLS12Lib} {BL : BLS12Laws B}.

(** The context of a call over a plain connection, which carries the
    metadata of the sender's configuration. *)
Definition plain_ctx {E : ECDSALib} (cfg : Config) : ServerCtx := mkCtx (Some None) (Some [c_md cfg]).

Lemma getClientID_plain {E : ECDSALib} ids id :
  (id < two32)%N → getClientID ids (plain_ctx (NewConfig id)) = inl id.
Proof.
  intros Hid. unfold getClientID, plain_ctx, NewConfig. cbn [ctx_peer ctx_md c_md].
  by rewrite Atoi_Sprintf, ID_of_int_small.
Qed.

(** C22: what a replica sends is what the server of another one posts to its
    event loop, under the sender's ID: votes, new-view and timeout messages
    unchanged, and a proposal with a block whose proposer is the sender, so
    that a replica's own block arrives with the hash it was signed under. *)
Theorem messages_delivered {E : ECDSALib} (ids : list ID) (id : ID) (pc : PartialCert) (si : SyncInfo)
    (t : TimeoutMsg) (p : ProposeMsg) :
  (id < two32)%N →
  wf_sig (pc_signature pc) → length (pc_blockHash pc) = 32 → wf_SI si →
  wf_sig (tm_ViewSignature t) → wf_sig (tm_MsgSignature t) → wf_SI (tm_SyncInfo t) →
  wf_block (pm_Block p) → wf_QC (b_cert (pm_Block p)) →
  (∀ a, pm_AggregateQC p = Some a → wf_AggQC a) →
  let ctx := plain_ctx (NewConfig id) in
  let b := pm_Block p in
  let b' := NewBlock (b_parent b) (b_cert b) (b_cmd b) (b_view b) id in
  Server_Vote ids ctx (PartialCertToProto pc) = Ok (Some (EvVote (mkVote id pc false))) ∧
  SyncInfoToProto si ≫= Server_NewView ids ctx = Ok (Some (EvNewView (mkNewView id si))) ∧
  TimeoutMsgToProto t ≫= Server_Timeout ids ctx =
    Ok (Some (EvTimeout (mkTimeout id (tm_View t) (tm_ViewSignature t) (tm_MsgSignature t) (tm_SyncInfo t)))) ∧
  ProposalToProto p ≫= Server_Propose ids ctx = Ok (Some (EvPropose (mkPropose id b' (pm_AggregateQC p)))) ∧
  (b_proposer b = id → b' = b).
Proof.
  intros Hid Hpc Hh Hsi Htv Htm Htsi Hb Hqc Hagg ctx b b'.
  pose proof (getClientID_plain (E := E) ids id Hid) as Hget. split_and!.
  - unfold Server_Vote, ctx. rewrite Hget, PartialCert_undo by done. done.
  - destruct (SyncInfo_undo _ Hsi) as (m & -> & Hf). cbn [mbind res_bind]. unfold Server_NewView, ctx.
    by rewrite Hget, Hf.
  - destruct (TimeoutMsg_undo _ Htv Htm Htsi) as (m & -> & Hf). cbn [mbind res_bind].
    unfold Server_Timeout, ctx. rewrite Hf, Hget. done.
  - unfold ProposalToProto. fold b. destruct (QuorumCert_undo _ Hqc) as (q & Hq & Hfq).
    unfold BlockToProto. fold b in Hq, Hfq. rewrite Hq. cbn [mbind res_bind].
    destruct (traverse_option_undo AggregateQCToProto AggregateQCFromProto (pm_AggregateQC p))
      as (a & -> & Ha); [intros; by apply AggregateQC_undo, Hagg|].
    cbn [mbind res_bind]. unfold Server_Propose, ctx. rewrite Hget. unfold ProposalFromProto.
    cbn [pp_Block pp_AggQC pb_Parent pb_QC pb_View pb_Command pm_Block pm_AggregateQC BlockFromProto pb_Proposer].
    destruct Hb as (_ & Hp & _). by rewrite Hfq, Ha, copy_array_id, wrap32_small by done.
  - intros <-. destruct Hb as (Hhash & _). unfold b', NewBlock. fold (Block_ToBytes b).
    unfold b in *. rewrite <-Hhash. by destruct (pm_Block p).
Qed.

(** Over TLS the sender of a message is a replica of the configuration
    that the connection's first certificate names; the metadata has no say. *)
Theorem tls_identity (ids : list ID) (ctx : ServerCtx) (a : AuthInfo) (id : ID) :
  ctx_peer ctx = Some (Some a) → AuthType a = "tls" → getClientID ids ctx = inl id →
  id ∈ ids ∧ ∃ cert rest, TLSInfo a = Some (cert :: rest) ∧ ID_of_int <$> Atoi cert = Some id.
Proof.
  intros Hp Ha. unfold getClientID. rewrite Hp, bool_decide_eq_true_2 by done.
  destruct (TLSInfo a) as [[|cert rest]|]; [done| |done]. unfold match_subject.
  destruct (list_find _ ids) as [[i x]|] eqn:Hfind; cbn; [|done]. intros [= <-].
  apply list_find_Some in Hfind as (Hi & Hx & _). split; [by eapply list_elem_of_lookup_2|]. by eauto.
Qed.
End server_facts.

(** ** Fetching blocks *)

Section fetch_facts.
Context {B : BLS12Lib}.

(** gorums returns without an error only a reply that the quorum function
    accepted, out of some set of replies. *)
Definition call_obeys_QF (call : bytes → option pBlock * option call_error) : Prop :=
  ∀ h, (call h).2 = None → ∃ replies p, (call h).1 = Some p ∧ FetchQF h replies = Some p.

Lemma FetchQF_hash h replies p :
  length h = 32 → FetchQF h replies = Some p → b_hash (BlockFromProto (Some p)) = h.
Proof.
  intros Hh. unfold FetchQF. destruct (list_find _ replies) as [[i [k b]]|] eqn:Hf; cbn; [|done].
  intros [= <-]. apply list_find_Some in Hf as (_ & Hb & _). cbn in Hb. by rewrite <-Hb, copy_array_id.
Qed.

(** The network of [BlockChain] that this configuration is: [arrived] is what
    other goroutines store while the [k]-th call is waiting. *)
Definition config_net (call : bytes → option pBlock * option call_error) (arrived : nat → list Block)
    : Network := λ k h, (arrived k, Config_Fetch call h).

(** C25: a block that the store fetches through the configuration has the
    hash that was asked for, unless the call ends with context.Canceled: then
    [Fetch] reports success with the block of zero values, and [Get] stores
    it in place of the block that arrived while it was waiting. *)
Theorem Fetch_correct (call : bytes → option pBlock * option call_error) (arrived : nat → list Block)
    (chain : blockChain) (h : Hash) :
  call_obeys_QF call → chain_wf chain → length h = 32 →
  let r := blockChain_Get (config_net call arrived) h chain in
  ((call h).2 ≠ Some Canceled → ∀ b, r.1 = Some b → b_hash b = h ∧ blockChain_LocalGet h r.2 = Some b) ∧
  (call h = (None, Some Canceled) → blockChain_LocalGet h chain = None →
     r.1 = Some (BlockFromProto None) ∧ blockChain_LocalGet h r.2 = Some (BlockFromProto None)).
Proof.
  intros Hcall Hwf Hh r. split.
  - intros Hc b Hb. split; [|by apply Get_stored]. revert Hb. unfold r, blockChain_Get.
    destruct (blocks chain !! h) as [b'|] eqn:E; [intros [= <-]; by apply (wf_blocks _ Hwf)|].
    cbn [config_net]. set (c := end_fetch h _).
    assert (chain_wf c) as Hwc.
    { destruct (foldl_Store_wf (arrived (fetches chain)) (begin_fetch h chain)) as [H1 H2];
        [destruct Hwf; by split|by split]. }
    unfold Config_Fetch. specialize (Hcall h). destruct (call h) as [reply [[]|]]; cbn in *.
    + done.
    + intros Hb. by apply (wf_blocks _ Hwc).
    + destruct (Hcall eq_refl) as (replies & p & -> & HQF). intros [= <-]. by eapply FetchQF_hash.
  - intros Hc Hn. unfold r, blockChain_LocalGet, blockChain_Get in *. rewrite Hn.
    cbn [config_net]. unfold Config_Fetch. rewrite Hc. cbn. by rewrite lookup_insert_eq.
Qed.
End fetch_facts.

(** ** At most one message of a kind is in flight *)

Section sending_facts.
Context {B : BLS12Lib} {E : ECDSALib}.

Inductive send_op :=
| OpVote (to : ID) (cert : PartialCert)
| OpNewView (to : ID) (msg : SyncInfo)
| OpPropose (p : ProposeMsg)
| OpTimeout (t : TimeoutMsg).

Definition send (op : send_op) (cfg : Config) : res Config :=
  match op with
  | OpVote to cert => Replica_Vote to cert cfg
  | OpNewView to msg => Replica_NewView to msg cfg
  | OpPropose p => Config_Propose p cfg
  | OpTimeout t => Config_Timeout t cfg
  end.

Fixpoint send_all (ops : list send_op) (cfg : Config) : res Config :=
  match ops with
  | [] => Ok cfg
  | op :: ops => cfg' ← send op cfg; send_all ops cfg'
  end.

(** The cancel function that a message's kind and receiver share. *)
Definition slot (m : sent) (cfg : Config) : option nat :=
  match m with
  | SentVote to _ _ => c_replicas cfg !! to ≫= gr_voteCancel
  | SentNewView to _ _ => c_replicas cfg !! to ≫= gr_newviewCancel
  | SentProposal _ _ => c_proposeCancel cfg
  | SentTimeout _ _ => c_timeoutCancel cfg
  end.
Definition sent_ctx (m : sent) : nat :=
  match m with SentVote _ k _ | SentNewView _ k _ | SentProposal k _ | SentTimeout k _ => k end.
Definition same_slot (m1 m2 : sent) : bool :=
  match m1, m2 with
  | SentVote to1 _ _, SentVote to2 _ _ | SentNewView to1 _ _, SentNewView to2 _ _ => (to1 =? to2)%N
  | SentProposal _ _, SentProposal _ _ | SentTimeout _ _, SentTimeout _ _ => true
  | _, _ => false
  end.

(** Every message can be cancelled by its slot, or has been. *)
Record sending (cfg : Config) : Prop := {
  sending_live m : m ∈ c_sent cfg → sent_ctx m ∈ c_cancelled cfg ∨ slot m cfg = Some (sent_ctx m);
  sending_lt m : m ∈ c_sent cfg → sent_ctx m < c_contexts cfg;
  sending_nodup : NoDup (sent_ctx <$> c_sent cfg) }.

(** One more message [m], whose slot was [old], in a fresh context; the other
    slots are as they were. *)
Lemma sending_add cfg cfg' m old :
  sending cfg → sent_ctx m = c_contexts cfg →
  c_sent cfg' = c_sent cfg ++ [m] → c_contexts cfg' = S (c_contexts cfg) →
  c_cancelled cfg' = call_cancel old (c_cancelled cfg) →
  slot m cfg' = Some (c_contexts cfg) →
  (∀ m', slot m' cfg' = slot m' cfg ∨ (slot m' cfg = old)) → sending cfg'.
Proof.
  intros [Hlive Hlt Hnd] Hm Hs Hc Hcan Hslot Hother. split.
  - intros m'. rewrite Hs, elem_of_app, list_elem_of_singleton. intros [Hin| ->]; [|right; congruence].
    rewrite Hcan. destruct (Hlive m' Hin) as [Hl|Hl].
    + left. destruct old; cbn; set_solver.
    + destruct (Hother m') as [->|Ho]; [by right|]. left. rewrite Ho in Hl. subst old. cbn. set_solver.
  - intros m'. rewrite Hs, Hc, elem_of_app, list_elem_of_singleton. intros [Hin| ->]; [|lia].
    specialize (Hlt m' Hin). lia.
  - rewrite Hs, fmap_app, NoDup_app. split; [done|]. split; [|apply NoDup_singleton].
    intros k Hk Hk'. apply list_elem_of_singleton in Hk' as ->.
    apply list_elem_of_fmap in Hk as (m' & Hm' & Hin). specialize (Hlt m' Hin). lia.
Qed.

Lemma send_sending op cfg cfg' : sending cfg → send op cfg = Ok cfg' → sending cfg'.
Proof.
  intros Hs. destruct op as [to cert|to msg|p|t]; cbn [send].
  - unfold Replica_Vote. destruct (c_replicas cfg !! to) as [r|] eqn:Er; [|done].
    destruct (gr_node r); [|by intros [= <-]]. intros [= <-].
    eapply (sending_add cfg _ (SentVote to _ _)); [done|reflexivity|reflexivity|reflexivity|reflexivity| |].
    + cbn. by rewrite lookup_insert_eq.
    + intros [k|k| |]; [| |by left|by left]; cbn; (destruct (decide (k = to)) as [->|];
        [rewrite lookup_insert_eq|rewrite lookup_insert_ne by done; by left]); rewrite Er; cbn; [by right|by left].
  - unfold Replica_NewView. destruct (c_replicas cfg !! to) as [r|] eqn:Er; [|done].
    destruct (gr_node r); [|by intros [= <-]]. destruct (SyncInfoToProto msg); [|done..]. intros [= <-].
    eapply (sending_add cfg _ (SentNewView to _ _)); [done|reflexivity|reflexivity|reflexivity|reflexivity| |].
    + cbn. by rewrite lookup_insert_eq.
    + intros [k|k| |]; [| |by left|by left]; cbn; (destruct (decide (k = to)) as [->|];
        [rewrite lookup_insert_eq|rewrite lookup_insert_ne by done; by left]); rewrite Er; cbn; [by left|by right].
  - unfold Config_Propose. destruct (c_cfg cfg); [|by intros [= <-]].
    destruct (ProposalToProto p); [|done..]. intros [= <-].
    eapply (sending_add cfg _ (SentProposal _ _)); [done|reflexivity..|]. intros []; cbn; auto.
  - unfold Config_Timeout. destruct (c_cfg cfg); [|by intros [= <-]].
    destruct (TimeoutMsgToProto t); [|done..]. intros [= <-].
    eapply (sending_add cfg _ (SentTimeout _ _)); [done|reflexivity..|]. intros []; cbn; auto.
Qed.

Lemma send_all_sending ops cfg cfg' : sending cfg → send_all ops cfg = Ok cfg' → sending cfg'.
Proof.
  revert cfg. induction ops as [|op ops IH]; intros cfg Hs; cbn [send_all]; [by intros [= <-]|].
  rewrite res_bind_Ok. intros (cfg1 & H1 & H2). eauto using send_sending.
Qed.

Lemma slot_same m1 m2 cfg : same_slot m1 m2 = true → slot m1 cfg = slot m2 cfg.
Proof. destruct m1, m2; cbn; try done; intros H; apply N.eqb_eq in H as ->; done. Qed.

(** Whatever a replica sends, of two messages of the same kind to the
    same receiver at most one has not been cancelled; and no two messages
    share a context, so that cancelling one leaves all others alone. *)
Theorem latest_only (newConfiguration : gmap bytes ID → option (list ID)) (replicaCfg : ReplicaConfig)
    (id : ID) (ops : list send_op) (ok : bool) (cfg cfg' : Config) (m1 m2 : sent) :
  Connect newConfiguration replicaCfg (NewConfig id) = Ok (ok, cfg) → send_all ops cfg = Ok cfg' →
  m1 ∈ c_sent cfg' → m2 ∈ c_sent cfg' →
  (sent_ctx m1 = sent_ctx m2 → m1 = m2) ∧
  (same_slot m1 m2 = true → (sent_ctx m1 ∉ c_cancelled cfg') → (sent_ctx m2 ∉ c_cancelled cfg') → m1 = m2).
Proof.
  intros Hconn Hsend H1 H2.
  assert (sending cfg) as Hs0.
  { assert (c_sent cfg = []) as Hn.
    { revert Hconn. unfold Connect. destruct (newConfiguration _) as [nodes|]; [|by intros [= _ <-]].
      rewrite res_bind_Ok. by intros (rs & _ & [= _ <-]). }
    split; rewrite Hn; [by intros m ?%not_elem_of_nil|by intros m ?%not_elem_of_nil|constructor]. }
  destruct (send_all_sending _ _ _ Hs0 Hsend) as [Hlive _ Hnd].
  assert (sent_ctx m1 = sent_ctx m2 → m1 = m2) as Hinj.
  { intros Heq. apply list_elem_of_lookup in H1 as [i Hi]. apply list_elem_of_lookup in H2 as [j Hj].
    assert (i = j) as ->; [|congruence].
    eapply (NoDup_lookup (sent_ctx <$> c_sent cfg')); [done|by rewrite list_lookup_fmap, Hi|].
    by rewrite list_lookup_fmap, Hj, Heq. }
  split; [done|]. intros Hslot%(slot_same _ _ cfg') Hc1 Hc2. apply Hinj.
  destruct (Hlive _ H1), (Hlive _ H2); [contradiction..|]. congruence.
Qed.
End sending_facts.

(** ** The theorems on concrete messages *)

Module BackendExample.
Import ConvertExample.
#[local] Existing Instance ScalarBLS.
#[local] Existing Instance ToyECDSA.

Lemma messages_delivered_witness :
  Server_Vote [1; 2; 3]%N (plain_ctx (NewConfig 3)) (PartialCertToProto vote2) =
    Ok (Some (EvVote (mkVote 3 vote2 false))).
Proof.
  exact (proj1 (messages_delivered [1; 2; 3]%N 3 vote2 (tm_SyncInfo timeout2) timeout2 proposal2
    eq_refl eq_refl (length_b_hash _ wf_genesis) wf_timeout2 eq_refl I wf_timeout2
    wf_proposal2 wf_qc2 wf_proposal2_agg)).
Defined.

(** A certificate for replica 3 and metadata that claims replica 1. *)
Definition tls_ctx : ServerCtx := mkCtx (Some (Some (mkAuth "tls" (Some [[x33]])))) (Some [[x31]]).

Lemma tls_identity_witness :
  (3 ∈ [1; 2; 3])%N ∧ ∃ cert rest, Some [[x33]] = Some (cert :: rest) ∧ ID_of_int <$> Atoi cert = Some 3%N.
Proof.
  exact (tls_identity [1; 2; 3]%N tls_ctx (mkAuth "tls" (Some [[x33]])) 3%N eq_refl eq_refl
    ltac:(vm_compute; reflexivity)).
Defined.

(** A call that times out, and one that is cancelled. *)
Definition call2 (h : bytes) : option pBlock * option call_error :=
  if bool_decide (h = zero_hash) then (None, Some Canceled) else (None, Some OtherError).

Lemma Fetch_correct_witness :
  let r := blockChain_Get (config_net call2 (λ _, [])) zero_hash blockChain_New in
  r.1 = Some (BlockFromProto None) ∧ blockChain_LocalGet zero_hash r.2 = Some (BlockFromProto None).
Proof.
  refine (proj2 (Fetch_correct call2 (λ _, []) blockChain_New zero_hash _ New_wf eq_refl) _ _).
  - intros h. unfold call2. case_bool_decide; discriminate.
  - vm_compute. reflexivity.
  - vm_compute. reflexivity.
Defined.

(** Replica 1 of two sends two votes to replica 2. *)
Definition config2 : ReplicaConfig :=
  mkReplicaConfig 1 {[1%N := mkInfo 1 [x61] (PubECDSA 5%N); 2%N := mkInfo 2 [x62] (PubECDSA 6%N)]}.
Definition all_nodes (m : gmap bytes ID) : option (list ID) := Some (snd <$> map_to_list m).
Definition connected : Config :=
  match Connect all_nodes config2 (NewConfig 1) with Ok (_, c) => c | _ => NewConfig 1 end.
Definition voted_twice : Config :=
  match send_all [OpVote 2 vote2; OpVote 2 vote2] connected with Ok c => c | _ => connected end.
Definition sent_vote (k : nat) : sent := SentVote 2 k (PartialCertToProto vote2).

Lemma latest_only_witness :
  (0 = 1 → sent_vote 0 = sent_vote 1) ∧
  (true = true → 0 ∉ c_cancelled voted_twice → 1 ∉ c_cancelled voted_twice → sent_vote 0 = sent_vote 1).
Proof.
  refine (latest_only all_nodes config2 1 [OpVote 2 vote2; OpVote 2 vote2] true connected voted_twice
    (sent_vote 0) (sent_vote 1) _ _ _ _).
  - vm_compute. reflexivity.
  - vm_compute. reflexivity.
  - apply (list_elem_of_lookup_2 _ 0). vm_compute. reflexivity.
  - apply (list_elem_of_lookup_2 _ 1). vm_compute. reflexivity.
Defined.
End BackendExample.
