(* ===== verification/Setup.v ===== *)
(** * Addresses and log levels

    The address of a listener and the ones a configuration is made of
    (getPort and getConfiguration of internal/orchestration/worker.go, over
    net.SplitHostPort and net.JoinHostPort), and how the log level of the
    command line (internal/cli/root.go) reaches the loggers
    (internal/logging/logging.go). *)

From S2P Require Import Prelude Encoding Bitfield Types CryptoBase Bls12 Backend Pem.
From Stdlib Require Import Strings.Byte.

(** ** Host and port *)

(** The text before and after the last occurrence of a byte. *)
Fixpoint split_last (sep : Byte.byte) (s : bytes) : option (bytes * bytes) :=
  match s with
  | [] => None
  | c :: s =>
    match split_last sep s with
    | Some (before, after) => Some (c :: before, after)
    | None => if bool_decide (c = sep) then Some ([], s) else None
    end
  end.

Definition has_bracket (s : bytes) : bool := existsb (λ c, bool_decide (c = x5b) || bool_decide (c = x5d)) s.

(** net.SplitHostPort *)
Definition SplitHostPort (hostport : bytes) : option (bytes * bytes) :=
  '(before, port) ← split_last x3a hostport;
  match before with
  | x5b :: rest =>
    match reverse rest with
    | x5d :: rhost =>
      if has_bracket rhost || has_bracket port then None else Some (reverse rhost, port)
    | _ => None
    end
  | _ => if bool_decide (x3a ∈ before) || has_bracket hostport then None else Some (before, port)
  end.

(** net.JoinHostPort *)
Definition JoinHostPort (host port : bytes) : bytes :=
  if bool_decide (x3a ∈ host) then [x5b] ++ host ++ [x5d; x3a] ++ port else host ++ [x3a] ++ port.

(** strconv.ParseUint in base 10 with 32 bits. *)
Definition ParseUint32 (s : bytes) : option N :=
  n ← unsigned_val s;
  if (n <? 2 ^ 32)%Z then Some (Z.to_N n) else None.

(** [getPort]: the argument is the text of the listener's address. *)
Definition getPort (addr : bytes) : option N :=
  '(_, portStr) ← SplitHostPort addr;
  ParseUint32 portStr.

(** The address of a replica in [getConfiguration]. *)
Definition replica_addr (address : bytes) (port : N) : bytes := JoinHostPort address (Sprintf_d port).

Example port_v6 : getPort (str "[::]:34567") = Some 34567%N.
Proof. vm_compute. reflexivity. Qed.
Example port_missing : getPort (str "[::]") = None.
Proof. vm_compute. reflexivity. Qed.

(** ** Log levels *)

Inductive Level := DebugLevel | InfoLevel | WarnLevel | ErrorLevel.

(** strings.ToLower on the letters of ASCII. *)
Definition to_lower (c : Byte.byte) : Byte.byte :=
  if (65 <=? Byte.to_N c)%N && (Byte.to_N c <=? 90)%N then byte_of_N (Byte.to_N c + 32) else c.
Definition ToLower (s : bytes) : bytes := to_lower <$> s.

(** The switch of [logging.New] over the variable HOTSTUFF_LOG. *)
Definition log_level (HOTSTUFF_LOG : bytes) : Level :=
  let l := ToLower HOTSTUFF_LOG in
  if bool_decide (l = str "1") then DebugLevel
  else if bool_decide (l = str "debug") then DebugLevel
  else if bool_decide (l = str "info") then InfoLevel
  else if bool_decide (l = str "warn") then WarnLevel
  else ErrorLevel.

(** [New]: [Build] of the chosen configuration may fail. *)
Definition logging_New (HOTSTUFF_LOG_TYPE HOTSTUFF_LOG : bytes) (build : bool → bool) : res Level :=
  if build (bool_decide (ToLower HOTSTUFF_LOG_TYPE = str "json")) then Ok (log_level HOTSTUFF_LOG)
  else Panic "config.Build".

(** [initConfig]: where the configuration is read from, and the value that
    HOTSTUFF_LOG gets, or the end of the process.  [GetString] is what viper
    answers for the log level, given the source of the configuration. *)
Inductive config_source := ConfigFile (path : bytes) | ConfigIn (home : bytes).
Definition initConfig (cfgFile : bytes) (home : option bytes) (GetString : config_source → bytes) (setenv : bool)
    : option (config_source * bytes) :=
  source ← (if bool_decide (cfgFile = []) then ConfigIn <$> home else Some (ConfigFile cfgFile));
  if setenv then Some (source, GetString source) else None.

(** ** Properties *)

Lemma split_last_app sep s t : (sep ∉ t) → split_last sep (s ++ sep :: t) = Some (s, t).
Proof.
  intros Ht. assert (split_last sep t = None) as Hnone.
  { clear s. induction t as [|c t IH]; [done|]. apply not_elem_of_cons in Ht as [Hc Ht]. cbn [split_last].
    rewrite IH by done. by rewrite bool_decide_eq_false_2. }
  induction s as [|c s IH]; cbn [app split_last]; [|by rewrite IH].
  rewrite Hnone. by rewrite bool_decide_eq_true_2.
Qed.

Lemma digit_bytes fuel n : Forall (λ b, 48 ≤ Byte.to_N b ≤ 57)%N (digits_rev fuel n).
Proof.
  revert n. induction fuel as [|fuel IH]; intros n; cbn [digits_rev]; constructor.
  - assert (n mod 10 < 10)%N as Hd by (by apply N.mod_lt). revert Hd. generalize (n mod 10)%N. intros d Hd.
    unfold digit. rewrite to_N_byte_of_N, N.mod_small by lia. lia.
  - destruct (n <? 10)%N; [constructor|apply IH].
Qed.

(** A printed number has neither colons nor brackets. *)
Lemma Sprintf_plain n : (x3a ∉ Sprintf_d n) ∧ has_bracket (Sprintf_d n) = false.
Proof.
  assert (Forall (λ b, 48 ≤ Byte.to_N b ≤ 57)%N (Sprintf_d n)) as H by (unfold Sprintf_d; apply Forall_reverse, digit_bytes).
  rewrite Forall_forall in H. split.
  - intros Hin%H. change (Byte.to_N x3a) with 58%N in Hin. lia.
  - apply not_true_iff_false. unfold has_bracket. rewrite existsb_exists. intros (b & Hb%list_elem_of_In%H & Hor).
    apply orb_true_iff in Hor as [E%bool_decide_eq_true | E%bool_decide_eq_true]; subst b.
    + change (Byte.to_N x5b) with 91%N in Hb. lia.
    + change (Byte.to_N x5d) with 93%N in Hb. lia.
Qed.

Lemma has_bracket_app s t : has_bracket (s ++ t) = has_bracket s || has_bracket t.
Proof. apply existsb_app. Qed.

Lemma has_bracket_reverse s : has_bracket (reverse s) = has_bracket s.
Proof.
  induction s as [|c s IH]; [done|]. rewrite reverse_cons, has_bracket_app, IH. cbn. by rewrite orb_false_r, orb_comm.
Qed.

Lemma SplitHostPort_Join host port :
  has_bracket host = false → (x3a ∉ port) → has_bracket port = false →
  SplitHostPort (JoinHostPort host port) = Some (host, port).
Proof.
  intros Hh Hc Hb. unfold SplitHostPort, JoinHostPort. destruct (decide (x3a ∈ host)) as [Hin|Hin].
  - rewrite bool_decide_eq_true_2 by done.
    change ([x5b] ++ host ++ [x5d; x3a] ++ port) with (x5b :: (host ++ [x5d] ++ x3a :: port)). rewrite app_assoc.
    rewrite app_comm_cons, split_last_app by done. cbn [mbind option_bind].
    rewrite reverse_snoc, has_bracket_reverse, Hh, Hb, reverse_involutive. done.
  - rewrite bool_decide_eq_false_2 by done. cbn [app]. rewrite split_last_app by done. cbn [mbind option_bind].
    rewrite bool_decide_eq_false_2 by done. rewrite has_bracket_app. cbn [has_bracket existsb].
    fold (has_bracket port). rewrite Hh, Hb. cbn.
    destruct host as [|c host]; [done|]. destruct c; try done.
Qed.

(** The ports that a worker reports are those of the addresses the others
    connect to: the address that a configuration is given for a host, by name or
    by number and also in IPv6, has the port that the listener was read to have. *)
Theorem ports_roundtrip (address : bytes) (port : N) :
  has_bracket address = false → (port < two32)%N → getPort (replica_addr address port) = Some port.
Proof.
  intros Ha Hp. unfold getPort, replica_addr. destruct (Sprintf_plain port) as [Hc Hb].
  rewrite SplitHostPort_Join by done. cbn [mbind option_bind]. unfold ParseUint32.
  pose proof (digits_val_print (S (N.to_nat (N.size port))) port) as Hv.
  assert (unsigned_val (Sprintf_d port) = Some (Z.of_N port)) as ->.
  { apply digits_unsigned.
    - apply Hv; [|lia]. rewrite Nat2N.inj_succ, N2Nat.id, N.pow_succ_r'. pose proof (N.size_gt port). lia.
    - unfold Sprintf_d. cbn [digits_rev]. rewrite reverse_cons. intros H. by apply app_nil in H as [_ ?]. }
  cbn [mbind option_bind]. unfold two32 in Hp. destruct (Z.ltb_spec (Z.of_N port) (2 ^ 32)); [|lia]. f_equal. lia.
Qed.
