(* ===== verification/Keygen.v ===== *)
(** * crypto/keygen/keygen.go: keys and certificates

    Keys and certificates as PEM text, the files they are kept in, and the key
    chain the controller makes for each replica.  The DER encodings of
    crypto/x509 and net.ParseIP are a parameter; what the random source, the
    clock and the operating system answer are arguments. *)

From S2P Require Import Prelude Encoding Bitfield Types CryptoBase Bls12 Backend Pem.
From Stdlib Require Import Strings.Byte.

(** The fields of the x509.Certificate that are filled in as a template. *)
Record Template := mkTemplate {
  t_SerialNumber : N;
  t_CommonName : bytes;
  t_NotBefore : Z;
  t_NotAfter : Z;
  t_KeyUsage : N;
  t_IsCA : bool;
  t_BasicConstraintsValid : bool;
  t_IPAddresses : list bytes;
  t_DNSNames : list bytes }.

(** crypto/x509, net.ParseIP and time.Time.AddDate.  A public key that is
    parsed may be of another algorithm. *)
Class X509Lib {E : ECDSALib} := {
  Certificate : Type;
  cert_Raw : Certificate → bytes;
  cert_CommonName : Certificate → bytes;
  cert_IPAddresses : Certificate → list bytes;
  cert_DNSNames : Certificate → list bytes;
  cert_IsCA : Certificate → bool;
  cert_PublicKey : Certificate → ecdsa_PublicKey;
  MarshalECPrivateKey : ecdsa_PrivateKey → option bytes;
  ParseECPrivateKey : bytes → option ecdsa_PrivateKey;
  MarshalPKIXPublicKey : ecdsa_PublicKey → option bytes;
  ParsePKIXPublicKey : bytes → option (ecdsa_PublicKey + bytes);
  CreateCertificate : Template → Template + Certificate → ecdsa_PublicKey → ecdsa_PrivateKey → option bytes;
  ParseCertificate : bytes → option Certificate;
  ParseIP : bytes → option bytes;
  AddDate : Z → nat → nat → nat → Z;
}.

(** What is documented of it: parsing undoes marshalling, and a certificate
    that is created says what the template says. *)
Class X509Laws {E : ECDSALib} (X : X509Lib) := {
  ParseEC_Marshal k d : MarshalECPrivateKey k = Some d → ParseECPrivateKey d = Some k;
  ParsePKIX_Marshal k d : MarshalPKIXPublicKey k = Some d → ParsePKIXPublicKey d = Some (inl k);
  Parse_Create t parent pub priv d c :
    CreateCertificate t parent pub priv = Some d → ParseCertificate d = Some c →
    cert_CommonName c = t_CommonName t ∧ cert_IPAddresses c = t_IPAddresses t ∧
    cert_DNSNames c = t_DNSNames t ∧ cert_IsCA c = t_IsCA t ∧ cert_PublicKey c = pub;
  Parse_Raw d c : ParseCertificate d = Some c → cert_Raw c = d;
}.

Inductive key_error :=
| ErrRandom | ErrMarshal | ErrCreate | ErrParse | ErrFileType | ErrNoBlock | ErrParseKey
| ErrOpen | ErrWrite | ErrClose | ErrRead.

(** The files of the system, by path. *)
Abbreviation files := (gmap bytes bytes).

Section keygen.
Context {B : BLS12Lib} {E : ECDSALib} {X : X509Lib}.

(** ** Generation *)

(** What ecdsa.GenerateKey returns. *)
Definition GenerateECDSAPrivateKey (draw : option ecdsa_PrivateKey) : ecdsa_PrivateKey + key_error :=
  match draw with Some pk => inl pk | None => inr ErrRandom end.

Definition KeyUsageDigitalSignature : N := 1.
Definition KeyUsageKeyEncipherment : N := 4.
Definition KeyUsageCertSign : N := 32.

(** Create a certificate from the template and parse it. *)
Definition make_cert (tmpl : Template) (parent : Template + Certificate) (pub : ecdsa_PublicKey)
    (signer : ecdsa_PrivateKey) : Certificate + key_error :=
  match CreateCertificate tmpl parent pub signer with
  | None => inr ErrCreate
  | Some caBytes =>
    match ParseCertificate caBytes with Some cert => inl cert | None => inr ErrParse end
  end.

(** [sn] is what rand.Int returns, [now1] and [now2] the two readings of the
    clock. *)
Definition GenerateRootCert (sn : option N) (now1 now2 : Z) (privateKey : ecdsa_PrivateKey)
    : Certificate + key_error :=
  match sn with
  | None => inr ErrRandom
  | Some sn =>
    let caTmpl := mkTemplate sn [] now1 (AddDate now2 10 0 0) KeyUsageCertSign true true [] [] in
    make_cert caTmpl (inl caTmpl) (ecdsa_Public privateKey) privateKey
  end.

(** One turn of the loop over the hosts. *)
Definition add_host (ns : list bytes * list bytes) (h : bytes) : list bytes * list bytes :=
  match ParseIP h with
  | Some ip => (ns.1 ++ [ip], ns.2)
  | None => (ns.1, ns.2 ++ [h])
  end.

Definition GenerateTLSCert (sn : option N) (now1 now2 : Z) (id : ID) (hosts : list bytes)
    (parent : Certificate) (signeeKey : ecdsa_PublicKey) (signerKey : ecdsa_PrivateKey)
    : Certificate + key_error :=
  match sn with
  | None => inr ErrRandom
  | Some sn =>
    let '(ips, names) := foldl add_host ([], []) hosts in
    make_cert (mkTemplate sn (Sprintf_d id) now1 (AddDate now2 10 0 0)
                 (N.lor KeyUsageDigitalSignature KeyUsageKeyEncipherment) false true ips names)
      (inr parent) signeeKey signerKey
  end.

(** ** PEM *)

Definition ecdsa_PrivateKeyFileType : bytes := str "ECDSA PRIVATE KEY".
Definition ecdsa_PublicKeyFileType : bytes := str "ECDSA PUBLIC KEY".
Definition bls12_PrivateKeyFileType : bytes := str "BLS12-381 PRIVATE KEY".
Definition bls12_PublicKeyFileType : bytes := str "BLS12-381 PUBLIC KEY".
Definition cert_FileType : bytes := str "CERTIFICATE".

(** A key is an interface value and may be nil, which no case of the switch
    matches. *)
Definition PrivateKeyToPEM (key : option PrivateKey) : bytes + key_error :=
  match key with
  | Some (PrivECDSA k) =>
    match MarshalECPrivateKey k with
    | None => inr ErrMarshal
    | Some marshalled => inl (pem_Encode (mkPem ecdsa_PrivateKeyFileType marshalled))
    end
  | Some (PrivBLS12 k) => inl (pem_Encode (mkPem bls12_PrivateKeyFileType (PrivateKey_ToBytes k)))
  | None => inl (pem_Encode (mkPem [] []))
  end.

Definition PublicKeyToPEM (key : option PublicKey) : bytes + key_error :=
  match key with
  | Some (PubECDSA k) =>
    match MarshalPKIXPublicKey k with
    | None => inr ErrMarshal
    | Some marshalled => inl (pem_Encode (mkPem ecdsa_PublicKeyFileType marshalled))
    end
  | Some (PubBLS12 p) => inl (pem_Encode (mkPem bls12_PublicKeyFileType (PublicKey_ToBytes p)))
  | None => inl (pem_Encode (mkPem [] []))
  end.

Definition CertToPEM (cert : Certificate) : bytes := pem_Encode (mkPem cert_FileType (cert_Raw cert)).

(** [b.Type] is read before anything is checked. *)
Definition ParsePrivateKey (buf : bytes) : res (PrivateKey + key_error) :=
  match Decode buf with
  | None => Panic "nil pointer dereference"
  | Some b => Ok (
    if bool_decide (pem_Type b = ecdsa_PrivateKeyFileType) then
      match ParseECPrivateKey (pem_Bytes b) with Some k => inl (PrivECDSA k) | None => inr ErrParseKey end
    else if bool_decide (pem_Type b = bls12_PrivateKeyFileType) then
      inl (PrivBLS12 (PrivateKey_FromBytes (pem_Bytes b)))
    else inr ErrFileType)
  end.

(** What is parsed under the type of an ECDSA key is not checked to be one. *)
Inductive any_PublicKey := AnyKey (k : PublicKey) | OtherKey (der : bytes).

Definition ParsePublicKey (buf : bytes) : any_PublicKey + key_error :=
  match Decode buf with
  | None => inr ErrNoBlock
  | Some b =>
    if bool_decide (pem_Type b = ecdsa_PublicKeyFileType) then
      match ParsePKIXPublicKey (pem_Bytes b) with
      | Some (inl k) => inl (AnyKey (PubECDSA k))
      | Some (inr other) => inl (OtherKey other)
      | None => inr ErrParseKey
      end
    else if bool_decide (pem_Type b = bls12_PublicKeyFileType) then
      match PublicKey_FromBytes (pem_Bytes b) with Some p => inl (AnyKey (PubBLS12 p)) | None => inr ErrParse end
    else inr ErrFileType
  end.

Definition ParseCertPEM (d : bytes) : Certificate + key_error :=
  match Decode d with
  | None => inr ErrNoBlock
  | Some b =>
    if negb (bool_decide (pem_Type b = cert_FileType)) then inr ErrFileType
    else match ParseCertificate (pem_Bytes b) with Some cert => inl cert | None => inr ErrParse end
  end.

(** ** Files *)

(** What the operating system answers: whether the file can be opened, how
    much of a failing write arrives, and whether closing reports an error. *)
Record file_io := mkIO { io_open : bool; io_write : option nat; io_close : bool }.

(** Opening truncates the file, and the deferred close sets the error when
    there is none yet. *)
Definition write_file (io : file_io) (content : bytes + key_error) (filePath : bytes) (fs : files)
    : option key_error * files :=
  if negb (io_open io) then (Some ErrOpen, fs)
  else
    match content with
    | inr err => (Some err, <[filePath := []]> fs)
    | inl b =>
      match io_write io with
      | Some written => (Some ErrWrite, <[filePath := take written b]> fs)
      | None => (if io_close io then None else Some ErrClose, <[filePath := b]> fs)
      end
    end.

Definition WritePrivateKeyFile (io : file_io) (key : option PrivateKey) := write_file io (PrivateKeyToPEM key).
Definition WritePublicKeyFile (io : file_io) (key : option PublicKey) := write_file io (PublicKeyToPEM key).
Definition WriteCertFile (io : file_io) (cert : Certificate) := write_file io (inl (CertToPEM cert)).

Definition ReadPrivateKeyFile (keyFile : bytes) (fs : files) : res (PrivateKey + key_error) :=
  match fs !! keyFile with Some b => ParsePrivateKey b | None => Ok (inr ErrRead) end.
Definition ReadPublicKeyFile (keyFile : bytes) (fs : files) : any_PublicKey + key_error :=
  match fs !! keyFile with Some b => ParsePublicKey b | None => inr ErrRead end.
Definition ReadCertFile (certFile : bytes) (fs : files) : Certificate + key_error :=
  match fs !! certFile with Some d => ParseCertPEM d | None => inr ErrRead end.

(** ** Key chains *)

Record KeyChain := mkKeyChain {
  kc_PrivateKey : bytes;
  kc_PublicKey : bytes;
  kc_Certificate : bytes;
  kc_CertificateKey : bytes }.

(** What is random or read from the clock while a key chain is made. *)
Record draws := mkDraws {
  dr_ecdsa : option ecdsa_PrivateKey;
  dr_serial : option N;
  dr_now1 : Z;
  dr_now2 : Z;
  dr_bls12 : option N }.

Definition Public (key : PrivateKey) : PublicKey :=
  match key with
  | PrivECDSA k => PubECDSA (ecdsa_Public k)
  | PrivBLS12 k => PubBLS12 (PrivateKey_Public k)
  end.

(** The switch on the name; other names leave the key nil. *)
Definition choose_key (crypto : string) (ecdsaKey : ecdsa_PrivateKey) (d : draws)
    : option PrivateKey + key_error :=
  if String.eqb crypto "ecdsa" then inl (Some (PrivECDSA ecdsaKey))
  else if String.eqb crypto "bls12" then
    match GeneratePrivateKey (dr_bls12 d) with Some k => inl (Some (PrivBLS12 k)) | None => inr ErrRandom end
  else inl None.

Definition GenerateKeyChain (d : draws) (id : ID) (validFor : list bytes) (crypto : string)
    (ca : Certificate) (caKey : ecdsa_PrivateKey) : res (KeyChain + key_error) :=
  match GenerateECDSAPrivateKey (dr_ecdsa d) with
  | inr err => Ok (inr err)
  | inl ecdsaKey =>
  match PrivateKeyToPEM (Some (PrivECDSA ecdsaKey)) with
  | inr err => Ok (inr err)
  | inl certKeyPEM =>
  match GenerateTLSCert (dr_serial d) (dr_now1 d) (dr_now2 d) id validFor ca (ecdsa_Public ecdsaKey) caKey with
  | inr err => Ok (inr err)
  | inl cert =>
  match choose_key crypto ecdsaKey d with
  | inr err => Ok (inr err)
  | inl privateKey =>
  match PrivateKeyToPEM privateKey with
  | inr err => Ok (inr err)
  | inl privateKeyPEM =>
  match privateKey with
  | None => Panic "nil pointer dereference"
  | Some key =>
  match PublicKeyToPEM (Some (Public key)) with
  | inr err => Ok (inr err)
  | inl publicKeyPEM => Ok (inl (mkKeyChain privateKeyPEM publicKeyPEM (CertToPEM cert) certKeyPEM))
  end end end end end end end.

Definition GenerateCA (draw : option ecdsa_PrivateKey) (sn : option N) (now1 now2 : Z)
    : (ecdsa_PrivateKey * Certificate) + key_error :=
  match GenerateECDSAPrivateKey draw with
  | inr err => inr err
  | inl pk =>
    match GenerateRootCert sn now1 now2 pk with
    | inr err => inr err
    | inl ca => inl (pk, ca)
    end
  end.
End keygen.

(** ** What is written can be read *)

Section keygen_facts.
Context {B : BLS12Lib} {BL : BLS12Laws B} {E : ECDSALib} {X : X509Lib} {XL : X509Laws X}.

Lemma file_types_ok :
  Forall pem_type_ok [ecdsa_PrivateKeyFileType; ecdsa_PublicKeyFileType; bls12_PrivateKeyFileType;
                      bls12_PublicKeyFileType; cert_FileType].
Proof.
  assert (∀ t, forallb (λ c, negb (bool_decide (c = x0a)) && negb (bool_decide (c = x3a))) t = true → pem_type_ok t) as H.
  { intros t Ht. rewrite forallb_forall in Ht. split; intros Hin%list_elem_of_In%Ht; done. }
  repeat constructor; by apply H.
Qed.

Lemma Decode_file typ data :
  typ ∈ [ecdsa_PrivateKeyFileType; ecdsa_PublicKeyFileType; bls12_PrivateKeyFileType;
         bls12_PublicKeyFileType; cert_FileType] →
  Decode (pem_Encode (mkPem typ data)) = Some (mkPem typ data).
Proof. intros Ht. apply Decode_Encode. pose proof file_types_ok as H. rewrite Forall_forall in H. by apply H. Qed.

Lemma ParsePrivateKey_PEM key pem :
  PrivateKeyToPEM (Some key) = inl pem → ParsePrivateKey pem = Ok (inl key).
Proof.
  unfold PrivateKeyToPEM, ParsePrivateKey. destruct key as [k|k].
  - destruct (MarshalECPrivateKey k) as [d|] eqn:Hd; [|done]. intros [= <-].
    rewrite Decode_file by (by repeat constructor). cbn [pem_Type pem_Bytes].
    rewrite bool_decide_eq_true_2 by done. by rewrite (ParseEC_Marshal k d Hd).
  - intros [= <-]. rewrite Decode_file by (by repeat constructor). cbn [pem_Type pem_Bytes].
    rewrite bool_decide_eq_false_2, bool_decide_eq_true_2 by done. unfold PrivateKey_FromBytes, PrivateKey_ToBytes.
    by rewrite big_SetBytes_Bytes.
Qed.

Lemma ParsePublicKey_PEM key pem :
  PublicKeyToPEM (Some key) = inl pem → ParsePublicKey pem = inl (AnyKey key).
Proof.
  unfold PublicKeyToPEM, ParsePublicKey. destruct key as [k|p].
  - destruct (MarshalPKIXPublicKey k) as [d|] eqn:Hd; [|done]. intros [= <-].
    rewrite Decode_file by (by repeat constructor). cbn [pem_Type pem_Bytes].
    rewrite bool_decide_eq_true_2 by done. by rewrite (ParsePKIX_Marshal k d Hd).
  - intros [= <-]. rewrite Decode_file by (by repeat constructor). cbn [pem_Type pem_Bytes].
    rewrite bool_decide_eq_false_2, bool_decide_eq_true_2 by done. unfold PublicKey_FromBytes, PublicKey_ToBytes.
    by rewrite G1_FromCompressed_ToCompressed.
Qed.

Lemma ParseCert_PEM tmpl parent pub signer cert :
  make_cert tmpl parent pub signer = inl cert →
  ParseCertPEM (CertToPEM cert) = inl cert ∧ cert_CommonName cert = t_CommonName tmpl ∧
  cert_IPAddresses cert = t_IPAddresses tmpl ∧ cert_DNSNames cert = t_DNSNames tmpl ∧
  cert_IsCA cert = t_IsCA tmpl ∧ cert_PublicKey cert = pub.
Proof.
  unfold make_cert. destruct (CreateCertificate _ _ _ _) as [d|] eqn:Hc; [|done].
  destruct (ParseCertificate d) as [c|] eqn:Hp; [|done]. intros [= <-]. split; [|by eapply Parse_Create].
  unfold ParseCertPEM, CertToPEM. rewrite Decode_file by (by repeat constructor). cbn [pem_Type pem_Bytes].
  rewrite bool_decide_eq_true_2 by done. cbn [negb]. by rewrite (Parse_Raw d c Hp), Hp.
Qed.

(** The hosts that are addresses, and those that are names. *)
Lemma add_hosts hosts ips names :
  foldl add_host (ips, names) hosts =
    (ips ++ omap ParseIP hosts, names ++ filter (λ h, ParseIP h = None) hosts).
Proof.
  revert ips names. induction hosts as [|h hosts IH]; intros ips names; [by rewrite !app_nil_r|].
  cbn [foldl omap list_omap]. unfold add_host at 2. destruct (ParseIP h) as [ip|] eqn:Hip; rewrite IH; cbn [fst snd].
  - rewrite filter_cons_False by congruence. by rewrite <-app_assoc.
  - rewrite filter_cons_True by done. by rewrite <-app_assoc.
Qed.

(** C30: a key chain holds what it says.  Its private key and its public key
    parse to a key pair of the scheme that was asked for, its certificate names
    the replica and the hosts it is valid for, and belongs to the certificate
    key, which under ECDSA is the private key itself. *)
Theorem key_chain_roundtrip (d : draws) (id : ID) (hosts : list bytes) (crypto : string) (ca : Certificate)
    (caKey : ecdsa_PrivateKey) (kc : KeyChain) :
  GenerateKeyChain d id hosts crypto ca caKey = Ok (inl kc) → (id < two32)%N →
  ∃ key ecKey cert,
    ParsePrivateKey (kc_PrivateKey kc) = Ok (inl key) ∧
    ParsePublicKey (kc_PublicKey kc) = inl (AnyKey (Public key)) ∧
    ParseCertPEM (kc_Certificate kc) = inl cert ∧
    ParsePrivateKey (kc_CertificateKey kc) = Ok (inl (PrivECDSA ecKey)) ∧
    cert_PublicKey cert = ecdsa_Public ecKey ∧ cert_IsCA cert = false ∧
    ID_of_int <$> Atoi (cert_CommonName cert) = Some id ∧
    cert_IPAddresses cert = omap ParseIP hosts ∧ cert_DNSNames cert = filter (λ h, ParseIP h = None) hosts ∧
    (crypto = "ecdsa"%string ∧ key = PrivECDSA ecKey ∨
     crypto = "bls12"%string ∧ ∃ k, dr_bls12 d = Some k ∧ key = PrivBLS12 k).
Proof.
  unfold GenerateKeyChain, GenerateTLSCert. intros H Hid.
  destruct (GenerateECDSAPrivateKey _) as [ecKey|]; [|done].
  destruct (PrivateKeyToPEM (Some (PrivECDSA ecKey))) as [certKey|] eqn:Hck; [|done].
  destruct (dr_serial d) as [sn|]; [|done]. rewrite add_hosts in H. cbn [app] in H.
  destruct (make_cert _ _ _ _) as [cert|] eqn:Hcert; [|done].
  apply ParseCert_PEM in Hcert as (Hpem & Hcn & Hips & Hnames & Hca & Hpub). cbn [t_CommonName t_IPAddresses t_DNSNames t_IsCA] in Hcn, Hips, Hnames, Hca.
  destruct (choose_key crypto ecKey d) as [priv|] eqn:Hkey; [|done].
  destruct (PrivateKeyToPEM priv) as [privPEM|] eqn:Hpriv; [|done]. destruct priv as [key|]; [|done].
  destruct (PublicKeyToPEM _) as [pubPEM|] eqn:Hpubk; [|done]. injection H as <-.
  exists key, ecKey, cert. cbn [kc_PrivateKey kc_PublicKey kc_Certificate kc_CertificateKey].
  split_and!; try done; [by apply ParsePrivateKey_PEM|by apply ParsePublicKey_PEM|by apply ParsePrivateKey_PEM|..].
  - rewrite Hcn, Atoi_Sprintf by done. cbn [fmap option_fmap option_map]. by rewrite ID_of_int_small.
  - unfold choose_key in Hkey. destruct (String.eqb_spec crypto "ecdsa") as [->|]; [left; by injection Hkey as <-|].
    destruct (String.eqb_spec crypto "bls12") as [->|]; [|done]. unfold GeneratePrivateKey in Hkey.
    destruct (dr_bls12 d) as [k|]; [|done]. right. injection Hkey as <-. eauto.
Qed.

(** Any other name of a scheme crashes the controller: the key is nil and its
    method is called, after a block without a type was made of it. *)
Theorem unknown_crypto_panics (d : draws) (id : ID) (hosts : list bytes) (crypto : string) (ca : Certificate)
    (caKey : ecdsa_PrivateKey) :
  crypto ≠ "ecdsa"%string → crypto ≠ "bls12"%string →
  (∃ err, GenerateKeyChain d id hosts crypto ca caKey = Ok (inr err)) ∨
  GenerateKeyChain d id hosts crypto ca caKey = Panic "nil pointer dereference".
Proof.
  intros H1 H2. unfold GenerateKeyChain. destruct (GenerateECDSAPrivateKey _) as [k|]; [|by left; eexists].
  destruct (PrivateKeyToPEM (Some _)) as [p|]; [|by left; eexists].
  destruct (GenerateTLSCert _ _ _ _ _ _ _ _) as [c|]; [|by left; eexists]. unfold choose_key.
  destruct (String.eqb_spec crypto "ecdsa"); [done|]. destruct (String.eqb_spec crypto "bls12"); [done|]. by right.
Qed.

(** The authority's certificate is for its key and may sign others. *)
Lemma GenerateCA_ok draw sn now1 now2 pk ca :
  GenerateCA draw sn now1 now2 = inl (pk, ca) →
  draw = Some pk ∧ cert_IsCA ca = true ∧ cert_PublicKey ca = ecdsa_Public pk ∧ ParseCertPEM (CertToPEM ca) = inl ca.
Proof.
  unfold GenerateCA, GenerateECDSAPrivateKey, GenerateRootCert. destruct draw as [k|]; [|done].
  destruct sn as [n|]; [|done]. destruct (make_cert _ _ _ _) as [c|] eqn:Hc; [|done]. intros [= <- <-].
  by apply ParseCert_PEM in Hc as (? & _ & _ & _ & ? & ?).
Qed.

(** Text without a PEM block: a public key or a certificate is refused with an
    error, a private key takes the process down. *)
Theorem bad_pem_private_key_panics (buf : bytes) :
  Decode buf = None →
  ParsePrivateKey buf = Panic "nil pointer dereference" ∧
  ParsePublicKey buf = inr ErrNoBlock ∧ ParseCertPEM buf = inr ErrNoBlock.
Proof. unfold ParsePrivateKey, ParsePublicKey, ParseCertPEM. by intros ->. Qed.

(** A key or a certificate that was written to a file without an error is
    read back from it, and no other file has changed; when the system reports an
    error, so does the function. *)
Theorem key_files (io : file_io) (priv : PrivateKey) (pub : PublicKey) (path : bytes) (fs : files) :
  (∀ fs', WritePrivateKeyFile io (Some priv) path fs = (None, fs') →
     ReadPrivateKeyFile path fs' = Ok (inl priv) ∧ ∀ p, p ≠ path → fs' !! p = fs !! p) ∧
  (∀ fs', WritePublicKeyFile io (Some pub) path fs = (None, fs') →
     ReadPublicKeyFile path fs' = inl (AnyKey pub) ∧ ∀ p, p ≠ path → fs' !! p = fs !! p) ∧
  ((io_open io && io_close io && bool_decide (io_write io = None)) = false →
     is_Some (WritePrivateKeyFile io (Some priv) path fs).1 ∧ is_Some (WritePublicKeyFile io (Some pub) path fs).1).
Proof.
  assert (∀ content fs', write_file io content path fs = (None, fs') →
    ∃ b, content = inl b ∧ fs' = <[path := b]> fs) as Hw.
  { intros content fs'. unfold write_file. destruct (io_open io); [cbn [negb]|done]. destruct content as [b|]; [|done].
    destruct (io_write io); [done|]. destruct (io_close io); [|done]. intros [= <-]. by exists b. }
  split_and!.
  - intros fs' (b & Hb & ->)%Hw. unfold ReadPrivateKeyFile. rewrite lookup_insert_eq.
    split; [by apply ParsePrivateKey_PEM|]. intros p Hp. by rewrite lookup_insert_ne.
  - intros fs' (b & Hb & ->)%Hw. unfold ReadPublicKeyFile. rewrite lookup_insert_eq.
    split; [by apply ParsePublicKey_PEM|]. intros p Hp. by rewrite lookup_insert_ne.
  - intros Hio. assert (∀ content, is_Some (write_file io content path fs).1) as Herr; [|split; apply Herr].
    intros content. unfold write_file. destruct (io_open io); [cbn [negb]|by eexists].
    destruct content; [|by eexists]. destruct (io_write io); [by eexists|]. destruct (io_close io); [done|by eexists].
Qed.
End keygen_facts.

(** ** A key chain *)

Module KeyExample.
#[local] Existing Instance ScalarBLS.
#[local] Existing Instance ToyECDSA.

(** A certificate is the list of its fields, encoded as a number. *)
Definition toy_cert : Type := bytes * list bytes * list bytes * bool * N.
Definition toy_raw (c : toy_cert) : bytes := big_Bytes (N.pos (encode c)).
Definition toy_parse (d : bytes) : option toy_cert :=
  match big_SetBytes d with
  | N0 => None
  | N.pos p => c ← decode p; if bool_decide (toy_raw c = d) then Some c else None
  end.

#[local] Instance ToyX509 : X509Lib := {|
  Certificate := toy_cert;
  cert_Raw := toy_raw;
  cert_CommonName c := c.1.1.1.1;
  cert_IPAddresses c := c.1.1.1.2;
  cert_DNSNames c := c.1.1.2;
  cert_IsCA c := c.1.2;
  cert_PublicKey c := c.2;
  MarshalECPrivateKey k := Some (big_Bytes k);
  ParseECPrivateKey d := Some (big_SetBytes d);
  MarshalPKIXPublicKey k := Some (big_Bytes k);
  ParsePKIXPublicKey d := Some (inl (big_SetBytes d));
  CreateCertificate t _ pub _ := Some (toy_raw (t_CommonName t, t_IPAddresses t, t_DNSNames t, t_IsCA t, pub));
  ParseCertificate := toy_parse;
  ParseIP h := match h with x3a :: _ => Some h | _ => None end;
  AddDate t years _ _ := (t + Z.of_nat years)%Z;
|}.

Lemma toy_parse_raw c : toy_parse (toy_raw c) = Some c.
Proof.
  unfold toy_parse, toy_raw. rewrite big_SetBytes_Bytes, decode_encode. cbn [mbind option_bind].
  by rewrite bool_decide_eq_true_2.
Qed.

#[local] Instance ToyX509_laws : X509Laws ToyX509.
Proof.
  split.
  - intros k d [= <-]. exact (f_equal Some (big_SetBytes_Bytes k)).
  - intros k d [= <-]. exact (f_equal (λ n, Some (inl n)) (big_SetBytes_Bytes k)).
  - intros t parent pub priv d c [= <-] Hc. change (toy_parse (toy_raw (t_CommonName t, t_IPAddresses t, t_DNSNames t, t_IsCA t, pub)) = Some c) in Hc.
    rewrite toy_parse_raw in Hc. by injection Hc as <-.
  - intros d c Hc. change (toy_parse d = Some c) in Hc. unfold toy_parse in Hc.
    destruct (big_SetBytes d) as [|p]; [done|]. destruct (decode p) as [c'|]; [cbn in Hc|done].
    case_bool_decide as Heq; [|done]. injection Hc as <-. exact Heq.
Qed.

Definition the_ca : toy_cert := ([], [], [], true, 77%N).
Definition the_draws : draws := mkDraws (Some 1000%N) (Some 5%N) 0 1 (Some 424242%N).
Definition the_hosts : list bytes := [str "node"; str ":1"].
Definition the_chain (crypto : string) : KeyChain :=
  match GenerateKeyChain (X := ToyX509) the_draws 3 the_hosts crypto the_ca 77%N with
  | Ok (inl kc) => kc
  | _ => mkKeyChain [] [] [] []
  end.

Lemma chain_made : GenerateKeyChain (X := ToyX509) the_draws 3 the_hosts "bls12" the_ca 77%N = Ok (inl (the_chain "bls12")).
Proof. vm_compute. reflexivity. Qed.

Lemma key_chain_roundtrip_witness :
  ∃ key cert, ParsePrivateKey (kc_PrivateKey (the_chain "bls12")) = Ok (inl key) ∧
    ParsePublicKey (kc_PublicKey (the_chain "bls12")) = inl (AnyKey (Public key)) ∧
    ParseCertPEM (kc_Certificate (the_chain "bls12")) = inl cert ∧
    ID_of_int <$> Atoi (cert_CommonName cert) = Some 3%N.
Proof.
  destruct (key_chain_roundtrip (X := ToyX509) the_draws 3 the_hosts "bls12" the_ca 77%N (the_chain "bls12") chain_made eq_refl)
    as (key & ecKey & cert & H1 & H2 & H3 & _ & _ & _ & H4 & _).
  exists key, cert. split; [exact H1|]. split; [exact H2|]. split; [exact H3|exact H4].
Defined.

Lemma bad_pem_private_key_panics_witness :
  ParsePrivateKey (str "not a key") = Panic "nil pointer dereference".
Proof. exact (proj1 (bad_pem_private_key_panics (str "not a key") eq_refl)). Defined.

Lemma unknown_crypto_panics_witness :
  (∃ err, GenerateKeyChain (X := ToyX509) the_draws 3 the_hosts "eddsa" the_ca 77%N = Ok (inr err)) ∨
  GenerateKeyChain (X := ToyX509) the_draws 3 the_hosts "eddsa" the_ca 77%N = Panic "nil pointer dereference".
Proof. exact (unknown_crypto_panics (X := ToyX509) the_draws 3 the_hosts "eddsa" the_ca 77%N ltac:(discriminate) ltac:(discriminate)). Defined.
End KeyExample.
