(* ===== verification/Orchestration.v ===== *)
(** * internal/orchestration: who runs where, and with which modules

    The assignment of replicas and clients to hosts (controller.go), the check
    of the replicas' hashes at the end of an experiment, and the choice of a
    replica's modules by name (worker.go).  A Go map is visited in the order of
    a list: [hosts] for the hosts, [order id] for the strategies when replica
    [id] is assigned. *)

From S2P Require Import Prelude Encoding Bitfield Types.
From Stdlib Require Import Strings.Byte.

Abbreviation host := (list Byte.byte).

(** ** controller.go *)

Record HostConfig := mkHost { hc_Replicas : Z; hc_Clients : Z }.

(** The fields of orchestrationpb.ReplicaOpts that the assignment writes. *)
Record ReplicaOpts := mkOpts { ro_ID : N; ro_ByzantineStrategy : string }.

Record Experiment := mkExp {
  NumReplicas : Z;
  NumClients : Z;
  Hosts : list host;
  HostConfigs : gmap host HostConfig;
  Byzantine : gmap string Z;
  hostsToReplicas : gmap host (list ID);
  replicaOpts : gmap ID ReplicaOpts;
  hostsToClients : gmap host (list ID) }.

Inductive assign_error := TooManyReplicas (assigned : Z) | TooManyClients (assigned : Z).

Section assign.
Context (order : ID → list string).

(** The loop over the strategies: each that still has replicas left is
    counted down, and the last of them is the one the replica gets. *)
Definition pick_strategy (byz : gmap string Z) (strategies : list string) : gmap string Z * string :=
  foldl (λ '(byz, chosen) strategy,
    match byz !! strategy with
    | Some count => if (0 <? count)%Z then (<[strategy := (count - 1)%Z]> byz, strategy) else (byz, chosen)
    | None => (byz, chosen)
    end) (byz, ""%string) strategies.

(** The next replica, with the ID that is next in line. *)
Definition assign_replica (h : host) (st : Experiment * ID) : Experiment * ID :=
  let '(e, next) := st in
  let '(byz, strategy) := pick_strategy (Byzantine e) (order next) in
  (mkExp (NumReplicas e) (NumClients e) (Hosts e) (HostConfigs e) byz
     (<[h := default [] (hostsToReplicas e !! h) ++ [next]]> (hostsToReplicas e))
     (<[next := mkOpts next strategy]> (replicaOpts e)) (hostsToClients e),
   wrap32 (next + 1)).

Definition assign_client (h : host) (st : Experiment * ID) : Experiment * ID :=
  let '(e, next) := st in
  (mkExp (NumReplicas e) (NumClients e) (Hosts e) (HostConfigs e) (Byzantine e) (hostsToReplicas e)
     (replicaOpts e) (<[h := default [] (hostsToClients e !! h) ++ [next]]> (hostsToClients e)),
   wrap32 (next + 1)).

(** How many replicas or clients a host without a configuration gets: its
    share, and one of the remainder while there is some. *)
Definition auto_share (perNode remainder : Z) : Z * Z :=
  if (0 <? remainder)%Z then ((perNode + 1)%Z, (remainder - 1)%Z) else (perNode, remainder).

(** The body of the loop over the hosts.  The counters of what remains to be
    assigned are not read after the loop has started, and are left out. *)
Definition assign_host (replicasPerNode clientsPerNode : Z)
    (st : Experiment * ID * ID * Z * Z) (h : host) : Experiment * ID * ID * Z * Z :=
  let '(e, nextReplica, nextClient, remainderR, remainderC) := st in
  let '(numReplicas, numClients, remainderR', remainderC') :=
    match HostConfigs e !! h with
    | Some cfg => (hc_Replicas cfg, hc_Clients cfg, remainderR, remainderC)
    | None =>
      let '(r, remainderR') := auto_share replicasPerNode remainderR in
      let '(c, remainderC') := auto_share clientsPerNode remainderC in
      (r, c, remainderR', remainderC')
    end in
  let '(e1, nextReplica') := Nat.iter (Z.to_nat numReplicas) (assign_replica h) (e, nextReplica) in
  let '(e2, nextClient') := Nat.iter (Z.to_nat numClients) (assign_client h) (e1, nextClient) in
  (e2, nextReplica', nextClient', remainderR', remainderC').

Definition sum_cfg (f : HostConfig → Z) (m : gmap host HostConfig) : Z :=
  map_fold (λ _ c acc, (f c + acc)%Z) 0%Z m.

Definition assignReplicasAndClients (e : Experiment) : Experiment + assign_error :=
  let e := mkExp (NumReplicas e) (NumClients e) (Hosts e) (HostConfigs e) (Byzantine e) ∅ ∅ ∅ in
  let remainingReplicas := (NumReplicas e - sum_cfg hc_Replicas (HostConfigs e))%Z in
  let remainingClients := (NumClients e - sum_cfg hc_Clients (HostConfigs e))%Z in
  let autoConfig := (Z.of_nat (length (Hosts e)) - Z.of_nat (size (HostConfigs e)))%Z in
  let '(replicasPerNode, remainderReplicas, clientsPerNode, remainderClients) :=
    if (0 <? autoConfig)%Z then
      (go_div remainingReplicas autoConfig, go_mod remainingReplicas autoConfig,
       go_div remainingClients autoConfig, go_mod remainingClients autoConfig)
    else (0, 0, 0, 0)%Z in
  if (remainingReplicas <? 0)%Z then inr (TooManyReplicas (NumReplicas e - remainingReplicas))
  else if (remainingClients <? 0)%Z then inr (TooManyClients (NumClients e - remainingClients))
  else
    let '(e', _, _, _, _) :=
      foldl (assign_host replicasPerNode clientsPerNode) (e, 1%N, 1%N, remainderReplicas, remainderClients)
        (Hosts e) in
    inl e'.
End assign.

Definition getIDs (h : host) (m : gmap host (list ID)) : list N := wrap32 <$> default [] (m !! h).

(** The comparison at the end of [stopReplicas]; [None] is a nil slice. *)
Definition slice_bytes (s : option bytes) : bytes := default [] s.
Fixpoint hashes_match (cmp : option bytes) (hashes : list (option bytes)) : bool :=
  match hashes with
  | [] => true
  | hash :: hashes =>
    let cmp := match cmp with None => hash | Some _ => cmp end in
    if bool_decide (slice_bytes cmp = slice_bytes hash) then hashes_match cmp hashes else false
  end.

(** ** worker.go: the modules of a replica, by name *)

Inductive consensus_name := chainedhotstuff | fasthotstuff | simplehotstuff.
Inductive byzantine_name := silence | fork | honest.
Inductive crypto_name := ecdsa | bls12.
Inductive rotation_name := round_robin | fixed (leader : ID) | rep | car.

Inductive create_error := BadConsensus | BadByzantine | BadCrypto | BadRotation.

Record replica_modules := mkModules {
  m_consensus : consensus_name;
  m_byzantine : byzantine_name;
  m_crypto : crypto_name;
  m_cache : nat;                   (** capacity of the signature cache *)
  m_rotation : rotation_name }.

Definition createReplica_modules (consensus byzantine crypto rotation : string)
    : replica_modules + create_error :=
  match (if bool_decide (consensus = "chainedhotstuff") then Some chainedhotstuff
         else if bool_decide (consensus = "fasthotstuff") then Some fasthotstuff
         else if bool_decide (consensus = "simplehotstuff") then Some simplehotstuff else None)%string with
  | None => inr BadConsensus
  | Some rules =>
    match (if bool_decide (byzantine = "silence") then Some silence
           else if bool_decide (byzantine = "fork") then Some fork
           else if bool_decide (byzantine = "") then Some honest else None)%string with
    | None => inr BadByzantine
    | Some byz =>
      match (if bool_decide (crypto = "ecdsa") then Some ecdsa
             else if bool_decide (crypto = "bls12") then Some bls12 else None)%string with
      | None => inr BadCrypto
      | Some impl =>
        match (if bool_decide (rotation = "round-robin") then Some round_robin
               else if bool_decide (rotation = "fixed") then Some (fixed 1)
               else if bool_decide (rotation = "rep") then Some rep
               else if bool_decide (rotation = "car") then Some car else None)%string with
        | None => inr BadRotation
        | Some lr => inl (mkModules rules byz impl 100 lr)
        end
      end
    end
  end.

(** ** The assignment as a deal

    The reference: consecutive IDs are dealt to the hosts, [n] to a host whose
    share is [n]. *)

Definition ids_from (start : ID) (n : nat) : list ID := (λ i, start + N.of_nat i)%N <$> seq 0 n.

Fixpoint deal (next : ID) (l : list (host * nat)) (m : gmap host (list ID)) : gmap host (list ID) :=
  match l with
  | [] => m
  | (h, n) :: l =>
    deal (next + N.of_nat n) l (if n is O then m else <[h := default [] (m !! h) ++ ids_from next n]> m)
  end.

(** The shares of the hosts, in the order they are visited. *)
Fixpoint shares (configs : gmap host HostConfig) (f : HostConfig → Z) (perNode remainder : Z)
    (hs : list host) : list (host * nat) :=
  match hs with
  | [] => []
  | h :: hs =>
    match configs !! h with
    | Some c => (h, Z.to_nat (f c)) :: shares configs f perNode remainder hs
    | None => let '(r, remainder') := auto_share perNode remainder in
              (h, Z.to_nat r) :: shares configs f perNode remainder' hs
    end
  end.

Lemma ids_from_snoc start n : ids_from start (S n) = ids_from start n ++ [(start + N.of_nat n)%N].
Proof. unfold ids_from. by rewrite seq_S, fmap_app. Qed.

Lemma ids_from_app start n k : ids_from start (n + k) = ids_from start n ++ ids_from (start + N.of_nat n) k.
Proof.
  induction k as [|k IH]; [by rewrite Nat.add_0_r, app_nil_r|].
  rewrite Nat.add_succ_r, !ids_from_snoc, IH, <-app_assoc. do 3 f_equal. lia.
Qed.

Lemma length_ids_from start n : length (ids_from start n) = n.
Proof. unfold ids_from. by rewrite length_fmap, length_seq. Qed.

Definition total (l : list (host * nat)) : nat := sum_list (snd <$> l).

Lemma total_cons h n l : total ((h, n) :: l) = n + total l.
Proof. done. Qed.

(** What the hosts get when all IDs are dealt. *)
Lemma deal_spec l next m :
  NoDup (fst <$> l) → (∀ h, h ∈ fst <$> l → m !! h = None) →
  let got h := default [] (deal next l m !! h) in
  concat (got <$> (fst <$> l)) = ids_from next (total l) ∧
  (∀ h n, (h, n) ∈ l → length (got h) = n) ∧
  (∀ h, h ∉ fst <$> l → deal next l m !! h = m !! h).
Proof.
  revert next m. induction l as [|[h n] l IH]; intros next m Hnd Hm got.
  { split_and!; [done| |done]. by intros ? ? ?%not_elem_of_nil. }
  rewrite fmap_cons in Hnd. apply NoDup_cons in Hnd as [Hh Hnd]. cbn [fst] in Hh.
  set (m1 := if n is O then m else <[h := default [] (m !! h) ++ ids_from next n]> m).
  assert (default [] (m1 !! h) = ids_from next n ∧ ∀ k, k ≠ h → m1 !! k = m !! k) as [Hm1 Hother].
  { unfold m1. rewrite (Hm h) by (cbn; left). destruct n; [by rewrite (Hm h) by (cbn; left)|].
    rewrite lookup_insert_eq. split; [done|]. intros k Hk. by rewrite lookup_insert_ne. }
  destruct (IH (next + N.of_nat n)%N m1 Hnd) as (Hc & Hl & Ho).
  { intros k Hk. rewrite Hother by (intros ->; done). apply Hm. cbn. by right. }
  assert (got h = ids_from next n) as Hgot by (unfold got; cbn [deal]; by rewrite Ho).
  split_and!.
  - rewrite !fmap_cons. cbn [concat fst]. rewrite Hgot. unfold total. cbn [fmap list_fmap snd sum_list].
    rewrite ids_from_app. f_equal. exact Hc.
  - intros k j Hin. apply elem_of_cons in Hin as [[= -> ->]|Hin]; [by rewrite Hgot, length_ids_from|].
    by apply Hl.
  - intros k Hk. rewrite fmap_cons in Hk. apply not_elem_of_cons in Hk as [Hk1 Hk2]. cbn [fst] in Hk1.
    cbn [deal]. fold m1. rewrite Ho by done. by apply Hother.
Qed.

Section assign_facts.
Context (order : ID → list string).

(** The inner loops deal consecutive IDs. *)
Lemma iter_replicas h n e next :
  (next + N.of_nat n < two32)%N →
  ∃ byz opts, Nat.iter n (assign_replica order h) (e, next) =
    (mkExp (NumReplicas e) (NumClients e) (Hosts e) (HostConfigs e) byz
       (if n is O then hostsToReplicas e
        else <[h := default [] (hostsToReplicas e !! h) ++ ids_from next n]> (hostsToReplicas e))
       opts (hostsToClients e), (next + N.of_nat n)%N) ∧
    dom opts = list_to_set (ids_from next n) ∪ dom (replicaOpts e).
Proof.
  induction n as [|n IH]; intros Hn.
  { exists (Byzantine e), (replicaOpts e). split; [destruct e; cbn; by rewrite N.add_0_r|set_solver]. }
  destruct IH as (byz & opts & Hrun & Hdom); [lia|]. rewrite Nat.iter_succ, Hrun.
  unfold assign_replica. cbn [Byzantine]. destruct (pick_strategy byz _) as [byz' strategy].
  eexists byz', _. split.
  - cbn [NumReplicas NumClients Hosts HostConfigs hostsToReplicas replicaOpts hostsToClients].
    rewrite wrap32_small by lia. f_equal; [|lia]. f_equal. rewrite ids_from_snoc.
    destruct n; [done|]. rewrite lookup_insert_eq, insert_insert_eq. cbn [from_option id]. by rewrite <-app_assoc.
  - rewrite dom_insert_L, Hdom, ids_from_snoc. set_solver.
Qed.

Lemma iter_clients h n e next :
  (next + N.of_nat n < two32)%N →
  Nat.iter n (assign_client h) (e, next) =
    (mkExp (NumReplicas e) (NumClients e) (Hosts e) (HostConfigs e) (Byzantine e) (hostsToReplicas e)
       (replicaOpts e)
       (if n is O then hostsToClients e
        else <[h := default [] (hostsToClients e !! h) ++ ids_from next n]> (hostsToClients e)),
     (next + N.of_nat n)%N).
Proof.
  induction n as [|n IH]; intros Hn.
  { destruct e; cbn. by rewrite N.add_0_r. }
  rewrite Nat.iter_succ, IH by lia. unfold assign_client.
  cbn [NumReplicas NumClients Hosts HostConfigs hostsToReplicas replicaOpts hostsToClients Byzantine].
  rewrite wrap32_small by lia. f_equal; [|lia]. f_equal. rewrite ids_from_snoc.
  destruct n; [done|]. rewrite lookup_insert_eq, insert_insert_eq. cbn [from_option id]. by rewrite <-app_assoc.
Qed.

(** The loop over the hosts deals the shares. *)
Lemma hosts_deal perR perC hs e nextR nextC remR remC :
  let lR := shares (HostConfigs e) hc_Replicas perR remR hs in
  let lC := shares (HostConfigs e) hc_Clients perC remC hs in
  (nextR + N.of_nat (total lR) < two32)%N → (nextC + N.of_nat (total lC) < two32)%N →
  ∃ e' nr nc rr rc,
    foldl (assign_host order perR perC) (e, nextR, nextC, remR, remC) hs = (e', nr, nc, rr, rc) ∧
    hostsToReplicas e' = deal nextR lR (hostsToReplicas e) ∧
    hostsToClients e' = deal nextC lC (hostsToClients e) ∧
    dom (replicaOpts e') = list_to_set (ids_from nextR (total lR)) ∪ dom (replicaOpts e).
Proof.
  revert e nextR nextC remR remC. induction hs as [|h hs IH]; intros e nextR nextC remR remC lR lC HR HC.
  { eexists _, _, _, _, _. split; [done|]. split_and!; [done..|]. set_solver. }
  assert (∃ nR nC rr rc,
    match HostConfigs e !! h with
    | Some cfg => (hc_Replicas cfg, hc_Clients cfg, remR, remC)
    | None => let '(r, rr) := auto_share perR remR in let '(c, rc) := auto_share perC remC in (r, c, rr, rc)
    end = (nR, nC, rr, rc) ∧
    lR = (h, Z.to_nat nR) :: shares (HostConfigs e) hc_Replicas perR rr hs ∧
    lC = (h, Z.to_nat nC) :: shares (HostConfigs e) hc_Clients perC rc hs)
    as (nR & nC & rr & rc & Hshare & HlR & HlC).
  { unfold lR, lC. cbn [shares]. destruct (HostConfigs e !! h) as [c|]; [by eauto 10|].
    destruct (auto_share perR remR), (auto_share perC remC). eauto 10. }
  rewrite HlR in HR |- *. rewrite HlC in HC |- *. rewrite total_cons in HR, HC.
  cbn [foldl]. unfold assign_host at 2. rewrite Hshare.
  destruct (iter_replicas h (Z.to_nat nR) e nextR) as (byz & opts & -> & Hdom); [lia|].
  rewrite iter_clients by lia.
  cbn [NumReplicas NumClients Hosts HostConfigs hostsToReplicas replicaOpts hostsToClients Byzantine].
  match goal with |- context [foldl _ (?e1, ?a, ?b, ?c, ?d) hs] =>
    destruct (IH e1 a b c d) as (e' & nr & nc & rr' & rc' & Hrun & H1 & H2 & H3) end;
    cbn [HostConfigs hostsToReplicas hostsToClients replicaOpts] in *; [lia|lia|].
  do 5 eexists. split; [exact Hrun|]. split_and!; [exact H1|exact H2|]. rewrite H3, Hdom, total_cons.
    rewrite ids_from_app, list_to_set_app_L. set_solver.
Qed.
End assign_facts.

(** ** Counting the shares *)

(** What the configurations of the hosts [hs] add up to. *)
Definition visit (f : HostConfig → Z) (configs : gmap host HostConfig) (hs : list host) : Z :=
  foldr (λ h acc, from_option f 0 (configs !! h) + acc)%Z 0%Z hs.

Lemma sum_cfg_insert f m h c :
  m !! h = None → sum_cfg f (<[h := c]> m) = (f c + sum_cfg f m)%Z.
Proof. intros Hh. unfold sum_cfg.
  apply (map_fold_insert_L (λ _ c acc, f c + acc)%Z); [lia|done]. Qed.

Lemma visit_delete f m h hs : (h ∉ hs) → visit f (delete h m) hs = visit f m hs.
Proof.
  induction hs as [|x hs IH]; cbn [visit foldr]; [done|]. rewrite not_elem_of_cons. intros [Hx Hh].
  rewrite lookup_delete_ne by done. f_equal. by apply IH.
Qed.

Lemma sum_cfg_visit f m hs :
  NoDup hs → (∀ h, is_Some (m !! h) → h ∈ hs) → sum_cfg f m = visit f m hs.
Proof.
  intros Hnd. revert m. induction Hnd as [|h hs Hh Hnd IH]; intros m Hm.
  { assert (m = ∅) as ->; [|done]. apply map_eq. intros k. rewrite lookup_empty.
    destruct (m !! k) eqn:E; [|done]. by apply mk_is_Some, Hm, not_elem_of_nil in E. }
  cbn [visit foldr]. fold (visit f m hs). destruct (m !! h) as [c|] eqn:E.
  - rewrite <-(insert_delete_id m h c E) at 1. rewrite sum_cfg_insert by apply lookup_delete_eq.
    cbn [from_option]. f_equal. rewrite <-(visit_delete f m h hs Hh). apply IH. intros k [x Hk].
    apply lookup_delete_Some in Hk as [Hne Hk].
    by apply mk_is_Some, Hm, elem_of_cons in Hk as [->|?].
  - cbn [from_option]. rewrite Z.add_0_l. apply IH. intros k [x Hk].
    pose proof (Hm k (mk_is_Some _ _ Hk)) as Hin. by apply elem_of_cons in Hin as [->|?]; [congruence|].
Qed.

Lemma size_sum_cfg (m : gmap host HostConfig) : Z.of_nat (size m) = sum_cfg (λ _, 1%Z) m.
Proof.
  induction m as [|h c m Hh IH] using map_ind; [done|].
  rewrite sum_cfg_insert, map_size_insert_None by done. lia.
Qed.

Lemma shares_fst configs f perNode remainder hs : fst <$> shares configs f perNode remainder hs = hs.
Proof.
  revert remainder. induction hs as [|h hs IH]; intros remainder; cbn [shares]; [done|].
  destruct (configs !! h); [by rewrite fmap_cons, IH|].
  destruct (auto_share perNode remainder). by rewrite fmap_cons, IH.
Qed.

(** The hosts without a configuration get their share each, and one more while
    the remainder lasts. *)
Lemma shares_total configs f perNode remainder hs :
  (∀ h c, configs !! h = Some c → 0 ≤ f c)%Z → (0 ≤ perNode)%Z → (0 ≤ remainder)%Z →
  let auto := (Z.of_nat (length hs) - visit (λ _, 1%Z) configs hs)%Z in
  (0 ≤ auto)%Z ∧
  Z.of_nat (total (shares configs f perNode remainder hs)) =
    (visit f configs hs + perNode * auto + Z.min remainder auto)%Z.
Proof.
  intros Hf Hp. revert remainder. induction hs as [|h hs IH]; intros remainder Hr; [cbn; lia|].
  cbn [shares visit foldr length]. fold (visit f configs hs) (visit (λ _, 1%Z) configs hs).
  destruct (configs !! h) as [c|] eqn:E; cbn [from_option].
  - rewrite total_cons. pose proof (Hf h c E). destruct (IH remainder Hr) as [H1 H2]. lia.
  - unfold auto_share. destruct (Z.ltb_spec 0 remainder); rewrite total_cons.
    + destruct (IH (remainder - 1)%Z) as [H1 H2]; lia.
    + destruct (IH remainder Hr) as [H1 H2]. lia.
Qed.

Lemma shares_auto configs f perNode remainder hs h n :
  (h, n) ∈ shares configs f perNode remainder hs → configs !! h = None →
  n = Z.to_nat perNode ∨ n = Z.to_nat (perNode + 1).
Proof.
  revert remainder. induction hs as [|x hs IH]; intros remainder; cbn [shares].
  { by intros ?%not_elem_of_nil. }
  destruct (configs !! x) as [c|] eqn:E.
  - intros Hin Hn. apply elem_of_cons in Hin as [[= -> ->]|Hin]; [congruence|by eapply IH].
  - unfold auto_share. destruct (0 <? remainder)%Z; intros Hin Hn;
      (apply elem_of_cons in Hin as [[= -> ->]|Hin]; [auto|by eapply IH]).
Qed.

Lemma shares_config configs f perNode remainder hs h n c :
  (h, n) ∈ shares configs f perNode remainder hs → configs !! h = Some c → n = Z.to_nat (f c).
Proof.
  revert remainder. induction hs as [|x hs IH]; intros remainder; cbn [shares].
  { by intros ?%not_elem_of_nil. }
  destruct (configs !! x) as [c'|] eqn:E.
  - intros Hin Hn. apply elem_of_cons in Hin as [[= -> ->]|Hin]; [congruence|by eapply IH].
  - destruct (auto_share perNode remainder) as [r remainder']. intros Hin Hn.
    apply elem_of_cons in Hin as [[= -> ->]|Hin]; [congruence|by eapply IH].
Qed.

(** One of the two sides of an experiment: how many are asked for. *)
Lemma dealt_all configs f num hs :
  NoDup hs → (∀ h, is_Some (configs !! h) → h ∈ hs) → (∀ h c, configs !! h = Some c → 0 ≤ f c)%Z →
  let remaining := (num - sum_cfg f configs)%Z in
  let auto := (Z.of_nat (length hs) - Z.of_nat (size configs))%Z in
  (0 ≤ remaining)%Z → (0 < auto ∨ remaining = 0)%Z →
  let '(perNode, remainder) :=
    if (0 <? auto)%Z then (go_div remaining auto, go_mod remaining auto) else (0, 0)%Z in
  Z.of_nat (total (shares configs f perNode remainder hs)) = num.
Proof.
  intros Hnd Hdom Hpos remaining auto Hrem Hauto.
  pose proof (sum_cfg_visit f configs hs Hnd Hdom) as Hsum.
  pose proof (sum_cfg_visit (λ _, 1%Z) configs hs Hnd Hdom) as Hsize.
  rewrite <-size_sum_cfg in Hsize. unfold remaining, auto in *. clear remaining auto.
  destruct (Z.ltb_spec 0 (Z.of_nat (length hs) - Z.of_nat (size configs))) as [Ha|Ha].
  - set (a := (Z.of_nat (length hs) - Z.of_nat (size configs))%Z) in *.
    set (r := (num - sum_cfg f configs)%Z) in *. unfold go_div, go_mod.
    pose proof (Z.quot_rem' r a) as Hqr. pose proof (Z.rem_bound_pos r a Hrem Ha) as Hrb.
    pose proof (Z.quot_pos r a Hrem Ha) as Hq.
    destruct (shares_total configs f (Z.quot r a) (Z.rem r a) hs Hpos) as [H1 H2]; [lia..|]. rewrite H2.
    assert (Z.of_nat (length hs) - visit (λ _, 1%Z) configs hs = a)%Z as -> by lia. nia.
  - destruct (shares_total configs f 0 0 hs Hpos) as [H1 H2]; [lia..|]. rewrite H2. lia.
Qed.

(** Hosts with a configuration get what it says, and those without one about
    the same. *)
Definition balanced (configs : gmap host HostConfig) (f : HostConfig → Z) (hs : list host)
    (got : host → list ID) : Prop :=
  (∀ h c, h ∈ hs → configs !! h = Some c → length (got h) = Z.to_nat (f c)) ∧
  (∀ h1 h2, h1 ∈ hs → h2 ∈ hs → configs !! h1 = None → configs !! h2 = None →
     length (got h1) ≤ length (got h2) + 1).

Lemma shares_balanced configs f perNode remainder hs (got : host → list ID) :
  (∀ h n, (h, n) ∈ shares configs f perNode remainder hs → length (got h) = n) →
  balanced configs f hs got.
Proof.
  intros Hl. split.
  { intros h c Hh Hc. rewrite <-(shares_fst configs f perNode remainder hs) in Hh.
    apply list_elem_of_fmap in Hh as ([x n] & -> & Hin). cbn [fst] in *. rewrite (Hl _ _ Hin). by eapply shares_config. }
  intros h1 h2 Hh1 Hh2 Hn1 Hn2. rewrite <-(shares_fst configs f perNode remainder hs) in Hh1, Hh2.
  apply list_elem_of_fmap in Hh1 as ([x1 n1] & -> & Hin1). apply list_elem_of_fmap in Hh2 as ([x2 n2] & -> & Hin2).
  cbn [fst] in *. rewrite (Hl _ _ Hin1), (Hl _ _ Hin2).
  destruct (shares_auto _ _ _ _ _ _ _ Hin1 Hn1), (shares_auto _ _ _ _ _ _ _ Hin2 Hn2); lia.
Qed.

(** C37: an experiment whose host configurations name its hosts and ask for no
    more than there is gives out exactly the replicas 1..n and the clients
    1..m, each to one host, and the options of every replica; a host with a
    configuration gets the replicas and the clients it asks for, and any two
    hosts without one get the same number of replicas and the same number of
    clients, give or take one of each. *)
Theorem assign_complete (order : ID → list string) (e : Experiment) :
  NoDup (Hosts e) → (∀ h, is_Some (HostConfigs e !! h) → h ∈ Hosts e) →
  (∀ h c, HostConfigs e !! h = Some c → 0 ≤ hc_Replicas c ∧ 0 ≤ hc_Clients c)%Z →
  (NumReplicas e + 1 < Z.of_N two32)%Z → (NumClients e + 1 < Z.of_N two32)%Z →
  let remR := (NumReplicas e - sum_cfg hc_Replicas (HostConfigs e))%Z in
  let remC := (NumClients e - sum_cfg hc_Clients (HostConfigs e))%Z in
  (0 ≤ remR)%Z → (0 ≤ remC)%Z → (size (HostConfigs e) < length (Hosts e) ∨ (remR = 0 ∧ remC = 0)%Z) →
  ∃ e', assignReplicasAndClients order e = inl e' ∧
    let replicas h := default [] (hostsToReplicas e' !! h) in
    let clients h := default [] (hostsToClients e' !! h) in
    concat (replicas <$> Hosts e) = ids_from 1 (Z.to_nat (NumReplicas e)) ∧
    concat (clients <$> Hosts e) = ids_from 1 (Z.to_nat (NumClients e)) ∧
    dom (replicaOpts e') = list_to_set (ids_from 1 (Z.to_nat (NumReplicas e))) ∧
    balanced (HostConfigs e) hc_Replicas (Hosts e) replicas ∧
    balanced (HostConfigs e) hc_Clients (Hosts e) clients.
Proof.
  intros Hnd Hdom Hpos HbR HbC remR remC HR HC Hauto.
  set (auto := (Z.of_nat (length (Hosts e)) - Z.of_nat (size (HostConfigs e)))%Z).
  pose proof (dealt_all (HostConfigs e) hc_Replicas (NumReplicas e) (Hosts e) Hnd Hdom
    ltac:(intros h c Hc; by apply (Hpos h c)) HR ltac:(lia)) as HdR.
  pose proof (dealt_all (HostConfigs e) hc_Clients (NumClients e) (Hosts e) Hnd Hdom
    ltac:(intros h c Hc; by apply (Hpos h c)) HC ltac:(lia)) as HdC.
  unfold assignReplicasAndClients.
  cbn [NumReplicas NumClients Hosts HostConfigs hostsToReplicas replicaOpts hostsToClients Byzantine].
  fold remR remC auto in HdR, HdC |- *.
  assert (∃ pR rR pC rC,
    (if (0 <? auto)%Z then (go_div remR auto, go_mod remR auto, go_div remC auto, go_mod remC auto)
     else (0, 0, 0, 0)%Z) = (pR, rR, pC, rC) ∧
    (if (0 <? auto)%Z then (go_div remR auto, go_mod remR auto) else (0, 0)%Z) = (pR, rR) ∧
    (if (0 <? auto)%Z then (go_div remC auto, go_mod remC auto) else (0, 0)%Z) = (pC, rC))
    as (pR & rR & pC & rC & -> & HeR & HeC) by (destruct (0 <? auto)%Z; eauto 10).
  rewrite HeR in HdR. rewrite HeC in HdC.
  destruct (Z.ltb_spec remR 0); [lia|]. destruct (Z.ltb_spec remC 0); [lia|].
  edestruct (hosts_deal order pR pC (Hosts e)
    (mkExp (NumReplicas e) (NumClients e) (Hosts e) (HostConfigs e) (Byzantine e) ∅ ∅ ∅) 1 1 rR rC)
    as (e' & nr & nc & rr & rc & -> & H1 & H2 & H3); [cbn [HostConfigs]; lia..|].
  cbn [HostConfigs hostsToReplicas hostsToClients replicaOpts] in H1, H2, H3.
  exists e'. split; [done|].
  destruct (deal_spec (shares (HostConfigs e) hc_Replicas pR rR (Hosts e)) 1 ∅) as (Hc1 & Hl1 & _);
    [by rewrite shares_fst|by intros; apply lookup_empty|].
  destruct (deal_spec (shares (HostConfigs e) hc_Clients pC rC (Hosts e)) 1 ∅) as (Hc2 & Hl2 & _);
    [by rewrite shares_fst|by intros; apply lookup_empty|].
  rewrite shares_fst in Hc1, Hc2. rewrite H1, H2, H3, Hc1, Hc2.
  split_and!; [f_equal; lia|f_equal; lia|rewrite dom_empty_L, (right_id_L ∅ (∪)); do 2 f_equal; lia|..].
  - exact (shares_balanced _ _ _ _ _ _ Hl1).
  - exact (shares_balanced _ _ _ _ _ _ Hl2).
Qed.

(** When replica [id] is assigned, every strategy that has replicas left
    is counted down, though the replica follows only one of them: with two
    strategies of one replica each, one Byzantine replica is created. *)
Theorem pick_strategy_spends_all (byz : gmap string Z) (strategies : list string) :
  NoDup strategies →
  ∀ s count, byz !! s = Some count →
    (pick_strategy byz strategies).1 !! s =
      Some (if bool_decide (s ∈ strategies) && (0 <? count)%Z then (count - 1)%Z else count).
Proof.
  unfold pick_strategy. generalize ""%string as chosen. intros chosen Hnd.
  revert byz chosen. induction Hnd as [|x l Hx Hnd IH]; intros byz chosen s count Hs; cbn [foldl].
  { cbn [fst]. by rewrite Hs, bool_decide_eq_false_2 by apply not_elem_of_nil. }
  destruct (decide (s = x)) as [->|Hne].
  - rewrite Hs, bool_decide_eq_true_2 by (by left). cbn [andb].
    destruct (Z.ltb_spec 0 count); (erewrite IH; [rewrite bool_decide_eq_false_2 by done; reflexivity|]); [|done].
    by rewrite lookup_insert_eq.
  - replace (bool_decide (s ∈ x :: l)) with (bool_decide (s ∈ l))
      by (apply bool_decide_ext; rewrite elem_of_cons; naive_solver).
    destruct (byz !! x) as [c|]; [|by apply IH]. destruct (0 <? c)%Z; [|by apply IH].
    apply IH. by rewrite lookup_insert_ne.
Qed.

(** The check at the end of an experiment accepts exactly when all
    replicas report the same hash, in whatever order they are compared. *)
Theorem hashes_match_spec (hashes : list bytes) :
  hashes_match None (Some <$> hashes) = true ↔ ∀ h1 h2, h1 ∈ hashes → h2 ∈ hashes → h1 = h2.
Proof.
  assert (∀ c l, hashes_match (Some c) (Some <$> l) = true ↔ ∀ h, h ∈ l → h = c) as Hsome.
  { intros c l. induction l as [|h l IH]; cbn; [split; [by intros _ h ?%not_elem_of_nil|done]|].
    case_bool_decide as Hc; [rewrite IH|].
    - split; [intros H k Hk; apply elem_of_cons in Hk as [->|Hk]; auto|intros H k Hk; apply H; by right].
    - split; [done|]. intros H. destruct Hc. symmetry. apply H. by left. }
  destruct hashes as [|h l]; cbn; [split; [by intros _ ? ? ?%not_elem_of_nil|done]|].
  rewrite bool_decide_eq_true_2 by done. rewrite Hsome. split.
  - intros H h1 h2 H1 H2. apply elem_of_cons in H1 as [->|H1], H2 as [->|H2]; [done| | |].
    + symmetry. by apply H.
    + by apply H.
    + by rewrite (H h1), (H h2).
  - intros H k Hk. apply H; [by right|by left].
Qed.

(** ** The theorems on a small experiment *)

Module OrchestrationExample.
Definition ha : host := [x61].
Definition hb : host := [x62].
Definition hc : host := [x63].

(** Seven replicas and one client on three hosts, one of them configured. *)
Definition exp3 : Experiment :=
  mkExp 7 1 [ha; hb; hc] {[hb := mkHost 2 0]} {["fork" := 1%Z; "silence" := 1%Z]} ∅ ∅ ∅.
Definition order3 (_ : ID) : list string := ["fork"; "silence"].

Lemma exp3_config h c : HostConfigs exp3 !! h = Some c → h = hb ∧ c = mkHost 2 0.
Proof. cbn [HostConfigs exp3]. by intros [-> <-]%lookup_singleton_Some. Qed.

Lemma assign_complete_witness :
  ∃ e', assignReplicasAndClients order3 exp3 = inl e' ∧
    dom (replicaOpts e') = list_to_set (ids_from 1 7).
Proof.
  destruct (assign_complete order3 exp3) as (e' & Hrun & _ & _ & Hdom & _).
  - apply (bool_decide_eq_true_1 (NoDup [ha; hb; hc])). reflexivity.
  - intros h [c Hc]. destruct (exp3_config h c Hc) as [-> _]. right. left.
  - intros h c Hc. destruct (exp3_config h c Hc) as [_ ->]. cbn. lia.
  - reflexivity.
  - reflexivity.
  - vm_compute. discriminate.
  - vm_compute. discriminate.
  - left. apply Nat.ltb_lt. vm_compute. reflexivity.
  - exists e'. exact (conj Hrun Hdom).
Defined.

Lemma pick_strategy_spends_all_witness :
  (pick_strategy {["fork" := 1%Z; "silence" := 1%Z]} ["fork"; "silence"]).1 !! "fork" = Some 0%Z.
Proof.
  exact (pick_strategy_spends_all {["fork" := 1%Z; "silence" := 1%Z]} ["fork"; "silence"]
    (bool_decide_eq_true_1 (NoDup ["fork"; "silence"]) eq_refl) "fork" 1%Z eq_refl).
Defined.
End OrchestrationExample.
