(* ===== verification/ProtoStream.v ===== *)
(** * internal/protostream/protostream.go: messages on a byte stream

    The protobuf encoding is the parameter [Codec], and the wrapping of messages
    in Any messages the parameter [AnyCodec].  The destination of a writer takes
    [room] more bytes and then fails; the source of a reader is the bytes that
    are left. *)

From S2P Require Import Prelude Encoding.
From Stdlib Require Import Strings.Byte.

(** proto.Marshal and proto.Unmarshal. *)
Class Codec := {
  message : Type;
  Marshal : message → option bytes;
  Unmarshal : bytes → option message;
}.

(** What a reader relies on: a marshalled message is read back. *)
Class CodecLaws (C : Codec) := {
  Unmarshal_Marshal m b : Marshal m = Some b → Unmarshal b = Some m;
}.

(** anypb.New and UnmarshalNew: a message and its name in a message that the
    codec knows, and back. *)
Class AnyCodec (C : Codec) := {
  proto_Message : Type;
  anypb_New : proto_Message → option message;
  UnmarshalNew : message → option proto_Message;
}.
Class AnyLaws {C : Codec} (A : AnyCodec C) := {
  UnmarshalNew_New m any : anypb_New m = Some any → UnmarshalNew any = Some m;
}.

Inductive stream_error :=
  ErrAny | ErrUnmarshalAny | ErrMarshal | ErrWriteLength | ErrWrite | ErrReadLength | ErrTooLong | ErrRead | ErrUnmarshal.

Section protostream.
Context {C : Codec}.

(** ** Writer *)

Record Writer := mkWriter { w_data : bytes; w_room : option nat }.

(** io.Writer.Write: all bytes, or as many as there is room for and an error. *)
Definition dest_Write (b : bytes) (w : Writer) : bool * Writer :=
  match w_room w with
  | None => (true, mkWriter (w_data w ++ b) None)
  | Some room =>
    (length b <=? room, mkWriter (w_data w ++ take room b) (Some (room - length b)))
  end%nat.

Definition Writer_Write (msg : message) (w : Writer) : option stream_error * Writer :=
  match Marshal msg with
  | None => (Some ErrMarshal, w)
  | Some buf =>
    match dest_Write (PutUint32 (wrap32 (N.of_nat (length buf)))) w with
    | (false, w1) => (Some ErrWriteLength, w1)
    | (true, w1) =>
      match dest_Write buf w1 with
      | (false, w2) => (Some ErrWrite, w2)
      | (true, w2) => (None, w2)
      end
    end
  end.

(** ** Reader *)

(** io.ReadFull: [n] bytes, or an error with the source used up. *)
Definition ReadFull (n : nat) (src : bytes) : option bytes * bytes :=
  if (length src <? n)%nat then (None, []) else (Some (take n src), drop n src).

Definition Reader_Read (src : bytes) : (message + stream_error) * bytes :=
  match ReadFull 4 src with
  | (None, src1) => (inr ErrReadLength, src1)
  | (Some msgLenBuf, src1) =>
    let msgLen := Uint32 msgLenBuf in
    if (2147483648 <? msgLen)%N then (inr ErrTooLong, src1)
    else match ReadFull (N.to_nat msgLen) src1 with
         | (None, src2) => (inr ErrRead, src2)
         | (Some buf, src2) =>
           match Unmarshal buf with
           | None => (inr ErrUnmarshal, src2)
           | Some msg => (inl msg, src2)
           end
         end
  end.

(** ** Messages of any type *)

Definition Writer_WriteAny {A : AnyCodec C} (msg : proto_Message) (w : Writer) : option stream_error * Writer :=
  match anypb_New msg with
  | None => (Some ErrAny, w)
  | Some any => Writer_Write any w
  end.

Definition Reader_ReadAny {A : AnyCodec C} (src : bytes) : (proto_Message + stream_error) * bytes :=
  match Reader_Read src with
  | (inr e, src') => (inr e, src')
  | (inl any, src') =>
    match UnmarshalNew any with
    | None => (inr ErrUnmarshalAny, src')
    | Some msg => (inl msg, src')
    end
  end.

(** ** Streams of messages *)

(** Writing until the first error. *)
Fixpoint write_all (ms : list message) (w : Writer) : option stream_error * Writer :=
  match ms with
  | [] => (None, w)
  | m :: ms =>
    match Writer_Write m w with
    | (Some e, w') => (Some e, w')
    | (None, w') => write_all ms w'
    end
  end.

(** Reading until the first error. *)
Fixpoint read_all (fuel : nat) (src : bytes) : list message * option stream_error :=
  match fuel with
  | O => ([], None)
  | S fuel =>
    match Reader_Read src with
    | (inr e, _) => ([], Some e)
    | (inl m, src') => let '(ms, e) := read_all fuel src' in (m :: ms, e)
    end
  end.

Context {CL : CodecLaws C}.

(** A message that can be marshalled and read back. *)
Definition sendable (m : message) : Prop :=
  ∃ b, Marshal m = Some b ∧ (N.of_nat (length b) ≤ 2147483648)%N.

(** The frame of a message. *)
Definition frame (m : message) : bytes :=
  match Marshal m with
  | Some b => PutUint32 (N.of_nat (length b)) ++ b
  | None => []
  end.

Lemma length_PutUint32 n : length (PutUint32 n) = 4.
Proof. apply length_le_bytes. Qed.

Lemma ReadFull_app x y : ReadFull (length x) (x ++ y) = (Some x, y).
Proof.
  unfold ReadFull. rewrite length_app, take_app_length, drop_app_length.
  by destruct (Nat.ltb_spec (length x + length y) (length x)); [lia|].
Qed.

Lemma ReadFull_short n src : length src < n → ReadFull n src = (None, []).
Proof. intros Hn. unfold ReadFull. by rewrite (proj2 (Nat.ltb_lt _ _) Hn). Qed.

(** Reading past a complete length field. *)
Lemma Read_length n src :
  (n ≤ 2147483648)%N →
  Reader_Read (PutUint32 n ++ src) =
    match ReadFull (N.to_nat n) src with
    | (None, src2) => (inr ErrRead, src2)
    | (Some buf, src2) =>
      match Unmarshal buf with None => (inr ErrUnmarshal, src2) | Some msg => (inl msg, src2) end
    end.
Proof.
  intros Hn. unfold Reader_Read. rewrite <-(length_PutUint32 n) at 1. rewrite ReadFull_app.
  unfold Uint32. rewrite take_ge by (by rewrite length_PutUint32).
  unfold PutUint32. rewrite le_val_le_bytes_small by (cbn; lia).
  by destruct (N.ltb_spec 2147483648 n); [lia|].
Qed.

(** Any prefix of a frame and what follows it: a reader gets the message when
    the frame is complete, and an error otherwise. *)
Lemma Read_frame m rest k :
  sendable m →
  (length (frame m) ≤ k → Reader_Read (take k (frame m ++ rest)) = (inl m, take (k - length (frame m)) rest)) ∧
  (k < length (frame m) → ∃ e, (Reader_Read (take k (frame m ++ rest))).1 = inr e).
Proof.
  intros (b & Hm & Hb). unfold frame. rewrite Hm. set (hd := PutUint32 _).
  assert (length hd = 4) as Hhd by apply length_PutUint32. split.
  - intros Hk. rewrite length_app in *. rewrite take_app_ge, <-app_assoc by (rewrite length_app; lia).
    unfold hd. rewrite Read_length, Nat2N.id, ReadFull_app by done. rewrite (Unmarshal_Marshal _ _ Hm).
    by rewrite length_app.
  - rewrite length_app. intros Hk. rewrite take_app_le by (rewrite length_app; lia).
    destruct (decide (k < 4)) as [Hk4|Hk4].
    + unfold Reader_Read. rewrite ReadFull_short; [by eexists|]. rewrite length_take, length_app. lia.
    + rewrite take_app_ge by lia. unfold hd. rewrite Read_length, Nat2N.id by done.
      rewrite ReadFull_short; [by eexists|]. rewrite length_take, length_PutUint32. lia.
Qed.

Lemma Write_frame m data :
  sendable m → Writer_Write m (mkWriter data None) = (None, mkWriter (data ++ frame m) None).
Proof.
  intros (b & Hm & Hb). unfold Writer_Write, frame. rewrite Hm. cbn [dest_Write w_room w_data].
  rewrite wrap32_small by (unfold two32; lia). by rewrite app_assoc.
Qed.

Lemma write_all_frames ms data :
  Forall sendable ms →
  write_all ms (mkWriter data None) = (None, mkWriter (data ++ concat (frame <$> ms)) None).
Proof.
  intros Hms. revert data. induction Hms as [|m ms Hm _ IH]; intros data; cbn [write_all].
  - by rewrite app_nil_r.
  - rewrite Write_frame, IH by done. by rewrite fmap_cons, <-app_assoc.
Qed.

Lemma length_frame m : sendable m → 4 ≤ length (frame m).
Proof. intros (b & Hm & _). unfold frame. rewrite Hm, length_app, length_PutUint32. lia. Qed.

(** The bytes that a writer without limit makes of messages. *)
Definition written (ms : list message) : bytes := w_data (write_all ms (mkWriter [] None)).2.

Lemma written_frames ms : Forall sendable ms → written ms = concat (frame <$> ms).
Proof. intros Hms. unfold written. by rewrite write_all_frames. Qed.

(** C35: what a reader gets from a stream of messages that was cut off
    anywhere.  It is the messages whose bytes all lie before the cut, in order
    and unchanged, then an error: all of them when the stream is complete, and
    then the error is that no further length can be read.  Writing fails for
    none of them. *)
Theorem stream_roundtrip (ms : list message) (k : nat) :
  Forall sendable ms →
  (write_all ms (mkWriter [] None)).1 = None ∧
  (∃ j e, read_all (S (length ms)) (take k (written ms)) = (take j ms, Some e) ∧ j ≤ length ms ∧
     (length (written (take j ms)) ≤ k ∧ (j < length ms → k < length (written (take (S j) ms))))) ∧
  (length (written ms) ≤ k → read_all (S (length ms)) (take k (written ms)) = (ms, Some ErrReadLength)).
Proof.
  intros Hall. rewrite write_all_frames by done. split; [done|].
  assert (∀ n, written (take n ms) = concat (frame <$> take n ms)) as Htake
    by (intros n; by apply written_frames, Forall_take).
  setoid_rewrite Htake. rewrite (written_frames ms Hall). clear Htake.
  revert k. induction Hall as [|m ms Hm Hms IH]; intros k.
  { cbn [fmap list_fmap concat]. rewrite take_nil. split; [|done]. exists 0, ErrReadLength. cbn. split_and!; lia || done. }
  rewrite fmap_cons. cbn [concat length]. pose proof (length_frame m Hm).
  destruct (Read_frame m (concat (frame <$> ms)) k Hm) as [Hfull Hcut].
  destruct (decide (length (frame m) ≤ k)) as [Hk|Hk].
  - destruct (IH (k - length (frame m))) as [(j & e & Hj & Hle & Hlo & Hhi) Hend].
    change (read_all (S (S (length ms))) ?s) with
      (match Reader_Read s with
       | (inr e, _) => ([], Some e)
       | (inl m, src') => let '(ms, e) := read_all (S (length ms)) src' in (m :: ms, e)
       end).
    rewrite Hfull by done. split.
    + exists (S j), e. rewrite Hj. cbn [firstn fmap list_fmap concat] in *. rewrite !length_app.
      split_and!; [done|lia|lia|]. intros ?%Nat.succ_lt_mono%Hhi. lia.
    + rewrite length_app. intros Hl. by rewrite Hend by lia.
  - destruct Hcut as [e He]; [lia|]. split; [|rewrite length_app; lia]. exists 0, e.
    cbn [firstn fmap list_fmap concat length]. rewrite app_nil_r. split_and!; [|lia|lia|lia].
    cbn [read_all]. by destruct (Reader_Read _) as [[?|?] ?]; simplify_eq/=.
Qed.

(** What the controller and a worker tell each other arrives.  Messages of any
    type that can be wrapped and marshalled are read from the stream in the order
    they were written, each whole, whatever follows them. *)
Theorem any_roundtrip {A : AnyCodec C} {AL : AnyLaws A} (ms : list (proto_Message * message)) (data rest : bytes) :
  Forall (λ m, anypb_New m.1 = Some m.2 ∧ sendable m.2) ms →
  ∃ text, foldl (λ w m, (Writer_WriteAny m.1 w).2) (mkWriter data None) ms = mkWriter (data ++ text) None ∧
    foldr (λ m k src, (Reader_ReadAny src).1 = inl m.1 ∧ k (Reader_ReadAny src).2) (λ src, src = rest) ms (text ++ rest).
Proof.
  intros Hms. revert data. induction Hms as [|[m any] ms [Hnew Hs] _ IH]; intros data.
  { exists []. cbn. by rewrite app_nil_r. }
  cbn [fst snd] in *. destruct (IH (data ++ frame any)) as (text & Hw & Hr). exists (frame any ++ text).
  cbn [foldl foldr fst]. unfold Writer_WriteAny at 2. rewrite Hnew, Write_frame by done. cbn [snd].
  rewrite Hw, <-app_assoc. split; [done|].
  destruct (Read_frame any (text ++ rest) (length (frame any ++ (text ++ rest))) Hs) as [Hfull _].
  rewrite firstn_all, length_app in Hfull. specialize (Hfull ltac:(lia)).
  assert (Reader_ReadAny ((frame any ++ text) ++ rest) = (inl m, text ++ rest)) as ->.
  { unfold Reader_ReadAny. rewrite <-app_assoc, Hfull, (UnmarshalNew_New _ _ Hnew). f_equal. apply take_ge. lia. }
  done.
Qed.
End protostream.

(** ** The theorem on a codec of byte strings *)

Module StreamExample.
Definition BytesCodec : Codec := {| message := bytes; Marshal := Some; Unmarshal := Some |}.

#[local] Existing Instance BytesCodec.
#[local] Instance BytesCodec_laws : CodecLaws BytesCodec.
Proof. split. by intros m b [= ->]. Qed.

Definition msgs : list message := [[x61; x62]; []; [x63]].

Lemma stream_roundtrip_witness :
  ∃ j e, read_all 4 (take 11 (written msgs)) = (take j msgs, Some e) ∧ j = 2.
Proof.
  destruct (stream_roundtrip msgs 11) as (_ & (j & e & Hr & Hle & Hlo & Hhi) & _).
  { repeat constructor; eexists; (split; [reflexivity|vm_compute; discriminate]). }
  exists j, e. split; [exact Hr|]. destruct j as [|[|[|[|j]]]]; vm_compute in Hle, Hlo, Hhi; lia.
Defined.
End StreamExample.
