(* ===== verification/Metrics.v ===== *)
(** * metrics: what replicas and clients measure

    Welford's algorithm (welford.go) over any arithmetic, so that it can be run
    on doubles and verified on rationals; the throughput, view-timeout and
    latency metrics with what they write to the metrics logger; the ticker that
    paces them. *)

From S2P Require Import Prelude LeaderRotation.
From Stdlib Require Import QArith Qfield Lqa SpecFloat.

(** ** welford.go *)

(** The operations on float64 that the algorithm uses. *)
Class Arith := {
  number : Type;
  num_zero : number;
  num_NaN : number;
  num_of_Z : Z → number;
  num_add : number → number → number;
  num_sub : number → number → number;
  num_mul : number → number → number;
  num_div : number → number → number;
}.

Section welford.
Context {A : Arith}.

Record Welford := mkWelford { wf_mean : number; wf_m2 : number; wf_count : N }.

Definition Welford_Update (val : number) (w : Welford) : Welford :=
  let count := wrap64 (wf_count w + 1) in
  let delta := num_sub val (wf_mean w) in
  let mean := num_add (wf_mean w) (num_div delta (num_of_Z (Z.of_N count))) in
  let delta2 := num_sub val mean in
  mkWelford mean (num_add (wf_m2 w) (num_mul delta delta2)) count.

Definition Welford_Get (w : Welford) : number * number * N :=
  if (wf_count w <? 2)%N then (wf_mean w, num_NaN, wf_count w)
  else (wf_mean w, num_div (wf_m2 w) (num_of_Z (Z.of_N (wf_count w - 1))), wf_count w).

Definition Welford_Count (w : Welford) : N := wf_count w.
Definition Welford_Reset : Welford := mkWelford num_zero num_zero 0.
End welford.

(** Doubles. *)
Definition Float64 : Arith := {|
  number := spec_float;
  num_zero := S754_zero false;
  num_NaN := S754_nan;
  num_of_Z := f64_of_Z;
  num_add := f64_add;
  num_sub := f64_sub;
  num_mul := f64_mul;
  num_div := f64_div;
|}.

(** Rationals; there is no NaN, and the theorem does not look at it. *)
Definition Rational : Arith := {|
  number := Q;
  num_zero := 0%Q;
  num_NaN := 0%Q;
  num_of_Z := inject_Z;
  num_add := Qplus;
  num_sub := Qminus;
  num_mul := Qmult;
  num_div := Qdiv;
|}.

(** ** throughput.go, timeouts.go, clientlatency.go *)

(** The measurements that are logged, without the event header. *)
Inductive measurement {A : Arith} :=
| ThroughputMeasurement (commits commands : N) (duration : Z)
| ViewTimeoutsMeasurement (views timeouts : N)
| LatencyMeasurement (mean variance : number) (count : N).

Record Throughput := mkThroughput { commitCount : N; commandCount : N }.

(** The conversion of an int to uint64. *)
Definition uint64_of_int (n : Z) : N := Z.to_N (n mod 2 ^ 64).

Definition recordCommit (commands : Z) (t : Throughput) : Throughput :=
  mkThroughput (wrap64 (commitCount t + 1)) (wrap64 (commandCount t + uint64_of_int commands)).

(** [now] is time.Now(). *)
Definition Throughput_tick {A : Arith} (now lastTick : Z) (t : Throughput) : measurement * Throughput :=
  (ThroughputMeasurement (commitCount t) (commandCount t) (now - lastTick), mkThroughput 0 0).

Record ViewTimeouts := mkTimeouts { numViews : N; numTimeouts : N }.

Definition viewChange (timeout : bool) (vt : ViewTimeouts) : ViewTimeouts :=
  mkTimeouts (wrap64 (numViews vt + 1)) (if timeout then wrap64 (numTimeouts vt + 1) else numTimeouts vt).

Definition ViewTimeouts_tick {A : Arith} (vt : ViewTimeouts) : measurement * ViewTimeouts :=
  (ViewTimeoutsMeasurement (numViews vt) (numTimeouts vt), mkTimeouts 0 0).

(** [latency] is in nanoseconds. *)
Definition addLatency {A : Arith} (latency : Z) (wf : Welford) : Welford :=
  Welford_Update (num_div (num_of_Z latency) (num_of_Z 1000000)) wf.

Definition ClientLatency_tick {A : Arith} (wf : Welford) : measurement * Welford :=
  let '(mean, variance, count) := Welford_Get wf in (LatencyMeasurement mean variance count, Welford_Reset).

(** ** ticker.go *)

(** [None] is the zero time. *)
Definition Ticker_tick (tickTime : Z) (lastTick : option Z) : option Z * option Z := (lastTick, Some tickTime).

(** ** A replica's metrics on the metrics event loop *)

Inductive metric_event :=
| Commit (commands : Z)            (** consensus.CommitEvent *)
| ViewChange (timeout : bool)      (** synchronizer.ViewChangeEvent *)
| Tick (time now : Z).             (** the ticker fires at [time]; its observers run at [now] *)

Record metrics := mkMetrics {
  mt_throughput : Throughput;
  mt_timeouts : ViewTimeouts;
  mt_lastTick : option Z }.

(** The ticker posts an event only when it has ticked before. *)
Definition metric_step {A : Arith} (ev : metric_event) (s : metrics) : list measurement * metrics :=
  match ev with
  | Commit n => ([], mkMetrics (recordCommit n (mt_throughput s)) (mt_timeouts s) (mt_lastTick s))
  | ViewChange t => ([], mkMetrics (mt_throughput s) (viewChange t (mt_timeouts s)) (mt_lastTick s))
  | Tick time now =>
    match Ticker_tick time (mt_lastTick s) with
    | (None, last) => ([], mkMetrics (mt_throughput s) (mt_timeouts s) last)
    | (Some lastTick, last) =>
      let '(m1, thr) := Throughput_tick now lastTick (mt_throughput s) in
      let '(m2, tmo) := ViewTimeouts_tick (mt_timeouts s) in
      ([m1; m2], mkMetrics thr tmo last)
    end
  end.

Fixpoint metric_run {A : Arith} (evs : list metric_event) (s : metrics) : list measurement * metrics :=
  match evs with
  | [] => ([], s)
  | ev :: evs =>
    let '(out, s1) := metric_step ev s in
    let '(outs, s2) := metric_run evs s1 in (out ++ outs, s2)
  end.

Definition metrics_init : metrics := mkMetrics (mkThroughput 0 0) (mkTimeouts 0 0) None.

(** ** Accounting *)

(** The sum of one count over what was logged. *)
Definition logged {A : Arith} (f : measurement → N) (out : list measurement) : N :=
  foldr (λ m acc, f m + acc)%N 0%N out.
Definition commits_of {A : Arith} (m : measurement) : N :=
  match m with ThroughputMeasurement c _ _ => c | _ => 0%N end.
Definition commands_of {A : Arith} (m : measurement) : N :=
  match m with ThroughputMeasurement _ c _ => c | _ => 0%N end.
Definition views_of {A : Arith} (m : measurement) : N :=
  match m with ViewTimeoutsMeasurement v _ => v | _ => 0%N end.
Definition timeouts_of {A : Arith} (m : measurement) : N :=
  match m with ViewTimeoutsMeasurement _ t => t | _ => 0%N end.

(** What happened. *)
Definition happened (f : metric_event → N) (evs : list metric_event) : N :=
  foldr (λ ev acc, f ev + acc)%N 0%N evs.
Definition is_commit (ev : metric_event) : N := match ev with Commit _ => 1%N | _ => 0%N end.
Definition committed_commands (ev : metric_event) : N :=
  match ev with Commit n => uint64_of_int n | _ => 0%N end.
Definition is_view (ev : metric_event) : N := match ev with ViewChange _ => 1%N | _ => 0%N end.
Definition is_timeout (ev : metric_event) : N := match ev with ViewChange true => 1%N | _ => 0%N end.

(** One event changes a counter by what happened. *)
Ltac counter_step :=
  intros [n|[]|t now] [thr tmo [l|]];
  cbn [metric_step Ticker_tick Throughput_tick ViewTimeouts_tick recordCommit viewChange fst snd mt_throughput
    mt_timeouts mt_lastTick commitCount commandCount numViews numTimeouts logged foldr commits_of commands_of views_of
    timeouts_of is_commit committed_commands is_view is_timeout];
  unfold wrap64; repeat first [rewrite N.add_0_l | rewrite N.add_0_r | rewrite N.Div0.mod_mod]; reflexivity.

Section accounting.
Context {A : Arith}.

Lemma logged_app f (o1 o2 : list measurement) : logged f (o1 ++ o2) = (logged f o1 + logged f o2)%N.
Proof. induction o1 as [|m o1 IH]; cbn [app logged foldr]; [done|]. fold (logged f (o1 ++ o2)). rewrite IH. unfold logged. lia. Qed.

(** A counter that every step keeps in balance stays in balance. *)
Lemma balance (f : measurement → N) (g : metric_event → N) (pending : metrics → N) :
  (∀ ev s, wrap64 (logged f (metric_step ev s).1 + pending (metric_step ev s).2) =
           wrap64 (pending s + g ev)) →
  ∀ evs s, wrap64 (logged f (metric_run evs s).1 + pending (metric_run evs s).2) =
           wrap64 (pending s + happened g evs).
Proof.
  intros Hstep evs. induction evs as [|ev evs IH]; intros s; cbn [metric_run happened foldr fst snd].
  { cbn [logged foldr]. by rewrite N.add_0_l, N.add_0_r. }
  specialize (Hstep ev s). destruct (metric_step ev s) as [out s1]. cbn [fst snd] in Hstep.
  specialize (IH s1). destruct (metric_run evs s1) as [outs s2]. cbn [fst snd] in *.
  fold (happened g evs). rewrite logged_app. unfold wrap64 in *.
  rewrite <-N.add_assoc, N.Div0.add_mod, IH, <-N.Div0.add_mod.
  rewrite N.add_assoc, N.Div0.add_mod, Hstep, <-N.Div0.add_mod. f_equal. lia.
Qed.

(** No commit, command, view or timeout is lost or counted twice: what
    the measurements report and what is still pending add up to what
    happened (as 64-bit counts), however ticks and events interleave. *)
Theorem metrics_account (evs : list metric_event) :
  let '(out, s) := metric_run evs metrics_init in
  wrap64 (logged commits_of out + commitCount (mt_throughput s)) = wrap64 (happened is_commit evs) ∧
  wrap64 (logged commands_of out + commandCount (mt_throughput s)) = wrap64 (happened committed_commands evs) ∧
  wrap64 (logged views_of out + numViews (mt_timeouts s)) = wrap64 (happened is_view evs) ∧
  wrap64 (logged timeouts_of out + numTimeouts (mt_timeouts s)) = wrap64 (happened is_timeout evs).
Proof.
  pose proof (balance commits_of is_commit (λ s, commitCount (mt_throughput s))) as H1.
  pose proof (balance commands_of committed_commands (λ s, commandCount (mt_throughput s))) as H2.
  pose proof (balance views_of is_view (λ s, numViews (mt_timeouts s))) as H3.
  pose proof (balance timeouts_of is_timeout (λ s, numTimeouts (mt_timeouts s))) as H4.
  specialize (H1 ltac:(counter_step) evs metrics_init).
  specialize (H2 ltac:(counter_step) evs metrics_init).
  specialize (H3 ltac:(counter_step) evs metrics_init).
  specialize (H4 ltac:(counter_step) evs metrics_init).
  destruct (metric_run evs metrics_init) as [out s]. cbn [fst snd] in *. auto.
Qed.
End accounting.

(** ** Welford's algorithm computes the mean and the sample variance *)

Section exact.
#[local] Existing Instance Rational.
#[local] Open Scope Q_scope.

Definition sumQ (xs : list Q) : Q := foldr Qplus 0 xs.
Definition sum_sq (xs : list Q) : Q := foldr (λ x acc, x * x + acc) 0 xs.
(** The sum of the squared distances from [mu]. *)
Definition sum_dev (mu : Q) (xs : list Q) : Q := foldr (λ x acc, (x - mu) * (x - mu) + acc) 0 xs.
Definition lengthQ (xs : list Q) : Q := inject_Z (Z.of_nat (length xs)).

Lemma lengthQ_cons x xs : lengthQ (x :: xs) == lengthQ xs + 1.
Proof. unfold lengthQ. cbn [length]. rewrite Nat2Z.inj_succ, <-Z.add_1_r, inject_Z_plus. reflexivity. Qed.

Lemma lengthQ_nonneg xs : 0 <= lengthQ xs.
Proof. unfold lengthQ. change 0 with (inject_Z 0). rewrite <-Zle_Qle. lia. Qed.

Lemma sum_dev_expand mu xs :
  sum_dev mu xs == sum_sq xs - (2 * mu) * sumQ xs + lengthQ xs * (mu * mu).
Proof.
  induction xs as [|x xs IH]; [unfold lengthQ; cbn; ring|].
  rewrite lengthQ_cons. cbn [sum_dev sum_sq sumQ foldr]. fold (sum_dev mu xs) (sum_sq xs) (sumQ xs).
  rewrite IH. ring.
Qed.

(** The values seen so far, the last one first. *)
Definition updates (xs : list Q) : Welford := foldr Welford_Update Welford_Reset xs.

Lemma updates_inv xs :
  (N.of_nat (length xs) < two64)%N →
  wf_count (updates xs) = N.of_nat (length xs) ∧
  lengthQ xs * wf_mean (updates xs) == sumQ xs ∧
  wf_m2 (updates xs) == sum_sq xs - lengthQ xs * (wf_mean (updates xs) * wf_mean (updates xs)).
Proof.
  induction xs as [|x xs IH]; intros Hn.
  { split; [done|]. unfold lengthQ. cbn. split; ring. }
  cbn [length] in Hn. destruct IH as (Hc & Hm & H2); [lia|].
  cbn [updates foldr]. fold (updates xs). unfold Welford_Update.
  cbn [wf_mean wf_m2 wf_count num_add num_sub num_mul num_div num_of_Z Rational].
  rewrite wrap64_small by (rewrite Hc; lia). rewrite Hc.
  assert (inject_Z (Z.of_N (N.of_nat (length xs) + 1)) == lengthQ xs + 1) as Hlen.
  { unfold lengthQ. rewrite N2Z.inj_add, nat_N_Z, inject_Z_plus. reflexivity. }
  pose proof (lengthQ_nonneg xs) as Hpos.
  assert (~ lengthQ xs + 1 == 0) as Hne by (intros He; apply (Qlt_irrefl 0); rewrite <-He at 2; lra).
  split; [cbn [length]; lia|]. rewrite Hlen, lengthQ_cons. cbn [sumQ sum_sq foldr]. fold (sumQ xs) (sum_sq xs).
  rewrite <-Hm, H2. split; field; done.
Qed.

(** In exact arithmetic, [Get] returns the number of the values, their
    mean and, from two values on, their sample variance. *)
Theorem Welford_exact (xs : list Q) :
  (N.of_nat (length xs) < two64)%N → (2 <= length xs)%nat →
  let '(mean, variance, count) := Welford_Get (updates xs) in
  count = N.of_nat (length xs) ∧ mean * lengthQ xs == sumQ xs ∧
  variance * (lengthQ xs - 1) == sum_dev mean xs.
Proof.
  intros Hn H2. destruct (updates_inv xs Hn) as (Hc & Hm & Hm2). unfold Welford_Get. rewrite Hc.
  destruct (N.ltb_spec (N.of_nat (length xs)) 2); [lia|]. split; [done|]. split; [by rewrite Qmult_comm|].
  cbn [num_div num_of_Z Rational]. rewrite sum_dev_expand, Hm2, <-Hm.
  assert (inject_Z (Z.of_N (N.of_nat (length xs) - 1)) == lengthQ xs - 1) as ->.
  { unfold lengthQ. rewrite N2Z.inj_sub by lia. rewrite nat_N_Z. unfold Z.sub.
    rewrite inject_Z_plus, inject_Z_opp. reflexivity. }
  assert (~ lengthQ xs - 1 == 0) as Hne.
  { intros He. assert (lengthQ xs == inject_Z 1) as He' by (change (inject_Z 1) with 1; lra).
    pose proof (proj1 (inject_Z_injective _ _) He'). lia. }
  field. done.
Qed.

Lemma Welford_exact_witness :
  let '(mean, variance, count) := Welford_Get (updates [1; 2; 6]) in
  count = 3%N ∧ mean * lengthQ [1; 2; 6] == sumQ [1; 2; 6] ∧
  variance * (lengthQ [1; 2; 6] - 1) == sum_dev mean [1; 2; 6].
Proof. apply (Welford_exact [1; 2; 6]); [reflexivity|cbn; lia]. Defined.
End exact.
