(* ===== verification/Plotting.v ===== *)
(** * metrics/plotting: grouping measurements by time

    The start times (starttimes.go), the measurement map and the grouping of
    helper.go.  A Go map is visited in a new order by every range loop: the
    order of the [k]-th round of [GroupByTimeInterval] is [ord k]. *)

From S2P Require Import Prelude.

(** types.Event, with the time in nanoseconds. *)
Record Event := mkEvent { ev_ID : N; ev_Client : bool; ev_Time : Z }.

(** ** starttimes.go *)

Record StartTimes := mkStart { st_clients : gmap N Z; st_replicas : gmap N Z }.

Definition NewStartTimes : StartTimes := mkStart ∅ ∅.

(** [ev] is the event of a StartEvent; other messages are ignored. *)
Definition StartTimes_Add (ev : option Event) (s : StartTimes) : StartTimes :=
  match ev with
  | None => s
  | Some ev =>
    if ev_Client ev then mkStart (<[ev_ID ev := ev_Time ev]> (st_clients s)) (st_replicas s)
    else mkStart (st_clients s) (<[ev_ID ev := ev_Time ev]> (st_replicas s))
  end.

(** time.Time.Sub stops at the bounds of a Duration. *)
Definition time_Sub (t u : Z) : Z := Z.max (- 2 ^ 63) (Z.min (2 ^ 63 - 1) (t - u)).

Definition ClientOffset (id : N) (t : Z) (s : StartTimes) : option Z := time_Sub t <$> st_clients s !! id.
Definition ReplicaOffset (id : N) (t : Z) (s : StartTimes) : option Z := time_Sub t <$> st_replicas s !! id.

(** Sums of Durations wrap around. *)
Definition wrap_duration (z : Z) : Z := ((z + 2 ^ 63) mod 2 ^ 64 - 2 ^ 63)%Z.

Lemma wrap_duration_small z : (- 2 ^ 63 ≤ z < 2 ^ 63)%Z → wrap_duration z = z.
Proof. intros Hz. unfold wrap_duration. rewrite Z.mod_small by lia. lia. Qed.

(** ** helper.go *)

Section plotting.
(** A measurement has an event. *)
Context {Measurement : Type} (GetEvent : Measurement → Event).

Abbreviation MeasurementMap := (gmap N (list Measurement)).

Definition NewMeasurementMap : MeasurementMap := ∅.
Definition MeasurementMap_Add (id : N) (x : Measurement) (m : MeasurementMap) : MeasurementMap :=
  <[id := default [] (m !! id) ++ [x]]> m.
Definition MeasurementMap_Get (id : N) (m : MeasurementMap) : option (list Measurement) := m !! id.
Definition NumIDs (m : MeasurementMap) : nat := size m.

Record MeasurementGroup := mkGroup { g_Time : Z; g_Measurements : list Measurement }.

Context (startTimes : StartTimes) (m : MeasurementMap) (interval : Z).

(** Whether a measurement falls before [limit]. *)
Definition before (limit : Z) (x : Measurement) : bool :=
  match ClientOffset (ev_ID (GetEvent x)) (ev_Time (GetEvent x)) startTimes with
  | Some t => (t <? limit)%Z
  | None => false
  end.

(** The loop over one list: its measurements from the front on, up to the
    first that is to be processed later. *)
Fixpoint take_while (limit : Z) (xs : list Measurement) : list Measurement :=
  match xs with
  | [] => []
  | x :: xs => if before limit x then x :: take_while limit xs else []
  end.

(** The loop over the map, in the order [ids]: [i] is the position in the
    order, which is what the indices go by. *)
Fixpoint round_loop (limit : Z) (ids : list N) (i : nat) (indices : list nat) (remaining : Z)
    (group : list Measurement) : list nat * Z * list Measurement :=
  match ids with
  | [] => (indices, remaining, group)
  | id :: ids =>
    let measurements := default [] (m !! id) in
    let index := default 0 (indices !! i) in
    let taken := take_while limit (drop index measurements) in
    round_loop limit ids (S i) (<[i := index + length taken]> indices)
      (remaining + (Z.of_nat (length measurements) - Z.of_nat index)) (group ++ taken)
  end.

(** Rounds until nothing remains; [k] counts them. *)
Fixpoint group_loop (ord : nat → list N) (fuel : nat) (k : nat) (currentTime : Z) (indices : list nat)
    (groups : list MeasurementGroup) : res (list MeasurementGroup) :=
  match fuel with
  | O => NoFuel
  | S fuel =>
    let '(indices', remaining, group) := round_loop (wrap_duration (currentTime + interval)) (ord k) 0 indices 0 [] in
    let groups' := if (0 <? length group)%nat then groups ++ [mkGroup currentTime group] else groups in
    if (remaining <=? 0)%Z then Ok groups'
    else group_loop ord fuel (S k) (wrap_duration (currentTime + interval)) indices' groups'
  end.

Definition GroupByTimeInterval (ord : nat → list N) (fuel : nat) : res (list MeasurementGroup) :=
  group_loop ord fuel 0 0 (replicate (NumIDs m) 0) [].

(** ** Properties *)

Definition ms (id : N) : list Measurement := default [] (m !! id).
Definition taken_by (limit : Z) (id : N) (k : nat) : list Measurement := take_while limit (drop k (ms id)).
Definition left_of (id : N) (k : nat) : Z := (Z.of_nat (length (ms id)) - Z.of_nat k)%Z.
Definition sumZ (l : list Z) : Z := foldr Z.add 0%Z l.

(** One round in terms of the lists and the positions in them. *)
Lemma round_loop_spec limit ids idx pre remaining group :
  length idx = length ids →
  round_loop limit ids (length pre) (pre ++ idx) remaining group =
    (pre ++ zip_with (λ id k, k + length (taken_by limit id k)) ids idx,
     (remaining + sumZ (zip_with left_of ids idx))%Z,
     group ++ concat (zip_with (taken_by limit) ids idx)).
Proof.
  revert idx pre remaining group. induction ids as [|id ids IH]; intros [|k idx] pre remaining group Hl;
    try done; cbn [round_loop zip_with sumZ foldr concat].
  - by rewrite Z.add_0_r, !app_nil_r.
  - rewrite lookup_app_r, Nat.sub_diag by done. change (default 0 ((k :: idx) !! 0)) with k.
    rewrite insert_app_r_alt, Nat.sub_diag by done. change (<[0:=?x]> (k :: idx)) with (x :: idx).
    fold (ms id). fold (taken_by limit id k). fold (left_of id k).
    rewrite (cons_middle _ pre), app_assoc. rewrite <-(last_length pre (k + length (taken_by limit id k))).
    rewrite IH by (by injection Hl). rewrite <-!app_assoc. cbn [app]. do 2 f_equal. unfold sumZ. lia.
Qed.

Lemma take_while_prefix limit xs : ∃ rest, xs = take_while limit xs ++ rest.
Proof.
  induction xs as [|x xs [rest IH]]; [by exists []|]. cbn [take_while].
  destruct (before limit x); [exists rest; by rewrite IH at 1|by exists (x :: xs)].
Qed.

Lemma taken_by_take limit id k :
  k ≤ length (ms id) →
  take (k + length (taken_by limit id k)) (ms id) = take k (ms id) ++ taken_by limit id k ∧
  k + length (taken_by limit id k) ≤ length (ms id).
Proof.
  intros Hk. destruct (take_while_prefix limit (drop k (ms id))) as [rest Hrest]. fold (taken_by limit id k) in Hrest.
  assert (length (drop k (ms id)) = length (taken_by limit id k) + length rest) as Hlen
    by (rewrite Hrest at 1; apply length_app).
  rewrite length_drop in Hlen. split; [|lia].
  rewrite <-(take_drop k (ms id)) at 1. rewrite take_app_ge, length_take, Nat.min_l by (rewrite ?length_take; lia).
  f_equal. rewrite Hrest at 1. rewrite take_app_le, take_ge by lia. done.
Qed.

(** The positions are within the lists, and what was taken so far is what is
    before them. *)
Definition positions (ids : list N) (idx : list nat) : Prop := Forall2 (λ id k, k ≤ length (ms id)) ids idx.
Definition consumed (ids : list N) (idx : list nat) : list Measurement :=
  concat (zip_with (λ id k, take k (ms id)) ids idx).

Lemma round_consumed limit ids idx :
  positions ids idx →
  let idx' := zip_with (λ id k, k + length (taken_by limit id k)) ids idx in
  positions ids idx' ∧ consumed ids idx' ≡ₚ consumed ids idx ++ concat (zip_with (taken_by limit) ids idx).
Proof.
  induction 1 as [|id k ids idx Hk Hpos [IH1 IH2]]; [split; [constructor|done]|].
  destruct (taken_by_take limit id k Hk) as [H1 H2]. split; [by constructor|].
  unfold consumed in *. cbn [zip_with concat]. rewrite H1, IH2. solve_Permutation.
Qed.

Lemma sumZ_left_nonneg ids idx : positions ids idx → (0 ≤ sumZ (zip_with left_of ids idx))%Z.
Proof.
  induction 1 as [|id k ids idx Hk _ IH]; cbn [zip_with sumZ foldr]; [done|].
  fold (sumZ (zip_with left_of ids idx)). unfold left_of at 1. lia.
Qed.

(** Nothing remains exactly when every list is used up. *)
Lemma sumZ_left_zero ids idx :
  positions ids idx → (sumZ (zip_with left_of ids idx) ≤ 0)%Z → consumed ids idx = concat (ms <$> ids).
Proof.
  induction 1 as [|id k ids idx Hk Hpos IH]; [done|]. cbn [zip_with sumZ foldr].
  fold (sumZ (zip_with left_of ids idx)). pose proof (sumZ_left_nonneg _ _ Hpos). unfold left_of at 1. intros Hz.
  unfold consumed in *. rewrite fmap_cons. cbn [zip_with concat]. rewrite IH by lia. f_equal. apply take_ge. lia.
Qed.

Lemma take_while_all limit xs : Forall (λ x, before limit x = true) xs → take_while limit xs = xs.
Proof. induction 1 as [|x xs Hx _ IH]; cbn [take_while]; [done|]. by rewrite Hx, IH. Qed.

(** A round whose limit is past every measurement leaves nothing. *)
Lemma round_all limit ids idx :
  positions ids idx → Forall (λ id, Forall (λ x, before limit x = true) (ms id)) ids →
  sumZ (zip_with left_of ids (zip_with (λ id k, k + length (taken_by limit id k)) ids idx)) = 0%Z.
Proof.
  induction 1 as [|id k ids idx Hk _ IH]; intros Hall; [done|]. apply Forall_cons in Hall as [H1 Hall].
  cbn [zip_with sumZ foldr]. fold (sumZ (zip_with left_of ids (zip_with (λ id k, k + length (taken_by limit id k)) ids idx))).
  rewrite IH by done. unfold left_of, taken_by. rewrite take_while_all, length_drop by (by apply Forall_drop). lia.
Qed.

Definition measured (groups : list MeasurementGroup) : list Measurement := concat (g_Measurements <$> groups).

(** The groups after a round hold what was taken before and what it took. *)
Lemma measured_add groups t group :
  measured (if (0 <? length group)%nat then groups ++ [mkGroup t group] else groups) ≡ₚ measured groups ++ group.
Proof.
  unfold measured. destruct (Nat.ltb_spec 0 (length group)) as [|Hz].
  - rewrite fmap_app, concat_app. cbn. by rewrite app_nil_r.
  - destruct group; [by rewrite app_nil_r|cbn in Hz; lia].
Qed.

(** Every measurement is before [T]. *)
Definition bounded (ids : list N) (T : Z) : Prop :=
  Forall (λ id, Forall (λ x, ∀ limit, (T ≤ limit)%Z → before limit x = true) (ms id)) ids.

Definition advance (limit : Z) (ids : list N) (idx : list nat) : list nat :=
  zip_with (λ id k, k + length (taken_by limit id k)) ids idx.

Lemma sumZ_left_advance limit ids idx :
  (sumZ (zip_with left_of ids (advance limit ids idx)) ≤ sumZ (zip_with left_of ids idx))%Z.
Proof.
  revert idx. induction ids as [|id ids IH]; intros [|k idx]; try done.
  unfold advance, sumZ in *. cbn [zip_with foldr]. specialize (IH idx). unfold left_of at 1 3. lia.
Qed.

(** One round of the outer loop. *)
Lemma group_loop_step ord ids fuel k t idx groups :
  (∀ k, ord k = ids) → positions ids idx → measured groups ≡ₚ consumed ids idx →
  let idx' := advance (wrap_duration (t + interval)) ids idx in
  ∃ groups', positions ids idx' ∧ measured groups' ≡ₚ consumed ids idx' ∧
    group_loop ord (S fuel) k t idx groups =
      if (sumZ (zip_with left_of ids idx) <=? 0)%Z then Ok groups'
      else group_loop ord fuel (S k) (wrap_duration (t + interval)) idx' groups'.
Proof.
  intros Hord Hpos Hmeas idx'. cbn [group_loop]. unfold idx'. clear idx'. rewrite Hord.
  generalize (wrap_duration (t + interval)). intros t'.
  destruct (round_consumed t' ids idx Hpos) as [Hpos' Hcons'].
  pose proof (round_loop_spec t' ids idx [] 0 []) as Hround.
  cbn [length app] in Hround. rewrite Hround by (symmetry; by eapply Forall2_length).
  rewrite Z.add_0_l. eexists. split_and!; [exact Hpos'| |reflexivity].
  unfold advance. by rewrite measured_add, Hcons', Hmeas.
Qed.

(** [n] rounds take the limit past every measurement, before it can wrap
    around; one of them takes them all, and one more finds that nothing remains. *)
Lemma group_loop_all ord ids T n k t idx groups fuel :
  (∀ k, ord k = ids) → (0 < interval)%Z → bounded ids T → (T + interval ≤ 2 ^ 63)%Z →
  (0 ≤ t < T)%Z → (T ≤ t + Z.of_nat n * interval)%Z →
  positions ids idx → measured groups ≡ₚ consumed ids idx → n + 1 ≤ fuel →
  ∃ groups', group_loop ord fuel k t idx groups = Ok groups' ∧
    measured groups' ≡ₚ concat (ms <$> ids).
Proof.
  intros Hord Hint HT Hsmall. revert k t idx groups fuel.
  induction n as [|n IH]; intros k t idx groups fuel Ht Hn Hpos Hmeas Hfuel; [lia|].
  destruct fuel as [|fuel]; [lia|].
  destruct (group_loop_step ord ids fuel k t idx groups Hord Hpos Hmeas) as (groups1 & Hpos1 & Hmeas1 & ->).
  rewrite wrap_duration_small in * by lia.
  pose proof (sumZ_left_advance (t + interval) ids idx).
  destruct (Z.leb_spec (sumZ (zip_with left_of ids idx)) 0).
  { exists groups1. split; [done|]. rewrite Hmeas1, sumZ_left_zero by (done || lia). done. }
  destruct (Z.lt_ge_cases (t + interval) T); [apply (IH (S k)); done || lia|].
  destruct fuel as [|fuel]; [lia|].
  assert (sumZ (zip_with left_of ids (advance (t + interval) ids idx)) = 0%Z) as Hz.
  { apply round_all; [done|]. apply (Forall_impl _ _ _ HT). intros id Hid.
    apply (Forall_impl _ _ _ Hid). intros x Hx. by apply Hx. }
  destruct (group_loop_step ord ids fuel (S k) (t + interval) _ groups1 Hord Hpos1 Hmeas1)
    as (groups2 & Hpos2 & Hmeas2 & ->). rewrite Hz. exists groups2. split; [done|].
  pose proof (sumZ_left_advance (wrap_duration (t + interval + interval)) ids (advance (t + interval) ids idx)).
  rewrite Hmeas2, sumZ_left_zero by (done || lia). done.
Qed.

(** More fuel does not change a result. *)
Lemma group_loop_mono ord f1 f2 k t idx groups r1 r2 :
  group_loop ord f2 k t idx groups = Ok r2 → group_loop ord f1 k t idx groups = Ok r1 → f1 ≤ f2 → r2 = r1.
Proof.
  revert f2 k t idx groups. induction f1 as [|f1 IH]; intros [|f2] k t idx groups; cbn [group_loop]; try done.
  destruct (round_loop _ _ _ _ _ _) as [[idx' remaining] group].
  destruct (remaining <=? 0)%Z; [congruence|]. intros H2 H1 Hle. eapply IH; [exact H2|exact H1|lia].
Qed.

Lemma positions_zero ids : positions ids (replicate (length ids) 0).
Proof. induction ids; constructor; [lia|done]. Qed.

Lemma consumed_zero ids : consumed ids (replicate (length ids) 0) = [].
Proof. induction ids as [|id ids IH]; [done|]. unfold consumed in *. cbn. by rewrite IH. Qed.

(** A measurement of a client whose start is known, early enough that the
    end of its interval is a Duration. *)
Definition in_range (x : Measurement) : Prop :=
  ∃ t, ClientOffset (ev_ID (GetEvent x)) (ev_Time (GetEvent x)) startTimes = Some t ∧ (t + interval < 2 ^ 63)%Z.

Lemma bounded_in_range ids :
  (∀ id x, id ∈ ids → x ∈ ms id → in_range x) → bounded ids (2 ^ 63 - interval).
Proof.
  intros Hall. apply Forall_forall. intros id Hid. apply Forall_forall. intros x Hx limit Hl.
  destruct (Hall id x Hid Hx) as (t & Ht & ?). unfold before. rewrite Ht. apply Z.ltb_lt. lia.
Qed.

(** When the map is always visited in the same order and every
    measurement is in range of a client whose start is known, the grouping ends,
    and the groups hold every measurement exactly once. *)
Theorem Group_complete (ord : nat → list N) (ids : list N) :
  (∀ k, ord k = ids) → (0 < interval < 2 ^ 63)%Z → NoDup ids → (∀ id, id ∈ ids ↔ is_Some (m !! id)) →
  (∀ id x, id ∈ ids → x ∈ ms id → in_range x) →
  ∃ groups bound, ∀ fuel, bound ≤ fuel →
    GroupByTimeInterval ord fuel = Ok groups ∧ measured groups ≡ₚ concat (ms <$> ids).
Proof.
  intros Hord Hint Hnd Hids HT%bounded_in_range.
  assert (NumIDs m = length ids) as Hnum.
  { unfold NumIDs. rewrite <-size_dom, <-(size_list_to_set (C := gset N)) by done. f_equal.
    apply set_eq. intros id. by rewrite elem_of_dom, elem_of_list_to_set, Hids. }
  set (n := Z.to_nat (2 ^ 63 - interval)). assert (2 ^ 63 - interval ≤ Z.of_nat n)%Z as Hn by (unfold n; lia).
  clearbody n. assert (∀ fuel, n + 1 ≤ fuel → ∃ groups, GroupByTimeInterval ord fuel = Ok groups ∧
    measured groups ≡ₚ concat (ms <$> ids)) as H.
  { intros fuel Hfuel. unfold GroupByTimeInterval. rewrite Hnum.
    apply (group_loop_all ord ids (2 ^ 63 - interval) n); [done|lia|done|lia|lia|nia|apply positions_zero| |done].
    by rewrite consumed_zero. }
  destruct (H (n + 1) ltac:(lia)) as (groups & Hg & Hp). exists groups, (n + 1). intros fuel Hfuel.
  destruct (H fuel Hfuel) as (groups' & Hg' & Hp').
  assert (groups' = groups) as ->; [|done]. eapply group_loop_mono; [exact Hg'|exact Hg|done].
Qed.

Lemma positions_blocked ids idx id k i :
  positions ids idx → ids !! i = Some id → idx !! i = Some k → k < length (ms id) →
  (0 < sumZ (zip_with left_of ids idx))%Z.
Proof.
  intros Hpos. revert i. induction Hpos as [|x j ids idx Hj Hpos IH]; intros [|i] Hi Hk Hlt; simplify_eq/=.
  - pose proof (sumZ_left_nonneg _ _ Hpos). unfold left_of, sumZ in *. lia.
  - specialize (IH i Hi Hk Hlt). unfold sumZ, left_of in *. lia.
Qed.

(** A measurement of a client whose start is not known blocks the
    grouping for ever: it is never taken, so that something always remains.
    The throughput of a replica is looked up as a client's, so this happens
    whenever there are more replicas than clients. *)
Theorem Group_diverges (ord : nat → list N) (ids : list N) (id : N) (x : Measurement) (rest : list Measurement) :
  (∀ k, ord k = ids) → id ∈ ids → m !! id = Some (x :: rest) → st_clients startTimes !! ev_ID (GetEvent x) = None →
  NumIDs m = length ids →
  ∀ fuel, GroupByTimeInterval ord fuel = NoFuel.
Proof.
  intros Hord Hid Hm Hx Hnum fuel. apply list_elem_of_lookup in Hid as [i Hi].
  assert (ms id = x :: rest) as Hms by (unfold ms; by rewrite Hm).
  unfold GroupByTimeInterval. rewrite Hnum.
  enough (∀ k t idx groups, positions ids idx → idx !! i = Some 0 → measured groups ≡ₚ consumed ids idx →
    group_loop ord fuel k t idx groups = NoFuel) as H.
  { apply H; [apply positions_zero| |by rewrite consumed_zero].
    apply lookup_replicate. split; [done|]. by eapply lookup_lt_Some. }
  induction fuel as [|fuel IH]; intros k t idx groups Hpos Hk Hmeas; [done|].
  destruct (group_loop_step ord ids fuel k t idx groups Hord Hpos Hmeas) as (groups1 & Hpos1 & Hmeas1 & ->).
  pose proof (positions_blocked ids idx id 0 i Hpos Hi Hk ltac:(rewrite Hms; cbn; lia)).
  destruct (Z.leb_spec (sumZ (zip_with left_of ids idx)) 0); [lia|].
  apply IH; [done| |done]. unfold advance. rewrite lookup_zip_with, Hi, Hk. cbn.
  unfold taken_by. rewrite Hms. cbn. unfold before, ClientOffset. by rewrite Hx.
Qed.
End plotting.

(** ** The order of a map *)

(** Two clients with one measurement each, 1 and 15 ns after they started, in
    intervals of 10 ns. *)
Module PlotExample.
Definition sample : Type := N * Z.
Definition event_of (s : sample) : Event := mkEvent s.1 true s.2.
Definition started : StartTimes := mkStart {[1%N := 0%Z; 2%N := 0%Z]} ∅.
Definition samples : gmap N (list sample) :=
  MeasurementMap_Add 2 (2%N, 15%Z) (MeasurementMap_Add 1 (1%N, 1%Z) NewMeasurementMap).

Lemma Group_complete_witness :
  ∃ groups bound, ∀ fuel, bound ≤ fuel →
    GroupByTimeInterval event_of started samples 10 (λ _, [1; 2]%N) fuel = Ok groups ∧
    measured groups ≡ₚ [(1%N, 1%Z); (2%N, 15%Z)].
Proof.
  refine (Group_complete event_of started samples 10 (λ _, [1; 2]%N) [1; 2]%N (λ _, eq_refl) _ _ _ _); [lia|..].
  - apply (bool_decide_eq_true_1 (NoDup [1; 2]%N)). reflexivity.
  - intros id. unfold samples, MeasurementMap_Add. rewrite !elem_of_cons, elem_of_nil.
    destruct (decide (id = 2%N)) as [->|H2]; [rewrite lookup_insert_eq; naive_solver|].
    rewrite lookup_insert_ne by done.
    destruct (decide (id = 1%N)) as [->|H1]; [rewrite lookup_insert_eq; naive_solver|].
    rewrite lookup_insert_ne by done. unfold NewMeasurementMap. rewrite lookup_empty.
    split; [naive_solver|by intros [? ?]].
  - intros id x Hid. rewrite !elem_of_cons, elem_of_nil in Hid.
    destruct Hid as [->|[->|[]]]; intros Hx; (apply list_elem_of_singleton in Hx as ->); eexists; (split; [reflexivity|vm_compute; reflexivity]).
Defined.

Lemma Group_diverges_witness :
  GroupByTimeInterval event_of (mkStart {[1%N := 0%Z]} ∅) samples 10 (λ _, [1; 2]%N) 1000 = NoFuel.
Proof.
  apply (Group_diverges event_of (mkStart {[1%N := 0%Z]} ∅) samples 10 (λ _, [1; 2]%N) [1; 2]%N 2 (2%N, 15%Z) []).
  - done.
  - right. left.
  - reflexivity.
  - reflexivity.
  - reflexivity.
Defined.

(** The positions are kept by the place of a client in the order of the
    map, which Go changes from one round to the next: a measurement can be
    counted twice, and another not at all. *)
Theorem Group_order_matters :
  GroupByTimeInterval event_of started samples 10 (λ k, if Nat.even k then [1; 2] else [2; 1])%N 5 =
    Ok [mkGroup 0 [(1%N, 1%Z)]; mkGroup 10 [(1%N, 1%Z)]].
Proof. vm_compute. reflexivity. Qed.
End PlotExample.
