(* ===== verification/MetricsLog.v ===== *)
(** * modules/datalogger.go and metrics/plotting/reader.go: the measurement log

    A run writes its measurements as a JSON array, and the plotting tool reads
    them back.  protojson and the Any messages are a parameter; the part of
    encoding/json that the reader uses, the decoder of a token stream, is
    modelled on the bytes. *)

From S2P Require Import Prelude Pem.
From Stdlib Require Import Strings.Byte.

(** ** JSON texts *)

Definition is_space (c : Byte.byte) : bool :=
  bool_decide (c = x20) || bool_decide (c = x09) || bool_decide (c = x0a) || bool_decide (c = x0d).
Fixpoint skip_space (s : bytes) : bytes :=
  match s with c :: s' => if is_space c then skip_space s' else s | [] => [] end.

Definition is_digit (c : Byte.byte) : bool := (48 <=? Byte.to_N c)%N && (Byte.to_N c <=? 57)%N.
Definition is_hex (c : Byte.byte) : bool :=
  let n := Byte.to_N c in
  is_digit c || (65 <=? n)%N && (n <=? 70)%N || (97 <=? n)%N && (n <=? 102)%N.
Fixpoint skip_digits (s : bytes) : bytes :=
  match s with c :: s' => if is_digit c then skip_digits s' else s | [] => [] end.

(** At least one digit. *)
Definition scan_digits (s : bytes) : option bytes :=
  match s with c :: s' => if is_digit c then Some (skip_digits s') else None | [] => None end.

Definition scan_exponent (s : bytes) : option bytes :=
  match s with
  | c :: s' =>
    if bool_decide (c = x65) || bool_decide (c = x45) then
      match s' with
      | d :: s'' => if bool_decide (d = x2b) || bool_decide (d = x2d) then scan_digits s'' else scan_digits s'
      | [] => None
      end
    else Some s
  | [] => Some s
  end.
Definition scan_fraction (s : bytes) : option bytes :=
  match s with
  | c :: s' => if bool_decide (c = x2e) then r ← scan_digits s'; scan_exponent r else scan_exponent s
  | [] => Some s
  end.
Definition scan_number (s : bytes) : option bytes :=
  match (match s with x2d :: s' => s' | _ => s end) with
  | x30 :: s' => scan_fraction s'
  | c :: s' => if is_digit c then scan_fraction (skip_digits s') else None
  | [] => None
  end.

(** What follows the opening quote of a string. *)
Fixpoint scan_string (s : bytes) : option bytes :=
  match s with
  | [] => None
  | x22 :: s => Some s
  | x5c :: e :: s =>
    if bool_decide (e ∈ [x22; x5c; x2f; x62; x66; x6e; x72; x74]) then scan_string s
    else if bool_decide (e = x75) then
      match s with
      | a :: b :: c :: d :: s => if is_hex a && is_hex b && is_hex c && is_hex d then scan_string s else None
      | _ => None
      end
    else None
  | c :: s => if (Byte.to_N c <? 32)%N || bool_decide (c = x5c) then None else scan_string s
  end.

(** The members of an object and the elements of an array, given the scanner of
    a value: a name and its value, and what follows a member or an element. *)
Section scan.
Context (value : bytes → option bytes).

Definition scan_pair (s : bytes) : option bytes :=
  match skip_space s with
  | x22 :: s =>
    r ← scan_string s;
    match skip_space r with
    | x3a :: r => value (skip_space r)
    | _ => None
    end
  | _ => None
  end.

Fixpoint scan_members (k : nat) (s : bytes) : option bytes :=
  match skip_space s with
  | x7d :: s => Some s
  | x2c :: s => match k with O => None | S k => r ← scan_pair s; scan_members k r end
  | _ => None
  end.

Fixpoint scan_elements (k : nat) (s : bytes) : option bytes :=
  match skip_space s with
  | x5d :: s => Some s
  | x2c :: s => match k with O => None | S k => r ← value (skip_space s); scan_elements k r end
  | _ => None
  end.
End scan.

(** A value at the start of the input; the result is what follows it. *)
Fixpoint scan_value (fuel : nat) (s : bytes) : option bytes :=
  match fuel with
  | O => None
  | S fuel =>
    match s with
    | x7b :: s =>
      let s := skip_space s in
      if bool_decide (head s = Some x7d) then Some (tail s)
      else r ← scan_pair (scan_value fuel) s; scan_members (scan_value fuel) fuel r
    | x5b :: s =>
      let s := skip_space s in
      if bool_decide (head s = Some x5d) then Some (tail s)
      else r ← scan_value fuel s; scan_elements (scan_value fuel) fuel r
    | x22 :: s => scan_string s
    | c :: _ =>
      if is_digit c || bool_decide (c = x2d) then scan_number s
      else match after_prefix (str "true") s with
           | Some r => Some r
           | None =>
             match after_prefix (str "false") s with
             | Some r => Some r
             | None => after_prefix (str "null") s
             end
           end
    | [] => None
    end
  end.

Example scans : scan_value 30 (str "[1, -2.5e+3, {}, [ true,null] ] , x") = Some (str " , x").
Proof. vm_compute. reflexivity. Qed.

(** ** datalogger.go *)

(** An io.Writer: what was written, and for the writes to come how much of one
    arrives before it fails. *)
Record writer := mkWriter { w_out : bytes; w_faults : list (option nat) }.

(** False when the write fails. *)
Definition Write (b : bytes) (w : writer) : bool * writer :=
  match w_faults w with
  | Some k :: faults => (false, mkWriter (w_out w ++ take k b) faults)
  | None :: faults => (true, mkWriter (w_out w ++ b) faults)
  | [] => (true, mkWriter (w_out w ++ b) [])
  end.

(** protojson of Any messages: [Marshal] with the logger's options, [Unmarshal]
    followed by UnmarshalNew, and anypb.New. *)
Class JSONLib (Msg : Type) := {
  Any : Type;
  New : Msg → option Any;
  Marshal : Any → option bytes;
  Unmarshal : bytes → option Msg;
}.

(** What is documented of it: the output is a JSON object, from which the
    message is recovered. *)
Class JSONLaws (Msg : Type) `{JSONLib Msg} := {
  Marshal_object any b : Marshal any = Some b → ∃ b', b = x7b :: b';
  Marshal_scan any b fuel t : Marshal any = Some b → length b ≤ fuel → scan_value fuel (b ++ t) = Some t;
  Unmarshal_Marshal m any b : New m = Some any → Marshal any = Some b → Unmarshal b = Some m;
}.

Section log.
Context {Msg : Type} {JL : JSONLib Msg}.

Record jsonLogger := mkLogger { dl_wr : writer; dl_first : bool }.

Definition NewJSONLogger (wr : writer) : option jsonLogger :=
  let '(ok, wr) := Write (str "[" ++ [x0a]) wr in
  if ok then Some (mkLogger wr true) else None.

(** The separator is written before the message is marshalled. *)
Definition write (msg : Any) (dl : jsonLogger) : bool * jsonLogger :=
  let '(ok, dl) :=
    if dl_first dl then (true, mkLogger (dl_wr dl) false)
    else let '(ok, wr) := Write (str "," ++ [x0a]) (dl_wr dl) in (ok, mkLogger wr false) in
  if negb ok then (false, dl)
  else
    match Marshal msg with
    | None => (false, dl)
    | Some b => let '(ok, wr) := Write b (dl_wr dl) in (ok, mkLogger wr (dl_first dl))
    end.

(** The flag says whether the message was logged; the code prints the error. *)
Definition Log (msg : Msg) (dl : jsonLogger) : bool * jsonLogger :=
  match New msg with
  | None => (false, dl)
  | Some any => write any dl
  end.

Definition Close (dl : jsonLogger) : bool * jsonLogger :=
  let '(ok, wr) := Write ([x0a] ++ str "]") (dl_wr dl) in (ok, mkLogger wr (dl_first dl)).

(** A log of messages, from the start to the end. *)
Definition log_all (msgs : list Msg) (dl : jsonLogger) : jsonLogger := foldl (λ dl m, (Log m dl).2) dl msgs.
Definition log_file (msgs : list Msg) : bytes :=
  match NewJSONLogger (mkWriter [] []) with
  | Some dl => w_out (dl_wr (Close (log_all msgs dl)).2)
  | None => []
  end.

(** ** encoding/json: Decoder *)

(** The token state, in the array that the reader is in. *)
Inductive tokenState := tokenArrayStart | tokenArrayValue | tokenArrayComma.

Record Decoder := mkDecoder { dec_buf : bytes; dec_state : tokenState }.

(** The next byte that is not a space. *)
Definition peek (dec : Decoder) : option Byte.byte := head (skip_space (dec_buf dec)).
Definition More (dec : Decoder) : bool :=
  match peek dec with Some c => negb (bool_decide (c = x5d)) && negb (bool_decide (c = x7d)) | None => false end.

(** [Decode] into a RawMessage: in the middle of an array a comma comes first,
    then a value, whose text is the result. *)
Definition Decode_raw (dec : Decoder) : option (bytes * Decoder) :=
  buf ← match dec_state dec with
        | tokenArrayComma => match skip_space (dec_buf dec) with x2c :: s => Some s | _ => None end
        | _ => Some (dec_buf dec)
        end;
  let s := skip_space buf in
  rest ← scan_value (S (length s)) s;
  Some (take (length s - length rest) s, mkDecoder rest tokenArrayComma).

(** ** reader.go *)

Inductive read_error := ErrFirstToken | ErrDecode | ErrMessage | ErrLastToken.

(** The plotters get every message that is read, in order: the result is the
    list of them and the error, if any.  Each turn consumes input. *)
Fixpoint read_loop (fuel : nat) (dec : Decoder) (acc : list Msg) : res (list Msg * option read_error) :=
  match fuel with
  | O => NoFuel
  | S fuel =>
    if More dec then
      match Decode_raw dec with
      | None => Ok (acc, Some ErrDecode)
      | Some (b, dec) =>
        match Unmarshal b with
        | None => Ok (acc, Some ErrMessage)
        | Some m => read_loop fuel dec (acc ++ [m])
        end
      end
    else
      Ok (acc, match peek dec with
               | Some x5d => None
               | _ => Some ErrLastToken
               end)
  end.

Definition ReadAll (rd : bytes) : res (list Msg * option read_error) :=
  match skip_space rd with
  | x5b :: s => read_loop (S (length s)) (mkDecoder s tokenArrayStart) []
  | _ => Ok ([], Some ErrFirstToken)
  end.
End log.

(** ** Scanning consumes input *)

Lemma skip_space_le s : length (skip_space s) ≤ length s.
Proof. induction s as [|c s IH]; cbn; [done|]. destruct (is_space c); cbn; lia. Qed.
Lemma skip_digits_le s : length (skip_digits s) ≤ length s.
Proof. induction s as [|c s IH]; cbn; [done|]. destruct (is_digit c); cbn; lia. Qed.

Lemma scan_digits_lt s r : scan_digits s = Some r → length r < length s.
Proof.
  destruct s as [|c s]; cbn [scan_digits]; [done|]. destruct (is_digit c); [|done]. intros [= <-].
  pose proof (skip_digits_le s). cbn. lia.
Qed.

Lemma scan_exponent_le s r : scan_exponent s = Some r → length r ≤ length s.
Proof.
  unfold scan_exponent. destruct s as [|c s]; [by intros [= <-]|]. destruct (_ || _); [|by intros [= <-]].
  destruct s as [|d s]; [done|]. destruct (_ || _); intros H%scan_digits_lt; cbn in *; lia.
Qed.

Lemma scan_fraction_le s r : scan_fraction s = Some r → length r ≤ length s.
Proof.
  unfold scan_fraction. destruct s as [|c s]; [by intros [= <-]|]. case_bool_decide; [|apply scan_exponent_le].
  destruct (scan_digits s) as [r'|] eqn:E; [cbn|done]. apply scan_digits_lt in E. intros ?%scan_exponent_le. lia.
Qed.

Lemma scan_number_lt s r : scan_number s = Some r → length r < length s.
Proof.
  unfold scan_number. set (s0 := match s with x2d :: s' => s' | _ => s end).
  assert (length s0 ≤ length s) as H0 by (unfold s0; destruct s as [|[] s]; cbn; lia). clearbody s0.
  destruct s0 as [|c s0]; [done|]. pose proof (skip_digits_le s0).
  destruct (decide (c = x30)) as [->|Hc]; [intros H1%scan_fraction_le; cbn in H0; lia|].
  assert ((match c :: s0 with x30 :: s' => scan_fraction s'
           | c0 :: s' => if is_digit c0 then scan_fraction (skip_digits s') else None | [] => None end) =
          (if is_digit c then scan_fraction (skip_digits s0) else None)) as -> by (by destruct c).
  destruct (is_digit c); [|done]. intros H1%scan_fraction_le. cbn in H0. lia.
Qed.

Lemma scan_string_lt s r : scan_string s = Some r → length r < length s.
Proof.
  remember (length s) as k eqn:Hk. revert s Hk. induction k as [k IH] using lt_wf_ind. intros s -> H.
  assert (∀ s', length s' < length s → scan_string s' = Some r → length r < length s) as Hrec.
  { intros s' Hlt Hs'. specialize (IH _ Hlt s' eq_refl Hs'). lia. }
  destruct s as [|c s]; [done|]. destruct (decide (c = x22)) as [->|Hq]; [injection H as <-; cbn; lia|].
  destruct (decide (c = x5c)) as [->|Hb].
  - destruct s as [|e s]; [done|]. cbn [scan_string] in H. case_bool_decide; [apply (Hrec s); [cbn; lia|done]|].
    case_bool_decide; [|done]. destruct s as [|a [|b [|c [|d s]]]]; try done.
    destruct (_ && _); [|done]. apply (Hrec s); [cbn; lia|done].
  - assert (scan_string (c :: s) = if (Byte.to_N c <? 32)%N || bool_decide (c = x5c) then None else scan_string s)
      as Heq by (by destruct c). rewrite Heq in H. destruct (_ || _); [done|]. apply (Hrec s); [cbn; lia|done].
Qed.

Lemma skip_space_cons s c r : skip_space s = c :: r → length r < length s.
Proof. intros H. pose proof (skip_space_le s) as Hl. rewrite H in Hl. cbn in Hl. lia. Qed.

Section scan_lt.
Context (value : bytes → option bytes) (Hvalue : ∀ s r, value s = Some r → length r < length s).

Lemma scan_pair_lt s r : scan_pair value s = Some r → length r < length s.
Proof using Hvalue.
  unfold scan_pair. pose proof (skip_space_le s) as H0. destruct (skip_space s) as [|c s1] eqn:E; [done|].
  destruct c; try done. destruct (scan_string s1) as [r1|] eqn:E1; [cbn [mbind option_bind]|done].
  apply scan_string_lt in E1. pose proof (skip_space_le r1) as H2. destruct (skip_space r1) as [|c2 r2]; [done|].
  destruct c2; try done. pose proof (skip_space_le r2) as H3. intros H4%Hvalue. cbn in *. lia.
Qed.

Lemma scan_members_lt k s r : scan_members value k s = Some r → length r < length s.
Proof using Hvalue.
  revert s. induction k as [|k IH]; intros s; cbn [scan_members]; pose proof (skip_space_le s) as H0;
    destruct (skip_space s) as [|c s1]; try done; destruct c; try done; cbn in H0.
  - intros [= <-]. lia.
  - destruct (scan_pair value s1) as [r1|] eqn:E; [cbn|done]. apply scan_pair_lt in E. intros ?%IH. lia.
  - intros [= <-]. lia.
Qed.

Lemma scan_elements_lt k s r : scan_elements value k s = Some r → length r < length s.
Proof using Hvalue.
  revert s. induction k as [|k IH]; intros s; cbn [scan_elements]; pose proof (skip_space_le s) as H0;
    destruct (skip_space s) as [|c s1]; try done; destruct c; try done; cbn in H0.
  - intros [= <-]. lia.
  - pose proof (skip_space_le s1). destruct (value (skip_space s1)) as [r1|] eqn:E; [cbn|done].
    apply Hvalue in E. intros ?%IH. lia.
  - intros [= <-]. lia.
Qed.
End scan_lt.

Lemma after_prefix_le p s r : after_prefix p s = Some r → length s = length p + length r.
Proof. intros ->%after_prefix_eq. apply length_app. Qed.

Lemma scan_value_lt fuel s r : scan_value fuel s = Some r → length r < length s.
Proof.
  revert s r. induction fuel as [|fuel IH]; intros s r; cbn [scan_value]; [done|].
  destruct s as [|c s]; [done|].
  assert (scan_number (c :: s) = Some r → length r < length (c :: s)) as Hnum by apply scan_number_lt.
  assert (match after_prefix (str "true") (c :: s) with
          | Some r => Some r
          | None => match after_prefix (str "false") (c :: s) with
                    | Some r => Some r | None => after_prefix (str "null") (c :: s) end
          end = Some r → length r < length (c :: s)) as Hlit.
  { intros H. destruct (after_prefix (str "true") (c :: s)) as [r1|] eqn:E1.
    { injection H as <-. apply after_prefix_le in E1. rewrite E1. cbn. lia. }
    destruct (after_prefix (str "false") (c :: s)) as [r1|] eqn:E2.
    { injection H as <-. apply after_prefix_le in E2. rewrite E2. cbn. lia. }
    apply after_prefix_le in H. rewrite H. cbn. lia. }
  pose proof (skip_space_le s) as Hs.
  destruct (decide (c = x7b)) as [->|]; [|destruct (decide (c = x5b)) as [->|]; [|destruct (decide (c = x22)) as [->|]]].
  - case_bool_decide as Hh; [intros [= <-]; destruct (skip_space s); [done|cbn in *; lia]|].
    destruct (scan_pair _ _) as [r1|] eqn:E1; [cbn [mbind option_bind]|done].
    apply (scan_pair_lt _ IH) in E1. intros H%(scan_members_lt _ IH). cbn in *. lia.
  - case_bool_decide as Hh; [intros [= <-]; destruct (skip_space s); [done|cbn in *; lia]|].
    destruct (scan_value _ _) as [r1|] eqn:E1; [cbn [mbind option_bind]|done].
    apply IH in E1. intros H%(scan_elements_lt _ IH). cbn in *. lia.
  - intros H%scan_string_lt. cbn. lia.
  - assert (∀ X Y Z W : option bytes, match c with x7b => X | x5b => Y | x22 => Z | _ => W end = W) as Hc
      by (intros; by destruct c).
    rewrite Hc. destruct (_ || _); [done|]. done.
Qed.

(** ** Properties *)

Section log_facts.
Context {Msg : Type} {JL : JSONLib Msg} {LL : JSONLaws Msg}.

(** Every turn of the reader consumes input, so it stops. *)
Lemma read_loop_returns fuel dec (acc : list Msg) :
  length (dec_buf dec) < fuel → ∃ r, read_loop fuel dec acc = Ok r.
Proof.
  revert dec acc. induction fuel as [|fuel IH]; intros dec acc Hf; [lia|]. cbn [read_loop].
  destruct (More dec); [|by eexists]. destruct (Decode_raw dec) as [[b dec']|] eqn:E; [|by eexists].
  destruct (Unmarshal b); [|by eexists]. apply IH. unfold Decode_raw in E.
  set (buf := match dec_state dec with tokenArrayComma => _ | _ => _ end) in E.
  assert (∀ s, buf = Some s → length s ≤ length (dec_buf dec)) as Hbuf.
  { intros s. unfold buf. destruct (dec_state dec); [by intros [= <-]..|].
    pose proof (skip_space_le (dec_buf dec)). destruct (skip_space (dec_buf dec)) as [|[] s']; try done.
    intros [= <-]. cbn in *. lia. }
  destruct buf as [s|]; [cbn [mbind option_bind] in E|done]. specialize (Hbuf s eq_refl).
  destruct (scan_value _ _) as [rest|] eqn:Hv; [cbn [mbind option_bind] in E|done].
  apply scan_value_lt in Hv. pose proof (skip_space_le s). injection E as _ <-. cbn [dec_buf]. lia.
Qed.

(** Reading a log returns for every input, whatever it contains. *)
Theorem ReadAll_returns (rd : bytes) : ∃ r, ReadAll (Msg := Msg) rd = Ok r.
Proof.
  unfold ReadAll. destruct (skip_space rd) as [|c s]; [by eexists|].
  destruct (decide (c = x5b)) as [->|]; [apply read_loop_returns; cbn; lia|].
  assert (∀ X Y : res (list Msg * option read_error), match c with x5b => X | _ => Y end = Y) as -> by (intros; by destruct c).
  by eexists.
Qed.

(** The messages of the array, up to [rest]. *)
Fixpoint log_text (rest : bytes) (first : bool) (bs : list bytes) : bytes :=
  match bs with
  | [] => rest
  | b :: bs => (if first then [] else [x2c; x0a]) ++ b ++ log_text rest false bs
  end.

(** [b] is the text of [m]. *)
Definition encodes (m : Msg) (b : bytes) : Prop := ∃ any, New m = Some any ∧ Marshal any = Some b.

Lemma Log_ok m b o first :
  encodes m b → Log m (mkLogger (mkWriter o []) first) =
    (true, mkLogger (mkWriter (o ++ (if first then [] else [x2c; x0a]) ++ b) []) false).
Proof.
  intros (any & Hn & Hm). unfold Log. rewrite Hn. unfold write. cbn [dl_first dl_wr].
  destruct first; cbn [negb Write w_faults w_out]; rewrite Hm; cbn; by rewrite <-?app_assoc.
Qed.

Lemma log_text_app rest first bs : log_text rest first bs = log_text [] first bs ++ rest.
Proof.
  revert first. induction bs as [|b bs IH]; intros first; cbn [log_text]; [done|]. by rewrite IH, <-!app_assoc.
Qed.

(** Nothing was logged yet. *)
Definition fresh_log {A} (first : bool) (l : list A) : bool := first && (length l =? 0)%nat.

Lemma log_all_text first o msgs bs later :
  Forall2 encodes msgs bs →
  log_all (msgs ++ later) (mkLogger (mkWriter o []) first) =
    log_all later (mkLogger (mkWriter (o ++ log_text [] first bs) []) (fresh_log first bs)).
Proof.
  intros H. revert first o. induction H as [|m b msgs bs Hmb _ IH]; intros first o; cbn [app log_text].
  - rewrite app_nil_r. unfold fresh_log. by rewrite andb_true_r.
  - change (log_all (m :: msgs ++ later)) with (λ dl, log_all (msgs ++ later) (Log m dl).2). cbv beta.
    rewrite (Log_ok m b) by done. cbn [snd]. rewrite IH. unfold fresh_log. cbn [andb length Nat.eqb].
    rewrite andb_false_r. by rewrite <-!app_assoc.
Qed.

Lemma length_log_text msgs bs rest first : Forall2 encodes msgs bs → length msgs ≤ length (log_text rest first bs).
Proof.
  intros H. revert first. induction H as [|m b msgs bs (any & _ & Hm) _ IH]; intros first; cbn [log_text length]; [lia|].
  destruct (Marshal_object any b Hm) as [b' ->]. specialize (IH false). rewrite !length_app. cbn. lia.
Qed.

(** One turn of the reader, at a message that was logged.  [pre] is the line
    break after the bracket, or the separator. *)
Lemma Decode_message m b t st pre :
  encodes m b → (st = tokenArrayStart ∧ pre = [x0a] ∨ st = tokenArrayComma ∧ pre = [x2c; x0a]) →
  let dec := mkDecoder (pre ++ b ++ t) st in
  More dec = true ∧ Decode_raw dec = Some (b, mkDecoder t tokenArrayComma) ∧ Unmarshal b = Some m.
Proof.
  intros (any & Hn & Hm) Hst dec. destruct (Marshal_object any b Hm) as [b' Hb'].
  pose proof (Marshal_scan any b (S (length (b ++ t))) t Hm ltac:(rewrite length_app; lia)) as Hscan.
  assert (skip_space (b ++ t) = b ++ t) as Hskip by (by rewrite Hb').
  assert (take (length (b ++ t) - length t) (b ++ t) = b) as Htake.
  { rewrite length_app, Nat.add_sub. apply take_app_length. }
  split_and!; [| |by eapply Unmarshal_Marshal].
  - unfold More, peek, dec. cbn [dec_buf]. destruct Hst as [[_ ->]|[_ ->]]; cbn [app skip_space]; [|done].
    change (is_space x0a) with true. cbv iota. rewrite Hskip, Hb'. done.
  - unfold Decode_raw, dec. cbn [dec_state dec_buf].
    destruct Hst as [[-> ->]|[-> ->]]; cbn [app skip_space mbind option_bind];
      change (is_space x2c) with false; cbv iota; cbn [mbind option_bind skip_space];
      change (is_space x0a) with true; cbv iota; rewrite Hskip, Hscan; cbn [mbind option_bind]; by rewrite Htake.
Qed.

(** Where the reader is, before the first message and after one. *)
Definition at_array (first : bool) (rest : bytes) : Decoder :=
  if first then mkDecoder (x0a :: rest) tokenArrayStart else mkDecoder rest tokenArrayComma.

(** The reader passes over messages that were logged. *)
Lemma read_text msgs bs k rest acc first :
  Forall2 encodes msgs bs →
  read_loop (length msgs + k) (at_array first (log_text rest first bs)) acc =
    read_loop k (at_array (fresh_log first bs) rest) (acc ++ msgs).
Proof.
  intros H. revert acc first. induction H as [|m b msgs bs Hmb _ IH]; intros acc first.
  - unfold fresh_log. cbn. by rewrite andb_true_r, app_nil_r.
  - cbn [log_text length Nat.add]. set (t := log_text rest false bs).
    destruct (Decode_message m b t (if first then tokenArrayStart else tokenArrayComma)
      (if first then [x0a] else [x2c; x0a]) Hmb) as (H1 & H2 & H3); [destruct first; auto|].
    replace (at_array first ((if first then [] else [x2c; x0a]) ++ b ++ t))
      with (mkDecoder ((if first then [x0a] else [x2c; x0a]) ++ b ++ t)
              (if first then tokenArrayStart else tokenArrayComma)) by (by destruct first).
    cbn [read_loop]. rewrite H1, H2, H3. specialize (IH (acc ++ [m]) false). unfold fresh_log in *.
    cbn [andb] in IH. cbn [length Nat.eqb]. rewrite andb_false_r. unfold at_array at 1 in IH. fold t in IH.
    rewrite IH. by rewrite <-app_assoc.
Qed.

Lemma ReadAll_text msgs bs rest :
  Forall2 encodes msgs bs → rest ≠ [] → ∃ k,
  ReadAll (x5b :: x0a :: log_text rest true bs) = read_loop (S k) (at_array (fresh_log true bs) rest) msgs.
Proof.
  intros H Hrest. pose proof (length_log_text _ _ [] true H) as Hlen. unfold ReadAll. cbn [skip_space].
  change (is_space x5b) with false. cbv iota. rewrite log_text_app.
  exists (S (length (log_text [] true bs) - length msgs + length rest)).
  replace (S (length (x0a :: log_text [] true bs ++ rest)))
    with (length msgs + S (S (length (log_text [] true bs) - length msgs + length rest))) by (rewrite length_cons, length_app; lia).
  rewrite <-log_text_app. change (mkDecoder (x0a :: log_text rest true bs) tokenArrayStart) with (at_array true (log_text rest true bs)).
  rewrite read_text by done. done.
Qed.

(** What is logged is read.  When every message can be encoded and no write
    fails, reading the finished log gives the messages to the plotters in the
    order they were logged, without an error. *)
Theorem log_roundtrip (msgs : list Msg) (bs : list bytes) :
  Forall2 encodes msgs bs → ReadAll (log_file msgs) = Ok (msgs, None).
Proof.
  intros H. assert (log_file msgs = x5b :: x0a :: log_text [x0a; x5d] true bs) as ->.
  { unfold log_file. cbn [NewJSONLogger Write w_faults w_out]. rewrite <-(app_nil_r msgs), (log_all_text _ _ _ _ [] H).
    rewrite (log_text_app [x0a; x5d]). done. }
  destruct (ReadAll_text msgs bs [x0a; x5d] H) as [k ->]; [done|]. by destruct (fresh_log true bs).
Qed.

(** What is written after the first message starts with a separator or closes
    the array. *)
Lemma Log_grows m dl :
  dl_first dl = false → w_faults (dl_wr dl) = [] →
  let dl' := (Log m dl).2 in
  dl_first dl' = false ∧ w_faults (dl_wr dl') = [] ∧
  (w_out (dl_wr dl') = w_out (dl_wr dl) ∨ ∃ t, w_out (dl_wr dl') = w_out (dl_wr dl) ++ x2c :: t).
Proof.
  destruct dl as [[o f] fst]. cbn [dl_first dl_wr w_faults w_out]. intros -> ->. unfold Log.
  destruct (New m) as [any|]; [|by auto]. unfold write. cbn. destruct (Marshal any) as [b|]; cbn.
  - split_and!; [done..|right]. rewrite <-app_assoc. by eexists.
  - split_and!; [done..|right]. by eexists.
Qed.

Lemma log_all_grows msgs dl :
  dl_first dl = false → w_faults (dl_wr dl) = [] →
  ∃ c t, w_out (dl_wr (Close (log_all msgs dl)).2) = w_out (dl_wr dl) ++ c :: t ∧
    (c = x2c ∨ c = x0a ∧ t = [x5d]).
Proof.
  revert dl. induction msgs as [|m msgs IH]; intros dl Hf Hw.
  - exists x0a, [x5d]. destruct dl as [[o f] fst]. cbn in *. subst f. split; [done|auto].
  - change (log_all (m :: msgs) dl) with (log_all msgs (Log m dl).2).
    destruct (Log_grows m dl Hf Hw) as (Hf' & Hw' & Ho). destruct (IH _ Hf' Hw') as (c & t & Ht & Hc).
    destruct Ho as [Ho|[t' Ho]]; rewrite Ho in Ht; [by exists c, t|].
    rewrite <-app_assoc in Ht. exists x2c, (t' ++ c :: t). split; [done|auto].
Qed.

(** A message that cannot be encoded spoils the log: the separator before it is
    written, and the reader stops there, so that none of the later messages are
    plotted. *)
Theorem log_spoiled (good : list Msg) (bs : list bytes) (bad : Msg) (any : Any) (later : list Msg) :
  Forall2 encodes good bs → good ≠ [] → New bad = Some any → Marshal any = None →
  ReadAll (log_file (good ++ bad :: later)) = Ok (good, Some ErrDecode).
Proof.
  intros Hgood Hne Hnew Hbad.
  assert (fresh_log true bs = false) as Hfresh by (by destruct Hgood).
  assert (∃ c t, log_file (good ++ bad :: later) = x5b :: x0a :: log_text (x2c :: x0a :: c :: t) true bs ∧
    (c = x2c ∨ c = x0a ∧ t = [x5d])) as (c & t & -> & Hc).
  { unfold log_file. cbn [NewJSONLogger Write w_faults w_out]. rewrite (log_all_text _ _ _ _ _ Hgood), Hfresh.
    set (o := ([] ++ str "[" ++ [x0a]) ++ log_text [] true bs).
    change (log_all (bad :: later)) with (λ dl, log_all later (Log bad dl).2). cbv beta.
    assert ((Log bad (mkLogger (mkWriter o []) false)).2 = mkLogger (mkWriter (o ++ [x2c; x0a]) []) false) as ->.
    { unfold Log. rewrite Hnew. unfold write. cbn. by rewrite Hbad. }
    destruct (log_all_grows later (mkLogger (mkWriter (o ++ [x2c; x0a]) []) false) eq_refl eq_refl) as (c & t & Ht & Hc).
    exists c, t. split; [|done]. rewrite Ht. cbn [dl_wr w_out]. rewrite (log_text_app (x2c :: x0a :: c :: t)). unfold o.
    by rewrite <-!app_assoc. }
  destruct (ReadAll_text good bs (x2c :: x0a :: c :: t) Hgood) as [k ->]; [done|]. rewrite Hfresh.
  assert (Decode_raw (at_array false (x2c :: x0a :: c :: t)) = None) as Hd.
  { destruct Hc as [->|[-> ->]]; reflexivity. }
  cbn [read_loop]. by rewrite Hd.
Qed.
End log_facts.

(** ** A log of two messages *)

Module LogExample.
(** A message is a flag; [None] cannot be encoded. *)
#[local] Instance FlagJSON : JSONLib (option bool) := {|
  Any := option bool;
  New := Some;
  Marshal a := b ← a; Some (if b : bool then str "{}" else str "{ }");
  Unmarshal b := Some (Some (bool_decide (length b = 2)));
|}.

#[local] Instance FlagJSON_laws : JSONLaws (option bool).
Proof.
  split.
  - intros [[]|] b; [intros [= <-]..|done]; by eexists.
  - intros [[]|] b fuel t; [intros [= <-]..|done]; intros Hf; (destruct fuel as [|fuel]; [cbn in Hf; lia|]); done.
  - intros m any b [= <-]. destruct m as [[]|]; [intros [= <-]..|done]; done.
Qed.

Lemma log_roundtrip_witness : ReadAll (log_file [Some true; Some false]) = Ok ([Some true; Some false], None).
Proof.
  apply (log_roundtrip (JL := FlagJSON) [Some true; Some false] [str "{}"; str "{ }"]).
  repeat constructor; by eexists.
Defined.

Lemma log_spoiled_witness :
  ReadAll (log_file ([Some true] ++ None :: [Some false])) = Ok ([Some true], Some ErrDecode).
Proof.
  apply (log_spoiled (JL := FlagJSON) [Some true] [str "{}"] None None [Some false]); [|discriminate|reflexivity|reflexivity].
  repeat constructor; by eexists.
Defined.
End LogExample.
