(* ===== verification/Plots.v ===== *)
(** * metrics/plotting: the plots

    What each plot keeps of the measurements it is given (clientlatency.go,
    throughput.go, throughputvslatency.go), the points it computes from the
    groups of [Plotting], and the CSV file it writes (helper.go).  Numbers are
    those of any arithmetic of [Metrics]; the library that draws is not
    modelled. *)

From S2P Require Import Prelude Metrics Plotting Pem.
From Stdlib Require Import QArith Qfield Lqa Strings.Byte.
#[local] Open Scope Z_scope.

Section plots.
Context {A : Arith}.

(** The messages of the log: those of metrics/types, all of which have an
    event, and any others. *)
Inductive message :=
| MStart (ev : Event)
| MThroughput (ev : Event) (commits commands : N) (duration : Z)
| MLatency (ev : Event) (latency variance : number) (count : N)
| MTimeouts (ev : Event) (views timeouts : N)
| MOther.

Definition no_event : Event := mkEvent 0 false 0.
Definition GetEvent (m : message) : Event :=
  match m with
  | MStart ev | MThroughput ev _ _ _ | MLatency ev _ _ _ | MTimeouts ev _ _ => ev
  | MOther => no_event
  end.
Definition start_event (m : message) : option Event := match m with MStart ev => Some ev | _ => None end.

(** The fields of the three plots. *)
Record plot := mkPlot { startTimes : StartTimes; measurements : gmap N (list message) }.
Definition NewPlot : plot := mkPlot NewStartTimes NewMeasurementMap.

(** The first thing every plot does with a message. *)
Definition add_start (m : message) (p : plot) : plot :=
  mkPlot (StartTimes_Add (start_event m) (startTimes p)) (measurements p).
Definition keep (m : message) (p : plot) : plot :=
  mkPlot (startTimes p) (MeasurementMap_Add (ev_ID (GetEvent m)) m (measurements p)).

Definition ClientLatencyPlot_Add (m : message) (p : plot) : plot :=
  let p := add_start m p in
  match m with
  | MLatency ev _ _ _ => if negb (ev_Client ev) then p else keep m p
  | _ => p
  end.

Definition ThroughputPlot_Add (m : message) (p : plot) : plot :=
  let p := add_start m p in
  match m with
  | MThroughput ev _ _ _ => if ev_Client ev then p else keep m p
  | _ => p
  end.

(** Every message with an event is kept that is not sorted out. *)
Definition ThroughputVSLatencyPlot_Add (m : message) (p : plot) : plot :=
  let p := add_start m p in
  match m with
  | MOther => p
  | MLatency ev _ _ _ => if negb (ev_Client ev) then p else keep m p
  | MThroughput ev _ _ _ => if ev_Client ev then p else keep m p
  | _ => keep m p
  end.

(** ** Points *)

(** time.Duration.Seconds *)
Definition Seconds (d : Z) : number :=
  num_add (num_of_Z (Z.quot d 1000000000)) (num_div (num_of_Z (Z.rem d 1000000000)) (num_of_Z 1000000000)).

Abbreviation group := (MeasurementGroup (Measurement := message)).

(** The loop over the measurements of a group: a weighted sum and the number
    of samples, a uint64. *)
Definition sum_values (getValue : message → number * N) (ms : list message) : number * N :=
  foldl (λ '(sum, num) m, let '(v, n) := getValue m in
    (num_add sum (num_mul v (num_of_Z (Z.of_N n))), wrap64 (num + n))) (num_zero, 0%N) ms.

Definition TimeAndAverage (groups : list group) (getValue : message → number * N) : list (number * number) :=
  foldl (λ points g,
    let '(sum, num) := sum_values getValue (g_Measurements g) in
    if (0 <? num)%N then points ++ [(Seconds (g_Time g), num_div sum (num_of_Z (Z.of_N num)))] else points) [] groups.

(** The functions passed to it; the type assertions hold for what the plots
    keep. *)
Definition latency_value (m : message) : number * N :=
  match m with MLatency _ latency _ count => (latency, count) | _ => (num_zero, 0%N) end.
Definition commands_per_second (commands : N) (duration : Z) : number :=
  num_div (num_of_Z (Z.of_N commands)) (Seconds duration).
Definition throughput_value (m : message) : number * N :=
  match m with MThroughput _ _ commands duration => (commands_per_second commands duration, 1%N) | _ => (num_zero, 0%N) end.

Definition group_plot (p : plot) (interval : Z) (ord : nat → list N) (fuel : nat) : res (list group) :=
  GroupByTimeInterval GetEvent (startTimes p) (measurements p) interval ord fuel.

Definition avgLatency (p : plot) (interval : Z) (ord : nat → list N) (fuel : nat) : res (list (number * number)) :=
  intervals ← group_plot p interval ord fuel; Ok (TimeAndAverage intervals latency_value).

Definition avgThroughput (p : plot) (interval : Z) (ord : nat → list N) (fuel : nat) : res (list (number * number)) :=
  intervals ← group_plot p interval ord fuel; Ok (TimeAndAverage intervals throughput_value).

(** The four sums of a group: latencies with their samples, throughputs with
    theirs. *)
Definition sum_both (ms : list message) : number * N * number * N :=
  foldl (λ '(latencySum, latencyNum, throughputSum, throughputNum) m,
    match m with
    | MLatency _ latency _ count =>
      (num_add latencySum (num_mul latency (num_of_Z (Z.of_N count))), wrap64 (latencyNum + count),
       throughputSum, throughputNum)
    | MThroughput _ _ commands duration =>
      (latencySum, latencyNum, num_add throughputSum (commands_per_second commands duration),
       wrap64 (throughputNum + 1))
    | _ => (latencySum, latencyNum, throughputSum, throughputNum)
    end) (num_zero, 0%N, num_zero, 0%N) ms.

Definition avgThroughputVSAvgLatency (p : plot) (interval : Z) (ord : nat → list N) (fuel : nat)
    : res (list (number * number)) :=
  groups ← group_plot p interval ord fuel;
  Ok (foldl (λ points g,
    let '(latencySum, latencyNum, throughputSum, throughputNum) := sum_both (g_Measurements g) in
    if (0 <? throughputNum)%N && (0 <? latencyNum)%N
    then points ++ [(num_div throughputSum (num_of_Z (Z.of_N throughputNum)),
                     num_div latencySum (num_of_Z (Z.of_N latencyNum)))]
    else points) [] groups).
End plots.

(** ** Points of groups *)

Lemma foldl_omap {X Y} (f : X → option Y) (acc : list Y) (l : list X) :
  foldl (λ acc x, match f x with Some y => acc ++ [y] | None => acc end) acc l = acc ++ omap f l.
Proof.
  revert acc. induction l as [|x l IH]; intros acc; cbn [foldl omap list_omap]; [by rewrite app_nil_r|].
  rewrite IH. destruct (f x); [by rewrite <-app_assoc|done].
Qed.

Lemma TimeAndAverage_omap {A : Arith} groups getValue :
  TimeAndAverage groups getValue =
    omap (λ g, let '(sum, num) := sum_values getValue (g_Measurements g) in
      if (0 <? num)%N then Some (Seconds (g_Time g), num_div sum (num_of_Z (Z.of_N num))) else None) groups.
Proof.
  unfold TimeAndAverage.
  match goal with |- _ = ?r => change r with ([] ++ r) end. rewrite <-foldl_omap.
  generalize (@nil (number * number)) at 2 4. induction groups as [|g groups IH]; intros points; cbn [foldl]; [done|].
  rewrite IH. f_equal. destruct (sum_values _ _) as [sum num]. by destruct (0 <? num)%N.
Qed.

(** ** Averages of rationals *)

#[local] Existing Instance Rational.
#[local] Open Scope Q_scope.

Section average.
Context (getValue : message → Q * N).

(** The reference: sum and number of the samples, in full. *)
Definition samples (ms : list message) : N := foldr (λ m n, ((getValue m).2 + n)%N) 0%N ms.
Definition total (ms : list message) : Q :=
  foldr (λ m s, (getValue m).1 * inject_Z (Z.of_N (getValue m).2) + s) 0 ms.

Lemma sum_values_from (s : Q) (k : N) ms :
  (k + samples ms < two64)%N →
  let r := foldl (λ '(sum, num) m, let '(v, n) := getValue m in
    (num_add (Arith := Rational) sum (num_mul v (num_of_Z (Z.of_N n))), wrap64 (num + n))) (s, k) ms in
  (r.1 : Q) == s + total ms ∧ r.2 = (k + samples ms)%N.
Proof.
  revert s k. induction ms as [|m ms IH]; intros s k Hk; cbn [foldl samples total foldr] in *.
  - split; [change (s == s + 0); ring|cbn; lia].
  - destruct (getValue m) as [v n] eqn:Hv. cbn [fst snd] in *. fold (samples ms) in *. fold (total ms) in *.
    rewrite wrap64_small by lia. destruct (IH (s + v * inject_Z (Z.of_N n)) (k + n)%N ltac:(lia)) as [H1 H2].
    split; [|etransitivity; [exact H2|lia]].
    etransitivity; [exact H1|]. change (s + v * inject_Z (Z.of_N n) + total ms == s + (v * inject_Z (Z.of_N n) + total ms)). ring.
Qed.

Lemma sum_values_exact ms :
  (samples ms < two64)%N → (sum_values getValue ms).1 == total ms ∧ (sum_values getValue ms).2 = samples ms.
Proof.
  intros H. destruct (sum_values_from 0 0 ms ltac:(lia)) as [H1 H2].
  split; [|exact H2]. etransitivity; [exact H1|]. ring.
Qed.

(** [p] is the point of [g]: its time, and the mean of its samples. *)
Definition point_of (g : MeasurementGroup (Measurement := message)) (p : Q * Q) : Prop :=
  p.1 = Seconds (g_Time g) ∧ p.2 == total (g_Measurements g) / inject_Z (Z.of_N (samples (g_Measurements g))).

Lemma TimeAndAverage_exact groups :
  Forall (λ g, samples (g_Measurements g) < two64)%N groups →
  Forall2 point_of (filter (λ g, 0 < samples (g_Measurements g))%N groups) (TimeAndAverage groups getValue).
Proof.
  rewrite TimeAndAverage_omap. induction 1 as [|g groups Hg _ IH]; [constructor|]. cbn [omap list_omap].
  destruct (sum_values_exact _ Hg) as [H1 H2]. destruct (sum_values getValue (g_Measurements g)) as [sum num].
  cbn [fst snd] in H1, H2. subst num. destruct (N.ltb_spec 0 (samples (g_Measurements g))).
  - rewrite filter_cons_True by done. constructor; [|done]. split; [done|].
    change (sum / inject_Z (Z.of_N (samples (g_Measurements g))) == total (g_Measurements g) / inject_Z (Z.of_N (samples (g_Measurements g)))).
    change (sum == total (g_Measurements g)) in H1. by rewrite H1.
  - rewrite filter_cons_False by lia. done.
Qed.

Lemma samples_app ms ms' : samples (ms ++ ms') = (samples ms + samples ms')%N.
Proof. induction ms as [|m ms IH]; [done|]. cbn [app samples foldr]. fold (samples ms) (samples (ms ++ ms')). rewrite IH. lia. Qed.

#[export] Instance samples_perm : Proper ((≡ₚ) ==> eq) samples.
Proof.
  intros ms ms' Hp. induction Hp as [|m l l' _ IH|m m' l|l1 l2 l3 _ IH1 _ IH2]; cbn [samples foldr]; [done|..].
  - fold (samples l) (samples l'). by rewrite IH.
  - lia.
  - congruence.
Qed.

Lemma samples_group (groups : list (MeasurementGroup (Measurement := message))) g :
  g ∈ groups → (samples (g_Measurements g) ≤ samples (measured groups))%N.
Proof.
  unfold measured. induction 1 as [g groups|g g' groups _ IH]; cbn [fmap list_fmap concat]; rewrite samples_app; lia.
Qed.

(** A mean is between the bounds of the values. *)
Lemma total_between lo hi ms :
  Forall (λ m, lo <= (getValue m).1 <= hi) ms →
  lo * inject_Z (Z.of_N (samples ms)) <= total ms <= hi * inject_Z (Z.of_N (samples ms)).
Proof.
  induction 1 as [|m ms [Hlo Hhi] _ [IH1 IH2]]; cbn [samples total foldr]; [split; apply Qle_lteq; right; ring|].
  fold (samples ms) (total ms). destruct (getValue m) as [v n]. cbn [fst snd] in *.
  rewrite N2Z.inj_add, inject_Z_plus.
  assert (0 <= inject_Z (Z.of_N n)) as Hn by (change 0 with (inject_Z 0); rewrite <-Zle_Qle; lia).
  split; rewrite Qmult_plus_distr_r; apply Qplus_le_compat; try done; by apply Qmult_le_compat_r.
Qed.

Lemma point_between lo hi g p :
  point_of g p → (0 < samples (g_Measurements g))%N →
  Forall (λ m, lo <= (getValue m).1 <= hi) (g_Measurements g) → lo <= p.2 <= hi.
Proof.
  intros [_ Hp] Hpos Hall. destruct (total_between lo hi _ Hall) as [H1 H2]. rewrite Hp.
  assert (0 < inject_Z (Z.of_N (samples (g_Measurements g)))) as Hs.
  { change 0 with (inject_Z 0). rewrite <-Zlt_Qlt. lia. }
  split; [by apply Qle_shift_div_l|by apply Qle_shift_div_r].
Qed.
End average.

(** ** What the latency plot keeps *)

Definition client_latency (m : message) : bool :=
  match m with MLatency ev _ _ _ => ev_Client ev | _ => false end.
Definition latency_plot (msgs : list message) : plot := foldl (λ p m, ClientLatencyPlot_Add m p) NewPlot msgs.

Lemma latency_Add m p :
  startTimes (ClientLatencyPlot_Add m p) = StartTimes_Add (start_event m) (startTimes p) ∧
  measurements (ClientLatencyPlot_Add m p) =
    if client_latency m then MeasurementMap_Add (ev_ID (GetEvent m)) m (measurements p) else measurements p.
Proof. destruct m as [| |ev ? ? ?| |]; try done. cbn. by destruct (ev_Client ev). Qed.

Lemma default_MeasurementMap_Add (k id : N) (m : message) (mm : gmap N (list message)) :
  default [] (MeasurementMap_Add k m mm !! id) =
    default [] (mm !! id) ++ (if decide (k = id) then [m] else []) ∧
  (is_Some (MeasurementMap_Add k m mm !! id) ↔ is_Some (mm !! id) ∨ k = id).
Proof.
  unfold MeasurementMap_Add. destruct (decide (k = id)) as [->|Hne].
  - rewrite lookup_insert_eq. split; [done|]. split; [by right|by eexists].
  - rewrite lookup_insert_ne, app_nil_r by done. naive_solver.
Qed.

(** The measurements of a client, in the order of the log. *)
Lemma latency_plot_measurements msgs id :
  default [] (measurements (latency_plot msgs) !! id) =
    filter (λ m, client_latency m = true ∧ ev_ID (GetEvent m) = id) msgs ∧
  (is_Some (measurements (latency_plot msgs) !! id) ↔
    ∃ m, m ∈ msgs ∧ client_latency m = true ∧ ev_ID (GetEvent m) = id).
Proof.
  unfold latency_plot. induction msgs as [|m msgs [IH1 IH2]] using rev_ind.
  { cbn. split; [done|]. split; [by intros [? ?]|]. intros (m & Hm & _). by apply not_elem_of_nil in Hm. }
  rewrite foldl_app. cbn [foldl]. destruct (latency_Add m (foldl (λ p m, ClientLatencyPlot_Add m p) NewPlot msgs)) as [_ ->].
  rewrite filter_app. destruct (client_latency m) eqn:Hc.
  - destruct (default_MeasurementMap_Add (ev_ID (GetEvent m)) id m
      (measurements (foldl (λ p m, ClientLatencyPlot_Add m p) NewPlot msgs))) as [-> ->]. rewrite IH1, IH2. split.
    + f_equal. destruct (decide (ev_ID (GetEvent m) = id)).
      * by rewrite filter_cons_True.
      * rewrite filter_cons_False; [done|]. naive_solver.
    + setoid_rewrite elem_of_app. setoid_rewrite list_elem_of_singleton. naive_solver.
  - rewrite IH1. split.
    + rewrite filter_cons_False, app_nil_r; [done|]. intros [? _]. congruence.
    + rewrite IH2. setoid_rewrite elem_of_app. setoid_rewrite list_elem_of_singleton. naive_solver congruence.
Qed.

Lemma latency_plot_started msgs id :
  is_Some (st_clients (startTimes (latency_plot msgs)) !! id) ↔
  ∃ ev, MStart ev ∈ msgs ∧ ev_Client ev = true ∧ ev_ID ev = id.
Proof.
  unfold latency_plot. induction msgs as [|m msgs IH] using rev_ind.
  { split; [by intros [? ?]|]. intros (ev & Hev & _). by apply not_elem_of_nil in Hev. }
  rewrite foldl_app. cbn [foldl]. destruct (latency_Add m (foldl (λ p m, ClientLatencyPlot_Add m p) NewPlot msgs)) as [-> _].
  setoid_rewrite elem_of_app. setoid_rewrite list_elem_of_singleton.
  destruct m as [ev| | | |]; cbn [start_event StartTimes_Add]; [|rewrite IH; naive_solver..].
  destruct (ev_Client ev) eqn:Hc; cbn [st_clients]; [|rewrite IH; naive_solver congruence].
  destruct (decide (ev_ID ev = id)) as [<-|Hne].
  - rewrite lookup_insert_eq. split; [|by eexists]. intros _. exists ev. auto.
  - rewrite lookup_insert_ne by done. rewrite IH. naive_solver.
Qed.

Lemma latency_plot_start_time msgs id t :
  st_clients (startTimes (latency_plot msgs)) !! id = Some t →
  ∃ ev, MStart ev ∈ msgs ∧ ev_Client ev = true ∧ ev_ID ev = id ∧ ev_Time ev = t.
Proof.
  unfold latency_plot. induction msgs as [|m msgs IH] using rev_ind; [done|].
  rewrite foldl_app. cbn [foldl]. destruct (latency_Add m (foldl (λ p m, ClientLatencyPlot_Add m p) NewPlot msgs)) as [-> _].
  setoid_rewrite elem_of_app. setoid_rewrite list_elem_of_singleton.
  destruct m as [ev| | | |]; cbn [start_event StartTimes_Add];
    [|intros (ev' & ? & ?)%IH; exists ev'; auto..].
  destruct (ev_Client ev) eqn:Hc; cbn [st_clients]; [|intros (ev' & ? & ?)%IH; exists ev'; auto].
  destruct (decide (ev_ID ev = id)) as [<-|Hne].
  - rewrite lookup_insert_eq. intros [= <-]. exists ev. auto.
  - rewrite lookup_insert_ne by done. intros (ev' & ? & ?)%IH. exists ev'. auto.
Qed.

(** A measurement of a client that logged its start, and not so late that the
    end of its interval is no Duration. *)
Definition timed (msgs : list message) (interval : Z) (m : message) : Prop :=
  (∃ ev, MStart ev ∈ msgs ∧ ev_Client ev = true ∧ ev_ID ev = ev_ID (GetEvent m)) ∧
  (∀ ev, MStart ev ∈ msgs → ev_Client ev = true → ev_ID ev = ev_ID (GetEvent m) →
     ev_Time (GetEvent m) - ev_Time ev + interval < 2 ^ 63)%Z.

Lemma timed_in_range msgs interval m :
  (interval < 2 ^ 63)%Z → timed msgs interval m →
  in_range GetEvent (startTimes (latency_plot msgs)) interval m.
Proof.
  intros Hint [[t Ht]%latency_plot_started Hlate]. destruct (latency_plot_start_time _ _ _ Ht) as (ev & H1 & H2 & H3 & <-).
  unfold in_range, ClientOffset. rewrite Ht. eexists. split; [reflexivity|].
  specialize (Hlate ev H1 H2 H3). unfold time_Sub. lia.
Qed.

(** The orders in which the rounds visit a map of the keys [ids]: with one key
    there is only one, with more they are assumed to be the same. *)
Definition steady (ord : nat → list N) (ids : list N) : Prop :=
  (∀ k, ord k ≡ₚ ids) ∧ ((length ids ≤ 1)%nat ∨ ∀ k, ord k = ids).

Lemma steady_same ord ids : steady ord ids → ∀ k, ord k = ids.
Proof.
  intros [Hperm [Hone|Hsame]] k; [|done]. specialize (Hperm k).
  destruct ids as [|id [|? ?]]; cbn in Hone; [by apply Permutation_nil_r|by apply Permutation_singleton_r|lia].
Qed.

(** Lists by key, put together again. *)
Lemma concat_by_key {X} (key : X → N) (P : X → Prop) `{!∀ x, Decision (P x)} (ids : list N) (l : list X) :
  NoDup ids → Forall (λ x, P x → key x ∈ ids) l →
  concat ((λ id, filter (λ x, P x ∧ key x = id) l) <$> ids) ≡ₚ filter P l.
Proof.
  intros Hnd. induction 1 as [|x l Hx _ IH]; [clear; by induction ids|].
  destruct (decide (P x)) as [HP|HP].
  - rewrite (filter_cons_True P) by done. rewrite <-IH. specialize (Hx HP). clear IH.
    induction Hnd as [|id ids Hni Hnd IHn]; [by apply not_elem_of_nil in Hx|]. cbn [fmap list_fmap concat].
    apply elem_of_cons in Hx as [Hx|Hx].
    + rewrite filter_cons_True by done. cbn [app]. apply Permutation_skip.
      match goal with |- ?a ≡ₚ ?b => enough (a = b) as -> by done end. do 2 f_equal. apply list_fmap_ext.
      intros i id' Hid'. rewrite filter_cons_False; [done|].
      intros [_ Hk]. apply Hni. assert (id = id') as -> by congruence. by eapply list_elem_of_lookup_2.
    + rewrite filter_cons_False by (intros [_ Hk]; by rewrite Hk in Hx). rewrite IHn by done. by rewrite Permutation_middle.
  - rewrite (filter_cons_False P) by done. rewrite <-IH.
    match goal with |- ?a ≡ₚ ?b => enough (a = b) as -> by done end. f_equal. apply list_fmap_ext.
    intros i id _. rewrite filter_cons_False; [done|]. naive_solver.
Qed.

(** The latency plot shows the averages of what was logged.  When every
    client whose latency was logged has logged its start, and there is one client
    or the map is always visited in one order, grouping ends; the groups hold every latency measurement of a
    client exactly once; and the points are, in the order of the groups, the time
    of the group and the mean of its samples, computed without error in rational
    arithmetic, leaving out groups without samples.  So a point lies between any
    bounds of the latencies in its group. *)
Theorem latency_plot_exact (msgs : list message) (interval : Z) (ord : nat → list N) (ids : list N) (lo hi : Q) :
  (0 < interval < 2 ^ 63)%Z → steady ord ids → NoDup ids → (∀ id, id ∈ ids ↔ is_Some (measurements (latency_plot msgs) !! id)) →
  (∀ m, m ∈ msgs → client_latency m = true →
     timed msgs interval m ∧ lo <= (latency_value m).1 <= hi) →
  (samples latency_value (filter (λ m, client_latency m = true) msgs) < two64)%N →
  ∃ groups points bound,
    (∀ fuel, (bound ≤ fuel)%nat → avgLatency (latency_plot msgs) interval ord fuel = Ok points) ∧
    measured groups ≡ₚ filter (λ m, client_latency m = true) msgs ∧
    Forall2 (point_of latency_value) (filter (λ g, 0 < samples latency_value (g_Measurements g))%N groups) points ∧
    Forall (λ p, lo <= p.2 <= hi) points.
Proof.
  intros Hint Hsteady Hnd Hids Hmsgs Hsmall. pose proof (steady_same _ _ Hsteady) as Hord.
  assert (concat (ms (measurements (latency_plot msgs)) <$> ids) ≡ₚ filter (λ m, client_latency m = true) msgs) as Hall.
  { rewrite <-(concat_by_key (λ m, ev_ID (GetEvent m)) (λ m, client_latency m = true) ids msgs Hnd).
    - match goal with |- ?a ≡ₚ ?b => enough (a = b) as -> by done end. f_equal. apply list_fmap_ext. intros i id _.
      apply latency_plot_measurements.
    - apply Forall_forall. intros m Hm Hc. apply Hids, latency_plot_measurements. by exists m. }
  destruct (Group_complete GetEvent (startTimes (latency_plot msgs)) (measurements (latency_plot msgs)) interval ord ids
    Hord Hint Hnd Hids) as (groups & bound & Hgroups).
  { intros id x _ Hx. unfold ms in Hx. rewrite (proj1 (latency_plot_measurements msgs id)) in Hx.
    apply list_elem_of_filter in Hx as [[Hc _] Hx]. apply timed_in_range; [lia|]. by apply Hmsgs. }
  assert (measured groups ≡ₚ filter (λ m, client_latency m = true) msgs) as Hmeas.
  { rewrite <-Hall. by apply (Hgroups bound). }
  assert (∀ g, g ∈ groups → ∀ m, m ∈ g_Measurements g → m ∈ filter (λ m, client_latency m = true) msgs) as Hin.
  { intros g Hg m Hm. rewrite <-Hmeas. unfold measured. apply list_elem_of_In, in_concat.
    exists (g_Measurements g). split; [by apply in_map, list_elem_of_In|by apply list_elem_of_In]. }
  pose proof (TimeAndAverage_exact latency_value groups) as Hexact.
  exists groups, (TimeAndAverage groups latency_value), bound. split; [|split; [done|]].
  { intros fuel Hfuel. unfold avgLatency, group_plot. by rewrite (proj1 (Hgroups fuel Hfuel)). }
  specialize (Hexact ltac:(apply Forall_forall; intros g Hg; rewrite <-Hmeas in Hsmall;
    pose proof (samples_group latency_value groups g Hg); lia)).
  split; [done|]. apply Forall_forall. intros p Hp.
  apply list_elem_of_lookup in Hp as [i Hi]. destruct (Forall2_lookup_r _ _ _ _ _ Hexact Hi) as (g & Hgi & Hpoint).
  apply list_elem_of_lookup_2, list_elem_of_filter in Hgi as [Hpos Hg].
  apply (point_between latency_value lo hi g p Hpoint Hpos). apply Forall_forall. intros m Hm.
  specialize (Hin g Hg m Hm). apply list_elem_of_filter in Hin as [Hc Hin]. by apply Hmsgs.
Qed.

(** ** A plot of two measurements *)

Module LatencyExample.
Definition logged : list message :=
  [MStart (mkEvent 1 true 100); MLatency (mkEvent 1 true 105) 10 0 2; MLatency (mkEvent 1 true 107) 16 0 1].

Lemma logged_measurements :
  measurements (latency_plot logged) =
    {[1%N := [MLatency (mkEvent 1 true 105) 10 0 2; MLatency (mkEvent 1 true 107) 16 0 1]]}.
Proof. vm_compute. reflexivity. Qed.

Example logged_point :
  match avgLatency (latency_plot logged) 50 (λ _, [1%N]) 10 with
  | Ok [(_, y)] => Qeq_bool y 12
  | _ => false
  end = true.
Proof. vm_compute. reflexivity. Qed.

Lemma logged_ids id : id ∈ [1%N] ↔ is_Some (measurements (latency_plot logged) !! id).
Proof.
  rewrite logged_measurements, list_elem_of_singleton. split.
  - intros ->. rewrite lookup_singleton_eq. by eexists.
  - intros [x [Hx _]%lookup_singleton_Some]. by symmetry.
Qed.

Lemma logged_clients m :
  m ∈ logged → client_latency m = true →
  timed logged 50 m ∧ 10 <= (latency_value m).1 <= 16.
Proof.
  intros Hm Hc. assert (∃ ev, MStart ev ∈ logged ∧ ev_Client ev = true ∧ ev_ID ev = 1%N) as Hstart.
  { exists (mkEvent 1 true 100). split; [left|done]. }
  assert (∀ ev, MStart ev ∈ logged → ev = mkEvent 1 true 100) as Honly.
  { intros ev Hev. unfold logged in Hev. rewrite !elem_of_cons, elem_of_nil in Hev. naive_solver. }
  unfold logged in Hm. rewrite !elem_of_cons in Hm. destruct Hm as [->|[->|[->|Hm]]]; [done|..].
  - split; [split; [exact Hstart|by intros ev ->%Honly]|]. split; vm_compute; discriminate.
  - split; [split; [exact Hstart|by intros ev ->%Honly]|]. split; vm_compute; discriminate.
  - by apply not_elem_of_nil in Hm.
Qed.
End LatencyExample.
