(* ===== verification/CsvPlot.v ===== *)
(** * metrics/plotting: CSV output

    [CSVPlot] of helper.go over encoding/csv and the buffered writer it writes
    through, and the choice of the output format by the file's name
    ([PlotAverage] of the three plots).  How a number is printed is an
    argument, and so is what the drawing library answers. *)

From S2P Require Import Prelude Metrics Plotting Pem MetricsLog Plots.
From Stdlib Require Import Strings.Byte.

(** ** encoding/csv *)

Definition csv_space (c : Byte.byte) : bool := bool_decide (c ∈ [x20; x09; x0a; x0b; x0c; x0d]).
Definition fieldNeedsQuotes (field : bytes) : bool :=
  match field with
  | [] => false
  | c :: _ =>
    bool_decide (field = [x5c; x2e]) ||
    existsb (λ c, bool_decide (c ∈ [x2c; x22; x0d; x0a])) field || csv_space c
  end.
Definition csv_field (field : bytes) : bytes :=
  if fieldNeedsQuotes field
  then [x22] ++ concat ((λ c, if bool_decide (c = x22) then [x22; x22] else [c]) <$> field) ++ [x22]
  else field.
Fixpoint csv_join (fields : list bytes) : bytes :=
  match fields with
  | [] => [x0a]
  | [f] => csv_field f ++ [x0a]
  | f :: fields => csv_field f ++ [x2c] ++ csv_join fields
  end.

(** ** bufio.Writer *)

Record bufio := mkBufio { bw_buf : bytes; bw_wr : writer; bw_err : bool }.

Definition bufio_size : nat := 4096.

Definition bufio_Flush (b : bufio) : bufio :=
  if bw_err b then b
  else
    match bw_buf b with
    | [] => b
    | buf => let '(ok, wr) := Write buf (bw_wr b) in mkBufio (if ok then [] else buf) wr (negb ok)
    end.

(** A byte is appended after a flush when the buffer is full. *)
Definition bufio_byte (b : bufio) (c : Byte.byte) : bufio :=
  let b := if (bufio_size <=? length (bw_buf b))%nat then bufio_Flush b else b in
  if bw_err b then b else mkBufio (bw_buf b ++ [c]) (bw_wr b) false.
Definition bufio_Write (s : bytes) (b : bufio) : bufio := foldl bufio_byte b s.

(** ** helper.go *)

Inductive csv_error := ErrCSVOpen | ErrCSVWrite | ErrCSVClose.

Section csv.
Context {A : Arith} (Sprint : number → bytes).

(** The loop over the points; it stops at the first error. *)
Fixpoint csv_rows (points : list (number * number)) (b : bufio) : bool * bufio :=
  match points with
  | [] => (true, b)
  | (x, y) :: points =>
    let b := bufio_Write (csv_join [Sprint x; Sprint y]) b in
    if bw_err b then (false, b) else csv_rows points b
  end.

(** The file is truncated when it is opened; [faults] are the outcomes of the
    writes to it.  The result of [Flush] is not asked for.  The second component
    is the content of the file. *)
Definition CSVPlot (open_ok close_ok : bool) (faults : list (option nat)) (old : bytes) (headers : list bytes)
    (points : list (number * number)) : option csv_error * bytes :=
  if negb open_ok then (Some ErrCSVOpen, old)
  else
    let b := bufio_Write (csv_join headers) (mkBufio [] (mkWriter [] faults) false) in
    if bw_err b then (Some ErrCSVWrite, w_out (bw_wr b))
    else
      let '(ok, b) := csv_rows points b in
      if negb ok then (Some ErrCSVWrite, w_out (bw_wr b))
      else
        let b := bufio_Flush b in
        (if close_ok then None else Some ErrCSVClose, w_out (bw_wr b)).

(** path.Ext: from the last dot of the last element on. *)
Fixpoint ext_rev (rev acc : bytes) : bytes :=
  match rev with
  | [] => []
  | c :: rev =>
    if bool_decide (c = x2f) then []
    else if bool_decide (c = x2e) then c :: acc
    else ext_rev rev (c :: acc)
  end.
Definition path_Ext (path : bytes) : bytes := ext_rev (reverse path) [].

(** [PlotAverage]: [csv] and [gonum] are the outcomes of the two outputs. *)
Definition PlotAverage {E} (filename : bytes) (csv gonum : E) : E :=
  if bool_decide (path_Ext filename = str ".csv") then csv else gonum.

(** ** Properties *)

(** The text of the file. *)
Definition csv_text (headers : list bytes) (points : list (number * number)) : bytes :=
  csv_join headers ++ concat ((λ p, csv_join [Sprint p.1; Sprint p.2]) <$> points).

(** Without faults the bytes written so far are in the file and the buffer. *)
Definition written (b : bufio) : bytes := w_out (bw_wr b) ++ bw_buf b.
Definition clean (b : bufio) : Prop := bw_err b = false ∧ w_faults (bw_wr b) = [].

Lemma Flush_clean b : clean b → clean (bufio_Flush b) ∧ w_out (bw_wr (bufio_Flush b)) = written b ∧
  written (bufio_Flush b) = written b.
Proof.
  destruct b as [buf [o f] e]. intros [He Hf]. cbn in He, Hf. subst. unfold bufio_Flush, written, clean. cbn.
  destruct buf as [|c buf]; cbn; [by rewrite app_nil_r|]. by rewrite app_nil_r.
Qed.

Lemma bufio_Write_clean s b : clean b → clean (bufio_Write s b) ∧ written (bufio_Write s b) = written b ++ s.
Proof.
  revert b. induction s as [|c s IH]; intros b Hb; [by rewrite app_nil_r|]. cbn [bufio_Write foldl].
  assert (clean (bufio_byte b c) ∧ written (bufio_byte b c) = written b ++ [c]) as [Hc Hw].
  { unfold bufio_byte. set (b' := if (_ <=? _)%nat then bufio_Flush b else b).
    assert (clean b' ∧ written b' = written b) as [[He Hf] Hw].
    { unfold b'. destruct (_ <=? _)%nat; [|done]. by destruct (Flush_clean b Hb) as (? & _ & ?). }
    rewrite He. split; [done|]. unfold written in *. cbn. by rewrite app_assoc, Hw. }
  destruct (IH _ Hc) as [H1 H2]. split; [exact H1|]. unfold bufio_Write in H2. rewrite H2, Hw. by rewrite <-app_assoc.
Qed.

Lemma csv_rows_clean points b :
  clean b → ∃ b', csv_rows points b = (true, b') ∧ clean b' ∧
    written b' = written b ++ concat ((λ p, csv_join [Sprint p.1; Sprint p.2]) <$> points).
Proof.
  revert b. induction points as [|[x y] points IH]; intros b Hb; [exists b; by rewrite app_nil_r|]. cbn [csv_rows].
  destruct (bufio_Write_clean (csv_join [Sprint x; Sprint y]) b Hb) as [Hc Hw]. rewrite (proj1 Hc).
  destruct (IH _ Hc) as (b' & -> & Hb' & Hw'). exists b'. split_and!; [done..|]. rewrite Hw', Hw.
  cbn [fmap list_fmap concat fst snd]. by rewrite <-app_assoc.
Qed.

(** A text that fits in the buffer stays there. *)
Lemma bufio_Write_small s b :
  bw_err b = false → (length (bw_buf b) + length s ≤ bufio_size)%nat →
  bufio_Write s b = mkBufio (bw_buf b ++ s) (bw_wr b) false.
Proof.
  revert b. induction s as [|c s IH]; intros b He Hl.
  - rewrite app_nil_r. destruct b. cbn in *. by subst.
  - cbn [length] in Hl. cbn [bufio_Write foldl]. fold (bufio_Write s (bufio_byte b c)).
    assert (bufio_byte b c = mkBufio (bw_buf b ++ [c]) (bw_wr b) false) as ->.
    { unfold bufio_byte. destruct (Nat.leb_spec bufio_size (length (bw_buf b))); [lia|]. by rewrite He. }
    rewrite IH; [|done|cbn [bw_buf]; rewrite length_app; cbn [length]; lia]. cbn [bw_buf bw_wr]. by rewrite <-app_assoc.
Qed.

Lemma csv_rows_small points b :
  bw_err b = false →
  (length (bw_buf b) + length (concat ((λ p, csv_join [Sprint p.1; Sprint p.2]) <$> points)) ≤ bufio_size)%nat →
  csv_rows points b =
    (true, mkBufio (bw_buf b ++ concat ((λ p, csv_join [Sprint p.1; Sprint p.2]) <$> points)) (bw_wr b) false).
Proof.
  revert b. induction points as [|[x y] points IH]; intros b He Hl; cbn [csv_rows fmap list_fmap concat fst snd] in *.
  - rewrite app_nil_r. destruct b. cbn in *. by subst.
  - rewrite length_app in Hl. rewrite bufio_Write_small by (done || lia). cbn [bw_err].
    rewrite IH; [|done|cbn [bw_buf]; rewrite length_app; lia]. cbn [bw_buf bw_wr]. by rewrite <-app_assoc.
Qed.

(** The CSV file.  When no operation fails the file holds the header and one
    row per point, and the call succeeds.  But a table that fits in the buffer is
    only written by the last flush, whose error is lost: when that write stops
    after [k] bytes, the call still succeeds. *)
Theorem CSVPlot_file (old : bytes) (headers : list bytes) (points : list (number * number)) :
  CSVPlot true true [] old headers points = (None, csv_text headers points) ∧
  (∀ k, (length (csv_text headers points) ≤ bufio_size)%nat → csv_text headers points ≠ [] →
     CSVPlot true true [Some k] old headers points = (None, take k (csv_text headers points))).
Proof.
  split.
  - unfold CSVPlot, csv_text. cbn [negb].
    destruct (bufio_Write_clean (csv_join headers) (mkBufio [] (mkWriter [] []) false)) as [Hc Hw]; [done|].
    rewrite (proj1 Hc). destruct (csv_rows_clean points _ Hc) as (b & -> & Hb & Hw'). cbn [negb].
    destruct (Flush_clean b Hb) as (_ & -> & _). by rewrite Hw', Hw.
  - intros k Hl Hne. unfold csv_text in *. rewrite length_app in Hl. unfold CSVPlot. cbn [negb].
    rewrite bufio_Write_small by (cbn [bw_err bw_buf length]; done || lia). cbn [bw_err bw_buf bw_wr app].
    rewrite csv_rows_small by (cbn [bw_err bw_buf]; done || lia). cbn [bw_buf bw_wr negb].
    unfold bufio_Flush. cbn [bw_err bw_buf bw_wr]. destruct (csv_join headers ++ _) as [|c t]; [done|]. done.
Qed.
End csv.
