(* ===== verification/Profiling.v ===== *)
(** * internal/profiling: profiles of a worker

    [StartProfilers] of profiling.go, which [runWorker] calls, and the function
    it returns.  The state is what the process has running and open; whether an
    operation succeeds is an argument. *)

From S2P Require Import Prelude Encoding.
From stdpp Require Import gmultiset.
From Stdlib Require Import Strings.Byte.

(** The CPU profiler, the tracer and fgprof, the files that are open, which may
    be open more than once, and those that were created. *)
Record process := mkProcess {
  pr_cpu : bool;
  pr_trace : bool;
  pr_fgprof : bool;
  pr_open : gmultiset bytes;
  pr_created : gset bytes }.

(** Which operations succeed. *)
Record profile_ops := mkOps {
  po_Create : bytes → bool;
  po_Close : bytes → bool;
  po_StartCPU : bool;
  po_StartTrace : bool;
  po_stopFgprof : bool;
  po_WriteHeap : bool }.

Inductive profile_error := ErrCreate | ErrStart | ErrStop | ErrWriteHeap | ErrCloseFile.

Section profiling.
Context (ops : profile_ops).

Definition Create (path : bytes) (p : process) : bool * process :=
  if po_Create ops path
  then (true, mkProcess (pr_cpu p) (pr_trace p) (pr_fgprof p) ({[+ path +]} ⊎ pr_open p) ({[path]} ∪ pr_created p))
  else (false, p).

(** A file is no longer open after [Close], also when it reports an error. *)
Definition Close_file (path : bytes) (p : process) : option profile_error * process :=
  (if po_Close ops path then None else Some ErrCloseFile,
   mkProcess (pr_cpu p) (pr_trace p) (pr_fgprof p) (pr_open p ∖ {[+ path +]}) (pr_created p)).

Definition set_cpu (b : bool) (p : process) : process :=
  mkProcess b (pr_trace p) (pr_fgprof p) (pr_open p) (pr_created p).
Definition set_trace (b : bool) (p : process) : process :=
  mkProcess (pr_cpu p) b (pr_fgprof p) (pr_open p) (pr_created p).
Definition set_fgprof (b : bool) (p : process) : process :=
  mkProcess (pr_cpu p) (pr_trace p) b (pr_open p) (pr_created p).

(** The functions that are returned to stop a profiler, by the path they close
    over; [None] is [nilFunc]. *)
Record stops := mkStops { s_cpu : option bytes; s_trace : option bytes; s_fgprof : option bytes }.

(** Starting fails when the profiler runs already. *)
Definition StartCPUProfile (path : bytes) (p : process) : (bytes + profile_error) * process :=
  let '(ok, p) := Create path p in
  if negb ok then (inr ErrCreate, p)
  else if negb (po_StartCPU ops) || pr_cpu p then (inr ErrStart, p)
  else (inl path, set_cpu true p).
Definition stop_CPU (path : bytes) (p : process) : option profile_error * process :=
  Close_file path (set_cpu false p).

Definition WriteMemProfile (path : bytes) (p : process) : option profile_error * process :=
  let '(ok, p) := Create path p in
  if negb ok then (Some ErrCreate, p)
  else if negb (po_WriteHeap ops) then (Some ErrWriteHeap, p)
  else Close_file path p.

Definition StartTrace (path : bytes) (p : process) : (bytes + profile_error) * process :=
  let '(ok, p) := Create path p in
  if negb ok then (inr ErrCreate, p)
  else if negb (po_StartTrace ops) || pr_trace p then (inr ErrStart, p)
  else (inl path, set_trace true p).
Definition stop_trace (path : bytes) (p : process) : option profile_error * process :=
  Close_file path (set_trace false p).

Definition StartFullProfile (path : bytes) (p : process) : (bytes + profile_error) * process :=
  let '(ok, p) := Create path p in
  if negb ok then (inr ErrCreate, p) else (inl path, set_fgprof true p).
Definition stop_fgprof (path : bytes) (p : process) : option profile_error * process :=
  let p := set_fgprof false p in
  if negb (po_stopFgprof ops) then (Some ErrStop, p) else Close_file path p.

(** A profiler is only started when it has a path. *)
Definition start_if (path : bytes) (start : bytes → process → (bytes + profile_error) * process) (p : process)
    : (option bytes + profile_error) * process :=
  if bool_decide (path = []) then (inl None, p)
  else match start path p with (inl f, p) => (inl (Some f), p) | (inr e, p) => (inr e, p) end.

Definition StartProfilers (cpu trace fgprof : bytes) (p : process) : (stops + profile_error) * process :=
  match start_if cpu StartCPUProfile p with
  | (inr e, p) => (inr e, p)
  | (inl c, p) =>
    match start_if trace StartTrace p with
    | (inr e, p) => (inr e, p)
    | (inl t, p) =>
      match start_if fgprof StartFullProfile p with
      | (inr e, p) => (inr e, p)
      | (inl f, p) => (inl (mkStops c t f), p)
      end
    end
  end.

Definition stop_if (path : option bytes) (stop : bytes → process → option profile_error * process) (p : process)
    : option profile_error * process :=
  match path with None => (None, p) | Some path => stop path p end.

(** The function that [StartProfilers] returns. *)
Definition stopProfile (s : stops) (mem : bytes) (p : process) : option profile_error * process :=
  match stop_if (s_cpu s) stop_CPU p with
  | (Some e, p) => (Some e, p)
  | (None, p) =>
    match stop_if (s_trace s) stop_trace p with
    | (Some e, p) => (Some e, p)
    | (None, p) =>
      match stop_if (s_fgprof s) stop_fgprof p with
      | (Some e, p) => (Some e, p)
      | (None, p) => if bool_decide (mem = []) then (None, p) else WriteMemProfile mem p
      end
    end
  end.

(** ** Properties *)

(** The file that a flag asks for. *)
Definition asked (path : bytes) : gset bytes := if bool_decide (path = []) then ∅ else {[path]}.

(** What the process has running and open, and the files [fs] more than before. *)
Definition back_to (p : process) (fs : gset bytes) (p' : process) : Prop :=
  pr_cpu p' = pr_cpu p ∧ pr_trace p' = pr_trace p ∧ pr_fgprof p' = pr_fgprof p ∧ pr_open p' = pr_open p ∧
  pr_created p' = fs ∪ pr_created p.

Lemma back_to_refl p : back_to p ∅ p.
Proof. split_and!; [done..|set_solver]. Qed.

Lemma back_to_trans p q r fs fs' : back_to p fs q → back_to q fs' r → back_to p (fs' ∪ fs) r.
Proof.
  intros (H1 & H2 & H3 & H4 & H5) (G1 & G2 & G3 & G4 & G5). split_and!; [congruence..|]. rewrite G5, H5. set_solver.
Qed.

Ltac handles := apply gmultiset_eq; intros x; rewrite ?multiplicity_difference, ?multiplicity_disj_union; lia.

Ltac prof_step :=
  cbn [negb orb stop_if s_cpu s_trace s_fgprof set_cpu set_trace set_fgprof pr_cpu pr_trace pr_fgprof pr_open pr_created].

(** A profile of the heap leaves nothing open. *)
Lemma WriteMemProfile_ok mem p p' :
  (if bool_decide (mem = []) then (None, p) else WriteMemProfile mem p) = (None, p') → back_to p (asked mem) p'.
Proof.
  unfold asked. destruct (bool_decide (mem = [])); [intros [= <-]; apply back_to_refl|].
  unfold WriteMemProfile, Create, Close_file. destruct (po_Create ops mem); [|done]. cbn [negb].
  destruct (po_WriteHeap ops); [|done]. cbn [negb]. intros [= _ <-].
  unfold back_to. cbn [pr_cpu pr_trace pr_fgprof pr_open pr_created]. split_and!; [done..|handles|done].
Qed.

(** Profiling leaves the process as it was.  When [StartProfilers] and the
    function it returns both succeed, in a process in which no profiler runs,
    no profiler runs and no file is open that was not before, and exactly the
    files that were asked for have been created. *)
Theorem profilers_clean (cpu mem trace fgprof : bytes) (p p1 p2 : process) (s : stops) :
  pr_cpu p = false → pr_trace p = false → pr_fgprof p = false →
  StartProfilers cpu trace fgprof p = (inl s, p1) → stopProfile s mem p1 = (None, p2) →
  back_to p (asked mem ∪ (asked fgprof ∪ (asked trace ∪ asked cpu))) p2.
Proof.
  destruct p as [b1 b2 b3 o c]. cbn [pr_cpu pr_trace pr_fgprof]. intros -> -> -> Hstart Hstop.
  revert Hstart Hstop. unfold StartProfilers, stopProfile, start_if, StartCPUProfile, StartTrace, StartFullProfile, Create.
  destruct (bool_decide (cpu = [])) eqn:Hc; [|destruct (po_Create ops cpu), (po_StartCPU ops); prof_step; try discriminate];
  (destruct (bool_decide (trace = [])) eqn:Ht; [|destruct (po_Create ops trace), (po_StartTrace ops); prof_step; try discriminate]);
  (destruct (bool_decide (fgprof = [])) eqn:Hf; [|destruct (po_Create ops fgprof); prof_step; try discriminate]);
  intros [= <- <-]; prof_step; unfold stop_CPU, stop_trace, stop_fgprof, Close_file;
  repeat match goal with
  | |- context [po_Close ops ?f] => destruct (po_Close ops f); prof_step; try discriminate
  | |- context [po_stopFgprof ops] => destruct (po_stopFgprof ops); prof_step; try discriminate
  end;
  intros Hm; (eapply back_to_trans; [|by apply WriteMemProfile_ok]); unfold back_to, asked; rewrite ?Hc, ?Ht, ?Hf; prof_step;
  (split_and!; [done..|handles|set_solver]).
Qed.
End profiling.

(** ** A trace file that cannot be created *)

Module ProfilingExample.
Definition idle_process : process := mkProcess false false false ∅ ∅.
Definition no_trace : profile_ops :=
  mkOps (λ path, negb (bool_decide (path = [x74]))) (λ _, true) true true true true.
Definition all_fine : profile_ops := mkOps (λ _, true) (λ _, true) true true true true.

Example cpu_profile : (StartProfilers all_fine [x63] [] [] idle_process).1 = inl (mkStops (Some [x63]) None None).
Proof. vm_compute. reflexivity. Qed.

(** When a later profiler cannot be started, the error is returned without a
    function to stop the earlier ones: the CPU profiler goes on, and its file
    stays open. *)
Theorem profilers_leak :
  let '(r, p) := StartProfilers no_trace [x63] [x74] [] idle_process in
  r = inr ErrCreate ∧ pr_cpu p = true ∧ multiplicity [x63] (pr_open p) = 1.
Proof. vm_compute. split_and!; reflexivity. Qed.
End ProfilingExample.
