(* ===== verification/CommandLine.v ===== *)
(** * internal/cli: the command line

    The flag for Byzantine strategies (run.go), and how a worker's measurement
    log is finished when its process ends: in [runWorker] of worker.go, and in
    [localWorker] of run.go, where the process of the controller may end in
    between. *)

From S2P Require Import Prelude Encoding Bitfield Types CryptoBase Bls12 Backend Pem MetricsLog Plots CsvPlot.
From Stdlib Require Import Strings.Byte.

(** ** parseByzantine *)

(** strings.Split with a separator of one byte. *)
Fixpoint Split (sep : Byte.byte) (s : bytes) : list bytes :=
  match s with
  | [] => [[]]
  | c :: s =>
    if bool_decide (c = sep) then [] :: Split sep s
    else match Split sep s with
         | part :: parts => (c :: part) :: parts
         | [] => [[c]]
         end
  end.

Inductive flag_error := ErrFormat | ErrCount (arg : bytes).

(** The loop over the arguments of the flag. *)
Fixpoint parse_strategies (args : list bytes) (strategies : gmap bytes Z) : gmap bytes Z + flag_error :=
  match args with
  | [] => inl strategies
  | arg :: args =>
    match Split x3a arg with
    | [name; n] =>
      match Atoi n with
      | None => inr (ErrCount arg)
      | Some count => parse_strategies args (<[name := count]> strategies)
      end
    | _ => inr ErrFormat
    end
  end.
Definition parseByzantine (byzantine : list bytes) : gmap bytes Z + flag_error := parse_strategies byzantine ∅.

(** [checkf] ends the process when one of its arguments is an error. *)
Definition checkf (errs : list bool) : res () := if existsb id errs then Panic "log.Fatalf" else Ok ().

(** ** The end of a worker *)

Section worker.
Context {Msg : Type} {JL : JSONLib Msg}.

(** What a worker's log consists of: the logger's output, on its way through
    the buffer to the file.  [lg_done] is the channel that [localWorker]
    closes. *)
Record logging := mkLogging { lg_logger : jsonLogger; lg_buf : bufio; lg_done : bool; lg_open : bool }.

(** The bytes the logger has passed on since [before]. *)
Definition pass_on (before : bytes) (dl : jsonLogger) (b : bufio) : bufio :=
  bufio_Write (drop (length before) (w_out (dl_wr dl))) b.

Inductive log_step := StepRun (msgs : list Msg) | StepDone | StepCloseLog | StepFlush | StepCloseFile.

Definition do_step (st : logging) (s : log_step) : logging :=
  let before := w_out (dl_wr (lg_logger st)) in
  match s with
  | StepRun msgs =>
    let dl := log_all msgs (lg_logger st) in
    mkLogging dl (pass_on before dl (lg_buf st)) (lg_done st) (lg_open st)
  | StepDone => mkLogging (lg_logger st) (lg_buf st) true (lg_open st)
  | StepCloseLog =>
    let dl := (Close (lg_logger st)).2 in
    mkLogging dl (pass_on before dl (lg_buf st)) (lg_done st) (lg_open st)
  | StepFlush => mkLogging (lg_logger st) (bufio_Flush (lg_buf st)) (lg_done st) (lg_open st)
  | StepCloseFile => mkLogging (lg_logger st) (lg_buf st) (lg_done st) false
  end.

(** Opening the log: the file is empty and the buffer holds the bracket. *)
Definition open_log : logging :=
  let b := mkBufio [] (mkWriter [] []) false in
  match NewJSONLogger (mkWriter [] []) with
  | Some dl => mkLogging dl (pass_on [] dl b) false true
  | None => mkLogging (mkLogger (mkWriter [] []) true) b false true
  end.

(** What is in the file. *)
Definition file_of (st : logging) : bytes := w_out (bw_wr (lg_buf st)).

(** The deferred calls of [runWorker], then the process ends. *)
Definition runWorker_steps (msgs : list Msg) : list log_step := [StepRun msgs; StepCloseLog; StepFlush; StepCloseFile].
Definition runWorker_file (msgs : list Msg) : bytes := file_of (foldl do_step open_log (runWorker_steps msgs)).

(** The goroutine of [localWorker].  When [Run] fails, [log.Fatal] ends the
    process at once, without the deferred calls; otherwise the channel is closed
    by the last statement, before the deferred calls. *)
Definition localWorker_steps (err : bool) (msgs : list Msg) : list log_step :=
  StepRun msgs :: if err then [] else [StepDone; StepCloseLog; StepFlush; StepCloseFile].

(** The controller waits for the channel and returns from main: the process
    may end after any step from then on. *)
Definition localWorker_ends (err : bool) (msgs : list Msg) (st : logging) : Prop :=
  if err then st = foldl do_step open_log (localWorker_steps err msgs)
  else ∃ k, st = foldl do_step open_log (take k (localWorker_steps err msgs)) ∧ lg_done st = true.

(** ** Properties *)

Lemma Split_sep_free sep s : (sep ∉ s) → Split sep s = [s].
Proof.
  induction s as [|c s IH]; cbn [Split]; [done|]. intros [Hc Hs]%not_elem_of_cons.
  rewrite bool_decide_eq_false_2 by done. by rewrite IH.
Qed.

Lemma Split_app sep s t : (sep ∉ s) → Split sep (s ++ sep :: t) = s :: Split sep t.
Proof.
  induction s as [|c s IH]; cbn [app Split]; intros Hs; [by rewrite bool_decide_eq_true_2|].
  apply not_elem_of_cons in Hs as [Hc Hs]. rewrite bool_decide_eq_false_2 by done. by rewrite IH.
Qed.

(** The text of the log, as the steps of [runWorker] produce it. *)
Lemma logger_prefix (msgs : list Msg) dl :
  w_out (dl_wr dl) `prefix_of` w_out (dl_wr (log_all msgs dl)).
Proof.
  revert dl. induction msgs as [|m msgs IH]; intros dl; [done|].
  change (log_all (m :: msgs) dl) with (log_all msgs (Log m dl).2). etrans; [|apply IH].
  assert (∀ b w, w_out w `prefix_of` w_out (Write b w).2) as Hw.
  { intros b [o [|[k|] fs]]; by apply prefix_app_r. }
  unfold Log. destruct (New m) as [any|]; [|done]. unfold write. destruct dl as [w f]. cbn [dl_first dl_wr].
  destruct f; cbn [negb].
  - destruct (Marshal any) as [b|]; [|done]. specialize (Hw b w). cbn [dl_wr]. destruct (Write b w). exact Hw.
  - pose proof (Hw (str "," ++ [x0a]) w) as H1. destruct (Write (str "," ++ [x0a]) w) as [ok w1]. cbn [snd] in H1.
    destruct ok; cbn [negb dl_wr]; [|done]. destruct (Marshal any) as [b|]; [|done].
    pose proof (Hw b w1) as H2. destruct (Write b w1) as [ok2 w2]. cbn [snd] in H2. cbn [snd dl_wr]. by etrans.
Qed.

(** Everything the logger wrote is in the file or in the buffer. *)
Definition passed (st : logging) : Prop :=
  clean (lg_buf st) ∧ written (lg_buf st) = w_out (dl_wr (lg_logger st)).

Lemma pass_on_passed b dl dl' :
  clean b → written b = w_out (dl_wr dl) → w_out (dl_wr dl) `prefix_of` w_out (dl_wr dl') →
  clean (pass_on (w_out (dl_wr dl)) dl' b) ∧ written (pass_on (w_out (dl_wr dl)) dl' b) = w_out (dl_wr dl').
Proof.
  intros Hc Hw [t Ht]. unfold pass_on. rewrite Ht, drop_app_length.
  destruct (bufio_Write_clean t b Hc) as [H1 H2]. by rewrite H2, Hw.
Qed.

Lemma do_step_passed st s : passed st → passed (do_step st s).
Proof.
  intros [Hc Hw]. destruct s; unfold passed; cbn [do_step lg_buf lg_logger]; [| done | | | done].
  - apply pass_on_passed; [done|done|apply logger_prefix].
  - apply pass_on_passed; [done|done|]. destruct (lg_logger st) as [[o [|[k|] fs]] f]; by apply prefix_app_r.
  - destruct (Flush_clean _ Hc) as (? & _ & Hf). by rewrite Hf.
Qed.

Lemma open_log_passed : passed open_log ∧ w_out (dl_wr (lg_logger open_log)) = [x5b; x0a].
Proof. done. Qed.

(** A worker that is started by itself leaves the whole log in its file. *)
Theorem runWorker_keeps_log (msgs : list Msg) : runWorker_file msgs = log_file msgs.
Proof.
  destruct open_log_passed as [H0 _].
  assert (passed (do_step (do_step open_log (StepRun msgs)) StepCloseLog)) as [Hc Hw] by (by do 2 apply do_step_passed).
  unfold runWorker_file, runWorker_steps, file_of. cbn [foldl]. cbn [do_step lg_buf] in *.
  destruct (Flush_clean _ Hc) as (_ & -> & _). by rewrite Hw.
Qed.

(** The log of a local worker can be lost.  The controller is told that the
    worker is done before the log is closed and flushed; a log that fits in the
    buffer is then missing from the file if the process ends at that moment, and
    cannot be read.  The same happens whenever the worker fails. *)
Theorem local_log_lost (err : bool) (msgs : list Msg) :
  (length (w_out (dl_wr (log_all msgs (lg_logger open_log)))) ≤ bufio_size)%nat →
  ∃ st, localWorker_ends err msgs st ∧ file_of st = [] ∧ ReadAll (Msg := Msg) (file_of st) = Ok ([], Some ErrFirstToken).
Proof.
  intros Hl. set (st := foldl do_step open_log (take 2 (localWorker_steps err msgs))). exists st.
  assert (file_of st = []) as Hf; [|by rewrite Hf; split; [destruct err; [|exists 2]|]].
  unfold st, file_of, localWorker_steps.
  transitivity (w_out (bw_wr (pass_on (w_out (dl_wr (lg_logger open_log))) (log_all msgs (lg_logger open_log)) (lg_buf open_log))));
    [by destruct err|].
  destruct (logger_prefix msgs (lg_logger open_log)) as [t Ht]. unfold pass_on. rewrite Ht, drop_app_length.
  rewrite Ht, length_app in Hl. rewrite bufio_Write_small; [done|done|].
  change (length (bw_buf (lg_buf open_log))) with (length (w_out (dl_wr (lg_logger open_log)))). done.
Qed.
End worker.

(** A strategy as the flag is documented: its name, a colon and a count. *)
Definition strategy_arg (s : bytes * N) : bytes := s.1 ++ x3a :: Sprintf_d s.2 .

Lemma digits_no_colon fuel n : x3a ∉ digits_rev fuel n.
Proof.
  revert n. induction fuel as [|fuel IH]; intros n; cbn [digits_rev]; [apply not_elem_of_nil|].
  rewrite elem_of_cons. intros [Hd|Hd].
  - assert (n mod 10 < 10)%N as Hlt by (by apply N.mod_lt). unfold digit in Hd.
    assert (Byte.to_N (byte_of_N (48 + n mod 10)) = 58)%N as H by (by rewrite <-Hd).
    rewrite to_N_byte_of_N, N.mod_small in H by lia. lia.
  - destruct (n <? 10)%N; [by apply not_elem_of_nil in Hd|by apply IH in Hd].
Qed.

Lemma parse_strategies_args ss m :
  Forall (λ s, (x3a ∉ s.1) ∧ (s.2 < two32)%N) ss →
  parse_strategies (strategy_arg <$> ss) m = inl (foldl (λ m s, <[s.1 := Z.of_N s.2]> m) m ss).
Proof.
  intros H. revert m. induction H as [|[name k] ss [Hn Hk] _ IH]; intros m; [done|].
  cbn [fmap list_fmap parse_strategies foldl fst snd] in *. unfold strategy_arg at 1. cbn [fst snd].
  rewrite Split_app by done. rewrite Split_sep_free.
  - rewrite Atoi_Sprintf by done. apply IH.
  - unfold Sprintf_d. rewrite elem_of_reverse. apply digits_no_colon.
Qed.

(** The flag is read as documented.  A list of names and counts, written as
    'name:count', gives each name its count, the last one if it is repeated; an
    argument with no colon or more than one is an error. *)
Theorem parseByzantine_roundtrip (ss : list (bytes * N)) :
  Forall (λ s, (x3a ∉ s.1) ∧ (s.2 < two32)%N) ss →
  parseByzantine (strategy_arg <$> ss) = inl (foldl (λ m s, <[s.1 := Z.of_N s.2]> m) ∅ ss) ∧
  (∀ before bad later, before = strategy_arg <$> ss → (length (Split x3a bad) ≠ 2)%nat →
     parseByzantine (before ++ bad :: later) = inr ErrFormat).
Proof.
  intros H. split; [by apply parse_strategies_args|]. intros before bad later -> Hbad. unfold parseByzantine.
  generalize (∅ : gmap bytes Z). induction H as [|[name k] ss [Hn Hk] _ IH]; intros m; cbn [fmap list_fmap app parse_strategies].
  - by destruct (Split x3a bad) as [|a [|b [|c l]]].
  - unfold strategy_arg at 1. cbn [fst snd] in *. rewrite Split_app by done. rewrite Split_sep_free.
    + rewrite Atoi_Sprintf by done. apply IH.
    + unfold Sprintf_d. rewrite elem_of_reverse. apply digits_no_colon.
Qed.

Lemma parseByzantine_roundtrip_witness :
  parseByzantine (strategy_arg <$> [(str "silence", 1%N); (str "fork", 2%N)]) =
    inl (foldl (λ m s, <[s.1 := Z.of_N s.2]> m) ∅ [(str "silence", 1%N); (str "fork", 2%N)]).
Proof.
  apply (parseByzantine_roundtrip [(str "silence", 1%N); (str "fork", 2%N)]).
  repeat constructor; by apply (bool_decide_eq_false_1 (x3a ∈ _)).
Defined.

(** Two messages of [LogExample]. *)
Module LostExample.
#[local] Existing Instance LogExample.FlagJSON.

Lemma local_log_lost_witness :
  ∃ st, localWorker_ends false [Some true; Some false] st ∧ file_of st = [] ∧
    ReadAll (Msg := option bool) (file_of st) = Ok ([], Some ErrFirstToken).
Proof. apply (local_log_lost false [Some true; Some false]). vm_compute. lia. Defined.
End LostExample.
