(* ===== verification/PlotMain.v ===== *)
(** * cmd/plot: from a log to a plot

    The program that reads a worker's measurement log and writes the plots that
    are asked for, composed of the reader of [MetricsLog], the plots of [Plots]
    and the output of [CsvPlot].  The file system is a map; what the drawing
    library answers is an argument. *)

From S2P Require Import Prelude Encoding Bitfield Types CryptoBase Bls12 Backend Pem Metrics Plotting MetricsLog Plots CsvPlot CommandLine.
From Stdlib Require Import QArith Strings.Byte.

(** The flags of the command. *)
Record flags := mkFlags {
  fl_interval : Z;
  fl_latency : bytes;
  fl_throughput : bytes;
  fl_throughputVSLatency : bytes }.

(** How the operations on a file turn out. *)
Record file_faults := mkFaults { ff_open : bool; ff_close : bool; ff_writes : list (option nat) }.
Definition no_faults : file_faults := mkFaults true true [].

Inductive main_error := ErrUsage | ErrSource | ErrLog (e : read_error) | ErrCSV (e : csv_error) | ErrDraw.
Abbreviation disk := (gmap bytes bytes).

(** The labels of the axes. *)
Definition xlabel : bytes := str "Time (seconds)".
Definition latency_label : bytes := str "Latency (ms)".
Definition throughput_label : bytes := str "Throughput (commands/second)".

Section main.
Context {A : Arith} {JL : JSONLib message} (Sprint : number → bytes)
  (gonum : bytes → bytes → list (number * number) → option bytes) (faults : bytes → file_faults).

(** What the reader hands the plots. *)
Definition clientLatency_plot (msgs : list message) : plot := foldl (λ p m, ClientLatencyPlot_Add m p) NewPlot msgs.
Definition throughput_plot (msgs : list message) : plot := foldl (λ p m, ThroughputPlot_Add m p) NewPlot msgs.
Definition throughputVSLatency_plot (msgs : list message) : plot :=
  foldl (λ p m, ThroughputVSLatencyPlot_Add m p) NewPlot msgs.

(** One of the three outputs: nothing without a file name, and [PlotAverage]
    otherwise. *)
Definition save (filename x y : bytes) (avg : res (list (number * number))) (fs : disk)
    : res (disk * option main_error) :=
  if bool_decide (filename = []) then Ok (fs, None)
  else
    points ← avg;
    let io := faults filename in
    Ok (PlotAverage filename
      (match CSVPlot Sprint (ff_open io) (ff_close io) (ff_writes io) (default [] (fs !! filename)) [x; y] points with
       | (Some ErrCSVOpen, _) => (fs, Some (ErrCSV ErrCSVOpen))
       | (err, content) => (<[filename := content]> fs, ErrCSV <$> err)
       end)
      (match gonum x y points with
       | None => (fs, Some ErrDraw)
       | Some content => (<[filename := content]> fs, None)
       end)).

(** [log.Fatalln] ends the program at the first error. *)
Definition and_then (r : res (disk * option main_error)) (k : disk → res (disk * option main_error))
    : res (disk * option main_error) :=
  '(fs, err) ← r; match err with Some e => Ok (fs, Some e) | None => k fs end.

(** [ord1] to [ord3] are the orders in which the maps of the plots are visited. *)
Definition plot_main (fl : flags) (srcPath : bytes) (ord1 ord2 ord3 : nat → list N) (fuel : nat) (fs : disk)
    : res (disk * option main_error) :=
  if bool_decide (srcPath = []) then Ok (fs, Some ErrUsage)
  else
    match fs !! srcPath with
    | None => Ok (fs, Some ErrSource)
    | Some file =>
      '(msgs, err) ← ReadAll (Msg := message) file;
      match err with
      | Some e => Ok (fs, Some (ErrLog e))
      | None =>
        and_then (save (fl_latency fl) xlabel latency_label
                    (avgLatency (clientLatency_plot msgs) (fl_interval fl) ord1 fuel) fs) (λ fs,
        and_then (save (fl_throughput fl) xlabel throughput_label
                    (avgThroughput (throughput_plot msgs) (fl_interval fl) ord2 fuel) fs) (λ fs,
        save (fl_throughputVSLatency fl) throughput_label latency_label
          (avgThroughputVSAvgLatency (throughputVSLatency_plot msgs) (fl_interval fl) ord3 fuel) fs))
      end
    end.
End main.

(** ** Properties *)

#[local] Existing Instance Rational.
#[local] Open Scope Q_scope.

Section facts.
Context {JL : JSONLib message} {Laws : JSONLaws message} (Sprint : Q → bytes)
  (gonum : bytes → bytes → list (Q * Q) → option bytes) (faults : bytes → file_faults).

(** A CSV file is written in full when no operation on it fails. *)
Lemma save_csv filename x y (points : list (Q * Q)) fs :
  path_Ext filename = str ".csv" → faults filename = no_faults →
  save (A := Rational) Sprint gonum faults filename x y (Ok points) fs =
    Ok (<[filename := csv_text (A := Rational) Sprint [x; y] points]> fs, None).
Proof.
  intros Hext Hio. unfold save. rewrite bool_decide_eq_false_2 by (by intros ->). rewrite Hio. cbn [mbind res_bind].
  unfold PlotAverage. rewrite bool_decide_eq_true_2 by done.
  by rewrite (proj1 (CSVPlot_file (A := Rational) Sprint (default [] (fs !! filename)) [x; y] points)).
Qed.

Lemma save_nothing x y avg fs : save (A := Rational) Sprint gonum faults [] x y avg fs = Ok (fs, None).
Proof. done. Qed.

(** C40: from measurements to the plotted means.  The file of a worker that logged
    [msgs], given to the plot command with a CSV file for the latency, gives a
    file whose rows are the points of the latency plot: the groups they are
    computed from hold every latency measurement of a client exactly once, and
    each point is the time of its group and the mean of the group's samples.
    Numbers are rationals here, where the code has float64.  When the log is of
    one client this holds however Go orders the map; when it is of several, the
    rounds of the grouping are assumed to visit the map in one and the same
    order ([steady]), which Go does not promise: [Group_order_matters] is what
    happens otherwise.  The other hypotheses are that the messages can be encoded,
    that a client logged its start and its measurements are not some 292 years
    later, that the samples can be counted in 64 bits and that no file operation
    fails. *)
Theorem measurements_plotted (msgs : list message) (bs : list bytes) (src out : bytes) (interval : Z)
    (ord : nat → list N) (ids : list N) (lo hi : Q) (fs : disk) :
  Forall2 encodes msgs bs → src ≠ [] → path_Ext out = str ".csv" → faults out = no_faults →
  fs !! src = Some (runWorker_file msgs) →
  (0 < interval < 2 ^ 63)%Z → steady ord ids → NoDup ids → (∀ id, id ∈ ids ↔ is_Some (measurements (latency_plot msgs) !! id)) →
  (∀ m, m ∈ msgs → client_latency m = true →
     timed msgs interval m ∧ lo <= (latency_value m).1 <= hi) →
  (samples latency_value (filter (λ m, client_latency m = true) msgs) < two64)%N →
  ∃ groups points bound,
    (∀ fuel ord2 ord3, (bound ≤ fuel)%nat →
       plot_main (A := Rational) Sprint gonum faults (mkFlags interval out [] []) src ord ord2 ord3 fuel fs =
         Ok (<[out := csv_text (A := Rational) Sprint [xlabel; latency_label] points]> fs, None)) ∧
    measured groups ≡ₚ filter (λ m, client_latency m = true) msgs ∧
    Forall2 (point_of latency_value) (filter (λ g, 0 < samples latency_value (g_Measurements g))%N groups) points ∧
    Forall (λ p, lo <= p.2 <= hi) points.
Proof.
  intros Henc Hsrc Hext Hio Hfs Hint Hord Hnd Hids Hmsgs Hsmall.
  destruct (latency_plot_exact msgs interval ord ids lo hi Hint Hord Hnd Hids Hmsgs Hsmall)
    as (groups & points & bound & Havg & Hmeas & Hpoints & Hbounds).
  exists groups, points, bound. split; [|by split_and!]. intros fuel ord2 ord3 Hfuel. unfold plot_main.
  rewrite bool_decide_eq_false_2 by done. rewrite Hfs, runWorker_keeps_log, (log_roundtrip msgs bs Henc).
  cbn [mbind res_bind fl_latency fl_throughput fl_throughputVSLatency fl_interval].
  change (clientLatency_plot msgs) with (latency_plot msgs). rewrite (Havg fuel Hfuel), save_csv by done. done.
Qed.
End facts.

(** ** A log and its plot *)

Module PlotExample.
Import LatencyExample.

#[local] Instance message_eq_dec : EqDecision (message (A := Rational)).
Proof.
  assert (EqDecision Q) by solve_decision.
  assert (EqDecision Event) by solve_decision. unfold EqDecision, Decision in *. cbn in *. decide equality; first [apply (decide (_ = _)) | auto].
Defined.

(** Three messages can be encoded: those of [logged], by their position. *)
#[local] Instance LoggedJSON : JSONLib (message (A := Rational)) := {|
  Any := nat;
  New m := fst <$> list_find (m =.) logged;
  Marshal i := match i with
               | O => Some (str "{}") | 1%nat => Some (str "{ }") | 2%nat => Some (str "{  }") | _ => None
               end;
  Unmarshal b := logged !! (length b - 2)%nat;
|}.

#[local] Instance LoggedJSON_laws : JSONLaws (message (A := Rational)).
Proof.
  split.
  - intros [|[|[|i]]] b [= <-]; by eexists.
  - intros [|[|[|i]]] b fuel t [= <-] Hf; (destruct fuel as [|fuel]; [cbn in Hf; lia|]); done.
  - intros m i b [[j x] [Hl ->]]%fmap_Some Hb. apply list_find_Some in Hl as (Hl & <- & _). cbn [fst] in *.
    destruct j as [|[|[|j]]]; cbn in Hb; [injection Hb as <-; exact Hl..|discriminate].
Qed.

(** The file system of the example: a worker's log. *)
Definition log_disk : disk := {[str "measurements.json" := runWorker_file logged]}.

Lemma measurements_plotted_witness :
  ∃ points bound, (∀ fuel, (bound ≤ fuel)%nat →
    plot_main (A := Rational) (λ _, str "0") (λ _ _ _, None) (λ _, no_faults) (mkFlags 50 (str "latency.csv") [] [])
      (str "measurements.json") (λ _, [1%N]) (λ _, []) (λ _, []) fuel log_disk =
    Ok (<[str "latency.csv" := csv_text (A := Rational) (λ _, str "0") [xlabel; latency_label] points]> log_disk, None)) ∧
    Forall (λ p, 10 <= p.2 <= 16) points.
Proof.
  destruct (measurements_plotted (λ _, str "0") (λ _ _ _, None) (λ _, no_faults) logged
    [str "{}"; str "{ }"; str "{  }"] (str "measurements.json") (str "latency.csv") 50 (λ _, [1%N]) [1%N] 10 16 log_disk)
    as (groups & points & bound & H1 & _ & _ & H2).
  - repeat constructor; unfold encodes; [exists 0%nat|exists 1%nat|exists 2%nat]; split; vm_compute; reflexivity.
  - discriminate.
  - vm_compute. reflexivity.
  - reflexivity.
  - apply lookup_singleton_eq.
  - lia.
  - split; [done|left; cbn; lia].
  - repeat constructor. apply not_elem_of_nil.
  - apply logged_ids.
  - apply logged_clients.
  - reflexivity.
  - exists points, bound. split; [|exact H2]. intros fuel Hfuel. by apply H1.
Defined.
End PlotExample.
