(* ===== verification/Client.v ===== *)
(** * client/client.go: the client

    The client has two goroutines, [sendCommands] and [handleCommands], which
    share the channel of pending commands and [highestCommitted].  They are one
    state and a step function; a run is a list of labels, one per atomic
    action, so that every interleaving is a run.  The reader, the rate of the
    limiter and what the limiter and the quorum calls answer are parameters
    and labels. *)

From S2P Require Import Prelude Encoding Bitfield Types Replica CmdCache.

(** ** The quorum function *)

Record qspec := mkQspec { q_faulty : Z }.

(** [signatures] are the replicas that answered without an error. *)
Definition ExecCommandQF (q : qspec) (signatures : gset ID) : bool :=
  negb (Z.of_nat (size signatures) <? q_faulty q + 1)%Z.

(** The quorum specification and the nodes of [Connect].  Two replicas with
    one address are one node: the last one visited. *)
Record replicaInfo := mkInfo { ri_ID : ID; ri_Address : bytes }.

Definition Connect_nodes (replicas : list replicaInfo) : gmap bytes N :=
  foldl (λ nodes r, <[ri_Address r := wrap32 (ri_ID r)]> nodes) ∅ replicas.

Definition Connect_qspec (replicas : list replicaInfo) : qspec :=
  mkQspec (NumFaulty (Z.of_nat (length replicas))).

(** ** The client *)

Inductive read_error := ReadOk | ReadEOF | ReadErr.

(** io.Reader: what is read into a buffer of a given length. *)
Class Reader (R : Type) := Read : nat → R → bytes * read_error * R.
(** An io.Reader reads at most as many bytes as the buffer holds. *)
Class ReaderLaws {R} (RD : Reader R) := {
  Read_length n r : length (Read n r).1.1 ≤ n;
}.

Inductive wait_result := WaitOk | WaitCanceled | WaitFailed.

(** What [promise.Get] returns: no error, an error because the call was
    cancelled, or another error. *)
Inductive outcome := Executed | Canceled | Failed.

#[export] Instance outcome_eq_dec : EqDecision outcome.
Proof. solve_decision. Defined.

(** Where the sender is: at the top of its loop, at the send on the channel,
    or returned, with the error of the reader or of the limiter if any. *)
Inductive sender := AtTop | AtPush (seq : N) | SenderDone (err : bool).
Inductive handler := AtSelect | AtGet (seq : N) | HandlerDone.

Section client.
Context {R Rate : Type} {RD : Reader R} (addRate : Rate → Rate → Rate).

(** client.Config, as far as it is used. *)
Record Config := mkConfig {
  cf_ID : ID;
  cf_MaxConcurrent : nat;
  cf_PayloadSize : N;
  cf_Input : R;
  cf_RateLimit : Rate;
  cf_RateStep : Rate;
  cf_RateStepInterval : Z }.

(** The fields of Client, the local variables of the two goroutines, whether
    the context is cancelled, and what was sent and handled so far: a handled
    command with its outcome. *)
Record Client := mkClient {
  c_id : ID;
  c_payloadSize : nat;
  c_highestCommitted : N;
  c_capacity : nat;
  c_pendingCmds : list N;
  c_reader : R;
  c_limit : Rate;
  c_stepUp : Rate;
  c_stepUpInterval : Z;
  c_num : N;
  c_lastCommand : N;
  c_lastStep : Z;
  c_sender : sender;
  c_handler : handler;
  c_executed : nat;
  c_failed : nat;
  c_cancelled : bool;
  c_sent : list clientCmd;
  c_handled : list (N * outcome) }.

Definition MaxUint64 : N := two64 - 1.

(** The composite literal of [New] and the local variables at the start. *)
Definition Client_New (conf : Config) (start : Z) : Client :=
  mkClient (cf_ID conf) 0 1 (cf_MaxConcurrent conf) [] (cf_Input conf) (cf_RateLimit conf)
    (cf_RateStep conf) (cf_RateStepInterval conf) 1 MaxUint64 start AtTop AtSelect 0 0 false [] [].

Definition set_sender (s : sender) (c : Client) : Client :=
  mkClient (c_id c) (c_payloadSize c) (c_highestCommitted c) (c_capacity c) (c_pendingCmds c) (c_reader c)
    (c_limit c) (c_stepUp c) (c_stepUpInterval c) (c_num c) (c_lastCommand c) (c_lastStep c) s (c_handler c)
    (c_executed c) (c_failed c) (c_cancelled c) (c_sent c) (c_handled c).

Definition set_handler (h : handler) (c : Client) : Client :=
  mkClient (c_id c) (c_payloadSize c) (c_highestCommitted c) (c_capacity c) (c_pendingCmds c) (c_reader c)
    (c_limit c) (c_stepUp c) (c_stepUpInterval c) (c_num c) (c_lastCommand c) (c_lastStep c) (c_sender c) h
    (c_executed c) (c_failed c) (c_cancelled c) (c_sent c) (c_handled c).

Definition set_pending (q : list N) (c : Client) : Client :=
  mkClient (c_id c) (c_payloadSize c) (c_highestCommitted c) (c_capacity c) q (c_reader c)
    (c_limit c) (c_stepUp c) (c_stepUpInterval c) (c_num c) (c_lastCommand c) (c_lastStep c) (c_sender c)
    (c_handler c) (c_executed c) (c_failed c) (c_cancelled c) (c_sent c) (c_handled c).

Definition set_cancelled (c : Client) : Client :=
  mkClient (c_id c) (c_payloadSize c) (c_highestCommitted c) (c_capacity c) (c_pendingCmds c) (c_reader c)
    (c_limit c) (c_stepUp c) (c_stepUpInterval c) (c_num c) (c_lastCommand c) (c_lastStep c) (c_sender c)
    (c_handler c) (c_executed c) (c_failed c) true (c_sent c) (c_handled c).

(** Stepping the limiter up. *)
Definition step_limiter (now : Z) (c : Client) : Client :=
  if (c_stepUpInterval c <? now - c_lastStep c)%Z then
    mkClient (c_id c) (c_payloadSize c) (c_highestCommitted c) (c_capacity c) (c_pendingCmds c) (c_reader c)
      (addRate (c_limit c) (c_stepUp c)) (c_stepUp c) (c_stepUpInterval c) (c_num c) (c_lastCommand c) now
      (c_sender c) (c_handler c) (c_executed c) (c_failed c) (c_cancelled c) (c_sent c) (c_handled c)
  else c.

(** From the read on: the next command is sent to the replicas. *)
Definition send_next (c : Client) : Client :=
  let '(data, err, r) := Read (c_payloadSize c) (c_reader c) in
  match err with
  | ReadErr =>
    mkClient (c_id c) (c_payloadSize c) (c_highestCommitted c) (c_capacity c) (c_pendingCmds c) r
      (c_limit c) (c_stepUp c) (c_stepUpInterval c) (c_num c) (c_lastCommand c) (c_lastStep c)
      (SenderDone true) (c_handler c) (c_executed c) (c_failed c) (c_cancelled c) (c_sent c) (c_handled c)
  | _ =>
    let last := match err, data with
                | ReadEOF, [] => if (c_num c <? c_lastCommand c)%N then c_num c else c_lastCommand c
                | _, _ => c_lastCommand c
                end in
    let cmd := mkCmd (wrap32 (c_id c)) (c_num c) data in
    let num := wrap64 (c_num c + 1) in
    mkClient (c_id c) (c_payloadSize c) (c_highestCommitted c) (c_capacity c) (c_pendingCmds c) r
      (c_limit c) (c_stepUp c) (c_stepUpInterval c) num last (c_lastStep c)
      (AtPush num) (c_handler c) (c_executed c) (c_failed c) (c_cancelled c) (c_sent c ++ [cmd]) (c_handled c)
  end.

(** One iteration of [sendCommands], up to the send on the channel. *)
Definition sendCommands_iter (now : Z) (wait : wait_result) (c : Client) : Client :=
  if c_cancelled c then set_sender (SenderDone false) c
  else
    let c := step_limiter now c in
    match wait with
    | WaitFailed => set_sender (SenderDone true) c
    | _ =>
      if (c_lastCommand c <=? c_highestCommitted c)%N then set_sender (SenderDone false) c
      else send_next c
    end.

(** The end of an iteration of [handleCommands]: the promise is resolved. *)
Definition handle_result (seq : N) (o : outcome) (c : Client) : Client :=
  mkClient (c_id c) (c_payloadSize c)
    (if (c_highestCommitted c <? seq)%N then seq else c_highestCommitted c)
    (c_capacity c) (c_pendingCmds c) (c_reader c)
    (c_limit c) (c_stepUp c) (c_stepUpInterval c) (c_num c) (c_lastCommand c) (c_lastStep c) (c_sender c)
    AtSelect
    (match o with Executed => S (c_executed c) | _ => c_executed c end)
    (match o with Failed => S (c_failed c) | _ => c_failed c end)
    (c_cancelled c) (c_sent c) (c_handled c ++ [(seq, o)]).

Inductive label :=
| Iterate (now : Z) (wait : wait_result)   (** the sender, at the top of its loop *)
| Push                                     (** the send succeeds: the buffer has room *)
| Receive                                  (** the handler receives a pending command *)
| ContextDone                              (** the handler sees the end of the context *)
| Resolve (o : outcome)                    (** the promise of the command is resolved *)
| Cancel.                                  (** the context is cancelled *)

(** [None]: the action is not possible in the state.  A receive from an empty
    buffer takes the value of a sender that waits at the channel. *)
Definition client_step (l : label) (c : Client) : option Client :=
  match l, c_sender c, c_handler c with
  | Iterate now wait, AtTop, _ => Some (sendCommands_iter now wait c)
  | Push, AtPush seq, _ =>
    if (length (c_pendingCmds c) <? c_capacity c)%nat
    then Some (set_sender AtTop (set_pending (c_pendingCmds c ++ [seq]) c))
    else None
  | Receive, s, AtSelect =>
    match c_pendingCmds c, s with
    | seq :: q, _ => Some (set_handler (AtGet seq) (set_pending q c))
    | [], AtPush seq => Some (set_handler (AtGet seq) (set_sender AtTop c))
    | [], _ => None
    end
  | ContextDone, _, AtSelect => if c_cancelled c then Some (set_handler HandlerDone c) else None
  | Resolve o, _, AtGet seq => Some (handle_result seq o c)
  | Cancel, _, _ => Some (set_cancelled c)
  | _, _, _ => None
  end.

Fixpoint client_run (ls : list label) (c : Client) : option Client :=
  match ls with
  | [] => Some c
  | l :: ls => client_step l c ≫= client_run ls
  end.

(** ** The protocol of the two goroutines *)

(** The number of the command with index [i]. *)
Definition sn (i : nat) : N := wrap64 (N.of_nat (S i)).

Definition in_flight (c : Client) : list N :=
  match c_handler c with AtGet seq => [seq] | _ => [] end ++ c_pendingCmds c ++
  match c_sender c with AtPush seq => [seq] | _ => [] end.

Definition outcomes (o : outcome) (c : Client) : nat := length (filter (λ x, x.2 = o) (c_handled c)).

Record client_ok (c : Client) : Prop := {
  ok_num : c_num c = sn (length (c_sent c));
  ok_seqs : cc_SequenceNumber <$> c_sent c = sn <$> seq 0 (length (c_sent c));
  ok_fifo : (fst <$> c_handled c) ++ in_flight c = (λ i, sn (S i)) <$> seq 0 (length (c_sent c));
  ok_room : length (c_pendingCmds c) ≤ c_capacity c;
  ok_executed : c_executed c = outcomes Executed c;
  ok_failed : c_failed c = outcomes Failed c;
  ok_highest : c_highestCommitted c = 1%N ∨ c_highestCommitted c ∈ fst <$> c_handled c;
  ok_done : c_sender c = SenderDone false → c_cancelled c = true ∨ (c_lastCommand c ≤ c_highestCommitted c)%N }.

Lemma outcomes_snoc o seq o' (c : Client) (l : list (N * outcome)) :
  length (filter (λ x, x.2 = o) (l ++ [(seq, o')])) =
    (if decide (o' = o) then S else id) (length (filter (λ x : N * outcome, x.2 = o) l)).
Proof.
  rewrite filter_app, length_app. case_decide.
  - rewrite filter_cons_True, filter_nil by done. cbn. lia.
  - rewrite filter_cons_False, filter_nil by done. cbn. unfold id. lia.
Qed.

Lemma sn_next n : wrap64 (sn n + 1) = sn (S n).
Proof.
  unfold sn, wrap64. rewrite N.Div0.add_mod_idemp_l. f_equal. lia.
Qed.

Lemma Client_New_ok conf start : client_ok (Client_New conf start).
Proof. split; cbn; auto; try lia; try done. Qed.

Lemma step_limiter_ok now c : client_ok c → client_ok (step_limiter now c).
Proof. intros []. unfold step_limiter. by destruct (_ <? _)%Z; split. Qed.

Lemma send_next_ok c : c_sender c = AtTop → client_ok c → client_ok (send_next c).
Proof.
  intros Htop [O1 O2 O3 O4 O5 O6 O7 O8]. unfold send_next.
  destruct (Read (c_payloadSize c) (c_reader c)) as [[data err] r]. unfold in_flight in O3. rewrite Htop in O3.
  destruct err; [| |by split].
  all: split; cbn -[outcomes]; [| | |done..].
  all: rewrite length_app, Nat.add_1_r, ?seq_S, ?fmap_app, ?O2, ?O1, ?sn_next; try done.
  all: rewrite <-O3; unfold in_flight; cbn; by rewrite app_nil_r, !app_assoc.
Qed.

Lemma handle_result_ok seq o c : c_handler c = AtGet seq → client_ok c → client_ok (handle_result seq o c).
Proof.
  intros Hget [O1 O2 O3 O4 O5 O6 O7 O8]. unfold in_flight in O3. rewrite Hget in O3.
  split; cbn -[outcomes]; try done.
  - rewrite fmap_app. unfold in_flight. cbn. rewrite <-app_assoc. done.
  - unfold outcomes. cbn. rewrite outcomes_snoc, O5 by done. by destruct o.
  - unfold outcomes. cbn. rewrite outcomes_snoc, O6 by done. by destruct o.
  - rewrite fmap_app, elem_of_app. destruct (_ <? _)%N; [right; right; left|]. destruct O7; auto.
  - intros Hd. destruct (O8 Hd) as [?|?]; [by left|right]. destruct (N.ltb_spec (c_highestCommitted c) seq); lia.
Qed.

Lemma sendCommands_iter_ok now wait c :
  c_sender c = AtTop → client_ok c → client_ok (sendCommands_iter now wait c).
Proof.
  intros Htop Hok. unfold sendCommands_iter. destruct (c_cancelled c) eqn:Hc.
  { destruct Hok. unfold in_flight in *. rewrite Htop in *. split; auto. }
  assert (client_ok (step_limiter now c)) as Hok' by by apply step_limiter_ok.
  assert (c_sender (step_limiter now c) = AtTop) as Htop' by by (unfold step_limiter; destruct (_ <? _)%Z).
  assert (∀ err, (err = false → (c_lastCommand (step_limiter now c) ≤ c_highestCommitted (step_limiter now c))%N) →
    client_ok (set_sender (SenderDone err) (step_limiter now c))) as Hdone.
  { intros err Herr. destruct Hok'. unfold in_flight in *. rewrite Htop' in *. split; auto. cbn.
    intros [= ->]. auto. }
  destruct wait; [| |by apply Hdone];
    (destruct (N.leb_spec (c_lastCommand (step_limiter now c)) (c_highestCommitted (step_limiter now c)));
     [by apply Hdone|by apply send_next_ok]).
Qed.

Lemma client_step_ok l c c' : client_step l c = Some c' → client_ok c → client_ok c'.
Proof.
  intros Hstep Hok. unfold client_step in Hstep.
  destruct l as [now wait| | | |o|], (c_sender c) as [|seq|err] eqn:Hs, (c_handler c) as [|seq'|] eqn:Hh;
    simplify_eq/=.
  all: try by (apply sendCommands_iter_ok).
  all: try by (apply handle_result_ok).
  all: destruct (c_pendingCmds c) as [|x q] eqn:Hq; repeat case_match; simplify_eq/=.
  all: destruct Hok as [O1 O2 O3 O4 O5 O6 O7 O8]; unfold in_flight in O3; rewrite Hs, Hh, Hq in O3.
  all: rewrite Hq in O4; rewrite Hs in O8; split; unfold in_flight; cbn -[outcomes];
    rewrite ?Hs, ?Hh, ?Hq; rewrite <-?app_assoc; try done; try (by left).
  all: try (intros [= ->]; auto).
  all: cbn in O4; rewrite ?length_app; cbn; rewrite ?Nat.ltb_lt in *; lia.
Qed.

Lemma client_run_ok ls c c' : client_run ls c = Some c' → client_ok c → client_ok c'.
Proof.
  revert c. induction ls as [|l ls IH]; intros c; cbn [client_run]; [by intros [= <-]|].
  intros (c1 & Hstep & Hrun)%bind_Some Hok. by eapply IH, client_step_ok.
Qed.

Lemma client_step_capacity l c c' : client_step l c = Some c' → c_capacity c' = c_capacity c.
Proof.
  unfold client_step, sendCommands_iter, send_next, step_limiter. intros Hstep.
  repeat (case_match; simplify_eq/=; try done).
Qed.

Lemma client_run_capacity ls c c' : client_run ls c = Some c' → c_capacity c' = c_capacity c.
Proof.
  revert c. induction ls as [|l ls IH]; intros c; cbn [client_run]; [by intros [= <-]|].
  intros (c1 & Hstep & Hrun)%bind_Some. by rewrite (IH _ Hrun), (client_step_capacity _ _ _ Hstep).
Qed.

(** ** What is read and sent *)

(** The reader after [k] reads into buffers of length [n], and what the next
    read returns. *)
Fixpoint reader_after (n k : nat) (r : R) : R :=
  match k with O => r | S k => (Read n (reader_after n k r)).2 end.
Definition nth_read (n k : nat) (r : R) : bytes * read_error := (Read n (reader_after n k r)).1.

(** The commands carry what was read, in order, and [lastCommand] is the number
    of one for which the reader reported the end of the input and no data. *)
Record reads_ok (n : nat) (input : R) (c : Client) : Prop := {
  rd_size : c_payloadSize c = n;
  rd_reader : c_sender c = SenderDone true ∨ c_reader c = reader_after n (length (c_sent c)) input;
  rd_data : cc_Data <$> c_sent c = (λ k, (nth_read n k input).1) <$> seq 0 (length (c_sent c));
  rd_last : c_lastCommand c = MaxUint64 ∨
    ∃ k, k < length (c_sent c) ∧ c_lastCommand c = sn k ∧ nth_read n k input = ([], ReadEOF) }.

Lemma step_limiter_reads n input now c : reads_ok n input c → reads_ok n input (step_limiter now c).
Proof. intros []. unfold step_limiter. by destruct (_ <? _)%Z; split. Qed.

Lemma send_next_reads n input c :
  c_sender c = AtTop → client_ok c → reads_ok n input c → reads_ok n input (send_next c).
Proof.
  intros Htop [O1 _ _ _ _ _ _ _] [R1 [R2|R2] R3 R4]; [by rewrite Htop in R2|]. unfold send_next. rewrite R1, R2.
  destruct (Read n (reader_after n (length (c_sent c)) input)) as [[data err] r] eqn:Hread.
  assert (nth_read n (length (c_sent c)) input = (data, err)) as Hnth by (unfold nth_read; by rewrite Hread).
  assert (c_lastCommand c = MaxUint64 ∨
    ∃ k, k < S (length (c_sent c)) ∧ c_lastCommand c = sn k ∧ nth_read n k input = ([], ReadEOF)) as Hold.
  { destruct R4 as [?|(k & ? & ? & ?)]; [by left|right; exists k]. split_and!; [lia|done..]. }
  destruct err; [| |by split; cbn; auto].
  all: split; cbn -[seq]; rewrite ?length_app, ?Nat.add_1_r, ?seq_S, ?fmap_app, ?R3; cbn -[seq]; rewrite ?Hnth, ?Hread; auto.
  destruct data as [|x data]; [|done].
  destruct (c_num c <? c_lastCommand c)%N; [right; exists (length (c_sent c)); split_and!; [lia|done..]|done].
Qed.

Lemma client_step_reads n input l c c' :
  client_step l c = Some c' → client_ok c → reads_ok n input c → reads_ok n input c'.
Proof.
  intros Hstep Hok Hr. unfold client_step in Hstep.
  assert (∀ s, (c_sender c = AtTop ∨ ∃ seq, c_sender c = AtPush seq) → reads_ok n input (set_sender s c)) as Hset.
  { intros s Hs. destruct Hr as [R1 R2 R3 R4]. split; cbn; try done. right. destruct R2 as [R2|]; [|done].
    destruct Hs as [Hs|(seq & Hs)]; congruence. }
  destruct l as [now wait| | | |o|], (c_sender c) as [|seq|err] eqn:Hs, (c_handler c) as [|seq'|] eqn:Hh;
    simplify_eq/=; try (repeat case_match; simplify_eq/=).
  all: try (by destruct Hr; split; cbn; auto).
  all: try (by destruct Hr as [R1 [R2|R2] R3 R4]; [congruence|split; cbn; auto]).
  all: unfold sendCommands_iter; destruct (c_cancelled c); [apply Hset; by left|].
  all: pose proof (step_limiter_reads n input now c Hr) as Hlr; pose proof (step_limiter_ok now c Hok) as Hlo.
  all: assert (c_sender (step_limiter now c) = AtTop) as Htop by (unfold step_limiter; by destruct (_ <? _)%Z).
  all: assert (∀ s, reads_ok n input (set_sender s (step_limiter now c))) as Hset' by
    (intros s; destruct Hlr as [R1 [R2|R2] R3 R4]; [congruence|split; cbn; auto]).
  all: destruct wait; [| |by apply Hset']; (destruct (_ <=? _)%N; [by apply Hset'|by apply send_next_reads]).
Qed.

Lemma client_run_reads n input ls c c' :
  client_run ls c = Some c' → client_ok c → reads_ok n input c → reads_ok n input c'.
Proof.
  revert c. induction ls as [|l ls IH]; intros c; cbn [client_run]; [by intros [= <-]|].
  intros (c1 & Hstep & Hrun)%bind_Some Hok Hr. eapply IH; [done|by eapply client_step_ok|by eapply client_step_reads].
Qed.

(** C31: in every interleaving of the two goroutines the commands are numbered
    1, 2, ... in the order they are sent, and carry what the reads into buffers
    of length 0 returned, in order; they are handled in that order: those
    handled, the one being handled, those in the channel and the one about to
    enter it are all that was sent, once each, under the number after their own.
    The channel never holds more than MaxConcurrent, and the counters count.  The
    sender stops by itself only after the reader reported the end of the input
    for one of the commands, and then every command before that one was handled.
    All this for fewer than 2^64 - 3 commands. *)
Theorem client_protocol (conf : Config) (start : Z) (ls : list label) (c : Client) :
  client_run ls (Client_New conf start) = Some c →
  (N.of_nat (length (c_sent c)) + 2 < MaxUint64)%N →
  cc_SequenceNumber <$> c_sent c = (λ i, N.of_nat i + 1)%N <$> seq 0 (length (c_sent c)) ∧
  cc_Data <$> c_sent c = (λ i, (nth_read 0 i (cf_Input conf)).1) <$> seq 0 (length (c_sent c)) ∧
  (fst <$> c_handled c) ++ in_flight c = (λ i, N.of_nat i + 2)%N <$> seq 0 (length (c_sent c)) ∧
  length (c_pendingCmds c) ≤ cf_MaxConcurrent conf ∧
  c_executed c = outcomes Executed c ∧ c_failed c = outcomes Failed c ∧
  (c_sender c = SenderDone false → c_cancelled c = false →
     ∃ k, k < length (c_sent c) ∧ nth_read 0 k (cf_Input conf) = ([], ReadEOF) ∧ k ≤ length (c_handled c)).
Proof.
  intros Hrun Hlen. pose proof (client_run_ok _ _ _ Hrun (Client_New_ok conf start)) as [O1 O2 O3 O4 O5 O6 O7 O8].
  destruct (client_run_reads 0 (cf_Input conf) _ _ _ Hrun (Client_New_ok conf start)) as [R1 R2 R3 R4];
    [split; cbn; auto|].
  assert (∀ i, i ≤ S (length (c_sent c)) → sn i = (N.of_nat i + 1)%N) as Hsn.
  { intros i Hi. unfold sn. rewrite wrap64_small; [lia|]. unfold MaxUint64 in Hlen. lia. }
  split_and!; [|done| | |done..|].
  - rewrite O2. apply list_fmap_ext. intros i x [-> ?]%lookup_seq. rewrite Hsn; lia.
  - rewrite O3. apply list_fmap_ext. intros i x [-> ?]%lookup_seq. rewrite Hsn; lia.
  - etrans; [exact O4|]. by rewrite (client_run_capacity _ _ _ Hrun).
  - intros Hd Hc. destruct (O8 Hd) as [?|Hle]; [congruence|].
    assert (c_highestCommitted c ≤ N.of_nat (length (c_handled c)) + 1)%N as Hhigh.
    { destruct O7 as [->|Hin]; [lia|]. apply list_elem_of_lookup in Hin as [j Hj].
      pose proof (lookup_lt_Some _ _ _ Hj) as Hlt. rewrite length_fmap in Hlt.
      assert (((fst <$> c_handled c) ++ in_flight c) !! j = Some (c_highestCommitted c)) as Hj'
        by by apply lookup_app_l_Some.
      rewrite O3, list_lookup_fmap_Some in Hj'. destruct Hj' as (i & Heq & [-> Hlt']%lookup_seq).
      rewrite Hsn in Heq by lia. lia. }
    assert (length (c_handled c) ≤ length (c_sent c)) as Hcount.
    { apply (f_equal length) in O3. rewrite length_app, !length_fmap, length_seq in O3. lia. }
    destruct R4 as [Hmax|(k & Hk & Heq & Hread)]; [lia|]. exists k. split_and!; [done..|].
    rewrite Hsn in Heq by lia. lia.
Qed.

(** ** The data of the commands *)

Lemma client_step_data {RL : ReaderLaws RD} l c c' :
  client_step l c = Some c' →
  c_payloadSize c = 0 ∧ Forall (λ cmd, cc_Data cmd = []) (c_sent c) →
  c_payloadSize c' = 0 ∧ Forall (λ cmd, cc_Data cmd = []) (c_sent c').
Proof.
  intros Hstep [Hz Hall].
  assert (∀ now, c_payloadSize (step_limiter now c) = 0 ∧ c_sent (step_limiter now c) = c_sent c) as Hlim
    by (intros now; unfold step_limiter; by destruct (_ <? _)%Z).
  unfold client_step in Hstep. destruct l as [now wait| | | |o|], (c_sender c), (c_handler c);
    simplify_eq/=; try done; repeat (case_match; simplify_eq/=); try done.
  all: unfold sendCommands_iter; destruct (c_cancelled c); [done|]; destruct (Hlim now) as [Hp Hs];
    destruct wait; try (cbn; by rewrite Hs); destruct (_ <=? _)%N; try (cbn; by rewrite Hs);
    unfold send_next; rewrite Hp; destruct (Read 0 (c_reader _)) as [[data err] r] eqn:Hr;
    assert (data = []) as -> by (apply nil_length_inv; pose proof (Read_length 0 (c_reader (step_limiter now c)));
      rewrite Hr in *; cbn in *; lia);
    destruct err; cbn [c_payloadSize c_sent]; rewrite ?Hs; (split; [done|]); try done; apply Forall_app; by split; [|constructor].
Qed.

(** [New] does not copy the payload size of the configuration, so every
    command of every client carries no data, whatever PayloadSize is and
    whatever the input holds. *)
Theorem payload_size_ignored {RL : ReaderLaws RD} (conf : Config) (start : Z) (ls : list label) (c : Client) :
  client_run ls (Client_New conf start) = Some c → Forall (λ cmd, cc_Data cmd = []) (c_sent c).
Proof.
  intros Hrun. assert (c_payloadSize (Client_New conf start) = 0 ∧
    Forall (λ cmd, cc_Data cmd = []) (c_sent (Client_New conf start))) as H0 by by split.
  revert H0 Hrun. generalize (Client_New conf start). induction ls as [|l ls IH]; intros c0 H0; cbn [client_run].
  - intros [= <-]. apply H0.
  - intros (c1 & Hstep & Hrun)%bind_Some. by eapply IH, Hrun; eapply client_step_data.
Qed.
End client.
Arguments Client : clear implicits.
Arguments Config : clear implicits.

(** ** What an acknowledgement means *)

Section acknowledged.
Context {P : BatchCodec}.

(** The calls of ExecCommand at a replica, in the order of their channels,
    and the commands it executed. *)
Definition calls (es : list srv_event) : list clientCmd :=
  omap (λ e, match e with SvCommand cmd => Some cmd | _ => None end) es.
Definition executed (es : list srv_event) : list clientCmd :=
  concat ((λ e, match e with SvExec cmd => default [] (Batch_Unmarshal cmd) | _ => [] end) <$> es).

(** Who waits and who was answered, before and after a batch. *)
Definition answered_by (ok : bool) (batch : list clientCmd) (s s' : clientSrv) : Prop :=
  sv_channels s' = sv_channels s ∧
  (∀ id c, sv_awaitingCmds s' !! id = Some c → sv_awaitingCmds s !! id = Some c) ∧
  (∀ c b, (c, b) ∈ sv_answers s' → (c, b) ∈ sv_answers s ∨
     b = ok ∧ ∃ x, x ∈ batch ∧ sv_awaitingCmds s !! cmd_id x = Some c).

Lemma answer_answered ok s x : answered_by ok [x] s (answer ok s x).
Proof.
  unfold answer. destruct (sv_awaitingCmds s !! cmd_id x) as [c|] eqn:Hc; [|split_and!; auto].
  split_and!; cbn; [done| |].
  - by intros id c' [_ ?]%lookup_delete_Some.
  - intros c' b [?|[= -> ->]%list_elem_of_singleton]%elem_of_app; [by left|right].
    split; [done|]. exists x. split; [by left|done].
Qed.

Lemma foldl_answered ok f batch s :
  (∀ s x, answered_by ok [x] s (f s x)) → answered_by ok batch s (foldl f s batch).
Proof.
  intros Hf. revert s. induction batch as [|x batch IH]; intros s; [by split_and!; auto|]. cbn [foldl].
  destruct (IH (f s x)) as (I1 & I2 & I3), (Hf s x) as (F1 & F2 & F3). split_and!; [congruence|auto|].
  intros c b [[?|(-> & y & Hy & ?)]%F3|(-> & y & Hy & ?%F2)]%I3; [by left|right..];
    (split; [done|]); exists y; split; [|done| |done]; [apply list_elem_of_singleton in Hy as ->; by left|by right].
Qed.

Record answers_sound (es : list srv_event) (srv : clientSrv) : Prop := {
  as_channels : sv_channels srv = length (calls es);
  as_waiting id c : sv_awaitingCmds srv !! id = Some c → ∃ cmd, calls es !! c = Some cmd ∧ cmd_id cmd = id;
  as_answers c : (c, true) ∈ sv_answers srv →
    ∃ cmd x, calls es !! c = Some cmd ∧ x ∈ executed es ∧ cmd_id x = cmd_id cmd }.

Lemma answers_sound_batch ok batch es e s s' :
  calls [e] = [] → (ok = true → executed [e] = batch) → answered_by ok batch s s' →
  answers_sound es s → answers_sound (es ++ [e]) s'.
Proof.
  intros Hcalls Hex (A1 & A2 & A3) [S1 S2 S3].
  assert (calls (es ++ [e]) = calls es) as Hc
    by (unfold calls in *; rewrite omap_app; cbn in *; by rewrite Hcalls, app_nil_r).
  assert (executed (es ++ [e]) = executed es ++ executed [e]) as He
    by (unfold executed; by rewrite fmap_app, concat_app).
  split; rewrite Hc, ?He; [congruence|by intros id c ?%A2%S2|].
  intros c [(cmd & x & ? & ? & ?)%S3|(<- & x & Hx & (cmd & ? & ?)%S2)]%A3.
  - exists cmd, x. split_and!; [done|set_solver|done].
  - exists cmd, x. rewrite Hex by done. split_and!; [done|set_solver|done].
Qed.

Lemma srv_step_sound es e s : answers_sound es s → answers_sound (es ++ [e]) (srv_step s e).
Proof.
  intros Hs. destruct e as [cmd|cmd|cmd]; cbn [srv_step].
  - destruct Hs as [S1 S2 S3]. assert (calls (es ++ [SvCommand cmd]) = calls es ++ [cmd]) as Hc
      by (unfold calls; by rewrite omap_app).
    assert (executed (es ++ [SvCommand cmd]) = executed es) as He
      by (unfold executed; rewrite fmap_app, concat_app; cbn; by rewrite app_nil_r).
    split; cbn; rewrite Hc, ?He, ?length_app; [cbn; lia| |].
    + intros id c [[<- <-]|[_ (x & ? & ?)%S2]]%lookup_insert_Some.
      * exists cmd. by rewrite S1, list_lookup_middle.
      * exists x. split; [by apply lookup_app_l_Some|done].
    + intros c (x & y & ? & ? & ?)%S3. exists x, y. split_and!; [by apply lookup_app_l_Some|done|done].
  - unfold clientSrv_Exec. destruct (Batch_Unmarshal cmd) as [batch|] eqn:Hb.
    + eapply (answers_sound_batch true batch); [done| | |exact Hs].
      { intros _. unfold executed. cbn. by rewrite Hb, app_nil_r. }
      apply (foldl_answered true exec_one batch (mkSrv _ _ _ _ _ _)). intros s' x.
      exact (answer_answered true (mkSrv (sv_awaitingCmds s') (sv_channels s') (sv_answers s')
        (sv_hashed s' ++ cc_Data x) (sv_commits s') (sv_cmdCache s')) x).
    + eapply (answers_sound_batch true []); [done| |by split_and!; auto|exact Hs].
      intros _. unfold executed. cbn. by rewrite Hb.
  - unfold clientSrv_Fork. destruct (Batch_Unmarshal cmd) as [batch|].
    + eapply (answers_sound_batch false batch); [done|done| |exact Hs]. by apply foldl_answered, answer_answered.
    + by eapply (answers_sound_batch false []); [done|done|split_and!; auto|].
Qed.

Lemma srv_run_sound bs es : answers_sound es (foldl srv_step (newClientServer bs) es).
Proof.
  induction es as [|e es IH] using rev_ind.
  - split; cbn; [done|by intros id c ?%lookup_empty_Some|by intros c ?%not_elem_of_nil].
  - rewrite foldl_snoc. by apply srv_step_sound.
Qed.

(** Commands carry no signature: whoever proposes can put any data under the ID of
    a client.  [genuine cmd es]: in the history of a replica the commands with the
    client and sequence number of [cmd] are [cmd]. *)
Definition genuine (cmd : clientCmd) (es : list srv_event) : Prop :=
  ∀ x, x ∈ executed es → cmd_id x = cmd_id cmd → x = cmd.

(** C29: when the quorum call of a command succeeds, a correct replica has
    executed a command with the client's ID and the sequence number of the call:
    f+1 replicas answered, at most f are faulty, and a correct replica answers a
    call without an error only when it executes such a command.  It is the
    client's command where no other was executed under its ID and number, which
    nothing enforces, since commands are not signed. *)
Theorem acknowledged_executed (replicas : list replicaInfo) (faulty signatures : gset ID)
    (batchSize : ID → Z) (history : ID → list srv_event) (chan : ID → nat) (cmd : clientCmd) :
  (Z.of_nat (size faulty) ≤ NumFaulty (Z.of_nat (length replicas)))%Z →
  ExecCommandQF (Connect_qspec replicas) signatures = true →
  (∀ r, r ∈ signatures → (r ∉ faulty) →
     calls (history r) !! chan r = Some cmd ∧
     (chan r, true) ∈ sv_answers (foldl srv_step (newClientServer (batchSize r)) (history r))) →
  ∃ r x, r ∈ signatures ∧ (r ∉ faulty) ∧ x ∈ executed (history r) ∧ cmd_id x = cmd_id cmd ∧
    (genuine cmd (history r) → cmd ∈ executed (history r)).
Proof.
  intros Hf Hqf Hcorrect. unfold ExecCommandQF, Connect_qspec in Hqf. cbn [q_faulty] in Hqf.
  apply negb_true_iff, Z.ltb_ge in Hqf.
  destruct (decide (signatures ⊆ faulty)) as [Hsub%subseteq_size|Hsub]; [lia|].
  destruct (set_choose_or_empty (signatures ∖ faulty)) as [[r Hr]|He]; [|exfalso; apply Hsub; intros r Hr;
    destruct (decide (r ∈ faulty)); [done|]; set_solver].
  apply elem_of_difference in Hr as [Hin Hout]. destruct (Hcorrect r Hin Hout) as [Hcall Hans].
  apply (as_answers _ _ (srv_run_sound (batchSize r) (history r))) in Hans as (cmd' & x & Hcall' & Hx & Hid).
  assert (cmd' = cmd) as -> by congruence. exists r, x. split_and!; [done..|].
  intros Hgen. by rewrite <-(Hgen x Hx Hid).
Qed.
End acknowledged.

(** ** A client at work *)

Module ClientExample.
#[local] Existing Instance NumberCodec.

(** A reader of a byte string. *)
#[local] Instance bytes_reader : Reader bytes := λ n b,
  match b with
  | [] => ([], if (n =? 0)%nat then ReadOk else ReadEOF, [])
  | _ => (take n b, ReadOk, drop n b)
  end.
#[local] Instance bytes_reader_laws : ReaderLaws bytes_reader.
Proof. split. intros n [|x b]; cbn [Read bytes_reader fst length]; [lia|]. rewrite length_take. lia. Qed.

(** A reader that ends at once. *)
#[local] Instance empty_reader : Reader unit := λ n r, ([], ReadEOF, r).

Definition conf2 : Config bytes Z := mkConfig 7 2 16 [Byte.x61; Byte.x62] 10%Z 0%Z 1000.
Definition two_sent : list label :=
  [Iterate 5 WaitOk; Push; Iterate 6 WaitOk; Receive; Push; Resolve Executed; Receive].
Definition after_two : Client bytes Z :=
  default (Client_New conf2 0) (client_run Z.add two_sent (Client_New conf2 0)).

Lemma payload_size_ignored_witness :
  length (c_sent after_two) = 2 ∧ Forall (λ cmd, cc_Data cmd = []) (c_sent after_two).
Proof.
  split; [vm_compute; reflexivity|].
  apply (payload_size_ignored Z.add conf2 0 two_sent after_two). vm_compute. reflexivity.
Defined.

(** At the end of the input one empty command is sent; its number is handled,
    although the call failed, and the sender stops. *)
Definition conf0 : Config unit Z := mkConfig 7 1 16 tt 10%Z 0%Z 1000.
Definition to_the_end : list label :=
  [Iterate 5 WaitOk; Push; Receive; Resolve Failed; Iterate 6 WaitOk].
Definition ended : Client unit Z :=
  default (Client_New conf0 0) (client_run Z.add to_the_end (Client_New conf0 0)).

Lemma client_protocol_witness :
  cc_SequenceNumber <$> c_sent ended = [1]%N ∧ c_executed ended = 0 ∧ c_failed ended = 1 ∧
  ∃ k, k < length (c_sent ended) ∧ nth_read 0 k tt = ([], ReadEOF) ∧ k ≤ length (c_handled ended).
Proof.
  destruct (client_protocol Z.add conf0 0 to_the_end ended) as (H1 & _ & H2 & H3 & H4 & H5 & H6).
  - vm_compute. reflexivity.
  - vm_compute. reflexivity.
  - split; [exact H1|]. split; [exact H4|]. split; [exact H5|].
    apply H6; vm_compute; reflexivity.
Defined.

(** Two of four replicas answer; one of them may be faulty. *)
Definition four : list replicaInfo := (λ i, mkInfo i [byte_of_N i]) <$> [1; 2; 3; 4]%N.
Definition order : clientCmd := mkCmd 7 1 [].
Definition history_of (r : ID) : list srv_event :=
  [SvCommand order; SvExec (CmdExample.payload [order])].

Lemma acknowledged_executed_witness :
  ∃ r x, r ∈ ({[2; 3]} : gset ID)%N ∧ (r ∉ ({[2]} : gset ID)%N) ∧ x ∈ executed (history_of r) ∧
    cmd_id x = cmd_id order ∧ (genuine order (history_of r) → order ∈ executed (history_of r)).
Proof.
  apply (acknowledged_executed four {[2%N]} {[2%N; 3%N]} (λ _, 1%Z) history_of (λ _, 0) order).
  - vm_compute. discriminate.
  - vm_compute. reflexivity.
  - intros r _ _. split; [reflexivity|]. apply (bool_decide_unpack _). vm_compute. exact I.
Defined.
(** A faulty leader proposes other data under the client's ID and sequence number:
    the replica executes it and answers the client's call without an error. *)
Definition other_order : clientCmd := mkCmd 7 1 [Byte.x78].
Definition forged_history : list srv_event :=
  [SvCommand order; SvExec (CmdExample.payload [other_order])].

Lemma other_data_acknowledged :
  (0, true) ∈ sv_answers (foldl srv_step (newClientServer 1) forged_history) ∧
  executed forged_history = [other_order].
Proof. split; [apply (bool_decide_unpack _); vm_compute; exact I|vm_compute; reflexivity]. Qed.
End ClientExample.
