(* ===== verification/ClientRun.v ===== *)
(** * Running and stopping a client

    [Client.Run] of client/client.go: the goroutine that sends commands, closes
    the connections and collects the results, the one that handles commands, and
    the metrics event loop, to which every handled command adds its latency.
    The first two are the step function of [Client]; a run is a list of labels,
    so that every interleaving is a run. *)

From S2P Require Import Prelude Encoding Bitfield Types Replica CmdCache Client Loops.

(** Where [Run] is: in [sendCommands], at the receive from [commandStatsChan],
    at the receive from [eventLoopDone], returned, or panicked with the error of
    [sendCommands]. *)
Inductive main_at := InSend | AtStats | AtLoopDone | Returned | Panicked.

Section client_run.
Context {R Rate : Type} {RD : Reader R} (addRate : Rate → Rate → Rate).
Abbreviation Client := (Client.Client R Rate).

(** The size of the metrics queue: eventloop.New(100) in modules.NewBuilder. *)
Definition metricsQueue : nat := 100.

(** [rn_adding]: the handler is at the send of the latency of the command it has
    handled, given by its number. *)
Record runner := mkRunner {
  rn_client : Client;
  rn_adding : option N;
  rn_metrics : loop N;
  rn_main : main_at;
  rn_stats : option (nat * nat);
  rn_closed : bool }.

Definition Client_Run (c : Client) : runner := mkRunner c None (loop_start new_loop) InSend None false.

Inductive run_label :=
| ClientStep (l : Client.label)
| AddLatency
| MetricsStep (l : loop_label)
| MainNext
| Tick (m : N).             (** the ticker of the metrics *)

(** Whether it is a step of the handler, and the command whose promise is
    resolved by it. *)
Definition handler_label (l : Client.label) : bool :=
  match l with Receive | ContextDone | Resolve _ => true | _ => false end.
Definition resolved (l : Client.label) (c : Client) : option N :=
  match l, c_handler c with Resolve _, AtGet seq => Some seq | _, _ => None end.

Definition main_next (rn : runner) : option runner :=
  let c := rn_client rn in
  match rn_main rn, c_sender c with
  | InSend, SenderDone true => Some (mkRunner c (rn_adding rn) (rn_metrics rn) Panicked (rn_stats rn) (rn_closed rn))
  | InSend, SenderDone false => Some (mkRunner c (rn_adding rn) (rn_metrics rn) AtStats (rn_stats rn) true)
  | AtStats, _ =>
    match c_handler c, rn_adding rn with
    | HandlerDone, None =>
      Some (mkRunner c None (rn_metrics rn) AtLoopDone (Some (c_executed c, c_failed c)) (rn_closed rn))
    | _, _ => None
    end
  | AtLoopDone, _ =>
    if bool_decide (lp_phase (rn_metrics rn) = Ended)
    then Some (mkRunner c (rn_adding rn) (rn_metrics rn) Returned (rn_stats rn) (rn_closed rn))
    else None
  | _, _ => None
  end.

Definition run_step (l : run_label) (rn : runner) : option runner :=
  match l with
  | ClientStep l =>
    match handler_label l, rn_adding rn with
    | true, Some _ => None
    | _, adding =>
      c ← client_step addRate l (rn_client rn);
      let adding := match resolved l (rn_client rn) with Some seq => Some seq | None => adding end in
      Some (mkRunner c adding (rn_metrics rn) (rn_main rn) (rn_stats rn) (rn_closed rn))
    end
  | AddLatency =>
    seq ← rn_adding rn;
    lp ← loop_add metricsQueue seq (rn_metrics rn);
    Some (mkRunner (rn_client rn) None lp (rn_main rn) (rn_stats rn) (rn_closed rn))
  | MetricsStep l =>
    lp ← loop_step l (c_cancelled (rn_client rn)) (rn_metrics rn);
    Some (mkRunner (rn_client rn) (rn_adding rn) lp (rn_main rn) (rn_stats rn) (rn_closed rn))
  | MainNext => main_next rn
  | Tick m =>
    lp ← loop_add metricsQueue m (rn_metrics rn);
    Some (mkRunner (rn_client rn) (rn_adding rn) lp (rn_main rn) (rn_stats rn) (rn_closed rn))
  end.

Fixpoint run_steps (ls : list run_label) (rn : runner) : option runner :=
  match ls with
  | [] => Some rn
  | l :: ls => run_step l rn ≫= run_steps ls
  end.

(** ** Properties *)

(** The steps of the client's own goroutines. *)
Definition own (l : run_label) : bool :=
  match l with ClientStep Cancel | Tick _ => false | _ => true end.
Definition run_stuck (rn : runner) : Prop := ∀ l, own l = true → run_step l rn = None.

Record run_ok (rn : runner) : Prop := {
  ro_client : client_ok (rn_client rn);
  ro_metrics : loop_ok metricsQueue (rn_metrics rn);
  ro_started : lp_phase (rn_metrics rn) ≠ NotStarted;
  ro_closed : rn_closed rn = match rn_main rn with InSend | Panicked => false | _ => true end;
  ro_stats : match rn_main rn with
             | AtLoopDone | Returned =>
               rn_stats rn = Some (c_executed (rn_client rn), c_failed (rn_client rn)) ∧
               c_handler (rn_client rn) = HandlerDone
             | _ => True
             end }.

Lemma Client_Run_ok conf start : run_ok (Client_Run (Client_New conf start)).
Proof. split; cbn; try done; [apply Client_New_ok|]. split; [cbn; unfold metricsQueue; lia|done]. Qed.

(** A handler that has returned stays so, and its counters with it. *)
Lemma handler_done_stays l (c c' : Client) :
  client_step addRate l c = Some c' → c_handler c = HandlerDone →
  c_handler c' = HandlerDone ∧ c_executed c' = c_executed c ∧ c_failed c' = c_failed c.
Proof.
  unfold client_step, sendCommands_iter, send_next, step_limiter. intros Hstep Hh. rewrite Hh in Hstep.
  repeat (case_match; simplify_eq/=; try done).
Qed.

Lemma run_step_ok l rn rn' : run_step l rn = Some rn' → run_ok rn → run_ok rn'.
Proof.
  destruct rn as [c ad lp ma st cl]. intros Hstep [O1 O2 O3 O4 O5]. cbn in O1, O2, O3, O4, O5.
  destruct l as [l| |l| |m]; cbn in Hstep.
  - assert (∃ c' ad', client_step addRate l c = Some c' ∧ rn' = mkRunner c' ad' lp ma st cl) as (c' & ad' & Hc & ->).
    { destruct (handler_label l), ad; try done; apply bind_Some in Hstep as (c' & Hc & [= <-]); eauto. }
    split; cbn; try done; [by eapply client_step_ok|].
    destruct ma; try done; destruct O5 as [-> Hh]; by destruct (handler_done_stays _ _ _ Hc Hh) as (-> & -> & ->).
  - apply bind_Some in Hstep as (seq & _ & Hstep). apply bind_Some in Hstep as (lp' & Hl & [= <-]).
    split; cbn; eauto with loops. by rewrite (loop_add_phase _ _ _ _ Hl).
  - apply bind_Some in Hstep as (lp' & Hl & [= <-]). split; cbn; eauto with loops.
    by apply loop_step_phase in Hl as (_ & ? & _).
  - unfold main_next in Hstep. cbn in Hstep. repeat (case_match; simplify_eq/=; try done); by split.
  - apply bind_Some in Hstep as (lp' & Hl & [= <-]).
    split; cbn; eauto with loops. by rewrite (loop_add_phase _ _ _ _ Hl).
Qed.

Lemma run_steps_ok ls rn rn' : run_steps ls rn = Some rn' → run_ok rn → run_ok rn'.
Proof.
  revert rn. induction ls as [|l ls IH]; intros rn; cbn [run_steps]; [by intros [= <-]|].
  intros (r1 & Hstep & Hrun)%bind_Some Hok. by eapply IH, run_step_ok.
Qed.

(** ** Stopping takes finitely many steps *)

Definition client_size (c : Client) : nat :=
  4 * length (c_pendingCmds c) +
  match c_sender c with AtTop => 1 | AtPush _ => 6 | SenderDone _ => 0 end +
  match c_handler c with AtSelect => 1 | AtGet _ => 4 | HandlerDone => 0 end.

Definition run_size (rn : runner) : nat :=
  client_size (rn_client rn) + loop_size (rn_metrics rn) + match rn_adding rn with Some _ => 2 | None => 0 end +
  match rn_main rn with InSend => 3 | AtStats => 2 | AtLoopDone => 1 | _ => 0 end.

Lemma client_step_size l (c c' : Client) :
  client_step addRate l c = Some c' → c_cancelled c = true → l ≠ Cancel →
  c_cancelled c' = true ∧
  S (client_size c' + match resolved l c with Some _ => 2 | None => 0 end) ≤ client_size c.
Proof.
  unfold client_step, sendCommands_iter, client_size, resolved. intros Hstep Hc Hl. rewrite Hc in Hstep.
  destruct l as [now wait| | | |o|], (c_sender c) as [|seq|err] eqn:Hs, (c_handler c) as [|seq'|] eqn:Hh;
    try discriminate Hstep; try (by destruct Hl);
    repeat match type of Hstep with context [match ?x with _ => _ end] => destruct x eqn:? end;
    try discriminate Hstep; injection Hstep as <-;
    cbn [c_pendingCmds c_sender c_handler c_cancelled set_sender set_handler set_pending handle_result];
    rewrite ?Hs, ?Hh, ?length_app; cbn [length]; (split; [done|]); try lia.
  match goal with H : c_pendingCmds c = [] |- _ => rewrite H; cbn; lia end.
Qed.

Ltac rn_cbn := cbn [rn_client rn_adding rn_metrics rn_main rn_stats rn_closed].

Lemma run_step_size l rn rn' :
  own l = true → c_cancelled (rn_client rn) = true → run_step l rn = Some rn' →
  c_cancelled (rn_client rn') = true ∧ S (run_size rn') ≤ run_size rn.
Proof.
  destruct rn as [c ad lp ma st cl]. unfold run_size. rn_cbn. intros Hown Hc Hstep.
  destruct l as [l| |l| |m]; try done; cbn in Hstep.
  - assert (l ≠ Cancel) as Hl by by destruct l.
    assert (∃ c', client_step addRate l c = Some c' ∧ (resolved l c = None ∨ ad = None) ∧
      rn' = mkRunner c' (match resolved l c with Some seq => Some seq | None => ad end) lp ma st cl) as (c' & Hc' & Had & ->).
    { destruct (handler_label l) eqn:El, ad; try done; apply bind_Some in Hstep as (c' & Hc' & [= <-]); eauto.
      exists c'. split_and!; [done| |done]. left. by destruct l. }
    destruct (client_step_size _ _ _ Hc' Hc Hl) as [Hcan Hsize]. rn_cbn. split; [done|].
    destruct (resolved l c) eqn:Hr; [destruct Had as [? | ->]; [done|] | ]; lia.
  - apply bind_Some in Hstep as (seq & -> & Hstep). apply bind_Some in Hstep as (lp' & Hl & [= <-]).
    pose proof (loop_add_size _ _ _ _ Hl). rn_cbn. split; [done|lia].
  - apply bind_Some in Hstep as (lp' & Hl & [= <-]). pose proof (loop_step_size _ _ _ _ Hl). rn_cbn. split; [done|lia].
  - unfold main_next in Hstep. cbn in Hstep. repeat (case_match; simplify_eq/=; try done); (split; [done|]); lia.
Qed.

Lemma run_steps_size ls rn rn' :
  forallb own ls = true → c_cancelled (rn_client rn) = true → run_steps ls rn = Some rn' →
  c_cancelled (rn_client rn') = true ∧ length ls + run_size rn' ≤ run_size rn.
Proof.
  revert rn. induction ls as [|l ls IH]; intros rn; cbn [run_steps forallb length]; [by intros _ Hc [= <-]|].
  intros [Hl Hls]%andb_true_iff Hc (r1 & Hstep & Hrun)%bind_Some.
  destruct (run_step_size _ _ _ Hl Hc Hstep) as [Hc1 Hs]. destruct (IH _ Hls Hc1 Hrun) as [? ?]. split; [done|lia].
Qed.

(** ** Where it can get stuck *)

(** The sender waits for room in the channel, and the handler is gone. *)
Definition sender_waits (rn : runner) : Prop :=
  (∃ seq, c_sender (rn_client rn) = AtPush seq) ∧ c_handler (rn_client rn) = HandlerDone ∧
  length (c_pendingCmds (rn_client rn)) = c_capacity (rn_client rn).
(** The handler waits for room in the metrics queue, and the loop is gone. *)
Definition handler_waits (rn : runner) : Prop :=
  is_Some (rn_adding rn) ∧ length (lp_queue (rn_metrics rn)) = metricsQueue ∧ lp_phase (rn_metrics rn) = Ended.

Lemma run_stuck_cases rn :
  run_ok rn → c_cancelled (rn_client rn) = true → run_stuck rn →
  rn_main rn = Returned ∨ rn_main rn = Panicked ∨ sender_waits rn ∨ handler_waits rn.
Proof.
  destruct rn as [c ad lp ma st cl]. intros [O1 O2 O3 O4 O5] Hc Hst. cbn in *. unfold sender_waits, handler_waits. cbn.
  assert (lp_phase lp = Ended) as Hend.
  { destruct (loop_progress metricsQueue lp O2) as [?|?]; [|done..]. intros l. specialize (Hst (MetricsStep l) eq_refl).
    cbn in Hst. rewrite Hc in Hst. by destruct (loop_step l true lp). }
  destruct ad as [seq|].
  { do 3 right. split_and!; [by eexists| |done]. specialize (Hst AddLatency eq_refl). cbn in Hst. unfold loop_add in Hst.
    destruct O2 as [Hq _]. destruct (Nat.ltb_spec (length (lp_queue lp)) metricsQueue); [done|lia]. }
  assert (∀ l, own (ClientStep l) = true → client_step addRate l c = None) as Hcl.
  { intros l Hl. specialize (Hst (ClientStep l) Hl). cbn in Hst. destruct (handler_label l); by destruct (client_step addRate l c). }
  assert (c_handler c = HandlerDone) as Hh.
  { destruct (c_handler c) as [|seq|] eqn:Hh; [| |done].
    - specialize (Hcl ContextDone eq_refl). cbn in Hcl. by rewrite Hh, Hc in Hcl; destruct (c_sender c).
    - specialize (Hcl (Resolve Canceled) eq_refl). cbn in Hcl. by rewrite Hh in Hcl; destruct (c_sender c). }
  destruct (c_sender c) as [|seq|err] eqn:Hs.
  - specialize (Hcl (Iterate 0 WaitOk) eq_refl). cbn in Hcl. by rewrite Hs in Hcl.
  - do 2 right. left. split_and!; [by eexists|done|]. specialize (Hcl Push eq_refl). unfold client_step in Hcl. rewrite Hs in Hcl.
    pose proof (ok_room _ O1). destruct (Nat.ltb_spec (length (c_pendingCmds c)) (c_capacity c)); [done|lia].
  - specialize (Hst MainNext eq_refl). cbn in Hst. unfold main_next in Hst. cbn in Hst. rewrite Hs, Hh in Hst.
    destruct ma; [by destruct err|done| |by left|by right; left]. by rewrite bool_decide_eq_true_2 in Hst.
Qed.

(** C32: stopping a client.  After the context is cancelled, in any interleaving,
    the client's goroutines make at most as many steps as there was left to do;
    when none of them can go on, [Run] has returned, or panicked with an error of
    [sendCommands], or one of two things has happened: the sender waits for room
    in the channel of pending commands after the handler has returned, or the
    handler waits for room in the queue of the metrics loop after the loop has
    ended.  When [Run] has returned, the connections are closed and the numbers
    it reports are those of the commands that were handled. *)
Theorem client_run_ends (conf : Config R Rate) (start : Z) (before after : list run_label) (rn rn' : runner) :
  run_steps before (Client_Run (Client_New conf start)) = Some rn → c_cancelled (rn_client rn) = true →
  run_steps after rn = Some rn' → forallb own after = true →
  length after ≤ run_size rn ∧
  (run_stuck rn' → rn_main rn' = Returned ∨ rn_main rn' = Panicked ∨ sender_waits rn' ∨ handler_waits rn') ∧
  (rn_main rn' = Returned → rn_closed rn' = true ∧
     rn_stats rn' = Some (outcomes Executed (rn_client rn'), outcomes Failed (rn_client rn'))).
Proof.
  intros Hbefore Hc Hafter Hown. pose proof (run_steps_ok _ _ _ Hbefore (Client_Run_ok conf start)) as Hok.
  pose proof (run_steps_ok _ _ _ Hafter Hok) as Hok'. destruct (run_steps_size _ _ _ Hown Hc Hafter) as [Hc' Hsize].
  split_and!; [lia|by apply run_stuck_cases|]. intros Hret. destruct Hok' as [O1 _ _ O4 O5]. rewrite Hret in O4, O5.
  destruct O5 as [-> _]. split; [done|]. by rewrite (ok_executed _ O1), (ok_failed _ O1).
Qed.
End client_run.
Arguments runner : clear implicits.

(** A sender that waits for a handler that has returned waits for ever. *)
Section blocked.
Context {R Rate : Type} {RD : Reader R} (addRate : Rate → Rate → Rate).

Lemma sender_waits_stays l (rn rn' : runner R Rate) :
  run_step addRate l rn = Some rn' → sender_waits rn → rn_main rn = InSend → sender_waits rn' ∧ rn_main rn' = InSend.
Proof.
  destruct rn as [c ad lp ma st cl]. unfold sender_waits. cbn [rn_client rn_main]. intros Hstep ((seq & Hs) & Hh & Hq) ->.
  destruct l as [l| |l| |m]; cbn [run_step rn_adding rn_metrics rn_client rn_main rn_stats rn_closed] in Hstep.
  - assert (∃ c' ad', client_step addRate l c = Some c' ∧ rn' = mkRunner c' ad' lp InSend st cl) as (c' & ad' & Hc & ->).
    { destruct (handler_label l), ad; try done; apply bind_Some in Hstep as (c' & Hc & [= <-]); eauto. }
    unfold client_step in Hc. rewrite Hs, Hh in Hc. cbn [rn_client rn_main].
    destruct l; try done; [by rewrite Hq, Nat.ltb_irrefl in Hc|]. injection Hc as <-. split; [|done]. split_and!; [by eexists|done..].
  - apply bind_Some in Hstep as (seq' & _ & Hstep). apply bind_Some in Hstep as (lp' & _ & [= <-]). split; [|done]. eauto 10.
  - apply bind_Some in Hstep as (lp' & _ & [= <-]). split; [|done]. eauto 10.
  - unfold main_next in Hstep. cbn [rn_main rn_client] in Hstep. by rewrite Hs in Hstep.
  - apply bind_Some in Hstep as (lp' & _ & [= <-]). split; [|done]. eauto 10.
Qed.

Lemma sender_waits_forever ls (rn rn' : runner R Rate) :
  run_steps addRate ls rn = Some rn' → sender_waits rn → rn_main rn = InSend → rn_main rn' = InSend.
Proof.
  revert rn. induction ls as [|l ls IH]; intros rn; cbn [run_steps]; [by intros [= <-]|].
  intros (r1 & Hstep & Hrun)%bind_Some Hw Hm. destruct (sender_waits_stays _ _ _ Hstep Hw Hm) as [Hw1 Hm1].
  by eapply IH.
Qed.
End blocked.

(** ** Runs *)

Module ClientRunExample.
Import ClientExample.

Abbreviation state := (runner unit Z).
Definition after_steps (ls : list run_label) (rn : state) : state := default rn (run_steps (RD := empty_reader) Z.add ls rn).
Definition fresh_run : state := Client_Run (Client_New conf0 0).

(** One command is sent and handled before the client is stopped. *)
Definition calm_before : list run_label := ClientStep <$> [Iterate 5 WaitOk; Push; Receive; Cancel].
Definition calm_after : list run_label :=
  [ClientStep (Resolve Executed); AddLatency; ClientStep ContextDone; ClientStep (Iterate 6 WaitOk); MainNext; MainNext;
   MetricsStep LCancel; MetricsStep LDrain; MetricsStep LEnd; MainNext].
Definition calm_stopped : state := Eval vm_compute in after_steps calm_before fresh_run.
Definition calm_ended : state := Eval vm_compute in after_steps calm_after calm_stopped.

Lemma client_run_ends_witness :
  rn_main calm_ended = Returned ∧ rn_closed calm_ended = true ∧ rn_stats calm_ended = Some (1, 0).
Proof.
  destruct (client_run_ends (RD := empty_reader) Z.add conf0 0 calm_before calm_after calm_stopped calm_ended)
    as (_ & _ & Hret); [vm_compute; reflexivity..|].
  split; [reflexivity|]. exact (Hret eq_refl).
Defined.

(** The channel holds one command: the second waits for room, the client is
    stopped, and the handler sees the end of the context before the channel. *)
Definition conf1 : Config bytes Z := mkConfig 7 1 16 [Byte.x61] 10%Z 0%Z 1000.
Definition busy_run : runner bytes Z := Client_Run (Client_New conf1 0).
Definition full_channel : list run_label :=
  ClientStep <$> [Iterate 5 WaitOk; Push; Iterate 6 WaitOk; Cancel; ContextDone].
Definition full_stopped : runner bytes Z :=
  Eval vm_compute in default busy_run (run_steps (RD := bytes_reader) Z.add full_channel busy_run).

(** A client that is stopped while the channel of pending commands is full may
    never return from [Run], and then never closes its connections. *)
Theorem client_run_blocks :
  run_steps (RD := bytes_reader) Z.add full_channel busy_run =
    Some full_stopped ∧
  c_cancelled (rn_client full_stopped) = true ∧
  ∀ ls rn, run_steps (RD := bytes_reader) Z.add ls full_stopped = Some rn →
    rn_main rn = InSend.
Proof.
  split_and!; [vm_compute; reflexivity..|]. intros ls rn Hrun.
  apply (sender_waits_forever _ _ _ _ Hrun); [|reflexivity]. split_and!; [exists 3%N; reflexivity|reflexivity..].
Qed.
End ClientRunExample.
