(* ===== verification/ModuleSystem.v ===== *)
(** * modules and consensus/modules.go: how a replica or client is put together

    The two builders of the module system, the modules that
    orchestration.Worker and replica.New register, and what each does when it
    is initialised: the handlers it registers on the two event loops and the
    options it sets.  A module is a constructor of [component]; the Go type
    assertions of [Register] are the table [implements], read off the method
    sets of the source. *)

From S2P Require Import Prelude Encoding Bitfield Types EventLoop Orchestration.

(** ** Events and their types *)

Inductive event_type :=
  VoteMsg_t | ProposeMsg_t | NewViewMsg_t | TimeoutMsg_t | CommitEvent_t | ViewChangeEvent_t
| LatencyMeasurementEvent_t | TickEvent_t | startTickerEvent_t.

Inductive event := anEvent (t : event_type) | startTicker_ev (id : nat).

Definition event_typeOf (e : event) : event_type :=
  match e with anEvent t => t | startTicker_ev _ => startTickerEvent_t end.

#[export] Instance event_type_eq_dec : EqDecision event_type.
Proof. solve_decision. Defined.
#[export] Instance event_eq_dec : EqDecision event.
Proof. solve_decision. Defined.

Definition event_type_code (t : event_type) : nat :=
  match t with
  | VoteMsg_t => 0 | ProposeMsg_t => 1 | NewViewMsg_t => 2 | TimeoutMsg_t => 3 | CommitEvent_t => 4
  | ViewChangeEvent_t => 5 | LatencyMeasurementEvent_t => 6 | TickEvent_t => 7 | startTickerEvent_t => 8
  end.
Definition event_type_decode (n : nat) : event_type :=
  nth n [VoteMsg_t; ProposeMsg_t; NewViewMsg_t; TimeoutMsg_t; CommitEvent_t; ViewChangeEvent_t;
         LatencyMeasurementEvent_t; TickEvent_t; startTickerEvent_t] VoteMsg_t.
#[export] Instance event_type_countable : Countable event_type.
Proof. apply (inj_countable' event_type_code event_type_decode). by intros []. Defined.
#[export] Instance event_countable : Countable event.
Proof.
  apply (inj_countable' (λ e, match e with anEvent t => inl t | startTicker_ev n => inr n end)
           (λ s, match s with inl t => anEvent t | inr n => startTicker_ev n end)).
  by intros [].
Defined.

(** ** Modules *)

Inductive component :=
| votingMachine
| consensusBase (rules : consensus_name) (byz : byzantine_name)
| cryptoBase (impl : crypto_name) (capacity : nat)
| leaderRotation (r : rotation_name)
| synchronizer
| jsonLogger
| nopLogger
| blockChain
| throughput
| viewTimeouts
| clientLatency
| ticker (interval : Z)
| backendConfig
| backendServer
| clientSrv
| cmdCache
| logger (name : string)
(** modules that others wrap, initialised by them *)
| rulesImpl (rules : consensus_name)
| byzantineRules (byz : byzantine_name)
| cryptoImpl (impl : crypto_name)
| viewDuration.

#[export] Instance consensus_name_eq_dec : EqDecision consensus_name.
Proof. solve_decision. Defined.
#[export] Instance byzantine_name_eq_dec : EqDecision byzantine_name.
Proof. solve_decision. Defined.
#[export] Instance crypto_name_eq_dec : EqDecision crypto_name.
Proof. solve_decision. Defined.
#[export] Instance rotation_name_eq_dec : EqDecision rotation_name.
Proof. solve_decision. Defined.
#[export] Instance component_eq_dec : EqDecision component.
Proof. solve_decision. Defined.

(** The interfaces that [Register] asks for. *)
Inductive iface :=
  IAcceptor | IBlockChain | ICommandQueue | IConfiguration | IConsensus | IExecutorExt | IExecutor
| ILeaderRotation | ICrypto | ISynchronizer | IForkHandlerExt | IForkHandler | IModule
| ILogger | IMetricsLogger | IBaseModule.

Definition implements (m : component) (i : iface) : bool :=
  match m, i with
  | votingMachine, IModule
  | consensusBase _ _, (IConsensus | IModule)
  | cryptoBase _ _, (ICrypto | IModule)
  | leaderRotation (fixed _), ILeaderRotation
  | leaderRotation (round_robin | rep | car), (ILeaderRotation | IModule)
  | synchronizer, (ISynchronizer | IModule)
  | jsonLogger, (IMetricsLogger | IBaseModule)
  | nopLogger, IMetricsLogger
  | blockChain, (IBlockChain | IModule)
  | (throughput | viewTimeouts | clientLatency | ticker _), IBaseModule
  | backendConfig, (IConfiguration | IModule)
  | backendServer, IModule
  | clientSrv, (IExecutor | IForkHandler | IBaseModule)
  | cmdCache, (IAcceptor | ICommandQueue | IBaseModule)
  | logger _, ILogger => true
  | _, _ => false
  end.

Abbreviation evLoop := (EventLoop (Ev := event) (Ty := event_type) (H := component)).

Definition onEvent (t : event_type) (m : component) (el : evLoop) : evLoop :=
  RegisterHandler event_typeOf (anEvent t) m el.
Definition observe (t : event_type) (m : component) (el : evLoop) : evLoop :=
  RegisterObserver event_typeOf (anEvent t) m el.

(** ** modules/modules.go *)

Record BaseModules := mkBase {
  bm_id : ID;
  bm_logger : component;
  bm_metricsLogger : option component;
  bm_dataEventLoop : evLoop }.

Record BaseBuilder := mkBaseBuilder { bb_mod : BaseModules; bb_modules : list component }.

Definition BaseNewBuilder (id : ID) : BaseBuilder :=
  mkBaseBuilder (mkBase id (logger "") None (New 100)) [].

(** The body of the loop over the arguments. *)
Definition BaseRegister1 (b : BaseBuilder) (module : component) : BaseBuilder :=
  let base := bb_mod b in
  let base := if implements module ILogger
    then mkBase (bm_id base) module (bm_metricsLogger base) (bm_dataEventLoop base) else base in
  let base := if implements module IMetricsLogger
    then mkBase (bm_id base) (bm_logger base) (Some module) (bm_dataEventLoop base) else base in
  mkBaseBuilder base
    (if implements module IBaseModule then bb_modules b ++ [module] else bb_modules b).

Definition BaseRegister (modules : list component) (b : BaseBuilder) : BaseBuilder :=
  foldl BaseRegister1 b modules.

Definition MetricsLogger (base : BaseModules) : component := default nopLogger (bm_metricsLogger base).

Definition set_dataLoop (el : evLoop) (base : BaseModules) : BaseModules :=
  mkBase (bm_id base) (bm_logger base) (bm_metricsLogger base) el.

(** [InitModule] of the metrics. *)
Definition throughput_init (base : BaseModules) : BaseModules :=
  set_dataLoop (observe TickEvent_t throughput (onEvent CommitEvent_t throughput (bm_dataEventLoop base))) base.

Definition viewTimeouts_init (base : BaseModules) : BaseModules :=
  set_dataLoop (observe TickEvent_t viewTimeouts (onEvent ViewChangeEvent_t viewTimeouts (bm_dataEventLoop base))) base.

Definition clientLatency_init (base : BaseModules) : BaseModules :=
  set_dataLoop (observe TickEvent_t clientLatency
    (onEvent LatencyMeasurementEvent_t clientLatency (bm_dataEventLoop base))) base.

Definition ticker_init (interval : Z) (base : BaseModules) : res BaseModules :=
  '(_, el) ← AddTicker startTicker_ev interval (anEvent TickEvent_t) (bm_dataEventLoop base);
  Ok (set_dataLoop el base).

(** [InitModule] of the modules that have one.  The second component of the
    state is the list of those that were given the modules object, in order. *)
Definition InitModule (module : component) (st : BaseModules * list component)
    : res (BaseModules * list component) :=
  let '(base, given) := st in
  match module with
  | throughput => Ok (throughput_init base, given ++ [throughput])
  | viewTimeouts => Ok (viewTimeouts_init base, given ++ [viewTimeouts])
  | clientLatency => Ok (clientLatency_init base, given ++ [clientLatency])
  | ticker interval => base ← ticker_init interval base; Ok (base, given ++ [module])
  | clientSrv => Ok (base, given ++ [clientSrv; cmdCache])
  | _ => Ok (base, given ++ [module])
  end.

Fixpoint init_all {A} (f : component → A → res A) (ms : list component) (a : A) : res A :=
  match ms with
  | [] => Ok a
  | m :: ms => a' ← f m a; init_all f ms a'
  end.

Definition BaseBuild (b : BaseBuilder) : res (BaseModules * list component) :=
  init_all InitModule (bb_modules b) (bb_mod b, []).

(** ** consensus/modules.go *)

(** An Executor is stored behind an executorWrapper, which passes it the
    command of the block; a ForkHandler likewise. *)
Inductive wrapped := Direct (m : component) | Wrapper (m : component).

Record Modules := mkMods {
  md_base : option BaseModules;
  md_useAggQC : bool;
  md_eventLoop : evLoop;
  md_acceptor : option component;
  md_blockChain : option component;
  md_commandQueue : option component;
  md_config : option component;
  md_consensus : option component;
  md_executor : option wrapped;
  md_leaderRotation : option component;
  md_crypto : option component;
  md_synchronizer : option component;
  md_forkHandler : option wrapped }.

Record Builder := mkBuilder {
  b_base : BaseBuilder;
  b_mods : Modules;
  b_useAggQC : bool;                 (** cfg.opts.shouldUseAggQC *)
  b_modules : list component }.

Definition set_if {A} (c : bool) (a : A) (old : option A) : option A := if c then Some a else old.

(** The body of the loop of [Register]. *)
Definition Register1 (b : Builder) (module : component) : Builder :=
  let ok := implements module in
  let mods := b_mods b in
  mkBuilder (BaseRegister1 (b_base b) module)
    (mkMods (md_base mods) (md_useAggQC mods) (md_eventLoop mods)
       (set_if (ok IAcceptor) module (md_acceptor mods))
       (set_if (ok IBlockChain) module (md_blockChain mods))
       (set_if (ok ICommandQueue) module (md_commandQueue mods))
       (set_if (ok IConfiguration) module (md_config mods))
       (set_if (ok IConsensus) module (md_consensus mods))
       (set_if (ok IExecutor) (Wrapper module) (set_if (ok IExecutorExt) (Direct module) (md_executor mods)))
       (set_if (ok ILeaderRotation) module (md_leaderRotation mods))
       (set_if (ok ICrypto) module (md_crypto mods))
       (set_if (ok ISynchronizer) module (md_synchronizer mods))
       (set_if (ok IForkHandler) (Wrapper module)
          (set_if (ok IForkHandlerExt) (Direct module) (md_forkHandler mods))))
    (b_useAggQC b)
    (if ok IModule then b_modules b ++ [module] else b_modules b).

Definition Register (modules : list component) (b : Builder) : Builder := foldl Register1 b modules.

Definition NewBuilder (id : ID) : Builder :=
  Register [votingMachine]
    (mkBuilder (BaseNewBuilder id)
       (mkMods None false (New 100) None None None None None None None None None None) false []).

(** The state of [Build]: the event loop, the options so far, and who was
    given the modules object. *)
Record init_state := mkInit { is_loop : evLoop; is_useAggQC : bool; is_given : list component }.

Definition give (ms : list component) (s : init_state) : init_state :=
  mkInit (is_loop s) (is_useAggQC s) (is_given s ++ ms).
Definition handles (t : event_type) (m : component) (s : init_state) : init_state :=
  mkInit (onEvent t m (is_loop s)) (is_useAggQC s) (is_given s).
Definition SetShouldUseAggQC (s : init_state) : init_state := mkInit (is_loop s) true (is_given s).

(** The rules, inside a byzantine wrapper or not. *)
Definition rules_init (r : consensus_name) (s : init_state) : init_state :=
  match r with
  | fasthotstuff => SetShouldUseAggQC (give [rulesImpl r] s)
  | _ => give [rulesImpl r] s
  end.

Definition byzantine_init (byz : byzantine_name) (r : consensus_name) (s : init_state) : init_state :=
  match byz with
  | honest | silence => rules_init r s
  | fork => rules_init r (give [byzantineRules fork] s)
  end.

Definition votingMachine_init (s : init_state) : init_state :=
  handles VoteMsg_t votingMachine (give [votingMachine] s).

Definition consensusBase_init (r : consensus_name) (byz : byzantine_name) (s : init_state) : init_state :=
  handles ProposeMsg_t (consensusBase r byz) (byzantine_init byz r (give [consensusBase r byz] s)).

(** [mods] is the modules object at that time: its base is not set yet.  The
    synchronizer has the crypto module make the certificates for the genesis
    block and view 0, and panics when there is none. *)
Definition synchronizer_init (mods : Modules) (s : init_state) : res init_state :=
  let s := handles TimeoutMsg_t synchronizer
             (handles NewViewMsg_t synchronizer (give [viewDuration; synchronizer] s)) in
  match md_crypto mods with
  | Some _ => Ok s
  | None => Panic "nil Crypto"
  end.

Definition InitConsensusModule (mods : Modules) (module : component) (s : init_state) : res init_state :=
  match module with
  | votingMachine => Ok (votingMachine_init s)
  | consensusBase r byz => Ok (consensusBase_init r byz s)
  | cryptoBase impl _ => Ok (give [cryptoImpl impl] s)
  | synchronizer => synchronizer_init mods s
  | _ => Ok (give [module] s)
  end.

Definition Build (b : Builder) : res (Modules * list component) :=
  let mods := b_mods b in
  s ← init_all (InitConsensusModule mods) (b_modules b) (mkInit (md_eventLoop mods) (b_useAggQC b) []);
  '(base, given) ← BaseBuild (b_base b);
  Ok (mkMods (Some base) (is_useAggQC s) (is_loop s) (md_acceptor mods) (md_blockChain mods)
        (md_commandQueue mods) (md_config mods) (md_consensus mods) (md_executor mods)
        (md_leaderRotation mods) (md_crypto mods) (md_synchronizer mods) (md_forkHandler mods),
      is_given s ++ given).

(** ** The modules of a replica and of a client *)

(** metrics/registry.go, after the init functions of the package have
    registered its metrics. *)
Definition replicaMetrics : gmap string component :=
  {[ "throughput" := throughput; "timeouts" := viewTimeouts ]}%string.
Definition clientMetrics : gmap string component := {[ "client-latency" := clientLatency ]}%string.

Definition GetMetrics (registry : gmap string component) (names : list string) : list component :=
  omap (λ name, registry !! name) names.
Definition GetReplicaMetrics : list string → list component := GetMetrics replicaMetrics.
Definition GetClientMetrics : list string → list component := GetMetrics clientMetrics.

(** What [createReplica] reads of a worker. *)
Record workerConfig := mkWorkerConfig {
  wc_metricsLogger : component;
  wc_metrics : list string;
  wc_measurementInterval : Z }.

Definition register_metrics (w : workerConfig) (ms : list component) : list component :=
  if (0 <? wc_measurementInterval w)%Z then ms ++ [ticker (wc_measurementInterval w)] else [].

(** replica.New: the registrations of the replica itself, and the build. *)
Definition replica_New (id : ID) (name : string) (b : Builder) : res (Modules * list component) :=
  Build (Register [backendConfig; backendServer; clientSrv; cmdCache; logger name] b).

(** createReplica, from the builder on. *)
Definition createReplica_build (w : workerConfig) (id : ID) (name : string) (m : replica_modules)
    : res (Modules * list component) :=
  let b := NewBuilder id in
  let b := Register [consensusBase (m_consensus m) (m_byzantine m); cryptoBase (m_crypto m) (m_cache m);
                     leaderRotation (m_rotation m); synchronizer; wc_metricsLogger w; blockChain] b in
  let b := Register (register_metrics w (GetReplicaMetrics (wc_metrics w))) b in
  replica_New id name b.

(** startClients and client.New: the modules of a client. *)
Definition client_build (w : workerConfig) (id : ID) (name : string) : res (BaseModules * list component) :=
  let b := BaseNewBuilder id in
  let b := BaseRegister (register_metrics w (GetClientMetrics (wc_metrics w))) b in
  let b := BaseRegister [wc_metricsLogger w] b in
  BaseBuild (BaseRegister [logger name] b).

(** createReplica as a whole: the modules by name, then their assembly. *)
Definition createReplica (w : workerConfig) (id : ID) (name consensus byzantine crypto rotation : string)
    : res (Modules * list component) + create_error :=
  match createReplica_modules consensus byzantine crypto rotation with
  | inr err => inr err
  | inl m => inl (createReplica_build w id name m)
  end.

(** ** Registration *)

Definition unwrap (x : wrapped) : component := match x with Direct m | Wrapper m => m end.

(** The places of a [Modules] object that registration fills, with the
    interface tests that fill them. *)
Inductive slot :=
  SAcceptor | SBlockChain | SCommandQueue | SConfig | SConsensus | SExecutor | SLeaderRotation | SCrypto
| SSynchronizer | SForkHandler.

Definition get_slot (s : slot) (mods : Modules) : option component :=
  match s with
  | SAcceptor => md_acceptor mods | SBlockChain => md_blockChain mods
  | SCommandQueue => md_commandQueue mods | SConfig => md_config mods | SConsensus => md_consensus mods
  | SExecutor => unwrap <$> md_executor mods | SLeaderRotation => md_leaderRotation mods
  | SCrypto => md_crypto mods | SSynchronizer => md_synchronizer mods
  | SForkHandler => unwrap <$> md_forkHandler mods
  end.

Definition slot_is (s : slot) (m : component) : bool :=
  match s with
  | SAcceptor => implements m IAcceptor | SBlockChain => implements m IBlockChain
  | SCommandQueue => implements m ICommandQueue | SConfig => implements m IConfiguration
  | SConsensus => implements m IConsensus | SExecutor => implements m IExecutor || implements m IExecutorExt
  | SLeaderRotation => implements m ILeaderRotation | SCrypto => implements m ICrypto
  | SSynchronizer => implements m ISynchronizer
  | SForkHandler => implements m IForkHandler || implements m IForkHandlerExt
  end.

(** The last module of a list that passes a test. *)
Definition last_is (f : component → bool) (ms : list component) : option component :=
  last (filter (λ m, f m = true) ms).

Lemma last_is_snoc f ms m : last_is f (ms ++ [m]) = if f m then Some m else last_is f ms.
Proof.
  unfold last_is. rewrite filter_app. destruct (f m) eqn:E.
  - by rewrite filter_cons_True, filter_nil, last_snoc.
  - by rewrite filter_cons_False, filter_nil, app_nil_r by congruence.
Qed.

Lemma filter_snoc_bool (f : component → bool) ms m (l : list component) :
  (if f m then (l ++ filter (λ m, f m = true) ms) ++ [m] else l ++ filter (λ m, f m = true) ms) =
  l ++ filter (λ m, f m = true) (ms ++ [m]).
Proof.
  rewrite filter_app. destruct (f m) eqn:E.
  - by rewrite filter_cons_True, filter_nil, app_assoc.
  - by rewrite filter_cons_False, filter_nil, app_nil_r by congruence.
Qed.

Lemma Register_snoc ms m b : Register (ms ++ [m]) b = Register1 (Register ms b) m.
Proof. apply foldl_snoc. Qed.
Lemma BaseRegister_snoc ms m b : BaseRegister (ms ++ [m]) b = BaseRegister1 (BaseRegister ms b) m.
Proof. apply foldl_snoc. Qed.

Lemma Register_app ms ms' b : Register ms' (Register ms b) = Register (ms ++ ms') b.
Proof. unfold Register. by rewrite foldl_app. Qed.
Lemma BaseRegister_app ms ms' b : BaseRegister ms' (BaseRegister ms b) = BaseRegister (ms ++ ms') b.
Proof. unfold BaseRegister. by rewrite foldl_app. Qed.

Lemma BaseRegister_spec ms b :
  let b' := BaseRegister ms b in
  bm_id (bb_mod b') = bm_id (bb_mod b) ∧
  bm_logger (bb_mod b') = default (bm_logger (bb_mod b)) (last_is (λ m, implements m ILogger) ms) ∧
  bm_metricsLogger (bb_mod b') =
    match last_is (λ m, implements m IMetricsLogger) ms with
    | Some m => Some m | None => bm_metricsLogger (bb_mod b) end ∧
  bm_dataEventLoop (bb_mod b') = bm_dataEventLoop (bb_mod b) ∧
  bb_modules b' = bb_modules b ++ filter (λ m, implements m IBaseModule = true) ms.
Proof.
  induction ms as [|m ms IH] using rev_ind; [by rewrite app_nil_r|].
  destruct IH as (IH1 & IH2 & IH3 & IH4 & IH5).
  rewrite BaseRegister_snoc, !last_is_snoc, <-filter_snoc_bool. cbn [BaseRegister1 bb_modules bb_mod].
  rewrite IH5. split_and!; [| | | |done];
    destruct (implements m ILogger), (implements m IMetricsLogger); cbn [bm_id bm_logger bm_metricsLogger bm_dataEventLoop]; done.
Qed.

(** Registration keeps, for each interface, the module that was registered
    last, whatever else is registered; every module that wants to be
    initialised is listed for it, in order and once per registration, and
    nothing else changes. *)
Lemma Register_spec (ms : list component) (b : Builder) :
  let b' := Register ms b in
  (∀ s, get_slot s (b_mods b') =
     match last_is (slot_is s) ms with Some m => Some m | None => get_slot s (b_mods b) end) ∧
  b_modules b' = b_modules b ++ filter (λ m, implements m IModule = true) ms ∧
  b_base b' = BaseRegister ms (b_base b) ∧
  b_useAggQC b' = b_useAggQC b ∧ md_eventLoop (b_mods b') = md_eventLoop (b_mods b).
Proof.
  induction ms as [|m ms IH] using rev_ind; [by rewrite app_nil_r|].
  destruct IH as (IH1 & IH2 & IH3 & IH4 & IH5).
  rewrite Register_snoc, <-filter_snoc_bool, <-IH2, BaseRegister_snoc, <-IH3.
  cbn [Register1 b_mods b_modules b_base b_useAggQC md_eventLoop]. split_and!; [|done..].
  intros s. rewrite last_is_snoc. specialize (IH1 s).
  destruct s; cbn [get_slot slot_is] in *; unfold set_if;
    destruct (implements m IExecutor), (implements m IExecutorExt), (implements m IForkHandler),
      (implements m IForkHandlerExt); cbn [orb unwrap fmap option_fmap option_map]; try done;
    match goal with |- context [implements m ?i] => by destruct (implements m i) end.
Qed.

(** ** Initialisation *)

Lemma init_all_app {A} (f : component → A → res A) ms ms' a :
  init_all f (ms ++ ms') a = (a' ← init_all f ms a; init_all f ms' a').
Proof.
  revert a. induction ms as [|m ms IH]; intros a; [done|]. cbn [app init_all].
  destruct (f m a) as [a'| | |]; cbn; [apply IH|done..].
Qed.

(** What the metrics of a replica do to the second event loop. *)
Lemma init_metrics ms base given :
  Forall (λ m, m = throughput ∨ m = viewTimeouts) ms →
  ∃ el, init_all InitModule ms (base, given) = Ok (set_dataLoop el base, given ++ ms) ∧
    el_eventQ el = el_eventQ (bm_dataEventLoop base) ∧
    el_bufferSize el = el_bufferSize (bm_dataEventLoop base) ∧
    el_handlers el !! CommitEvent_t =
      (if decide (throughput ∈ ms) then Some throughput else el_handlers (bm_dataEventLoop base) !! CommitEvent_t) ∧
    el_handlers el !! ViewChangeEvent_t =
      (if decide (viewTimeouts ∈ ms) then Some viewTimeouts
       else el_handlers (bm_dataEventLoop base) !! ViewChangeEvent_t).
Proof.
  induction ms as [|m ms IH] using rev_ind; intros Hms.
  { exists (bm_dataEventLoop base). rewrite app_nil_r. by destruct base. }
  apply Forall_app in Hms as [Hms [Hm _]%Forall_cons].
  destruct (IH Hms) as (el & Hrun & Hq & Hb & Hc & Hv). rewrite init_all_app, Hrun. cbn [mbind res_bind init_all].
  cbv beta in Hm. destruct Hm as [-> | ->]; eexists; (split; [by cbn; rewrite <-app_assoc|]);
    cbn [observe onEvent RegisterHandler RegisterObserver el_eventQ el_bufferSize el_handlers bm_dataEventLoop
         set_dataLoop event_typeOf];
    (split_and!; [done|done| |]).
  - rewrite lookup_insert_eq, decide_True by set_solver. done.
  - rewrite lookup_insert_ne, Hv by done. apply decide_ext. set_solver.
  - rewrite lookup_insert_ne, Hc by done. apply decide_ext. set_solver.
  - rewrite lookup_insert_eq, decide_True by set_solver. done.
Qed.

Lemma GetReplicaMetrics_elem names m :
  m ∈ GetReplicaMetrics names ↔
    (m = throughput ∧ "throughput"%string ∈ names) ∨ (m = viewTimeouts ∧ "timeouts"%string ∈ names).
Proof.
  unfold GetReplicaMetrics, GetMetrics, replicaMetrics. rewrite list_elem_of_omap. split.
  - intros (name & Hin & Hl). rewrite lookup_insert_Some, lookup_singleton_Some in Hl.
    destruct Hl as [[<- <-]|(_ & <- & <-)]; auto.
  - intros [[-> ?]|[-> ?]]; eexists; (split; [done|]); reflexivity.
Qed.

(** The metrics and the ticker fill no slot and are only initialised. *)
Definition only_measures (m : component) : Prop :=
  m = throughput ∨ m = viewTimeouts ∨ ∃ i, m = ticker i.

Lemma register_metrics_only w names :
  Forall only_measures (register_metrics w (GetReplicaMetrics names)).
Proof.
  apply Forall_forall. intros m. unfold register_metrics. case_match; [|by intros ?%not_elem_of_nil].
  rewrite elem_of_app, GetReplicaMetrics_elem, list_elem_of_singleton. unfold only_measures. naive_solver.
Qed.

Lemma filter_measures (f : component → bool) (c : bool) ms :
  Forall only_measures ms → (∀ m, only_measures m → f m = c) →
  filter (λ m, f m = true) ms = if c then ms else [].
Proof.
  intros Hms Hf. induction Hms as [|m ms Hm _ IH]; [by destruct c|]. pose proof (Hf m Hm) as E.
  destruct c.
  - by rewrite filter_cons_True, IH.
  - by rewrite filter_cons_False by congruence.
Qed.

Section wired.
Context (w : workerConfig) (id : ID) (name : string) (m : replica_modules).
Context (Hlogger : implements (wc_metricsLogger w) IMetricsLogger = true).

Local Abbreviation measures := (register_metrics w (GetReplicaMetrics (wc_metrics w))).

(** The registrations of a replica, in order. *)
Definition registered : list component :=
  [consensusBase (m_consensus m) (m_byzantine m); cryptoBase (m_crypto m) (m_cache m);
   leaderRotation (m_rotation m); synchronizer; wc_metricsLogger w; blockChain] ++ measures ++
  [backendConfig; backendServer; clientSrv; cmdCache; logger name].

Lemma createReplica_registers : createReplica_build w id name m = Build (Register registered (NewBuilder id)).
Proof. unfold createReplica_build, replica_New, registered. by rewrite !Register_app. Qed.

Lemma logger_cases : wc_metricsLogger w = jsonLogger ∨ wc_metricsLogger w = nopLogger.
Proof. generalize Hlogger. destruct (wc_metricsLogger w); auto; cbn; try case_match; done. Qed.

Lemma filter_registered (f : component → bool) (c : bool) :
  (∀ m, only_measures m → f m = c) →
  filter (λ m, f m = true) registered =
    filter (λ m, f m = true)
      [consensusBase (m_consensus m) (m_byzantine m); cryptoBase (m_crypto m) (m_cache m);
       leaderRotation (m_rotation m); synchronizer; wc_metricsLogger w; blockChain] ++
    (if c then measures else []) ++
    filter (λ m, f m = true) [backendConfig; backendServer; clientSrv; cmdCache; logger name].
Proof.
  intros Hf. unfold registered. rewrite !filter_app. f_equal. f_equal.
  apply filter_measures; [apply register_metrics_only|done].
Qed.

Lemma registered_slot s :
  last_is (slot_is s) registered = Some
    match s with
    | SAcceptor | SCommandQueue => cmdCache
    | SBlockChain => blockChain
    | SConfig => backendConfig
    | SConsensus => consensusBase (m_consensus m) (m_byzantine m)
    | SExecutor | SForkHandler => clientSrv
    | SLeaderRotation => leaderRotation (m_rotation m)
    | SCrypto => cryptoBase (m_crypto m) (m_cache m)
    | SSynchronizer => synchronizer
    end.
Proof.
  unfold last_is. rewrite (filter_registered (slot_is s) false)
    by (intros ? [->|[->|[i ->]]]; by destruct s).
  destruct (m_rotation m), s; by destruct logger_cases as [-> | ->].
Qed.

Lemma registered_modules :
  filter (λ m, implements m IModule = true) registered =
    [consensusBase (m_consensus m) (m_byzantine m); cryptoBase (m_crypto m) (m_cache m)] ++
    (match m_rotation m with fixed _ => [] | r => [leaderRotation r] end) ++
    [synchronizer; blockChain; backendConfig; backendServer].
Proof.
  rewrite (filter_registered _ false) by (by intros ? [->|[->|[i ->]]]).
  destruct (m_rotation m); by destruct logger_cases as [-> | ->].
Qed.

Lemma registered_base :
  filter (λ m, implements m IBaseModule = true) registered =
    (if decide (wc_metricsLogger w = jsonLogger) then [jsonLogger] else []) ++ measures ++ [clientSrv; cmdCache].
Proof.
  rewrite (filter_registered _ true) by (by intros ? [->|[->|[i ->]]]).
  destruct (m_rotation m); by destruct logger_cases as [-> | ->].
Qed.

Lemma registered_last :
  last_is (λ m, implements m IMetricsLogger) registered = Some (wc_metricsLogger w) ∧
  last_is (λ m, implements m ILogger) registered = Some (logger name).
Proof.
  unfold last_is. split; rewrite (filter_registered _ false) by (by intros ? [->|[->|[i ->]]]);
    destruct (m_rotation m); by destruct logger_cases as [-> | ->].
Qed.

Lemma measures_throughput :
  throughput ∈ measures ↔ (0 < wc_measurementInterval w)%Z ∧ "throughput"%string ∈ wc_metrics w.
Proof.
  unfold register_metrics. destruct (Z.ltb_spec 0 (wc_measurementInterval w)).
  - rewrite elem_of_app, GetReplicaMetrics_elem, list_elem_of_singleton. naive_solver.
  - rewrite elem_of_nil. split; [done|lia].
Qed.

(** The base modules are initialised without blocking, and the metrics that
    were asked for handle their events on the second loop. *)
Lemma registered_base_init base :
  bm_dataEventLoop base = New 100 →
  ∃ el, init_all InitModule (filter (λ m, implements m IBaseModule = true) registered) (base, []) =
      Ok (set_dataLoop el base,
          (if decide (wc_metricsLogger w = jsonLogger) then [jsonLogger] else []) ++ measures ++
          [clientSrv; cmdCache; cmdCache]) ∧
    el_handlers el !! CommitEvent_t =
      (if decide (throughput ∈ measures) then Some throughput else None) ∧
    el_handlers el !! ViewChangeEvent_t =
      (if decide (viewTimeouts ∈ measures) then Some viewTimeouts else None).
Proof.
  intros Hnew. rewrite registered_base. set (json := if decide _ then _ else _).
  assert (init_all InitModule json (base, []) = Ok (base, json)) as Hjson
    by (unfold json; by destruct (decide _)).
  rewrite init_all_app, Hjson. cbn [mbind res_bind]. rewrite init_all_app. unfold register_metrics.
  destruct (0 <? wc_measurementInterval w)%Z; cycle 1.
  { exists (New 100). split_and!; [|done..]. destruct base. cbn in *. subst. cbn. by rewrite <-app_assoc. }
  destruct (init_metrics (GetReplicaMetrics (wc_metrics w)) base json) as (el & Hrun & Hq & Hb & Hc & Hv).
  { apply Forall_forall. intros x Hx%GetReplicaMetrics_elem. naive_solver. }
  rewrite Hnew in Hq, Hb, Hc, Hv. rewrite init_all_app, Hrun. cbn [mbind res_bind init_all InitModule].
  unfold ticker_init, AddTicker, AddEvent. cbn [set_dataLoop bm_dataEventLoop el_eventQ el_bufferSize mbind res_bind].
  rewrite Hq, Hb. cbn -[el_handlers]. eexists. split_and!.
  - by rewrite <-!app_assoc.
  - cbn. rewrite Hc. apply decide_ext. set_solver.
  - cbn. rewrite Hv. apply decide_ext. set_solver.
Qed.
End wired.

(** What each slot of a replica holds. *)
Definition replica_slot (m : replica_modules) (s : slot) : component :=
  match s with
  | SAcceptor | SCommandQueue => cmdCache
  | SBlockChain => blockChain
  | SConfig => backendConfig
  | SConsensus => consensusBase (m_consensus m) (m_byzantine m)
  | SExecutor | SForkHandler => clientSrv
  | SLeaderRotation => leaderRotation (m_rotation m)
  | SCrypto => cryptoBase (m_crypto m) (m_cache m)
  | SSynchronizer => synchronizer
  end.

(** The modules that keep a reference to the modules object and use it. *)
Definition replica_users (m : replica_modules) : list component :=
  [votingMachine; consensusBase (m_consensus m) (m_byzantine m); rulesImpl (m_consensus m);
   cryptoImpl (m_crypto m); viewDuration; synchronizer; blockChain; backendConfig; backendServer;
   clientSrv; cmdCache] ++
  (match m_rotation m with fixed _ => [] | r => [leaderRotation r] end) ++
  (match m_byzantine m with fork => [byzantineRules fork] | _ => [] end).

Lemma byzantine_init_loop byz r s : is_loop (byzantine_init byz r s) = is_loop s.
Proof. by destruct byz, r. Qed.
Lemma byzantine_init_agg byz r s :
  is_useAggQC (byzantine_init byz r s) = bool_decide (r = fasthotstuff) || is_useAggQC s.
Proof. by destruct byz, r. Qed.
Lemma byzantine_init_given byz r s :
  is_given (byzantine_init byz r s) =
    is_given s ++ (match byz with fork => [byzantineRules fork] | _ => [] end) ++ [rulesImpl r].
Proof. by destruct byz, r; cbn; rewrite ?app_nil_r, <-?app_assoc. Qed.

(** Initialising the consensus modules of a replica. *)
Lemma registered_init w name m mods :
  implements (wc_metricsLogger w) IMetricsLogger = true → md_crypto mods ≠ None →
  ∃ s, init_all (InitConsensusModule mods)
      ([votingMachine] ++ filter (λ m, implements m IModule = true) (registered w name m))
      (mkInit (New 100) false []) = Ok s ∧
    el_handlers (is_loop s) =
      {[ VoteMsg_t := votingMachine; ProposeMsg_t := consensusBase (m_consensus m) (m_byzantine m);
         NewViewMsg_t := synchronizer; TimeoutMsg_t := synchronizer ]} ∧
    is_useAggQC s = bool_decide (m_consensus m = fasthotstuff) ∧
    ∀ x, x ∈ replica_users m → x ∈ is_given s ++ [clientSrv; cmdCache].
Proof.
  intros Hl Hc. rewrite registered_modules by done. destruct (md_crypto mods) as [c|] eqn:Ec; [|done].
  destruct (m_rotation m) as [|leader| |] eqn:Er; unfold replica_users; rewrite Er;
    cbn [app init_all InitConsensusModule mbind res_bind];
    unfold synchronizer_init, votingMachine_init, consensusBase_init; rewrite Ec; cbn [mbind res_bind];
    eexists; (split; [done|]);
    cbn [give handles is_loop is_useAggQC is_given]; rewrite byzantine_init_loop, byzantine_init_given;
    (split_and!; [by apply map_eq; intros []| |]);
    rewrite ?byzantine_init_agg; cbn [give handles is_given is_useAggQC]; try (by rewrite ?orb_false_r);
    intros x; destruct (m_byzantine m); rewrite ?elem_of_app, ?elem_of_cons, ?elem_of_nil; tauto.
Qed.

(** C39: every accepted choice of names gives a complete replica.  Building it
    neither panics nor blocks; each place of the modules object holds the
    module that belongs there; the four kinds of messages have the voting
    machine, the consensus and the synchronizer as their handlers; aggregated
    certificates are used exactly for Fast-HotStuff, also under a byzantine
    wrapper; the metrics that were named, and only they, receive their events;
    and every module that uses the modules object was given it. *)
Theorem replica_wired (w : workerConfig) (id : ID) (name consensus byzantine crypto rotation : string)
    (m : replica_modules) :
  createReplica_modules consensus byzantine crypto rotation = inl m →
  implements (wc_metricsLogger w) IMetricsLogger = true →
  ∃ mods base given,
    createReplica w id name consensus byzantine crypto rotation = inl (Ok (mods, given)) ∧
    md_base mods = Some base ∧ bm_id base = id ∧ bm_logger base = logger name ∧
    MetricsLogger base = wc_metricsLogger w ∧
    (∀ s, get_slot s mods = Some (replica_slot m s)) ∧
    el_handlers (md_eventLoop mods) =
      {[ VoteMsg_t := votingMachine; ProposeMsg_t := consensusBase (m_consensus m) (m_byzantine m);
         NewViewMsg_t := synchronizer; TimeoutMsg_t := synchronizer ]} ∧
    md_useAggQC mods = bool_decide (m_consensus m = fasthotstuff) ∧
    (el_handlers (bm_dataEventLoop base) !! CommitEvent_t = Some throughput ↔
       (0 < wc_measurementInterval w)%Z ∧ "throughput"%string ∈ wc_metrics w) ∧
    (∀ x, x ∈ replica_users m → x ∈ given).
Proof.
  intros Hm Hl. unfold createReplica. rewrite Hm, createReplica_registers. unfold Build.
  destruct (Register_spec (registered w name m) (NewBuilder id)) as (Hslots & Hmods & Hbase & Hagg & Hloop).
  set (b := Register (registered w name m) (NewBuilder id)) in *.
  assert (∀ s, get_slot s (b_mods b) = Some (replica_slot m s)) as Hget
    by (intros s; rewrite Hslots, registered_slot by done; by destruct s).
  destruct (registered_init w name m (b_mods b) Hl) as (s & Hinit & Hh & Hu & Hg).
  { pose proof (Hget SCrypto) as E. cbn [get_slot] in E. by rewrite E. }
  rewrite Hloop, Hmods, Hagg. cbn [NewBuilder]. setoid_rewrite Hinit. cbn [mbind res_bind].
  destruct (BaseRegister_spec (registered w name m) (b_base (NewBuilder id))) as (B1 & B2 & B3 & B4 & B5).
  unfold BaseBuild. rewrite Hbase, B5.
  destruct (registered_base_init w name m Hl (bb_mod (BaseRegister (registered w name m) (b_base (NewBuilder id)))))
    as (el & Hrun & Hc & _); [done|].
  setoid_rewrite Hrun. cbn [mbind res_bind]. eexists _, _, _. split; [done|]. cbn [md_base md_eventLoop md_useAggQC].
  split_and!; [done|done| | | |done|done| |].
  - etrans; [exact B2|]. by rewrite (proj2 (registered_last w name m Hl)).
  - unfold MetricsLogger. cbn [set_dataLoop bm_metricsLogger]. rewrite B3.
    by rewrite (proj1 (registered_last w name m Hl)).
  - intros s'. etrans; [|apply Hget]. by destruct s'.
  - cbn [set_dataLoop bm_dataEventLoop]. rewrite Hc, <-measures_throughput. by case_decide.
  - intros x Hx%Hg. set_solver.
Qed.

Module WiringExample.
Definition worker1 : workerConfig := mkWorkerConfig jsonLogger ["throughput"; "nothing"]%string 1000.

Lemma replica_wired_witness :
  ∃ mods base given,
    createReplica worker1 3 "hs3" "fasthotstuff" "fork" "bls12" "rep" = inl (Ok (mods, given)) ∧
    md_base mods = Some base ∧ bm_id base = 3%N ∧ bm_logger base = logger "hs3" ∧
    MetricsLogger base = jsonLogger ∧
    (∀ s, get_slot s mods = Some (replica_slot (mkModules fasthotstuff fork bls12 100 rep) s)) ∧
    el_handlers (md_eventLoop mods) =
      {[ VoteMsg_t := votingMachine; ProposeMsg_t := consensusBase fasthotstuff fork;
         NewViewMsg_t := synchronizer; TimeoutMsg_t := synchronizer ]} ∧
    md_useAggQC mods = true ∧
    (el_handlers (bm_dataEventLoop base) !! CommitEvent_t = Some throughput ↔
       (0 < 1000)%Z ∧ "throughput"%string ∈ ["throughput"; "nothing"]%string) ∧
    (∀ x, x ∈ replica_users (mkModules fasthotstuff fork bls12 100 rep) → x ∈ given).
Proof.
  exact (replica_wired worker1 3 "hs3" "fasthotstuff" "fork" "bls12" "rep"
    (mkModules fasthotstuff fork bls12 100 rep) eq_refl eq_refl).
Defined.
End WiringExample.
