(* ===== verification/Experiment.v ===== *)
(** * internal/orchestration: the controller, its workers and an experiment

    A worker handles one request at a time (worker.go); the controller talks
    to its workers through [RemoteWorker] (remoteworker.go) and runs an
    experiment in phases (controller.go).  The workers and the controller are
    one system here: a request is handled when it is sent, and the response is
    what the controller reads.  That what is written on a pipe is what is read
    is [ProtoStream].  Keys, listeners and connections are the [world]. *)

From S2P Require Import Prelude Encoding Bitfield Types EventLoop Orchestration ModuleSystem.

Section experiment.
Context {Key : Type}.

(** What the operations that are not modelled here answer; [false] and [None]
    are errors.  [GenerateKeyChain] panics for an unknown name of a crypto
    implementation ([unknown_crypto_panics] of [Keygen]); [wd_Stops] says whether
    the goroutine of a replica comes to an end when it is cancelled, which
    [ReplicaRun] describes. *)
Record world := mkWorld {
  wd_GenerateCA : bool;
  wd_GenerateKeyChain : ID → res (option Key);
  wd_PublicKey : Key → bytes;
  wd_ParseKeys : Key → bool;
  wd_Listen : ID → option (N * N);
  wd_ParsePublicKey : bytes → bool;
  wd_Connect : ID → bool;
  wd_ClientConnect : ID → bool;
  wd_Stops : ID → bool;
  wd_GetHash : ID → bytes }.
Context (wd : world).

(** The options that all replicas of the experiment share, the configuration
    of the workers, and the name of a replica's logger. *)
Context (wc : workerConfig) (consensus crypto rotation : string) (hsName : ID → string).

Inductive exp_error :=
| ErrAssign (e : assign_error)
| ErrKeys
| ErrCreate
| ErrListen
| ErrNotFound (id : N)
| ErrPublicKey
| ErrConnect (id : N)
| ErrWrongType
| ErrWorkerGone
| ErrHashMismatch.

(** ** replica.go and client.go: starting and stopping *)

(** [r_running]: the goroutine of [Start] runs, and closes [done] when its
    context is cancelled. *)
Record replica := mkReplica { r_running : bool; r_done : bool; r_closed : bool }.

Definition replica_Start (r : replica) : replica := mkReplica true (r_done r) (r_closed r).

(** [cancel], wait for [done], and [Close].  [cancel] does nothing before
    [Start], and then nobody closes [done]; nor does a goroutine that does not
    come to an end. *)
Definition replica_Stop (id : ID) (r : replica) : res replica :=
  if r_done r || (r_running r && wd_Stops wd id) then Ok (mkReplica false true true) else Blocked.

(** [cl_cancel]: the cancel function was set; [cl_done]: the channel is
    closed; [cl_running]: [Run] has not returned. *)
Record client := mkCli { cl_cancel : bool; cl_done : bool; cl_running : bool; cl_cancelled : bool }.

Definition client_New : client := mkCli false false false false.

(** [Start] closes [done] itself, and closing a closed channel panics. *)
Definition client_Start (c : client) : res client :=
  if cl_done c then Panic "close of closed channel" else Ok (mkCli true true true false).

(** [Stop] cancels the context and receives from the closed channel: it does
    not wait for [Run]. *)
Definition client_Stop (c : client) : res client :=
  if cl_cancel c then
    if cl_done c then Ok (mkCli true true (cl_running c) true) else Blocked
  else Panic "nil cancel".

(** ** Messages *)

Record ReplicaInfo := mkReplicaInfo {
  pi_ID : N; pi_PublicKey : bytes; pi_ReplicaPort : N; pi_ClientPort : N; pi_Address : host }.

(** Maps that a worker visits are lists, in the order of the visit. *)
Inductive request :=
| CreateReplicaRequest (replicas : list (ReplicaOpts * Key))
| StartReplicaRequest (configuration : list ReplicaInfo) (ids : list N)
| StopReplicaRequest (ids : list N)
| StartClientRequest (clients : list N) (configuration : list ReplicaInfo)
| StopClientRequest (ids : list N)
| QuitRequest.

Inductive response :=
| CreateReplicaResponse (replicas : list ReplicaInfo)
| StartReplicaResponse
| StopReplicaResponse (hashes : list (N * bytes))
| StartClientResponse
| StopClientResponse
| Status (e : exp_error).

(** ** worker.go *)

Inductive action :=
  Created (id : ID) | Connected (id : ID) | Started (id : ID) | Stopped (id : ID)
| ClientStarted (id : ID) | ClientStopped (id : ID) | Quit.

Record Worker := mkWorker {
  w_replicas : gmap ID replica;
  w_clients : gmap ID client;
  w_quit : bool;
  w_trace : list action }.

Definition NewWorker : Worker := mkWorker ∅ ∅ false [].

Definition set_replica (id : ID) (r : replica) (a : action) (w : Worker) : Worker :=
  mkWorker (<[id := r]> (w_replicas w)) (w_clients w) (w_quit w) (w_trace w ++ [a]).
Definition set_client (id : ID) (c : client) (a : action) (w : Worker) : Worker :=
  mkWorker (w_replicas w) (<[id := c]> (w_clients w)) (w_quit w) (w_trace w ++ [a]).
Definition note (a : action) (w : Worker) : Worker :=
  mkWorker (w_replicas w) (w_clients w) (w_quit w) (w_trace w ++ [a]).

(** The keys and certificate can be read and the names are known. *)
Definition createReplica_ok (opts : ReplicaOpts) (key : Key) : bool :=
  wd_ParseKeys wd key &&
  match createReplica wc (ro_ID opts) (hsName (ro_ID opts)) consensus (ro_ByzantineStrategy opts)
          crypto rotation with
  | inl (Ok _) => true
  | _ => false
  end.

Fixpoint createReplicas (replicas : list (ReplicaOpts * Key)) (resp : list ReplicaInfo)
    : M Worker (list ReplicaInfo + exp_error) :=
  match replicas with
  | [] => mret (inl resp)
  | (opts, key) :: replicas =>
    if createReplica_ok opts key then
      match wd_Listen wd (ro_ID opts) with
      | None => mret (inr ErrListen)
      | Some (replicaPort, clientPort) =>
        modify (set_replica (ro_ID opts) (mkReplica false false false) (Created (ro_ID opts)));;
        createReplicas replicas
          (resp ++ [mkReplicaInfo (ro_ID opts) (wd_PublicKey wd key) replicaPort clientPort []])
      end
    else mret (inr ErrCreate)
  end.

(** The addresses and ports that a replica or client connects to. *)
Definition getConfiguration (conf : list ReplicaInfo) (client : bool)
    : option (list (ID * (host * N))) :=
  if forallb (λ r, wd_ParsePublicKey wd (pi_PublicKey r)) conf
  then Some ((λ r, (pi_ID r, (pi_Address r, if client then pi_ClientPort r else pi_ReplicaPort r))) <$> conf)
  else None.

(** The loop of [startReplicas]: the error that ended it, and the replicas
    whose start was deferred, the last one first. *)
Fixpoint connect_loop (conf : list ReplicaInfo) (ids deferred : list N)
    : M Worker (option exp_error * list N) :=
  match ids with
  | [] => mret (None, deferred)
  | id :: ids =>
    found ← gets (λ w, w_replicas w !! id);
    match found with
    | None => mret (Some (ErrNotFound id), deferred)
    | Some _ =>
      match getConfiguration conf false with
      | None => mret (Some ErrPublicKey, deferred)
      | Some _ =>
        if wd_Connect wd id then
          modify (note (Connected id));; connect_loop conf ids (id :: deferred)
        else mret (Some (ErrConnect id), deferred)
      end
    end
  end.

(** The deferred calls, which run also when the loop ended with an error. *)
Fixpoint start_deferred (ids : list N) : M Worker () :=
  match ids with
  | [] => mret ()
  | id :: ids =>
    modify (λ w, match w_replicas w !! id with
                 | Some r => set_replica id (replica_Start r) (Started id) w
                 | None => w
                 end);;
    start_deferred ids
  end.

Definition startReplicas (conf : list ReplicaInfo) (ids : list N) : M Worker (option exp_error) :=
  '(err, deferred) ← connect_loop conf ids [];
  start_deferred deferred;;
  mret err.

Definition lift_outcome {S A} (m : res A) : M S A := λ s, a ← m; Ok (a, s).

Fixpoint stopReplicas (ids : list N) (hashes : list (N * bytes))
    : M Worker (list (N * bytes) + exp_error) :=
  match ids with
  | [] => mret (inl hashes)
  | id :: ids =>
    found ← gets (λ w, w_replicas w !! id);
    match found with
    | None => mret (inr (ErrNotFound id))
    | Some r =>
      r' ← lift_outcome (replica_Stop id r);
      modify (set_replica id r' (Stopped id));;
      stopReplicas ids (hashes ++ [(id, wd_GetHash wd id)])
    end
  end.

Fixpoint startClients (clients : list N) (conf : list ReplicaInfo) : M Worker (option exp_error) :=
  match clients with
  | [] => mret None
  | id :: clients =>
    match getConfiguration conf true with
    | None => mret (Some ErrPublicKey)
    | Some _ =>
      if wd_ClientConnect wd id then
        c ← lift_outcome (client_Start client_New);
        modify (set_client id c (ClientStarted id));;
        startClients clients conf
      else mret (Some (ErrConnect id))
    end
  end.

Fixpoint stopClients (ids : list N) : M Worker (option exp_error) :=
  match ids with
  | [] => mret None
  | id :: ids =>
    found ← gets (λ w, w_clients w !! id);
    match found with
    | None => mret (Some (ErrNotFound id))
    | Some c =>
      c' ← lift_outcome (client_Stop c);
      modify (set_client id c' (ClientStopped id));;
      stopClients ids
    end
  end.

(** One turn of [Run]: the response that is sent, or [None] when the worker
    quits.  An error becomes a status. *)
Definition handle_request (req : request) : M Worker (option response) :=
  match req with
  | CreateReplicaRequest replicas =>
    r ← createReplicas replicas [];
    mret (Some (match r with inl infos => CreateReplicaResponse infos | inr e => Status e end))
  | StartReplicaRequest conf ids =>
    err ← startReplicas conf ids;
    mret (Some (match err with None => StartReplicaResponse | Some e => Status e end))
  | StopReplicaRequest ids =>
    r ← stopReplicas ids [];
    mret (Some (match r with inl hashes => StopReplicaResponse hashes | inr e => Status e end))
  | StartClientRequest clients conf =>
    err ← startClients clients conf;
    mret (Some (match err with None => StartClientResponse | Some e => Status e end))
  | StopClientRequest ids =>
    err ← stopClients ids;
    mret (Some (match err with None => StopClientResponse | Some e => Status e end))
  | QuitRequest =>
    modify (λ w, mkWorker (w_replicas w) (w_clients w) true (w_trace w ++ [Quit]));; mret None
  end.

(** ** remoteworker.go *)

(** The controller and its workers. *)
Abbreviation system := (gmap host Worker).

(** Write a request and read the response; a worker that has quit, or quits,
    sends none. *)
Definition rpc (h : host) (req : request) : M system (response + exp_error) := λ s,
  match s !! h with
  | None => Ok (inr ErrWorkerGone, s)
  | Some w =>
    if w_quit w then Ok (inr ErrWorkerGone, s)
    else
      '(resp, w') ← handle_request req w;
      Ok (match resp with
          | None => inr ErrWorkerGone
          | Some (Status e) => inr e
          | Some resp => inl resp
          end, <[h := w']> s)
  end.

Definition CreateReplica (h : host) (replicas : list (ReplicaOpts * Key))
    : M system (list ReplicaInfo + exp_error) :=
  r ← rpc h (CreateReplicaRequest replicas);
  mret (match r with
        | inr e => inr e
        | inl (CreateReplicaResponse infos) => inl infos
        | inl _ => inr ErrWrongType
        end).

Definition StartReplica (h : host) (conf : list ReplicaInfo) (ids : list N) : M system (list exp_error) :=
  r ← rpc h (StartReplicaRequest conf ids);
  mret (match r with inr e => [e] | inl StartReplicaResponse => [] | inl _ => [ErrWrongType] end).

Definition StopReplica (h : host) (ids : list N) : M system (list (N * bytes) + exp_error) :=
  r ← rpc h (StopReplicaRequest ids);
  mret (match r with
        | inr e => inr e
        | inl (StopReplicaResponse hashes) => inl hashes
        | inl _ => inr ErrWrongType
        end).

Definition StartClient (h : host) (clients : list N) (conf : list ReplicaInfo) : M system (list exp_error) :=
  r ← rpc h (StartClientRequest clients conf);
  mret (match r with inr e => [e] | inl StartClientResponse => [] | inl _ => [ErrWrongType] end).

Definition StopClient (h : host) (ids : list N) : M system (list exp_error) :=
  r ← rpc h (StopClientRequest ids);
  mret (match r with inr e => [e] | inl StopClientResponse => [] | inl _ => [ErrWrongType] end).

(** [Quit] only writes: writing to a worker that is gone fails. *)
Definition Quit_worker (h : host) : M system (list exp_error) := λ s,
  match s !! h with
  | None => Ok ([ErrWorkerGone], s)
  | Some w =>
    if w_quit w then Ok ([ErrWorkerGone], s)
    else '(_, w') ← handle_request QuitRequest w; Ok ([], <[h := w']> s)
  end.

(** ** controller.go

    An error is a list: empty for nil, several for those that multierr
    combines. *)

(** A loop over the hosts that returns at the first error. *)
Fixpoint each_host (hs : list host) (f : host → M system (list exp_error)) : M system (list exp_error) :=
  match hs with
  | [] => mret []
  | h :: hs => err ← f h; match err with [] => each_host hs f | _ => mret err end
  end.

(** The options of a host's replicas, with their new keys. *)
Fixpoint keyed_options (e : Experiment) (ids : list ID) (acc : list (ReplicaOpts * Key))
    : M system (list (ReplicaOpts * Key) + exp_error) :=
  match ids with
  | [] => mret (inl acc)
  | id :: ids =>
    match replicaOpts e !! id with
    | None => panic "nil ReplicaOpts"
    | Some opts =>
      keys ← lift_outcome (wd_GenerateKeyChain wd id);
      match keys with
      | None => mret (inr ErrKeys)
      | Some key => keyed_options e ids (acc ++ [(opts, key)])
      end
    end
  end.

Fixpoint create_on_hosts (e : Experiment) (hs : list host) (cfg : list ReplicaInfo)
    : M system (list ReplicaInfo + exp_error) :=
  match hs with
  | [] => mret (inl cfg)
  | h :: hs =>
    r ← keyed_options e (default [] (hostsToReplicas e !! h)) [];
    match r with
    | inr err => mret (inr err)
    | inl replicas =>
      wcfg ← CreateReplica h replicas;
      match wcfg with
      | inr err => mret (inr err)
      | inl infos =>
        create_on_hosts e hs
          (cfg ++ ((λ i, mkReplicaInfo (pi_ID i) (pi_PublicKey i) (pi_ReplicaPort i) (pi_ClientPort i) h) <$> infos))
      end
    end
  end.

Definition Experiment_createReplicas (e : Experiment) : M system (list ReplicaInfo + exp_error) :=
  if wd_GenerateCA wd then create_on_hosts e (Hosts e) [] else mret (inr ErrKeys).

(** One goroutine per host, all of which are waited for; the workers share
    nothing, so their order is that of the hosts. *)
Fixpoint all_hosts (hs : list host) (f : host → M system (list exp_error)) : M system (list exp_error) :=
  match hs with
  | [] => mret []
  | h :: hs => err ← f h; errs ← all_hosts hs f; mret (err ++ errs)
  end.

Definition Experiment_startReplicas (e : Experiment) (cfg : list ReplicaInfo) : M system (list exp_error) :=
  all_hosts (Hosts e) (λ h, StartReplica h cfg (getIDs h (hostsToReplicas e))).

Definition Experiment_startClients (e : Experiment) (cfg : list ReplicaInfo) : M system (list exp_error) :=
  each_host (Hosts e) (λ h, StartClient h (wrap32 <$> default [] (hostsToClients e !! h)) cfg).

Definition Experiment_stopClients (e : Experiment) : M system (list exp_error) :=
  each_host (Hosts e) (λ h, StopClient h (getIDs h (hostsToClients e))).

Fixpoint stop_on_hosts (e : Experiment) (hs : list host) (hashes : list (N * bytes))
    : M system (list exp_error) :=
  match hs with
  | [] => mret (if hashes_match None ((λ x, Some x.2) <$> hashes) then [] else [ErrHashMismatch])
  | h :: hs =>
    r ← StopReplica h (getIDs h (hostsToReplicas e));
    match r with
    | inr err => mret [err]
    | inl new => stop_on_hosts e hs (hashes ++ new)
    end
  end.

Definition Experiment_stopReplicas (e : Experiment) : M system (list exp_error) :=
  stop_on_hosts e (Hosts e) [].

Definition Experiment_quit (e : Experiment) : M system (list exp_error) := each_host (Hosts e) Quit_worker.

(** [Run] up to the deferred call. *)
Definition Run_phases (order : ID → list string) (e : Experiment) : M system (list exp_error) :=
  match assignReplicasAndClients order e with
  | inr err => mret [ErrAssign err]
  | inl e =>
    r ← Experiment_createReplicas e;
    match r with
    | inr err => mret [err]
    | inl cfg =>
      err ← Experiment_startReplicas e cfg;
      match err with
      | [] =>
        err ← Experiment_startClients e cfg;
        match err with
        | [] =>
          err ← Experiment_stopClients e;
          match err with
          | [] => Experiment_stopReplicas e
          | _ => mret err
          end
        | _ => mret err
        end
      | _ => mret err
      end
    end
  end.

Definition Experiment_Run (order : ID → list string) (e : Experiment) : M system (list exp_error) :=
  err ← Run_phases order e;
  qerr ← Experiment_quit e;
  mret (match err with [] => qerr | _ => err end).

(** ** One worker, one request

    What a request does to a worker when it succeeds, and that it leaves the
    worker running when it does not. *)

(** What an experiment needs to come to an end: the generation of keys does not
    panic, and replicas come to an end when they are stopped. *)
Definition keys_generated : Prop := ∀ id, ∃ keys, wd_GenerateKeyChain wd id = Ok keys.
Definition replicas_stop : Prop := ∀ id, wd_Stops wd id = true.
Context (Hkeys : keys_generated) (Hstops : replicas_stop).

(** The map after every ID of a list was set to a value. *)
Definition all_set {V} (ids : list ID) (v : V) (m m' : gmap ID V) : Prop :=
  ∀ id, m' !! id = if decide (id ∈ ids) then Some v else m !! id.

Lemma all_set_nil {V} (v : V) m : all_set [] v m m.
Proof. intros id. by rewrite decide_False by apply not_elem_of_nil. Qed.

Lemma all_set_cons {V} (v : V) id ids m m' :
  all_set ids v (<[id := v]> m) m' → all_set (id :: ids) v m m'.
Proof.
  intros H k. rewrite H. destruct (decide (k ∈ ids)).
  - by rewrite decide_True by (by right).
  - destruct (decide (k = id)) as [->|Hne].
    + rewrite lookup_insert_eq, decide_True; [done|left].
    + rewrite lookup_insert_ne, decide_False; [done| |done]. rewrite not_elem_of_cons. by split.
Qed.

Lemma all_set_permutation {V} (v : V) ids ids' m m' :
  ids ≡ₚ ids' → all_set ids v m m' → all_set ids' v m m'.
Proof. intros Hp H k. rewrite H. apply decide_ext. by rewrite Hp. Qed.

Lemma createReplicas_spec l resp w :
  ∃ r w', createReplicas l resp w = Ok (r, w') ∧ w_quit w' = w_quit w ∧
    ∀ infos, r = inl infos →
      let ids := (λ x, ro_ID x.1) <$> l in
      w_trace w' = w_trace w ++ (Created <$> ids) ∧ w_clients w' = w_clients w ∧
      all_set ids (mkReplica false false false) (w_replicas w) (w_replicas w').
Proof.
  revert resp w. induction l as [|[opts key] l IH]; intros resp w; cbn [createReplicas].
  { eexists _, _. split; [done|]. split; [done|]. intros infos _.
    rewrite app_nil_r. split_and!; [done..|apply all_set_nil]. }
  destruct (createReplica_ok opts key); [|by eexists _, _].
  destruct (wd_Listen wd (ro_ID opts)) as [[p1 p2]|]; [|by eexists _, _].
  set (w1 := set_replica (ro_ID opts) (mkReplica false false false) (Created (ro_ID opts)) w).
  destruct (IH (resp ++ [mkReplicaInfo (ro_ID opts) (wd_PublicKey wd key) p1 p2 []]) w1) as (r & w' & Hrun & Hq & Hok).
  exists r, w'. split; [exact Hrun|]. split; [done|]. intros infos Hinfos. destruct (Hok infos Hinfos) as (Ht & Hc & Hr).
  rewrite fmap_cons. split_and!; [|done|by apply all_set_cons].
  rewrite Ht. cbn. by rewrite <-app_assoc.
Qed.

Lemma connect_loop_spec conf ids deferred w :
  ∃ err deferred' w', connect_loop conf ids deferred w = Ok ((err, deferred'), w') ∧
    w_quit w' = w_quit w ∧ w_replicas w' = w_replicas w ∧ w_clients w' = w_clients w ∧
    (err = None → w_trace w' = w_trace w ++ (Connected <$> ids) ∧ deferred' = reverse ids ++ deferred).
Proof.
  revert deferred w. induction ids as [|id ids IH]; intros deferred w; cbn [connect_loop].
  { eexists _, _, _. split; [done|]. rewrite app_nil_r. split_and!; done. }
  rewrite M_bind_gets. destruct (w_replicas w !! id) as [r|] eqn:Hr;
    [|by do 3 eexists; split; [reflexivity|]].
  destruct (getConfiguration conf false) eqn:Hg;
    [|by do 3 eexists; split; [reflexivity|]].
  destruct (wd_Connect wd id) eqn:Hc;
    [|by do 3 eexists; split; [reflexivity|]].
  destruct (IH (id :: deferred) (note (Connected id) w)) as (err & d & w' & Hrun & H1 & H2 & H3 & H4).
  exists err, d, w'. split; [exact Hrun|]. split_and!; [done..|].
  intros He. destruct (H4 He) as [-> ->]. cbn [note w_trace].
  by rewrite reverse_cons, fmap_cons, <-!app_assoc.
Qed.

Lemma start_deferred_spec ids w :
  ∃ w', start_deferred ids w = Ok ((), w') ∧ w_quit w' = w_quit w ∧ w_clients w' = w_clients w ∧
    ∀ r, r_running r = true → replica_Start r = r →
      (∀ id, id ∈ ids → ∃ r0, w_replicas w !! id = Some r0 ∧ replica_Start r0 = r) →
      w_trace w' = w_trace w ++ (Started <$> ids) ∧ all_set ids r (w_replicas w) (w_replicas w').
Proof.
  revert w. induction ids as [|id ids IH]; intros w; cbn [start_deferred].
  { eexists. split; [done|]. split_and!; [done..|]. intros. rewrite app_nil_r. split; [done|apply all_set_nil]. }
  set (w1 := match w_replicas w !! id with
             | Some r => set_replica id (replica_Start r) (Started id) w | None => w end).
  destruct (IH w1) as (w' & Hrun & Hq & Hc & Hok). exists w'. split; [exact Hrun|].
  assert (w_quit w1 = w_quit w ∧ w_clients w1 = w_clients w) as [Hq1 Hc1]
    by (unfold w1; by destruct (w_replicas w !! id)).
  split_and!; [congruence..|]. intros r Hr Hrr Hids.
  destruct (Hids id) as (r0 & Hr0 & Hs0); [left|].
  assert (w1 = set_replica id r (Started id) w) as Hw1 by (unfold w1; by rewrite Hr0, Hs0).
  destruct (Hok r Hr Hrr) as [Ht Ha].
  - intros k Hk. rewrite Hw1. cbn. destruct (decide (k = id)) as [->|Hne].
    + exists r. by rewrite lookup_insert_eq.
    + rewrite lookup_insert_ne by done. apply Hids. by right.
  - rewrite Hw1 in Ht, Ha. split; [rewrite Ht; cbn; by rewrite <-app_assoc|by apply all_set_cons].
Qed.

Lemma stopReplicas_spec ids hashes w :
  (∀ id, id ∈ ids → ∃ r, w_replicas w !! id = Some r ∧ r_running r || r_done r = true) →
  ∃ hashes' w', stopReplicas ids hashes w = Ok (inl hashes', w') ∧
    w_quit w' = w_quit w ∧ w_clients w' = w_clients w ∧
    w_trace w' = w_trace w ++ (Stopped <$> ids) ∧
    all_set ids (mkReplica false true true) (w_replicas w) (w_replicas w').
Proof.
  revert hashes w. induction ids as [|id ids IH]; intros hashes w Hids; cbn [stopReplicas].
  { do 2 eexists. split; [done|]. rewrite app_nil_r. split_and!; [done..|apply all_set_nil]. }
  destruct (Hids id) as (r & Hr & Hs); [left|].
  destruct (IH (hashes ++ [(id, wd_GetHash wd id)]) (set_replica id (mkReplica false true true) (Stopped id) w))
    as (h' & w' & Hrun & H1 & H2 & H3 & H4).
  - intros k Hk. cbn. destruct (decide (k = id)) as [->|Hne].
    + eexists. by rewrite lookup_insert_eq.
    + rewrite lookup_insert_ne by done. apply Hids. by right.
  - exists h', w'. split.
    + rewrite M_bind_gets, Hr. unfold lift_outcome, replica_Stop. rewrite Hstops, andb_true_r, orb_comm, Hs. exact Hrun.
    + split_and!; [done..|rewrite H3; cbn; by rewrite <-app_assoc|by apply all_set_cons].
Qed.

Definition client_started : client := mkCli true true true false.
Definition client_stopped : client := mkCli true true true true.

Lemma startClients_spec ids conf w :
  ∃ err w', startClients ids conf w = Ok (err, w') ∧ w_quit w' = w_quit w ∧ w_replicas w' = w_replicas w ∧
    (err = None → w_trace w' = w_trace w ++ (ClientStarted <$> ids) ∧
       all_set ids client_started (w_clients w) (w_clients w')).
Proof.
  revert w. induction ids as [|id ids IH]; intros w; cbn [startClients].
  { do 2 eexists. split; [done|]. rewrite app_nil_r. split_and!; [done..|]. intros _. split; [done|apply all_set_nil]. }
  destruct (getConfiguration conf true); [|by do 2 eexists].
  destruct (wd_ClientConnect wd id); [|by do 2 eexists].
  destruct (IH (set_client id client_started (ClientStarted id) w)) as (err & w' & Hrun & H1 & H2 & H3).
  exists err, w'. split; [exact Hrun|]. split_and!; [done..|]. intros He. destruct (H3 He) as [Ht Ha].
  split; [rewrite Ht; cbn; by rewrite <-app_assoc|by apply all_set_cons].
Qed.

Lemma stopClients_spec ids w :
  (∀ id, id ∈ ids → ∃ c, w_clients w !! id = Some c ∧ cl_cancel c = true ∧ cl_done c = true ∧ cl_running c = true) →
  ∃ w', stopClients ids w = Ok (None, w') ∧ w_quit w' = w_quit w ∧ w_replicas w' = w_replicas w ∧
    w_trace w' = w_trace w ++ (ClientStopped <$> ids) ∧
    all_set ids client_stopped (w_clients w) (w_clients w').
Proof.
  revert w. induction ids as [|id ids IH]; intros w Hids; cbn [stopClients].
  { eexists. split; [done|]. rewrite app_nil_r. split_and!; [done..|apply all_set_nil]. }
  destruct (Hids id) as (c & Hc & Hcc & Hd & Hr); [left|].
  destruct (IH (set_client id client_stopped (ClientStopped id) w)) as (w' & Hrun & H1 & H2 & H3 & H4).
  - intros k Hk. cbn. destruct (decide (k = id)) as [->|Hne].
    + eexists. by rewrite lookup_insert_eq.
    + rewrite lookup_insert_ne by done. apply Hids. by right.
  - exists w'. split.
    + rewrite M_bind_gets, Hc. unfold lift_outcome, client_Stop. rewrite Hcc, Hd, Hr. exact Hrun.
    + split_and!; [done..|rewrite H3; cbn; by rewrite <-app_assoc|by apply all_set_cons].
Qed.

(** ** One phase of an experiment on all hosts *)

Definition on_hosts (P : host → Worker → Prop) (hs : list host) (s : system) : Prop :=
  ∀ h, h ∈ hs → ∃ w, s !! h = Some w ∧ P h w.

Definition alive (h : host) (w : Worker) : Prop := w_quit w = false.

(** An operation on the worker of one host: it returns, the worker is still
    running, and without an error it did its work. *)
Definition host_op {A} (h : host) (m : M system A) (P : Worker → Prop) (Q : A → Worker → Prop) : Prop :=
  ∀ s w, s !! h = Some w → P w → ∃ a w', m s = Ok (a, <[h := w']> s) ∧ w_quit w' = false ∧ Q a w'.

Lemma on_hosts_insert (P : host → Worker → Prop) hs h w s :
  (h ∉ hs) → on_hosts P hs s → on_hosts P hs (<[h := w]> s).
Proof.
  intros Hh Hs k Hk. destruct (Hs k Hk) as (w' & Hw' & HP). exists w'. split; [|done].
  rewrite lookup_insert_ne; [done|]. by intros ->.
Qed.

Lemma on_hosts_weaken (P Q : host → Worker → Prop) hs s :
  (∀ h w, P h w → Q h w) → on_hosts P hs s → on_hosts Q hs s.
Proof. intros HPQ Hs h Hh. destruct (Hs h Hh) as (w & Hw & HP). eauto. Qed.

Lemma on_hosts_cons P h hs w s :
  (h ∉ hs) → P h w → on_hosts P hs s → s !! h = Some w → on_hosts P (h :: hs) s.
Proof.
  intros Hh HP Hs Hw k Hk. apply elem_of_cons in Hk as [->|Hk]; [by exists w|by apply Hs].
Qed.

(** What the other hosts look like does not change while one is served. *)
Definition elsewhere (hs : list host) (s s' : system) : Prop := ∀ h, (h ∉ hs) → s' !! h = s !! h.

Section phase.
Context (P Q : host → Worker → Prop).
Context (Palive : ∀ h w, P h w → w_quit w = false).

(** The pieces of a loop over the hosts: the state after the first one, and
    what holds at the end when the loop goes on or stops there. *)
Lemma phase_next h hs w' s :
  (h ∉ hs) → on_hosts P (h :: hs) s → on_hosts P hs (<[h := w']> s).
Proof. intros Hh Hs. apply on_hosts_insert; [done|]. intros k Hk. apply Hs. by right. Qed.

Lemma phase_join h hs w' s s' :
  (h ∉ hs) → elsewhere hs (<[h := w']> s) s' → w_quit w' = false → on_hosts alive hs s' →
  s' !! h = Some w' ∧ elsewhere (h :: hs) s s' ∧ on_hosts alive (h :: hs) s'.
Proof.
  intros Hh Helse Hq Hal. assert (s' !! h = Some w') as Hh' by (by rewrite Helse, lookup_insert_eq).
  split_and!; [done| |by eapply on_hosts_cons].
  intros k [Hk1 Hk2]%not_elem_of_cons. by rewrite Helse, lookup_insert_ne.
Qed.

Lemma phase_stop h hs w' s :
  (h ∉ hs) → on_hosts P (h :: hs) s → w_quit w' = false →
  elsewhere (h :: hs) s (<[h := w']> s) ∧ on_hosts alive (h :: hs) (<[h := w']> s).
Proof.
  intros Hh Hs Hq. split.
  - intros k [Hk1 Hk2]%not_elem_of_cons. by rewrite lookup_insert_ne.
  - eapply on_hosts_cons; [done|exact Hq| |apply lookup_insert_eq].
    eapply on_hosts_weaken; [exact Palive|]. by apply phase_next.
Qed.

Lemma phase_nil s (R : Prop) : elsewhere [] s s ∧ on_hosts alive [] s ∧ (R → on_hosts Q [] s).
Proof. split_and!; [done| |intros _]; by intros h ?%not_elem_of_nil. Qed.

Lemma each_host_phase hs f :
  NoDup hs → (∀ h, h ∈ hs → host_op h (f h) (P h) (λ err w, err = [] → Q h w)) →
  ∀ s, on_hosts P hs s →
    ∃ err s', each_host hs f s = Ok (err, s') ∧ elsewhere hs s s' ∧ on_hosts alive hs s' ∧
      (err = [] → on_hosts Q hs s').
Proof.
  intros Hnd Hf. induction Hnd as [|h hs Hh Hnd IH]; intros s Hs; [exists [], s; split; [done|apply phase_nil]|].
  destruct (Hs h) as (w & Hw & HP); [left|].
  destruct (Hf h ltac:(left) s w Hw HP) as (err & w' & Hrun & Hq & HQ). cbn [each_host].
  rewrite (M_bind_run _ _ _ _ _ Hrun). destruct err as [|x err].
  - destruct (IH ltac:(intros k Hk; apply Hf; by right) _ (phase_next h hs w' s Hh Hs))
      as (err & s' & Hrun' & Helse & Hal & Hq').
    destruct (phase_join h hs w' s s' Hh Helse Hq Hal) as (Hh' & He & Ha). exists err, s'.
    split_and!; [done..|]. intros Herr. eapply on_hosts_cons; eauto.
  - destruct (phase_stop h hs w' s Hh Hs Hq). by eexists (x :: err), _.
Qed.

Lemma all_hosts_phase hs f :
  NoDup hs → (∀ h, h ∈ hs → host_op h (f h) (P h) (λ err w, err = [] → Q h w)) →
  ∀ s, on_hosts P hs s →
    ∃ err s', all_hosts hs f s = Ok (err, s') ∧ elsewhere hs s s' ∧ on_hosts alive hs s' ∧
      (err = [] → on_hosts Q hs s').
Proof.
  intros Hnd Hf. induction Hnd as [|h hs Hh Hnd IH]; intros s Hs; [exists [], s; split; [done|apply phase_nil]|].
  destruct (Hs h) as (w & Hw & HP); [left|].
  destruct (Hf h ltac:(left) s w Hw HP) as (err & w' & Hrun & Hq & HQ). cbn [all_hosts].
  rewrite (M_bind_run _ _ _ _ _ Hrun).
  destruct (IH ltac:(intros k Hk; apply Hf; by right) _ (phase_next h hs w' s Hh Hs))
    as (errs & s' & Hrun' & Helse & Hal & Hq').
  rewrite (M_bind_run _ _ _ _ _ Hrun'). exists (err ++ errs), s'.
  destruct (phase_join h hs w' s s' Hh Helse Hq Hal) as (Hh' & He & Ha).
  split_and!; [done..|]. intros [-> ->]%app_eq_nil. eapply on_hosts_cons; eauto.
Qed.
End phase.

(** A request to a worker that runs. *)
Lemma rpc_op h req (P : Worker → Prop) (Q : response + exp_error → Worker → Prop) :
  (∀ w, P w → w_quit w = false) →
  (∀ w, P w → ∃ resp w', handle_request req w = Ok (Some resp, w') ∧ w_quit w' = false ∧
     Q (match resp with Status e => inr e | _ => inl resp end) w') →
  host_op h (rpc h req) P Q.
Proof.
  intros HP Hreq s w Hw Hp. destruct (Hreq w Hp) as (resp & w' & Hrun & Hq & HQ).
  eexists _, w'. split; [|split; [exact Hq|exact HQ]]. unfold rpc. rewrite Hw, HP, Hrun by done.
  by destruct resp.
Qed.

Lemma host_op_bind {A B : Type} (h : host) (m : M system A) (f : A → B) (P : Worker → Prop)
    (Q : A → Worker → Prop) (R : B → Worker → Prop) :
  host_op h m P Q → (∀ a w, Q a w → R (f a) w) → host_op h (a ← m; mret (f a)) P R.
Proof.
  intros Hm HR s w Hw Hp. destruct (Hm s w Hw Hp) as (a & w' & Hrun & Hq & HQ).
  exists (f a), w'. split_and!; [|done|by apply HR]. by rewrite (M_bind_run _ _ _ _ _ Hrun).
Qed.

(** ** The phases of an experiment

    [standing] is what a worker looks like between two phases: what it has
    done, and in which state the replicas and clients of its host are. *)

Section phases.
Context (e : Experiment).

Definition ids (h : host) : list ID := default [] (hostsToReplicas e !! h).
Definition cids (h : host) : list ID := getIDs h (hostsToClients e).

(** Every replica that was assigned has its options. *)
Definition has_options : Prop :=
  ∀ h id, id ∈ ids h → (id < two32)%N ∧ ∃ opts, replicaOpts e !! id = Some opts ∧ ro_ID opts = id.
Context (Hopts : has_options).

Definition standing (trace : host → list action) (r : option replica) (c : option client)
    (h : host) (w : Worker) : Prop :=
  w_quit w = false ∧ w_trace w = trace h ∧
  (∀ id, w_replicas w !! id = if decide (id ∈ ids h) then r else None) ∧
  (∀ id, w_clients w !! id = if decide (id ∈ cids h) then c else None).

Lemma standing_alive trace r c h w : standing trace r c h w → w_quit w = false.
Proof. by intros []. Qed.

Definition replica_new : replica := mkReplica false false false.
Definition replica_running : replica := mkReplica true false false.
Definition replica_stopped : replica := mkReplica false true true.

Definition did_create (h : host) : list action := Created <$> ids h.
Definition did_start (h : host) : list action :=
  did_create h ++ (Connected <$> ids h) ++ (Started <$> reverse (ids h)).
Definition did_startClients (h : host) : list action := did_start h ++ (ClientStarted <$> cids h).
Definition did_stopClients (h : host) : list action := did_startClients h ++ (ClientStopped <$> cids h).
Definition did_stop (h : host) : list action := did_stopClients h ++ (Stopped <$> ids h).

Lemma getIDs_ids h : getIDs h (hostsToReplicas e) = ids h.
Proof.
  unfold getIDs. fold (ids h). rewrite <-(list_fmap_id (ids h)) at 2. apply list_fmap_ext.
  intros k x Hx%list_elem_of_lookup_2. apply wrap32_small. by apply (Hopts h).
Qed.

Lemma all_set_standing {V} (l : list ID) (v : V) (o : option V) m m' :
  (∀ id, m !! id = if decide (id ∈ l) then o else None) → all_set l v m m' →
  ∀ id, m' !! id = if decide (id ∈ l) then Some v else None.
Proof. intros Hm Ha id. rewrite Ha, Hm. by destruct (decide _). Qed.

Lemma keyed_options_spec l acc s :
  (∀ id, id ∈ l → ∃ opts, replicaOpts e !! id = Some opts ∧ ro_ID opts = id) →
  ∃ r, keyed_options e l acc s = Ok (r, s) ∧
    ∀ reqs, r = inl reqs → (λ x, ro_ID x.1) <$> reqs = ((λ x, ro_ID x.1) <$> acc) ++ l.
Proof.
  revert acc. induction l as [|id l IH]; intros acc Hl; cbn [keyed_options].
  { exists (inl acc). split; [done|]. intros reqs [= <-]. by rewrite app_nil_r. }
  destruct (Hl id) as (opts & -> & Hid); [left|]. destruct (Hkeys id) as [keys Hgen].
  rewrite (M_bind_run _ _ s keys s) by (unfold lift_outcome; by rewrite Hgen).
  destruct keys as [key|]; [|by exists (inr ErrKeys)].
  destruct (IH (acc ++ [(opts, key)])) as (r & Hrun & Hr); [intros k Hk; apply Hl; by right|].
  exists r. split; [done|]. intros reqs Hreqs. rewrite (Hr reqs Hreqs), fmap_app, <-app_assoc. cbn. by rewrite Hid.
Qed.

Lemma CreateReplica_op h reqs :
  (λ x, ro_ID x.1) <$> reqs = ids h →
  host_op h (CreateReplica h reqs) (standing (λ _, []) None None h)
    (λ r w, ∀ infos, r = inl infos → standing did_create (Some replica_new) None h w).
Proof.
  intros Hreqs. apply (host_op_bind _ _ _ _ (λ r w,
    ∀ infos, r = inl (CreateReplicaResponse infos) → standing did_create (Some replica_new) None h w));
    [|intros [[]|] w HQ infos Hinfos; simplify_eq; by eapply HQ].
  apply rpc_op; [by intros w []|]. intros w (Hq & Ht & Hr & Hc). cbn [handle_request].
  destruct (createReplicas_spec reqs [] w) as (r & w' & Hrun & Hq' & Hok).
  rewrite (M_bind_run _ _ _ _ _ Hrun). eexists _, w'. split; [done|]. split; [congruence|].
  intros infos Hinfos. destruct r as [infos'|]; [|done]. destruct (Hok infos' eq_refl) as (Ht' & Hc' & Hr').
  rewrite Hreqs in Ht', Hr'. rewrite Ht in Ht'.
  split_and!; [congruence|done|exact (all_set_standing _ _ _ _ _ Hr Hr')|by rewrite Hc'].
Qed.

Lemma StartReplica_op h cfg :
  host_op h (StartReplica h cfg (getIDs h (hostsToReplicas e)))
    (standing did_create (Some replica_new) None h)
    (λ err w, err = [] → standing did_start (Some replica_running) None h w).
Proof.
  rewrite getIDs_ids. apply (host_op_bind _ _ _ _ (λ r w,
    r = inl StartReplicaResponse → standing did_start (Some replica_running) None h w));
    [|intros [[]|] w HQ He; simplify_eq; by apply HQ].
  apply rpc_op; [by intros w []|]. intros w (Hq & Ht & Hr & Hc). cbn [handle_request]. unfold startReplicas.
  destruct (connect_loop_spec cfg (ids h) [] w) as (err & deferred & w1 & Hrun & Hq1 & Hr1 & Hc1 & Hok1).
  destruct (start_deferred_spec deferred w1) as (w2 & Hrun2 & Hq2 & Hc2 & Hok2).
  eexists _, w2. split.
  { rewrite (M_bind_run _ _ w err w2); [done|]. rewrite (M_bind_run _ _ _ _ _ Hrun). cbv beta iota.
    by rewrite (M_bind_run _ _ _ _ _ Hrun2). }
  split; [congruence|]. intros Hresp. destruct err; [done|]. destruct (Hok1 eq_refl) as [Ht1 ->].
  rewrite app_nil_r in *. destruct (Hok2 replica_running) as [Ht2 Ha2]; [done..| |].
  { intros id Hid. exists replica_new. rewrite Hr1, Hr, decide_True; [done|]. by rewrite elem_of_reverse in Hid. }
  apply (all_set_permutation _ _ _ _ _ (reverse_Permutation (ids h))) in Ha2.
  split_and!; [congruence| |eapply all_set_standing; [|exact Ha2]; by rewrite Hr1|intros id; rewrite Hc2, Hc1; apply Hc].
  rewrite Ht2, Ht1, Ht. unfold did_start. by rewrite <-app_assoc.
Qed.

Lemma StartClient_op h cfg :
  host_op h (StartClient h (wrap32 <$> default [] (hostsToClients e !! h)) cfg)
    (standing did_start (Some replica_running) None h)
    (λ err w, err = [] → standing did_startClients (Some replica_running) (Some client_started) h w).
Proof.
  apply (host_op_bind _ _ _ _ (λ r w, r = inl StartClientResponse →
    standing did_startClients (Some replica_running) (Some client_started) h w));
    [|intros [[]|] w HQ He; simplify_eq; by apply HQ].
  apply rpc_op; [by intros w []|]. intros w (Hq & Ht & Hr & Hc). cbn [handle_request].
  destruct (startClients_spec (cids h) cfg w) as (err & w' & Hrun & Hq' & Hr' & Hok).
  rewrite (M_bind_run _ _ _ _ _ Hrun). eexists _, w'. split; [done|]. split; [congruence|].
  intros Hresp. destruct err; [done|]. destruct (Hok eq_refl) as [Ht' Ha]. rewrite Ht in Ht'.
  split_and!; [congruence|done|by rewrite Hr'|by eapply all_set_standing].
Qed.

Lemma StopClient_op h :
  host_op h (StopClient h (getIDs h (hostsToClients e)))
    (standing did_startClients (Some replica_running) (Some client_started) h)
    (λ err w, err = [] → standing did_stopClients (Some replica_running) (Some client_stopped) h w).
Proof.
  apply (host_op_bind _ _ _ _ (λ r w, r = inl StopClientResponse →
    standing did_stopClients (Some replica_running) (Some client_stopped) h w));
    [|intros [[]|] w HQ He; simplify_eq; by apply HQ].
  apply rpc_op; [by intros w []|]. intros w (Hq & Ht & Hr & Hc). cbn [handle_request].
  destruct (stopClients_spec (cids h) w) as (w' & Hrun & Hq' & Hr' & Ht' & Ha).
  { intros id Hid. exists client_started. by rewrite Hc, decide_True. }
  rewrite (M_bind_run _ _ _ _ _ Hrun). eexists _, w'. split; [done|]. split; [congruence|].
  intros _. rewrite Ht in Ht'. split_and!; [congruence|done|by rewrite Hr'|by eapply all_set_standing].
Qed.

Lemma StopReplica_op h :
  host_op h (StopReplica h (getIDs h (hostsToReplicas e)))
    (standing did_stopClients (Some replica_running) (Some client_stopped) h)
    (λ _ w, standing did_stop (Some replica_stopped) (Some client_stopped) h w).
Proof.
  rewrite getIDs_ids. apply (host_op_bind _ _ _ _ (λ r w,
    standing did_stop (Some replica_stopped) (Some client_stopped) h w)); [|done].
  apply rpc_op; [by intros w []|]. intros w (Hq & Ht & Hr & Hc). cbn [handle_request].
  destruct (stopReplicas_spec (ids h) [] w) as (hashes & w' & Hrun & Hq' & Hc' & Ht' & Ha).
  { intros id Hid. exists replica_running. by rewrite Hr, decide_True. }
  rewrite (M_bind_run _ _ _ _ _ Hrun). eexists _, w'. split; [done|]. split; [congruence|].
  rewrite Ht in Ht'. split_and!; [congruence|done|by eapply all_set_standing|by rewrite Hc'].
Qed.

Lemma create_phase hs cfg :
  NoDup hs → ∀ s, on_hosts (standing (λ _, []) None None) hs s →
    ∃ r s', create_on_hosts e hs cfg s = Ok (r, s') ∧ elsewhere hs s s' ∧ on_hosts alive hs s' ∧
      ((∃ cfg', r = inl cfg') → on_hosts (standing did_create (Some replica_new) None) hs s').
Proof.
  intros Hnd. revert cfg. induction Hnd as [|h hs Hh Hnd IH]; intros cfg s Hs.
  { exists (inl cfg), s. split; [done|apply phase_nil]. }
  destruct (Hs h) as (w & Hw & HP); [left|].
  destruct (keyed_options_spec (ids h) [] s) as (r & Hk & Hreqs); [intros id Hid; by apply (Hopts h)|].
  cbn [create_on_hosts]. rewrite (M_bind_run _ _ _ _ _ Hk). destruct r as [reqs|err]; cycle 1.
  { exists (inr err), s. split_and!; [done|done|by eapply on_hosts_weaken, Hs; apply standing_alive|by intros [? [=]]]. }
  destruct (CreateReplica_op h reqs (Hreqs reqs eq_refl) s w Hw HP) as (r & w' & Hrun & Hq & HQ).
  rewrite (M_bind_run _ _ _ _ _ Hrun). destruct r as [infos|err]; cycle 1.
  { destruct (phase_stop _ (standing_alive _ _ _) h hs w' s Hh Hs Hq). eexists (inr err), _. split_and!; [done..|by intros [? [=]]]. }
  match goal with |- context [create_on_hosts e hs ?c] =>
    destruct (IH c _ (phase_next _ h hs w' s Hh Hs)) as (r & s' & Hrun' & Helse & Hal & Hq') end.
  destruct (phase_join h hs w' s s' Hh Helse Hq Hal) as (Hh' & He & Ha). exists r, s'.
  split_and!; [done..|]. intros Hr. eapply on_hosts_cons; eauto.
Qed.

Lemma stop_phase hs hashes :
  NoDup hs → ∀ s, on_hosts (standing did_stopClients (Some replica_running) (Some client_stopped)) hs s →
    ∃ err s', stop_on_hosts e hs hashes s = Ok (err, s') ∧ elsewhere hs s s' ∧ on_hosts alive hs s' ∧
      (err = [] → on_hosts (standing did_stop (Some replica_stopped) (Some client_stopped)) hs s').
Proof.
  intros Hnd. revert hashes. induction Hnd as [|h hs Hh Hnd IH]; intros hashes s Hs.
  { cbn [stop_on_hosts]. eexists _, s. split; [done|apply phase_nil]. }
  destruct (Hs h) as (w & Hw & HP); [left|].
  destruct (StopReplica_op h s w Hw HP) as (r & w' & Hrun & Hq & HQ).
  cbn [stop_on_hosts]. rewrite (M_bind_run _ _ _ _ _ Hrun). destruct r as [new|err]; cycle 1.
  { destruct (phase_stop _ (standing_alive _ _ _) h hs w' s Hh Hs Hq). by eexists [err], _. }
  destruct (IH (hashes ++ new) _ (phase_next _ h hs w' s Hh Hs)) as (err & s' & Hrun' & Helse & Hal & Hq').
  destruct (phase_join h hs w' s s' Hh Helse Hq Hal) as (Hh' & He & Ha). exists err, s'.
  split_and!; [done..|]. intros Herr. eapply on_hosts_cons; eauto.
Qed.

(** Every phase starts from where the one before it ended. *)
Lemma phases_end (order : ID → list string) e0 s :
  assignReplicasAndClients order e0 = inl e → NoDup (Hosts e) →
  on_hosts (standing (λ _, []) None None) (Hosts e) s →
  ∃ err s', Run_phases order e0 s = Ok (err, s') ∧ on_hosts alive (Hosts e) s' ∧
    (err = [] → on_hosts (standing did_stop (Some replica_stopped) (Some client_stopped)) (Hosts e) s').
Proof.
  intros Hassign Hnd Hs. unfold Run_phases. rewrite Hassign. unfold Experiment_createReplicas.
  destruct (wd_GenerateCA wd); cycle 1.
  { eexists _, s. split; [done|]. split; [|done]. eapply on_hosts_weaken; [|exact Hs]. by intros ? ? []. }
  destruct (create_phase (Hosts e) [] Hnd s Hs) as (r & s1 & Hr1 & _ & Hal1 & H1).
  rewrite (M_bind_run _ _ _ _ _ Hr1). destruct r as [cfg|err]; [|by eexists [err], s1].
  destruct (all_hosts_phase _ _ (Hosts e) _ Hnd (λ h _, StartReplica_op h cfg) s1 (H1 ltac:(eauto)))
    as (err2 & s2 & Hr2 & _ & Hal2 & H2).
  rewrite (M_bind_run _ _ _ _ _ Hr2). destruct err2; [|by eexists _, s2].
  destruct (each_host_phase _ _ (standing_alive _ _ _) (Hosts e) _ Hnd (λ h _, StartClient_op h cfg) s2 (H2 eq_refl))
    as (err3 & s3 & Hr3 & _ & Hal3 & H3).
  rewrite (M_bind_run _ _ _ _ _ Hr3). destruct err3; [|by eexists _, s3].
  destruct (each_host_phase _ _ (standing_alive _ _ _) (Hosts e) _ Hnd (λ h _, StopClient_op h) s3 (H3 eq_refl))
    as (err4 & s4 & Hr4 & _ & Hal4 & H4).
  rewrite (M_bind_run _ _ _ _ _ Hr4). destruct err4; [|by eexists _, s4].
  destruct (stop_phase (Hosts e) [] Hnd s4 (H4 eq_refl)) as (err5 & s5 & Hr5 & _ & Hal5 & H5).
  by exists err5, s5.
Qed.
End phases.

(** ** What the assignment guarantees *)

Definition assigning (st : Experiment * ID) : Prop := has_options st.1 ∧ (st.2 < two32)%N.

Lemma assign_replica_options order h st : assigning st → assigning (assign_replica order h st).
Proof.
  destruct st as [e next]. intros [Hopts Hnext]. cbn [fst snd] in *. unfold assign_replica.
  destruct (pick_strategy _ _) as [byz strategy]. split; cbn [fst snd]; [|apply wrap32_lt].
  intros k x. unfold ids. cbn [hostsToReplicas replicaOpts]. destruct (decide (k = h)) as [->|Hne].
  - rewrite lookup_insert_eq. cbn [from_option id]. intros [Hid|Hid%list_elem_of_singleton]%elem_of_app.
    + destruct (Hopts h x Hid) as (? & opts & ? & ?). split; [done|]. destruct (decide (x = next)) as [->|].
      * rewrite lookup_insert_eq. by eexists.
      * rewrite lookup_insert_ne by done. eauto.
    + subst. split; [done|]. rewrite lookup_insert_eq. by eexists.
  - rewrite lookup_insert_ne by done. intros Hid. destruct (Hopts k x Hid) as (? & opts & ? & ?).
    split; [done|]. destruct (decide (x = next)) as [->|].
    + rewrite lookup_insert_eq. by eexists.
    + rewrite lookup_insert_ne by done. eauto.
Qed.

Lemma iter_replica_options order h n st : assigning st → assigning (Nat.iter n (assign_replica order h) st).
Proof. intros H. induction n; [done|]. rewrite Nat.iter_succ. by apply assign_replica_options. Qed.

Lemma iter_client_options h n st :
  has_options st.1 → has_options (Nat.iter n (assign_client h) st).1 .
Proof.
  intros H. induction n as [|n IH]; [done|]. rewrite Nat.iter_succ.
  destruct (Nat.iter n (assign_client h) st) as [e next]. exact IH.
Qed.

Lemma assign_host_options order perR perC hs st :
  assigning (st.1.1.1.1, st.1.1.1.2) →
  has_options (foldl (assign_host order perR perC) st hs).1.1.1.1 .
Proof.
  revert st. induction hs as [|h hs IH]; intros [[[[e nr] nc] rr] rc] H; [apply H|].
  cbn [foldl]. apply IH. unfold assign_host. cbn [fst snd] in H.
  destruct (match HostConfigs e !! h with Some _ => _ | None => _ end) as [[[a b] c] d].
  pose proof (iter_replica_options order h (Z.to_nat a) _ H) as H1.
  destruct (Nat.iter (Z.to_nat a) (assign_replica order h) (e, nr)) as [e1 nr1].
  pose proof (iter_client_options h (Z.to_nat b) (e1, nc) (proj1 H1)) as H2.
  destruct (Nat.iter (Z.to_nat b) (assign_client h) (e1, nc)) as [e2 nc1]. split; [exact H2|apply H1].
Qed.

Lemma assign_host_Hosts order perR perC hs st :
  Hosts (foldl (assign_host order perR perC) st hs).1.1.1.1 = Hosts st.1.1.1.1 .
Proof.
  assert (∀ h n st, Hosts (Nat.iter n (assign_replica order h) st).1 = Hosts st.1) as HR.
  { intros h n st0. induction n as [|n IH]; [done|]. rewrite Nat.iter_succ, <-IH.
    destruct (Nat.iter n _ st0) as [e next]. unfold assign_replica. by destruct (pick_strategy _ _). }
  assert (∀ h n st, Hosts (Nat.iter n (assign_client h) st).1 = Hosts st.1) as HC.
  { intros h n st0. induction n as [|n IH]; [done|]. rewrite Nat.iter_succ, <-IH.
    by destruct (Nat.iter n _ st0) as [e next]. }
  revert st. induction hs as [|h hs IH]; intros [[[[e nr] nc] rr] rc]; [done|].
  cbn [foldl]. rewrite IH. unfold assign_host.
  destruct (match HostConfigs e !! h with Some _ => _ | None => _ end) as [[[a b] c] d].
  pose proof (HR h (Z.to_nat a) (e, nr)) as H1.
  destruct (Nat.iter (Z.to_nat a) (assign_replica order h) (e, nr)) as [e1 nr1].
  pose proof (HC h (Z.to_nat b) (e1, nc)) as H2.
  destruct (Nat.iter (Z.to_nat b) (assign_client h) (e1, nc)) as [e2 nc1]. cbn [fst] in *. congruence.
Qed.

Lemma assigned_options order e0 e :
  assignReplicasAndClients order e0 = inl e → has_options e ∧ Hosts e = Hosts e0.
Proof.
  unfold assignReplicasAndClients. cbn [Hosts HostConfigs NumReplicas NumClients].
  destruct (if (0 <? _)%Z then _ else _) as [[[pR rR] pC] rC].
  destruct (_ <? 0)%Z; [done|]. destruct (_ <? 0)%Z; [done|].
  match goal with |- context [foldl ?f ?st ?hs] =>
    pose proof (assign_host_options order pR pC hs st) as H1; pose proof (assign_host_Hosts order pR pC hs st) as H2;
    destruct (foldl f st hs) as [[[[e' nr] nc] rr] rc] end.
  intros [= <-]. cbn [fst snd] in *. split; [|done]. apply H1. split; [|done].
  cbn [fst]. intros h x. unfold ids. cbn [hostsToReplicas]. by intros ?%not_elem_of_nil.
Qed.

(** ** The whole experiment *)

Lemma quit_op h (P : Worker → Prop) :
  (∀ w, P w → w_quit w = false) →
  ∀ s w, s !! h = Some w → P w →
    Quit_worker h s = Ok ([], <[h := mkWorker (w_replicas w) (w_clients w) true (w_trace w ++ [Quit])]> s).
Proof. intros HP s w Hw Hp. unfold Quit_worker. by rewrite Hw, (HP w Hp). Qed.

Lemma quit_all hs s :
  NoDup hs → on_hosts alive hs s →
  ∃ s', each_host hs Quit_worker s = Ok ([], s') ∧ elsewhere hs s s' ∧
    ∀ h w, h ∈ hs → s !! h = Some w →
      s' !! h = Some (mkWorker (w_replicas w) (w_clients w) true (w_trace w ++ [Quit])).
Proof.
  intros Hnd. revert s. induction Hnd as [|h hs Hh Hnd IH]; intros s Hs.
  { exists s. split_and!; [done..|]. by intros h w ?%not_elem_of_nil. }
  destruct (Hs h) as (w & Hw & Hal); [left|]. cbn [each_host].
  rewrite (M_bind_run _ _ _ _ _ (quit_op h (alive h) (λ _ H, H) s w Hw Hal)).
  destruct (IH (<[h := mkWorker (w_replicas w) (w_clients w) true (w_trace w ++ [Quit])]> s))
    as (s' & Hrun & Helse & Hall); [by apply (phase_next alive)|].
  exists s'. split_and!; [done| |].
  - intros k [Hk1 Hk2]%not_elem_of_cons. by rewrite Helse, lookup_insert_ne.
  - intros k w' Hk Hw'. apply elem_of_cons in Hk as [->|Hk].
    + rewrite Helse, lookup_insert_eq by done. congruence.
    + apply Hall; [done|]. rewrite lookup_insert_ne; [done|]. by intros ->.
Qed.

(** What a worker has done when an experiment has ended without an error. *)
Definition finished (e : Experiment) (h : host) (w : Worker) : Prop :=
  w_quit w = true ∧ w_trace w = did_stop e h ++ [Quit] ∧
  (∀ id, w_replicas w !! id = if decide (id ∈ ids e h) then Some replica_stopped else None) ∧
  (∀ id, w_clients w !! id = if decide (id ∈ cids e h) then Some client_stopped else None).

(** An experiment on fresh workers returns, and all of them quit. *)
Lemma Run_quits (order : ID → list string) (e0 : Experiment) (s : system) :
  NoDup (Hosts e0) → (∀ h, h ∈ Hosts e0 → s !! h = Some NewWorker) →
  ∃ err s', Experiment_Run order e0 s = Ok (err, s') ∧
    on_hosts (λ _ w, w_quit w = true) (Hosts e0) s' ∧
    (err = [] → ∃ e, assignReplicasAndClients order e0 = inl e ∧ on_hosts (finished e) (Hosts e0) s').
Proof.
  intros Hnd Hnew. unfold Experiment_Run.
  assert (∃ err s1, Run_phases order e0 s = Ok (err, s1) ∧ on_hosts alive (Hosts e0) s1 ∧
    (err = [] → ∃ e, assignReplicasAndClients order e0 = inl e ∧
       on_hosts (standing e (did_stop e) (Some replica_stopped) (Some client_stopped)) (Hosts e0) s1))
    as (err & s1 & Hrun & Hal & Hok).
  { destruct (assignReplicasAndClients order e0) as [e|ae] eqn:Ha; cycle 1.
    { exists [ErrAssign ae], s. unfold Run_phases. rewrite Ha. split_and!; [done| |done].
      intros h Hh. by exists NewWorker; split; [apply Hnew|]. }
    destruct (assigned_options order e0 e Ha) as [Hopts HH]. rewrite <-HH in Hnd, Hnew |- *.
    destruct (phases_end e Hopts order e0 s Ha Hnd) as (err & s1 & Hrun & Hal & Hok); [|by eauto 10].
    intros h Hh. exists NewWorker. split; [by apply Hnew|]. split_and!; [done..| |];
      intros id; cbn; by destruct (decide _). }
  rewrite (M_bind_run _ _ _ _ _ Hrun).
  destruct (quit_all (Hosts e0) s1 Hnd Hal) as (s2 & Hquit & _ & Hall).
  rewrite (M_bind_run _ _ _ _ _ Hquit). eexists _, s2. split; [done|]. split.
  - intros h Hh. destruct (Hal h Hh) as (w & Hw & _). eexists. by split; [apply Hall|].
  - intros Herr. destruct Hok as (e & Ha & Hstand); [by destruct err|]. exists e. split; [done|].
    intros h Hh. destruct (Hstand h Hh) as (w & Hw & (_ & Ht & Hr & Hc)). eexists.
    split; [by apply Hall|]. unfold finished. cbn [w_quit w_trace w_replicas w_clients]. by rewrite Ht.
Qed.

(** When the generation of keys does not panic and replicas come to an end when
    they are stopped, an experiment ends, whatever other operation of the world
    fails: [Run] returns and every worker has been told to quit and did.
    Without an error every worker created, connected, started and stopped
    exactly the replicas that were assigned to its host, and started and
    stopped its clients in between; all replicas are stopped at the end. *)
Theorem experiment_ends (order : ID → list string) (e0 : Experiment) (s : system) :
  NoDup (Hosts e0) → (∀ h, h ∈ Hosts e0 → s !! h = Some NewWorker) →
  ∃ err s', Experiment_Run order e0 s = Ok (err, s') ∧
    (∀ h, h ∈ Hosts e0 → ∃ w, s' !! h = Some w ∧ w_quit w = true) ∧
    (err = [] → ∃ e, assignReplicasAndClients order e0 = inl e ∧
       ∀ h, h ∈ Hosts e0 → ∃ w, s' !! h = Some w ∧ w_trace w = did_stop e h ++ [Quit] ∧
         (∀ id, w_replicas w !! id = if decide (id ∈ ids e h) then Some replica_stopped else None) ∧
         (∀ id, w_clients w !! id = if decide (id ∈ cids e h) then Some client_stopped else None)).
Proof.
  intros Hnd Hnew. destruct (Run_quits order e0 s Hnd Hnew) as (err & s' & Hrun & Hquit & Hok).
  exists err, s'. split_and!; [done..|]. intros Herr. destruct (Hok Herr) as (e & Ha & Hfin). exists e. split; [done|].
  intros h Hh. destruct (Hfin h Hh) as (w & Hw & _ & Hrest). by exists w.
Qed.
End experiment.

(** ** An experiment on three hosts *)

Module ExperimentExample.
Import OrchestrationExample WiringExample.

Definition fine : world (Key := unit) := mkWorld true (λ _, Ok (Some tt)) (λ _, []) (λ _, true)
  (λ id, Some (id, id)) (λ _, true) (λ _, true) (λ _, true) (λ _, true) (λ _, []).
Lemma fine_ends : keys_generated fine ∧ replicas_stop fine.
Proof. split; [intros id; by exists (Some tt)|done]. Qed.
Definition three : gmap host Worker := {[ ha := NewWorker; hb := NewWorker; hc := NewWorker ]}.

Definition run_in (wd : world (Key := unit)) : res (list exp_error * gmap host Worker) :=
  Experiment_Run wd worker1 "chainedhotstuff" "ecdsa" "round-robin" (λ _, "hs"%string) order3 exp3 three.
Definition run3 : res (list exp_error * gmap host Worker) := run_in fine.

Lemma experiment_ends_witness :
  ∃ err s', run3 = Ok (err, s') ∧ ∀ h, h ∈ [ha; hb; hc] → ∃ w, s' !! h = Some w ∧ w_quit w = true.
Proof.
  destruct (experiment_ends fine worker1 "chainedhotstuff" "ecdsa" "round-robin" (λ _, "hs"%string)
    (proj1 fine_ends) (proj2 fine_ends) order3 exp3 three) as (err & s' & Hrun & Hquit & _).
  - apply (bool_decide_eq_true_1 (NoDup [ha; hb; hc])). reflexivity.
  - intros h Hh. cbn [Hosts exp3] in Hh. rewrite !elem_of_cons, elem_of_nil in Hh.
    destruct Hh as [->|[->|[->|[]]]]; reflexivity.
  - exists err, s'. exact (conj Hrun Hquit).
Defined.

(** The run succeeds, and the host with two configured replicas ran them. *)
Lemma run3_succeeds :
  res_map (λ '(err, s), (err, w_trace <$> s !! hb)) run3 =
    Ok ([], Some [Created 4; Created 5; Connected 4; Connected 5; Started 5; Started 4; Stopped 4;
                  Stopped 5; Quit]%N).
Proof. vm_compute. reflexivity. Qed.

(** Both conditions are needed: a replica that does not come to an end blocks the
    worker and with it the controller, and an unknown name of a crypto
    implementation makes the controller panic. *)
Definition never_ends : world (Key := unit) := mkWorld true (λ _, Ok (Some tt)) (λ _, []) (λ _, true)
  (λ id, Some (id, id)) (λ _, true) (λ _, true) (λ _, true) (λ id, negb (id =? 2)%N) (λ _, []).
Definition unknown_crypto : world (Key := unit) := mkWorld true (λ _, Panic "nil pointer dereference") (λ _, []) (λ _, true)
  (λ id, Some (id, id)) (λ _, true) (λ _, true) (λ _, true) (λ _, true) (λ _, []).

Lemma experiment_blocks_or_panics :
  run_in never_ends = Blocked ∧ run_in unknown_crypto = Panic "nil pointer dereference".
Proof. split; vm_compute; reflexivity. Qed.

(** Replica 2 cannot be reached: the worker reports an error, and replica 1,
    whose start was deferred before, is started all the same. *)
Definition unreachable : world (Key := unit) := mkWorld true (λ _, Ok (Some tt)) (λ _, []) (λ _, true)
  (λ id, Some (id, id)) (λ _, true) (λ id, negb (id =? 2)%N) (λ _, true) (λ _, true) (λ _, []).
Definition two_created : Worker :=
  mkWorker {[ 1%N := mkReplica false false false; 2%N := mkReplica false false false ]} ∅ false [].

Lemma failed_start_leaves_running :
  res_map (λ '(err, w), (err, w_replicas w !! 1%N)) (startReplicas unreachable [] [1; 2]%N two_created) =
    Ok (Some (ErrConnect 2), Some (mkReplica true false false)).
Proof. vm_compute. reflexivity. Qed.
End ExperimentExample.
