(* ===== verification/Deploy.v ===== *)
(** * internal/orchestration/deploy.go: workers on remote hosts

    The three tasks of [Deploy] and the two of [FetchData] on a group of hosts,
    the command that starts a worker, and closing its session.  The iago library
    runs a task on every host and hands the errors to the task's handler, which
    panics; whether an operation on a host succeeds is an argument, and so are how
    a duration is printed and how iago expands the variables of a command. *)

From S2P Require Import Prelude Pem.
From Stdlib Require Import Strings.Byte.

(** ** Paths *)

(** The elements between the slashes. *)
Fixpoint path_elements (s : bytes) : list bytes :=
  match s with
  | [] => [[]]
  | c :: s =>
    if bool_decide (c = x2f) then [] :: path_elements s
    else match path_elements s with e :: es => (c :: e) :: es | [] => [[c]] end
  end.
Fixpoint join_slash (es : list bytes) : bytes :=
  match es with
  | [] => []
  | [e] => e
  | e :: es => e ++ x2f :: join_slash es
  end.

(** path.Clean: one element at a time, the last one first on [stack]. *)
Definition clean_step (rooted : bool) (stack : list bytes) (e : bytes) : list bytes :=
  if bool_decide (e = []) || bool_decide (e = str ".") then stack
  else if bool_decide (e = str "..") then
    match stack with
    | top :: rest => if bool_decide (top = str "..") then e :: stack else rest
    | [] => if rooted then [] else [e]
    end
  else e :: stack.
Definition path_Clean (p : bytes) : bytes :=
  let rooted := bool_decide (head p = Some x2f) in
  match join_slash (reverse (foldl (clean_step rooted) [] (path_elements p))) with
  | [] => if rooted then [x2f] else str "."
  | s => if rooted then x2f :: s else s
  end.
Definition path_Join (a b : bytes) : bytes :=
  match filter (λ e, e ≠ []) [a; b] with
  | [] => []
  | es => path_Clean (join_slash es)
  end.

Example Join_tmp : path_Join (str "/tmp/") (str "hotstuff.x/../y") = str "/tmp/y".
Proof. vm_compute. reflexivity. Qed.

(** ** The command *)

Record DeployConfig := mkDeploy {
  dc_ExePath : bytes;
  dc_LogLevel : bytes;
  dc_CPUProfiling : bool;
  dc_MemProfiling : bool;
  dc_Tracing : bool;
  dc_Fgprof : bool;
  dc_Metrics : list bytes;
  dc_MeasurementInterval : Z }.

(** ** Hosts *)

(** A host: its name, the variable TMPDIR of its environment, the variables iago
    keeps for it, its directories and files, and the command it runs. *)
Record host := mkHost {
  h_name : bytes;
  h_TMPDIR : bytes;
  h_testDir : bytes;
  h_dataDir : bytes;
  h_exe : bytes;
  h_paths : gset bytes;
  h_running : option bytes }.

(** Which operations succeed on a host. *)
Record outcome := mkOutcome {
  oc_mkdir : bool; oc_upload : bool; oc_command : bool; oc_stdin : bool; oc_stdout : bool; oc_stderr : bool;
  oc_start : bool; oc_download : bool; oc_remove : bool }.

(** The directories a path lies in, the outermost first. *)
Fixpoint parents_from (s : bytes) : list bytes :=
  match s with
  | [] => []
  | c :: s => (if bool_decide (c = x2f) then [[]] else []) ++ (cons c <$> parents_from s)
  end.
Definition parents (p : bytes) : list bytes := filter (λ d, d ≠ []) (parents_from p).
(** fs.MkdirAll: the directory and those it lies in. *)
Definition MkdirAll (p : bytes) (paths : gset bytes) : gset bytes := {[p]} ∪ (list_to_set (parents p) ∪ paths).

Example parents_tmp : parents (str "/tmp/x/data") = [str "/tmp"; str "/tmp/x"].
Proof. vm_compute. reflexivity. Qed.

Section deploy.
Context (Duration_String : Z → bytes) (Expand : host → bytes → bytes).

(** An option with a path in the data directory, when it is asked for. *)
Definition profile_flag (b : bool) (flag name dir : bytes) : bytes :=
  if b then flag ++ str " " ++ path_Join dir name ++ str " " else [].

Definition worker_command (cfg : DeployConfig) (exe dir : bytes) : bytes :=
  exe ++ str " " ++
  str "--data-path " ++ path_Join dir (str "measurements.json") ++ str " " ++
  (if (0 <? dc_MeasurementInterval cfg)%Z
   then str "--measurement-interval " ++ Duration_String (dc_MeasurementInterval cfg) ++ str " " else []) ++
  str "--metrics=" ++ [x22] ++ concat ((λ metric, metric ++ str ",") <$> dc_Metrics cfg) ++ [x22] ++ str " " ++
  profile_flag (dc_CPUProfiling cfg) (str "--cpu-profile") (str "cpuprofile") dir ++
  profile_flag (dc_MemProfiling cfg) (str "--mem-profile") (str "memprofile") dir ++
  profile_flag (dc_Tracing cfg) (str "--trace") (str "trace") dir ++
  profile_flag (dc_Fgprof cfg) (str "--fgprof-profile") (str "fgprofprofile") dir ++
  str "--log-level " ++ dc_LogLevel cfg ++ str " worker".

(** ** Tasks *)

Definition letters : bytes := str "abcdefghijklmnopqrstuvwxyzABCDEFGHIJKLMNOPQRSTUVWXYZ0123456789".
(** [draws] are the results of rand.Intn. *)
Definition randString (draws : list nat) : bytes := (λ i, default x00 (letters !! i)) <$> draws.

Definition tempDirPath (h : host) (dirName : bytes) : bytes :=
  path_Join (if bool_decide (h_TMPDIR h = []) then str "/tmp" else h_TMPDIR h) dirName.

(** The actions; the flag says whether the action succeeded. *)
Definition create_dir (tmpDir : bytes) (oc : outcome) (h : host) : host * bool :=
  let testDir := tempDirPath h tmpDir in
  let dataDir := testDir ++ str "/data" in
  (mkHost (h_name h) (h_TMPDIR h) testDir dataDir (h_exe h)
     (if oc_mkdir oc then MkdirAll dataDir (h_paths h) else h_paths h) (h_running h), oc_mkdir oc).

Definition upload (oc : outcome) (h : host) : host * bool :=
  let dest := h_testDir h ++ str "/hotstuff" in
  (mkHost (h_name h) (h_TMPDIR h) (h_testDir h) (h_dataDir h) dest
     (if oc_upload oc then {[dest]} ∪ h_paths h else h_paths h) (h_running h), oc_upload oc).

Definition Apply (cfg : DeployConfig) (oc : outcome) (h : host) : host * bool :=
  if negb (oc_command oc) then (h, false)
  else if negb (oc_stdin oc) then (h, false)
  else if negb (oc_stdout oc) then (h, false)
  else if negb (oc_stderr oc) then (h, false)
  else if negb (oc_start oc) then (h, false)
  else (mkHost (h_name h) (h_TMPDIR h) (h_testDir h) (h_dataDir h) (h_exe h) (h_paths h)
          (Some (Expand h (worker_command cfg (h_exe h) (h_dataDir h)))), true).

(** A task on a group; [None] is the panic of the error handler.  The hosts are
    as they are when all have finished. *)
Abbreviation group := (list (host * outcome)).
Definition run_task (action : outcome → host → host * bool) (g : group) : group * bool :=
  ((λ ho, ((action ho.2 ho.1).1, ho.2)) <$> g, forallb (λ ho, (action ho.2 ho.1).2) g).

(** The workers are the keys of the map of sessions, which [Apply] files under
    the host's name.  A panic is recovered as the error; the map is then the
    zero value of the result. *)
Definition Deploy (cfg : DeployConfig) (draws : list nat) (g : group) : group * option (gset bytes) :=
  let tmpDir := str "hotstuff." ++ randString draws in
  let '(g, ok) := run_task (create_dir tmpDir) g in
  if negb ok then (g, None)
  else
    let '(g, ok) := run_task upload g in
    if negb ok then (g, None)
    else
      let '(g, ok) := run_task (Apply cfg) g in
      if negb ok then (g, None) else (g, Some (list_to_set ((λ ho, h_name ho.1) <$> g))).

Definition below (dir p : bytes) : bool := bool_decide (p = dir) || bool_decide (is_Some (after_prefix (dir ++ [x2f]) p)).
Definition download (oc : outcome) (h : host) : host * bool := (h, oc_download oc).
Definition remove_dir (oc : outcome) (h : host) : host * bool :=
  (if oc_remove oc
   then mkHost (h_name h) (h_TMPDIR h) (h_testDir h) (h_dataDir h) (h_exe h)
          (filter (λ p, below (h_testDir h) p = false) (h_paths h)) (h_running h)
   else h, oc_remove oc).

(** The flag is false when an error is returned. *)
Definition FetchData (dest : bytes) (g : group) : group * bool :=
  let '(g, ok) := if bool_decide (dest = []) then (g, true) else run_task download g in
  if negb ok then (g, false) else run_task remove_dir g.

(** ** Sessions *)

(** io.EOF is not an error of a stream. *)
Inductive close_error := EOF | CloseErr (e : nat).
Definition stream_error (e : option close_error) : list close_error :=
  match e with Some (CloseErr e) => [CloseErr e] | _ => [] end.
Definition WorkerSession_Close (wait stdin stdout stderr : option close_error) : list close_error :=
  match wait with Some e => [e] | None => [] end ++
  stream_error stdin ++ stream_error stdout ++ stream_error stderr.
End deploy.

(** ** Properties *)

Section deploy_facts.
Context (Duration_String : Z → bytes) (Expand : host → bytes → bytes).
Abbreviation group := (list (host * outcome)).

(** Every operation of [Deploy] succeeds on the host. *)
Definition all_ok (oc : outcome) : bool :=
  oc_mkdir oc && oc_upload oc && oc_command oc && oc_stdin oc && oc_stdout oc && oc_stderr oc && oc_start oc.

(** A host on which everything succeeded: the worker runs from a directory of
    its own, which holds the program and the data directory. *)
Definition deployed (cfg : DeployConfig) (tmpDir : bytes) (h h' : host) : Prop :=
  let testDir := tempDirPath h tmpDir in
  h_name h' = h_name h ∧ h_testDir h' = testDir ∧ h_dataDir h' = testDir ++ str "/data" ∧
  h_exe h' = testDir ++ str "/hotstuff" ∧
  h_paths h' = {[testDir ++ str "/hotstuff"]} ∪ MkdirAll (testDir ++ str "/data") (h_paths h) ∧
  ∃ h0, h_running h' =
    Some (Expand h0 (worker_command Duration_String cfg (testDir ++ str "/hotstuff") (testDir ++ str "/data"))) ∧
    h_name h0 = h_name h ∧ h_TMPDIR h0 = h_TMPDIR h.

(** The three actions one after the other. *)
Lemma actions_deployed cfg tmpDir oc h :
  all_ok oc = true → deployed cfg tmpDir h
    (Apply Duration_String Expand cfg oc (upload oc (create_dir tmpDir oc h).1).1).1 .
Proof.
  unfold all_ok. intros H. repeat (apply andb_true_iff in H as [H ?]).
  unfold Apply, upload, create_dir, deployed. cbn [fst].
  repeat match goal with E : _ oc = true |- _ => rewrite E; clear E end. cbn. eauto 10.
Qed.

Lemma actions_ok cfg tmpDir oc h :
  (create_dir tmpDir oc h).2 && (upload oc (create_dir tmpDir oc h).1).2 &&
  (Apply Duration_String Expand cfg oc (upload oc (create_dir tmpDir oc h).1).1).2 = all_ok oc.
Proof.
  unfold all_ok, Apply, upload, create_dir. cbn [fst snd].
  destruct (oc_mkdir oc), (oc_upload oc), (oc_command oc), (oc_stdin oc), (oc_stdout oc), (oc_stderr oc), (oc_start oc); done.
Qed.

Lemma forallb_fmap {X Y} (f : X → Y) (p : Y → bool) l : forallb p (f <$> l) = forallb (λ x, p (f x)) l.
Proof. induction l as [|x l IH]; [done|]. cbn. by rewrite IH. Qed.

Lemma forallb_andb {X} (p q : X → bool) l : forallb (λ x, p x && q x) l = forallb p l && forallb q l.
Proof. induction l as [|x l IH]; [done|]. cbn. rewrite IH. destruct (p x), (q x), (forallb p l); done. Qed.

(** Deployment returns workers exactly when every operation succeeded on
    every host; then there is one worker per host, which runs the program that
    was uploaded to the host's own directory, with its data in that directory. *)
Theorem Deploy_correct (cfg : DeployConfig) (draws : list nat) (g : group) :
  let tmpDir := str "hotstuff." ++ randString draws in
  let '(g', workers) := Deploy Duration_String Expand cfg draws g in
  if forallb (λ ho, all_ok ho.2) g
  then workers = Some (list_to_set ((λ ho, h_name ho.1) <$> g)) ∧
       Forall2 (λ ho ho', deployed cfg tmpDir ho.1 ho'.1) g g'
  else workers = None.
Proof.
  intros tmpDir. unfold Deploy. fold tmpDir. unfold run_task.
  set (a1 := λ ho : host * outcome, ((create_dir tmpDir ho.2 ho.1).1, ho.2)).
  set (a2 := λ ho : host * outcome, ((upload ho.2 ho.1).1, ho.2)).
  assert (forallb (λ ho, all_ok ho.2) g =
    forallb (λ ho, (create_dir tmpDir ho.2 ho.1).2) g && forallb (λ ho, (upload ho.2 ho.1).2) (a1 <$> g) &&
    forallb (λ ho, (Apply Duration_String Expand cfg ho.2 ho.1).2) (a2 <$> (a1 <$> g))) as ->.
  { rewrite !forallb_fmap, <-!forallb_andb. unfold a1, a2. cbn [fst snd].
    induction g as [|[h oc] g IH]; [done|]. cbn [forallb fst snd]. rewrite <-IH. f_equal. symmetry. apply actions_ok. }
  destruct (forallb (λ ho, (create_dir tmpDir ho.2 ho.1).2) g) eqn:E1; cbn [negb andb]; [|done].
  destruct (forallb (λ ho, (upload ho.2 ho.1).2) (a1 <$> g)) eqn:E2; cbn [negb andb]; [|done].
  destruct (forallb (λ ho, (Apply Duration_String Expand cfg ho.2 ho.1).2) (a2 <$> (a1 <$> g))) eqn:E3; cbn [negb]; [|done].
  assert (Forall (λ ho, all_ok ho.2 = true) g) as Hok.
  { rewrite !forallb_fmap in *. unfold a1, a2 in *. cbn [fst snd] in *. rewrite forallb_forall in E1, E2, E3.
    apply Forall_forall. intros [h oc] Hin%list_elem_of_In. cbn [fst snd].
    specialize (E1 _ Hin). specialize (E2 _ Hin). specialize (E3 _ Hin). cbn [fst snd] in *.
    rewrite <-(actions_ok cfg tmpDir oc h). by rewrite E1, E2, E3. }
  clear E1 E2 E3. assert (Forall2 (λ ho ho', deployed cfg tmpDir ho.1 ho'.1) g
    ((λ ho, ((Apply Duration_String Expand cfg ho.2 ho.1).1, ho.2)) <$> (a2 <$> (a1 <$> g)))) as Hdep.
  { induction Hok as [|[h oc] g Hoc _ IH]; [constructor|]. constructor; [|exact IH]. cbn [fst snd] in *.
    by apply actions_deployed. }
  split; [|exact Hdep]. f_equal. f_equal. revert Hdep. generalize ((λ ho, ((Apply Duration_String Expand cfg ho.2 ho.1).1, ho.2)) <$> (a2 <$> (a1 <$> g))) as g'.
  clear. intros g'. induction 1 as [|ho ho' g0 g' Hd _ IH]; [done|]. cbn [fmap list_fmap]. f_equal; [by apply Hd|exact IH].
Qed.

(** Nothing below a directory is left when it is removed. *)
Lemma remove_dir_paths oc h p :
  oc_remove oc = true →
  p ∈ h_paths (remove_dir oc h).1 ↔ p ∈ h_paths h ∧ below (h_testDir h) p = false.
Proof. intros Hr. unfold remove_dir. rewrite Hr. cbn. rewrite elem_of_filter. tauto. Qed.

Lemma below_child dir name : below dir (dir ++ x2f :: name) = true.
Proof.
  unfold below. apply orb_true_iff. right. change (x2f :: name) with ([x2f] ++ name). rewrite app_assoc, after_prefix_app.
  by apply bool_decide_eq_true_2.
Qed.

Lemma parents_from_slash d name : (x2f ∉ name) → parents_from (d ++ x2f :: name) = parents_from d ++ [d].
Proof.
  intros Hn. induction d as [|c d IH]; cbn [app parents_from].
  - rewrite bool_decide_eq_true_2 by done. cbn [app]. f_equal. induction name as [|c name IH]; [done|].
    apply not_elem_of_cons in Hn as [Hc Hn]. cbn [parents_from]. rewrite bool_decide_eq_false_2 by done.
    cbn [app]. specialize (IH Hn). destruct (parents_from name); [done|discriminate].
  - rewrite IH, fmap_app, app_assoc. done.
Qed.

(** The directories a child lies in are those of its directory, and it. *)
Lemma parents_child d name p :
  (x2f ∉ name) → p ∈ parents (d ++ x2f :: name) ↔ p ∈ parents d ∨ p = d ∧ d ≠ [].
Proof.
  intros Hn. unfold parents. rewrite parents_from_slash by done. rewrite !list_elem_of_filter, elem_of_app, list_elem_of_singleton.
  naive_solver.
Qed.

(** What is deployed is removed.  When a deployment and the fetching of its
    data succeed, each host has the paths it had before and those the directory
    of the experiment lies in, less that directory and all below it. *)
Theorem deploy_fetch_clean (cfg : DeployConfig) (draws : list nat) (dest : bytes) (g g1 g2 : group) (workers : gset bytes) :
  Deploy Duration_String Expand cfg draws g = (g1, Some workers) → FetchData dest g1 = (g2, true) →
  Forall2 (λ ho ho', ∀ p, p ∈ h_paths ho'.1 ↔
    let testDir := tempDirPath ho.1 (str "hotstuff." ++ randString draws) in
    (p ∈ h_paths ho.1 ∨ p ∈ parents testDir) ∧ below testDir p = false) g g2.
Proof.
  intros Hd Hf. pose proof (Deploy_correct cfg draws g) as Hc. cbv zeta in Hc. rewrite Hd in Hc.
  destruct (forallb _ g); [|done]. destruct Hc as [_ Hdep]. unfold FetchData in Hf.
  assert (run_task remove_dir g1 = (g2, true)) as Hr.
  { destruct (bool_decide (dest = [])); [exact Hf|]. unfold run_task at 1 in Hf. cbn [negb] in Hf.
    assert (((λ ho : host * outcome, ((download ho.2 ho.1).1, ho.2)) <$> g1) = g1) as Hid.
    { clear. induction g1 as [|[h oc] g1 IH]; [done|]. exact (f_equal (cons (h, oc)) IH). }
    rewrite Hid in Hf. destruct (forallb _ g1); [exact Hf|done]. }
  unfold run_task in Hr. injection Hr as <- Hok. rewrite forallb_forall in Hok.
  assert (Forall (λ ho : host * outcome, oc_remove ho.2 = true) g1) as Hrm.
  { apply Forall_forall. intros ho Hin%list_elem_of_In. by apply (Hok ho). }
  clear Hd Hf Hok. induction Hdep as [|ho ho' g0 g1' Hd _ IH]; [constructor|]. apply Forall_cons in Hrm as [Hr Hrm].
  constructor; [|by apply IH]. intros p. etransitivity; [exact (remove_dir_paths ho'.2 ho'.1 p Hr)|].
  destruct Hd as (_ & -> & _ & _ & -> & _). unfold MkdirAll. change (str "/data") with (x2f :: str "data").
  change (str "/hotstuff") with (x2f :: str "hotstuff").
  rewrite !elem_of_union, !elem_of_singleton, elem_of_list_to_set, parents_child
    by (by apply (bool_decide_eq_false_1 (x2f ∈ _))).
  split; [|tauto]. intros [[->|[->|[[Hp|[-> _]]|Hp]]] Hb]; [| |tauto| |tauto].
  - by rewrite below_child in Hb.
  - by rewrite below_child in Hb.
  - unfold below in Hb. by rewrite bool_decide_eq_true_2 in Hb.
Qed.
End deploy_facts.

(** ** Two hosts *)

Module DeployExample.
Definition cfg : DeployConfig := mkDeploy (str "hotstuff") (str "info") true false false false [str "throughput"] 0.
Definition fresh_host (name : string) : host := mkHost (str name) [] [] [] [] ∅ None.
Definition fine : outcome := mkOutcome true true true true true true true true true.
Definition no_start : outcome := mkOutcome true true true true true true false true true.
Definition two_hosts : list (host * outcome) := [(fresh_host "a", fine); (fresh_host "b", fine)].
Definition one_fails : list (host * outcome) := [(fresh_host "a", fine); (fresh_host "b", no_start)].
Definition D (_ : Z) : bytes := [].
Definition E (_ : host) (s : bytes) : bytes := s.

Definition deployed_hosts : list (host * outcome) := (Deploy D E cfg [0; 1] two_hosts).1 .
Definition workers : gset bytes := default ∅ (Deploy D E cfg [0; 1] two_hosts).2 .
Definition cleaned_hosts : list (host * outcome) := (FetchData [] deployed_hosts).1 .

Lemma deploy_fetch_clean_witness :
  Forall2 (λ ho ho', ∀ p, p ∈ h_paths ho'.1 ↔
    let testDir := tempDirPath ho.1 (str "hotstuff." ++ randString [0; 1]) in
    (p ∈ h_paths ho.1 ∨ p ∈ parents testDir) ∧ below testDir p = false) two_hosts cleaned_hosts.
Proof.
  apply (deploy_fetch_clean D E cfg [0; 1] [] two_hosts deployed_hosts cleaned_hosts workers).
  - rewrite (surjective_pairing (Deploy D E cfg [0; 1] two_hosts)).
    assert (bool_decide (is_Some (Deploy D E cfg [0; 1] two_hosts).2) = true) as H by (vm_compute; reflexivity).
    apply bool_decide_eq_true_1 in H as [ws Hws]. unfold workers. rewrite Hws. reflexivity.
  - rewrite (surjective_pairing (FetchData [] deployed_hosts)). f_equal.
Defined.

(** A deployment that fails on one host returns no workers at all, so that the
    worker that was started on the other host is neither used nor stopped. *)
Theorem Deploy_leaks_workers :
  let '(g, workers) := Deploy D E cfg [0; 1] one_fails in
  workers = None ∧ (h_running ∘ fst <$> g) !! 0%nat =
    Some (Some (worker_command D cfg (str "/tmp/hotstuff.ab/hotstuff") (str "/tmp/hotstuff.ab/data"))).
Proof. vm_compute. split; reflexivity. Qed.
End DeployExample.
