(* ===== verification/Controller.v ===== *)
(** * internal/cli/run.go: the controller

    [runController], which composes the parts of an experiment: the flag for
    Byzantine strategies ([CommandLine]), the deployment of workers on the remote
    hosts and the removal of what was deployed ([Deploy]), the experiment that is
    run with the workers ([Experiment]), and the sessions, which are closed when
    their workers have ended.  The settings of the command line are a record;
    what the file system, ssh and the configuration library answer is an
    argument.  The measurement log of the local worker is the subject of
    [CommandLine]. *)

From S2P Require Import Prelude Encoding Bitfield Types CryptoBase Bls12 Backend Pem Orchestration ModuleSystem Experiment Metrics Plotting MetricsLog Plots CsvPlot CommandLine Deploy.
From Stdlib Require Import Strings.Byte.

Section controller.
Context {Key : Type} (wd : world (Key := Key)).
Context (Duration_String : Z → bytes) (Expand : Deploy.host → bytes → bytes).
Abbreviation group := (list (Deploy.host * outcome)).
Abbreviation system := (gmap bytes Worker).

(** What is read through viper.  The fields of [DeployConfig] other than the
    path of the program are flags of their own. *)
Record settings := mkSettings {
  se_output : bytes;
  se_replicas : Z;
  se_clients : Z;
  se_consensus : string;
  se_crypto : string;
  se_rotation : string;
  se_byzantine : list bytes;
  se_worker : bool;
  se_hosts : list bytes;
  se_exe : bytes;
  se_deploy : DeployConfig }.

(** What the calls answer that are not modelled; [None] and [false] are errors. *)
Record answers := mkAnswers {
  an_Abs : option bytes;
  an_MkdirAll : bool;
  an_NewSSHGroup : list bytes → option group;
  an_Executable : option bytes;
  an_UnmarshalKey : option (list (bytes * HostConfig));
  an_close : bytes → option close_error * option close_error * option close_error * option close_error;
  an_stderr : bytes → bool;
  an_groupClose : bool }.

(** The message with which [checkf] ends the process. *)
Inductive fatal :=
| FatalOutput
| FatalByzantine (e : flag_error)
| FatalConnect
| FatalExecutable
| FatalDeploy
| FatalHostsConfig
| FatalExperiment (err : list exp_error)
| FatalSession (err : list close_error)
| FatalStderr
| FatalFetch
| FatalDisconnect.

Definition localhost : bytes := str "localhost".

(** The directory for the output; none without the flag. *)
Definition output_dir (se : settings) (an : answers) : option bytes :=
  if bool_decide (se_output se = []) then Some []
  else dir ← an_Abs an; if an_MkdirAll an then Some dir else None.

Definition exe_path (se : settings) (an : answers) : option bytes :=
  if bool_decide (se_exe se = []) then an_Executable an else Some (se_exe se).

(** The deployment's configuration, with the path of the program. *)
Definition deploy_config (se : settings) (exe : bytes) : DeployConfig :=
  let d := se_deploy se in
  mkDeploy exe (dc_LogLevel d) (dc_CPUProfiling d) (dc_MemProfiling d) (dc_Tracing d) (dc_Fgprof d) (dc_Metrics d)
    (dc_MeasurementInterval d).

(** Whether there is a worker in the controller's own process. *)
Definition has_local (se : settings) : bool := se_worker se || bool_decide (se_hosts se = []).

(** The workers of the experiment by the host's name: one per session, and the
    local one, which replaces a session of the same name. *)
Definition all_workers (local : bool) (sessions : gset bytes) : system :=
  let m := gset_to_gmap NewWorker sessions in
  if local then <[localhost := NewWorker]> m else m.

(** The later entry for a host counts. *)
Definition host_configs (cfgs : list (bytes * HostConfig)) : gmap bytes HostConfig :=
  foldl (λ m c, <[c.1 := c.2]> m) ∅ cfgs.

Definition new_experiment (se : settings) (byz : gmap bytes Z) (hosts : list bytes) (cfgs : gmap bytes HostConfig)
    : Experiment :=
  mkExp (se_replicas se) (se_clients se) hosts cfgs (kmap String.string_of_list_byte byz) ∅ ∅ ∅.

(** The worker at the other end of a session.  A session whose name the local
    worker took is not used by the experiment. *)
Definition session_worker (local : bool) (s : system) (h : bytes) : option Worker :=
  if local && bool_decide (h = localhost) then Some NewWorker else s !! h.

(** Closing the sessions: [Close] waits for the worker to end. *)
Fixpoint close_sessions (an : answers) (local : bool) (s : system) (sessions : list bytes) : res (option fatal) :=
  match sessions with
  | [] => Ok None
  | h :: sessions =>
    match session_worker local s h with
    | Some w =>
      if negb (w_quit w) then Blocked
      else
        let '(wait, stdin, stdout, stderr) := an_close an h in
        match WorkerSession_Close wait stdin stdout stderr with
        | [] => close_sessions an local s sessions
        | err => Ok (Some (FatalSession err))
        end
    | None => Blocked
    end
  end.

(** The state that is left: the remote hosts and the workers. *)
Abbreviation left := (group * system)%type.

(** After the deployment.  [visit] is the order in which Go visits a map, and
    [order] that of the strategies. *)
Definition run_deployed (wc : workerConfig) (hsName : ID → string) (se : settings) (an : answers)
    (visit : list bytes → list bytes) (order : ID → list string) (outputDir : bytes) (byz : gmap bytes Z)
    (g : group) (sessions : gset bytes) : res (left * option fatal) :=
  let s := all_workers (has_local se) sessions in
  match an_UnmarshalKey an with
  | None => Ok (g, s, Some FatalHostsConfig)
  | Some cfgs =>
    let e := new_experiment se byz (visit (elements (dom s))) (host_configs cfgs) in
    '(err, s) ← Experiment_Run wd wc (se_consensus se) (se_crypto se) (se_rotation se) hsName order e s;
    match err with
    | [] =>
      closed ← close_sessions an (has_local se) s (visit (elements sessions));
      match closed with
      | Some f => Ok (g, s, Some f)
      | None =>
        if negb (forallb (an_stderr an) (elements sessions)) then Ok (g, s, Some FatalStderr)
        else
          let '(g, ok) := FetchData outputDir g in
          if negb ok then Ok (g, s, Some FatalFetch)
          else if negb (an_groupClose an) then Ok (g, s, Some FatalDisconnect)
          else
            (* the deferred call waits for the local worker *)
            if has_local se && negb (match s !! localhost with Some w => w_quit w | None => false end) then Blocked
            else Ok (g, s, None)
      end
    | _ => Ok (g, s, Some (FatalExperiment err))
    end
  end.

Definition runController (wc : workerConfig) (hsName : ID → string) (se : settings) (an : answers) (draws : list nat)
    (visit : list bytes → list bytes) (order : ID → list string) : res (left * option fatal) :=
  match output_dir se an with
  | None => Ok ([], ∅, Some FatalOutput)
  | Some outputDir =>
    match parseByzantine (se_byzantine se) with
    | inr e => Ok ([], ∅, Some (FatalByzantine e))
    | inl byz =>
      match an_NewSSHGroup an (se_hosts se) with
      | None => Ok ([], ∅, Some FatalConnect)
      | Some g =>
        match exe_path se an with
        | None => Ok (g, ∅, Some FatalExecutable)
        | Some exe =>
          match Deploy.Deploy Duration_String Expand (deploy_config se exe) draws g with
          | (g, None) => Ok (g, ∅, Some FatalDeploy)
          | (g, Some sessions) => run_deployed wc hsName se an visit order outputDir byz g sessions
          end
        end
      end
    end
  end.

(** ** Properties *)





End controller.

(** ** Two remote hosts and a local worker *)

Module ControllerExample.
Import WiringExample.

(** [names] are the remote hosts; there is a local worker too. *)
Definition example_settings (names : list bytes) : settings :=
  mkSettings [] 4 1 "chainedhotstuff" "ecdsa" "round-robin" [str "silence:1"] true names [] DeployExample.cfg.
Definition dial (names : list bytes) : option (list (Deploy.host * outcome)) :=
  Some ((λ n, (Deploy.mkHost n [] [] [] [] ∅ None, DeployExample.fine)) <$> names).
Definition example_answers : answers :=
  mkAnswers None true dial (Some (str "/usr/bin/hotstuff")) (Some [(localhost, Orchestration.mkHost 1 1)])
    (λ _, (None, Some EOF, None, None)) (λ _, true) true.
Definition run_on (names : list bytes) : res (list (Deploy.host * outcome) * gmap bytes Worker * option fatal) :=
  runController ExperimentExample.fine DeployExample.D DeployExample.E worker1 (λ _, "hs"%string) (example_settings names)
    example_answers [0; 1] id (λ _, ["silence"%string]).


(** There is no error, and the local worker ran the replica that is configured
    for it and the client. *)
Lemma run_succeeds :
  res_map (λ '(_, s, f), (f, w_trace <$> s !! localhost)) (run_on [str "a"; str "b"]) =
    Ok (None, Some [Created 1; Connected 1; Started 1; ClientStarted 1; ClientStopped 1; Stopped 1; Quit]%N).
Proof. vm_compute. reflexivity. Qed.

(** A remote host that is called localhost loses its place to the local worker:
    its worker is never told to quit, and closing its session waits for ever. *)
Theorem localhost_session_blocks : run_on [localhost] = Blocked.
Proof. vm_compute. reflexivity. Qed.
End ControllerExample.
